(** * ci-failure-analyzer: log classification and pattern lifecycle

    A shallow embedding of [src/lib/error-detector.js], [src/lib/utils.js]
    and [src/lib/pattern-tracker.js].

    JavaScript strings are sequences of UTF-16 code units; they are modelled
    as [list N].  Numbers that the code only uses as integers (indices,
    counts, epoch milliseconds) are modelled as [Z]; the one place where the
    code forces a 32-bit integer ([>> 1]) has its wrap-around written out. *)

From Stdlib Require Import ZArith NArith List Lia Bool String Ascii.
Import ListNotations.

Set Implicit Arguments.
Open Scope Z_scope.

(* ===================================================================== *)
(** ** JavaScript strings, arrays and completions                         *)
(* ===================================================================== *)

Module JS.

Definition jsstring := list N.

(** ASCII literal of the source, as code units. *)
Definition u (s : string) : jsstring :=
  List.map N_of_ascii (list_ascii_of_string s).

Definition streq (a b : jsstring) : bool :=
  if list_eq_dec N.eq_dec a b then true else false.

(** Outcome of running a piece of code: a value, a thrown exception, or
    the loop bound of the model exhausted. *)
Inductive completion (A : Type) : Type :=
| Normal (a : A)
| Thrown (e : jsstring)
| OutOfFuel.
Arguments Normal {A} a.
Arguments Thrown {A} e.
Arguments OutOfFuel {A}.

(** [ToInt32], applied by the bit-shift operators. *)
Definition to_int32 (z : Z) : Z :=
  let m := z mod 4294967296 in
  if m <? 2147483648 then m else m - 4294967296.

(** [a >> 1]. *)
Definition sar1 (a : Z) : Z := Z.shiftr (to_int32 a) 1.

(** [arr[i]] for an integer index: [undefined] (here [None]) out of range. *)
Definition index {A} (arr : list A) (i : Z) : option A :=
  if i <? 0 then None else nth_error arr (Z.to_nat i).

Definition len {A} (arr : list A) : Z := Z.of_nat (List.length arr).

(** [Array.prototype.slice(start, end)] with integer arguments. *)
Definition slice {A} (arr : list A) (s e : Z) : list A :=
  let n := len arr in
  let k := if s <? 0 then Z.max (n + s) 0 else Z.min s n in
  let fin := if e <? 0 then Z.max (n + e) 0 else Z.min e n in
  firstn (Z.to_nat (fin - k)) (skipn (Z.to_nat k) arr).

(** [Array.prototype.findIndex]: lowest index satisfying [p], or [-1]. *)
Fixpoint findIndex_from {A} (p : A -> bool) (arr : list A) (i : Z) : Z :=
  match arr with
  | [] => -1
  | x :: rest => if p x then i else findIndex_from p rest (i + 1)
  end.

Definition findIndex {A} (p : A -> bool) (arr : list A) : Z :=
  findIndex_from p arr 0.

(** The values a property lookup on a plain object can produce in this
    program. *)
Inductive value : Type :=
| VUndefined
| VString (s : jsstring)
| VFunction (name : jsstring)
| VObject (name : jsstring).

(** [ToBoolean]. *)
Definition truthy (v : value) : bool :=
  match v with
  | VUndefined => false
  | VString [] => false
  | _ => true
  end.

(** [a || b]. *)
Definition or_else (a b : value) : value := if truthy a then a else b.

(** Properties every object literal inherits from [Object.prototype]. *)
Definition object_prototype : list (jsstring * value) :=
  [ (u "constructor", VFunction (u "Object"));
    (u "__defineGetter__", VFunction (u "__defineGetter__"));
    (u "__defineSetter__", VFunction (u "__defineSetter__"));
    (u "hasOwnProperty", VFunction (u "hasOwnProperty"));
    (u "__lookupGetter__", VFunction (u "__lookupGetter__"));
    (u "__lookupSetter__", VFunction (u "__lookupSetter__"));
    (u "isPrototypeOf", VFunction (u "isPrototypeOf"));
    (u "propertyIsEnumerable", VFunction (u "propertyIsEnumerable"));
    (u "toString", VFunction (u "toString"));
    (u "valueOf", VFunction (u "valueOf"));
    (u "__proto__", VObject (u "Object.prototype"));
    (u "toLocaleString", VFunction (u "toLocaleString")) ].

Fixpoint assoc (k : jsstring) (tbl : list (jsstring * value)) : option value :=
  match tbl with
  | [] => None
  | (k', v) :: rest => if streq k k' then Some v else assoc k rest
  end.

(** [obj[key]] on an object literal with the given own properties: own
    properties first, then the prototype chain. *)
Definition get (own : list (jsstring * value)) (key : jsstring) : value :=
  match assoc key own with
  | Some v => v
  | None =>
      match assoc key object_prototype with
      | Some v => v
      | None => VUndefined
      end
  end.

End JS.
Import JS.

(* ===================================================================== *)
(** ** error-detector.js: step lookup                                     *)
(* ===================================================================== *)

Module StepIndex.

(** An element of [stepStarts]: [{ idx, name }]. *)
Record stepStart := { idx : Z; name : jsstring }.

Definition unknown_step : jsstring := u "Unknown step".

(** The [while (lo <= hi)] loop of [findStepForLineIndex]; returns the
    final [hi].  Reading [stepStarts[mid].idx] throws when [mid] is out of
    range. *)
Fixpoint search_loop (fuel : nat) (stepStarts : list stepStart)
    (lineIndex lo hi : Z) : completion Z :=
  if lo <=? hi then
    match fuel with
    | O => OutOfFuel
    | S fuel' =>
        let mid := sar1 (lo + hi) in
        match index stepStarts mid with
        | None => Thrown (u "TypeError")
        | Some s =>
            if idx s <=? lineIndex
            then search_loop fuel' stepStarts lineIndex (mid + 1) hi
            else search_loop fuel' stepStarts lineIndex lo (mid - 1)
        end
    end
  else Normal hi.

(** [findStepForLineIndex(stepStarts, lineIndex)]; [None] stands for a
    falsy [stepStarts]. *)
Definition findStepForLineIndex (stepStarts : option (list stepStart))
    (lineIndex : Z) : completion jsstring :=
  match stepStarts with
  | None => Normal unknown_step
  | Some [] => Normal unknown_step
  | Some ss =>
      match search_loop (S (List.length ss)) ss lineIndex 0 (len ss - 1) with
      | Normal hi =>
          match index ss (Z.max 0 hi) with
          | Some s => Normal (name s)
          | None => Thrown (u "TypeError")
          end
      | Thrown e => Thrown e
      | OutOfFuel => OutOfFuel
      end
  end.

End StepIndex.

(* ===================================================================== *)
(** ** pattern-tracker.js: severity                                       *)
(* ===================================================================== *)

Module Severity.

Definition BASE_SEVERITY : list (jsstring * value) :=
  [ (u "Docker", VString (u "high"));
    (u "npm", VString (u "high"));
    (u "Build", VString (u "high"));
    (u "TypeScript", VString (u "medium"));
    (u "Jest/Vitest", VString (u "medium"));
    (u "Node", VString (u "high"));
    (u "ESLint", VString (u "low"));
    (u "Generic", VString (u "low")) ].

Definition classifySeverity (ruleName : jsstring) (stats7d : Z) : value :=
  let base := or_else (get BASE_SEVERITY ruleName) (VString (u "low")) in
  if stats7d >=? 5 then VString (u "high") else base.

End Severity.

(* ===================================================================== *)
(** ** Regular expressions (the fragment the source uses)                 *)
(* ===================================================================== *)

Module Regex.

(** Flags [i] and [m]; [g] is a property of the caller's loop
    ([replace_all], [exec_all]). *)
Record flags := { ignoreCase : bool; multiline : bool }.

Definition fl_none : flags := {| ignoreCase := false; multiline := false |}.
Definition fl_i : flags := {| ignoreCase := true; multiline := false |}.
Definition fl_m : flags := {| ignoreCase := false; multiline := true |}.

Inductive re : Type :=
| Eps
| Cls (p : N -> bool)
| Seq (a b : re)
| Alt (a b : re)
| Star (a : re)
| Bol
| Eol
| WordB.

(** A position in the subject: the code units before it (nearest first)
    and those after it. *)
Record pos := { before : list N; after : list N }.

Definition in_range (lo hi c : N) : bool := (N.leb lo c && N.leb c hi)%bool.

Definition is_digit (c : N) : bool := in_range 48 57 c.

Definition is_word (c : N) : bool :=
  (in_range 97 122 c || in_range 65 90 c || in_range 48 57 c || N.eqb c 95)%bool.

Definition is_line_terminator (c : N) : bool :=
  (N.eqb c 10 || N.eqb c 13 || N.eqb c 8232 || N.eqb c 8233)%bool.

(** [\s]: WhiteSpace and LineTerminator code points. *)
Definition is_space (c : N) : bool :=
  (in_range 9 13 c || N.eqb c 32 || N.eqb c 160 || N.eqb c 5760
   || in_range 8192 8202 c || N.eqb c 8232 || N.eqb c 8233 || N.eqb c 8239
   || N.eqb c 8287 || N.eqb c 12288 || N.eqb c 65279)%bool.

Definition upper (c : N) : N := if in_range 97 122 c then (c - 32)%N else c.
Definition lower (c : N) : N := if in_range 65 90 c then (c + 32)%N else c.

(** A class matches [c] under [i] when some member has the same canonical
    form.  Every class of the source that is used with [i] is either made
    of ASCII characters or closed under case, and no character outside
    ASCII canonicalizes to an ASCII one, so the case variants of [c] are
    its ASCII upper- and lower-case forms. *)
Definition cls_match (fl : flags) (p : N -> bool) (c : N) : bool :=
  if ignoreCase fl then (p c || p (upper c) || p (lower c))%bool else p c.

Definition prev_is_word (s : pos) : bool :=
  match before s with [] => false | c :: _ => is_word c end.

Definition next_is_word (s : pos) : bool :=
  match after s with [] => false | c :: _ => is_word c end.

Definition at_bol (fl : flags) (s : pos) : bool :=
  match before s with
  | [] => true
  | c :: _ => (multiline fl && is_line_terminator c)%bool
  end.

Definition at_eol (fl : flags) (s : pos) : bool :=
  match after s with
  | [] => true
  | c :: _ => (multiline fl && is_line_terminator c)%bool
  end.

Definition remaining (s : pos) : nat := List.length (after s).

(** Greedy iteration: try the body once more (it has to consume), and fall
    back to the continuation. *)
Fixpoint star (step : pos -> (pos -> option pos) -> option pos)
    (fuel : nat) (s : pos) (k : pos -> option pos) : option pos :=
  match fuel with
  | O => k s
  | S fuel' =>
      match step s (fun s' =>
                      if Nat.ltb (remaining s') (remaining s)
                      then star step fuel' s' k else None) with
      | Some e => Some e
      | None => k s
      end
  end.

(** Backtracking matcher in continuation-passing style: [run fl r s k]
    is the end position of the first way (in priority order) of matching
    [r] at [s] that the continuation [k] accepts. *)
Fixpoint run (fl : flags) (r : re) (s : pos) (k : pos -> option pos)
    : option pos :=
  match r with
  | Eps => k s
  | Cls p =>
      match after s with
      | c :: rest =>
          if cls_match fl p c
          then k {| before := c :: before s; after := rest |}
          else None
      | [] => None
      end
  | Seq a b => run fl a s (fun s' => run fl b s' k)
  | Alt a b =>
      match run fl a s k with
      | Some e => Some e
      | None => run fl b s k
      end
  | Star a => star (run fl a) (remaining s) s k
  | Bol => if at_bol fl s then k s else None
  | Eol => if at_eol fl s then k s else None
  | WordB => if xorb (prev_is_word s) (next_is_word s) then k s else None
  end.

(** Match at exactly this position. *)
Definition match_at (fl : flags) (r : re) (s : pos) : option pos :=
  run fl r s (fun e => Some e).

(** Leftmost match at or after the position [(bef, aft)]. *)
Fixpoint search (fl : flags) (r : re) (bef aft : list N)
    : option (pos * pos) :=
  match match_at fl r {| before := bef; after := aft |} with
  | Some e => Some ({| before := bef; after := aft |}, e)
  | None =>
      match aft with
      | [] => None
      | c :: rest => search fl r (c :: bef) rest
      end
  end.

(** [re.test(s)] for a regex without [g]/[y]. *)
Definition test (fl : flags) (r : re) (s : jsstring) : bool :=
  match search fl r [] s with Some _ => true | None => false end.

(** Text between two positions of the same subject. *)
Definition between (s e : pos) : jsstring :=
  firstn (remaining s - remaining e) (after s).

(** [GetSubstitution] for a regex without capture groups: [$$], [$&],
    [$`] and [$'] are expanded, every other [$] is literal. *)
Fixpoint expand (repl : jsstring) (matched pre post : jsstring) : jsstring :=
  match repl with
  | [] => []
  | 36%N :: 36%N :: rest => 36%N :: expand rest matched pre post
  | 36%N :: 38%N :: rest => matched ++ expand rest matched pre post
  | 36%N :: 96%N :: rest => pre ++ expand rest matched pre post
  | 36%N :: 39%N :: rest => post ++ expand rest matched pre post
  | c :: rest => c :: expand rest matched pre post
  end.

(** [s.replace(re, repl)] for a regex without [g]. *)
Definition replace (fl : flags) (r : re) (repl : jsstring) (s : jsstring)
    : jsstring :=
  match search fl r [] s with
  | None => s
  | Some (st, e) =>
      rev (before st)
      ++ expand repl (between st e) (rev (before st)) (after e)
      ++ after e
  end.

(** [s.replace(re, repl)] for a regex with [g]: every match, left to
    right, an empty match advancing by one code unit.  [p] is the position
    after the previous match; the result is the rewritten text from [p]
    on. *)
Fixpoint replace_from (fuel : nat) (fl : flags) (r : re) (repl : jsstring)
    (p : pos) : jsstring :=
  match fuel with
  | O => after p
  | S fuel' =>
      match search fl r (before p) (after p) with
      | None => after p
      | Some (st, e) =>
          between p st
          ++ expand repl (between st e) (rev (before st)) (after e)
          ++ (if Nat.ltb (remaining e) (remaining st)
              then replace_from fuel' fl r repl e
              else match after e with
                   | [] => []
                   | c :: rest =>
                       c :: replace_from fuel' fl r repl
                              {| before := c :: before e; after := rest |}
                   end)
      end
  end.

Definition replace_all (fl : flags) (r : re) (repl : jsstring) (s : jsstring)
    : jsstring :=
  replace_from (S (List.length s)) fl r repl {| before := []; after := s |}.

(** The loop [while ((m = re.exec(s)) !== null)] over a regex with [g]:
    the matched texts, left to right. *)
Fixpoint exec_from (fuel : nat) (fl : flags) (r : re) (p : pos)
    : list jsstring :=
  match fuel with
  | O => []
  | S fuel' =>
      match search fl r (before p) (after p) with
      | None => []
      | Some (st, e) =>
          between st e
          :: (if Nat.ltb (remaining e) (remaining st)
              then exec_from fuel' fl r e
              else match after e with
                   | [] => []
                   | c :: rest =>
                       exec_from fuel' fl r
                         {| before := c :: before e; after := rest |}
                   end)
      end
  end.

Definition exec_all (fl : flags) (r : re) (s : jsstring) : list jsstring :=
  exec_from (S (List.length s)) fl r {| before := []; after := s |}.

(** *** Surface syntax *)

Definition chr (c : N) : re := Cls (N.eqb c).
Definition dg : re := Cls is_digit.                    (* \d *)
Definition wd : re := Cls is_word.                     (* \w *)
Definition sp : re := Cls is_space.                    (* \s *)
Definition nsp : re := Cls (fun c => negb (is_space c)). (* \S *)
Definition any : re := Cls (fun c => negb (is_line_terminator c)). (* . *)

Definition plus (r : re) : re := Seq r (Star r).
Definition opt (r : re) : re := Alt r Eps.

Fixpoint seqs (rs : list re) : re :=
  match rs with
  | [] => Eps
  | [r] => r
  | r :: rest => Seq r (seqs rest)
  end.

Fixpoint alts (rs : list re) : re :=
  match rs with
  | [] => Eps
  | [r] => r
  | r :: rest => Alt r (alts rest)
  end.

Definition lits (s : jsstring) : re := seqs (List.map chr s).
Definition lit (s : string) : re := lits (u s).

(** [r{n}] and [r{n,m}]. *)
Fixpoint rep (n : nat) (r : re) : re :=
  match n with
  | O => Eps
  | S n' => Seq r (rep n' r)
  end.

Fixpoint upto (n : nat) (r : re) : re :=
  match n with
  | O => Eps
  | S n' => Alt (Seq r (upto n' r)) Eps
  end.

Definition range (n m : nat) (r : re) : re := Seq (rep n r) (upto (m - n) r).

End Regex.

(* ===================================================================== *)
(** ** error-detector.js: first meaningful error                          *)
(* ===================================================================== *)

Module ErrorDetector.
Import Regex.

(** An element of [customRules], as [parseCustomRules] builds it.  The
    pattern is an arbitrary [RegExp] compiled with the flag [i] alone, so
    [re.test] is a pure predicate on the line. *)
Record customRule := {
  cname : jsstring;
  cre : jsstring -> bool;
  chint : jsstring
}.

(** An element of [rules]: [{ name, re }]. *)
Record rule := { rname : jsstring; rtest : jsstring -> bool }.

(** The object returned on a hit: [{ rule, line, excerpt, lineIndex }];
    [line] is [lines[idx]], [None] standing for [undefined]. *)
Record hit := {
  hrule : jsstring;
  hline : option jsstring;
  excerpt : list jsstring;
  lineIndex : Z
}.

Definition rx (name : string) (fl : flags) (r : re) : rule :=
  {| rname := u name; rtest := test fl r |}.

Definition colon : re := chr 58.
Definition dot : re := chr 46.

(** The built-in rules, in declaration order. *)
Definition builtin_rules : list rule :=
  [ (* /^\s*\d+:\d+\s+(error|warning)\s+.+\s+.+$/i *)
    rx "ESLint" fl_i
       (seqs [Bol; Star sp; plus dg; colon; plus dg; plus sp;
              alts [lit "error"; lit "warning"];
              plus sp; plus any; plus sp; plus any; Eol]);
    (* /\bESLint\b.*(found|problems?)/i *)
    rx "ESLint" fl_i
       (seqs [WordB; lit "ESLint"; WordB; Star any;
              alts [lit "found"; Seq (lit "problem") (opt (lit "s"))]]);
    (* /eslint(?:\.js)?:\s+.*(error|failed)/i *)
    rx "ESLint" fl_i
       (seqs [lit "eslint"; opt (lit ".js"); colon; plus sp; Star any;
              alts [lit "error"; lit "failed"]]);
    (* /error TS\d+:/i *)
    rx "TypeScript" fl_i (seqs [lit "error TS"; plus dg; colon]);
    (* /Type error:|TS\d{3,5}\b/i *)
    rx "TypeScript" fl_i
       (Alt (lit "Type error:") (seqs [lit "TS"; range 3 5 dg; WordB]));
    (* /\bnpm ERR!\b/i *)
    rx "npm" fl_i (seqs [WordB; lit "npm ERR!"; WordB]);
    (* /\bERR_PNPM_\w+\b/i *)
    rx "npm" fl_i (seqs [WordB; lit "ERR_PNPM_"; plus wd; WordB]);
    (* /\byarn (run|install)\b.*(error|failed)/i *)
    rx "npm" fl_i
       (seqs [WordB; lit "yarn "; alts [lit "run"; lit "install"]; WordB;
              Star any; alts [lit "error"; lit "failed"]]);
    (* /^(FAIL|U+25CF)\b/ *)
    rx "Jest/Vitest" fl_none
       (seqs [Bol; alts [lit "FAIL"; chr 9679]; WordB]);
    (* /(Test Suites: \d+ failed|AssertionError)/ *)
    rx "Jest/Vitest" fl_none
       (alts [seqs [lit "Test Suites: "; plus dg; lit " failed"];
              lit "AssertionError"]);
    (* /\b(vite|webpack)\b.*(error|failed)/i *)
    rx "Build" fl_i
       (seqs [WordB; alts [lit "vite"; lit "webpack"]; WordB; Star any;
              alts [lit "error"; lit "failed"]]);
    (* /\bBuild failed\b/i *)
    rx "Build" fl_i (seqs [WordB; lit "Build failed"; WordB]);
    (* /(failed to solve|executor failed|ERROR: failed|docker buildx|#\d+ ERROR)/i *)
    rx "Docker" fl_i
       (alts [lit "failed to solve"; lit "executor failed";
              lit "ERROR: failed"; lit "docker buildx";
              seqs [lit "#"; plus dg; lit " ERROR"]]);
    (* /FAILED\s+\S+\.py/i *)
    rx "pytest" fl_i (seqs [lit "FAILED"; plus sp; plus nsp; lit ".py"]);
    (* /ERROR\s+\S+\.py/i *)
    rx "pytest" fl_i (seqs [lit "ERROR"; plus sp; plus nsp; lit ".py"]);
    (* /\.py:\d+: error:/i *)
    rx "mypy" fl_i (seqs [lit ".py:"; plus dg; lit ": error:"]);
    (* /\.py:\d+:\d+:\s+[A-Z]\d+/i *)
    rx "ruff/flake8" fl_i
       (seqs [lit ".py:"; plus dg; colon; plus dg; colon; plus sp;
              Cls (in_range 65 90); plus dg]);
    (* /ERROR:.*pip/i *)
    rx "pip" fl_i (seqs [lit "ERROR:"; Star any; lit "pip"]);
    (* /--- FAIL:/i *)
    rx "Go" fl_i (lit "--- FAIL:");
    (* /\.go:\d+:\d+:/i *)
    rx "Go" fl_i (seqs [lit ".go:"; plus dg; colon; plus dg; colon]);
    (* /cannot find package/i *)
    rx "Go" fl_i (lit "cannot find package");
    (* /\bundefined:/i *)
    rx "Go" fl_i (seqs [WordB; lit "undefined:"]);
    (* /error:\s+.*java/i *)
    rx "Java" fl_i (seqs [lit "error:"; plus sp; Star any; lit "java"]);
    (* /\bjavac\b.*error/i *)
    rx "Java" fl_i (seqs [WordB; lit "javac"; WordB; Star any; lit "error"]);
    (* /COMPILATION ERROR/i *)
    rx "Java" fl_i (lit "COMPILATION ERROR");
    (* /\[ERROR\].*BUILD FAILURE/i *)
    rx "Maven" fl_i (seqs [lit "[ERROR]"; Star any; lit "BUILD FAILURE"]);
    (* /\[ERROR\].*Failed to execute goal/i *)
    rx "Maven" fl_i
       (seqs [lit "[ERROR]"; Star any; lit "Failed to execute goal"]);
    (* /FAILURE: Build failed/i *)
    rx "Gradle" fl_i (lit "FAILURE: Build failed");
    (* /Execution failed for task/i *)
    rx "Gradle" fl_i (lit "Execution failed for task");
    (* /Tests run:.*Failures: [1-9]/i *)
    rx "JUnit" fl_i
       (seqs [lit "Tests run:"; Star any; lit "Failures: ";
              Cls (in_range 49 57)]);
    (* /\bFAILURE!\b.*Tests run/i *)
    rx "JUnit" fl_i
       (seqs [WordB; lit "FAILURE!"; WordB; Star any; lit "Tests run"]);
    (* /\b(TypeError|ReferenceError|SyntaxError)\b/ *)
    rx "Node" fl_none
       (seqs [WordB;
              alts [lit "TypeError"; lit "ReferenceError"; lit "SyntaxError"];
              WordB]);
    (* /\bUnhandledPromiseRejection\b|\bUnhandled rejection\b/i *)
    rx "Node" fl_i
       (Alt (seqs [WordB; lit "UnhandledPromiseRejection"; WordB])
            (seqs [WordB; lit "Unhandled rejection"; WordB])) ].

(** [/##\[(group|endgroup|debug|notice)\]/i] *)
Definition re_annotation : re :=
  seqs [lit "##["; alts [lit "group"; lit "endgroup"; lit "debug"; lit "notice"];
        lit "]"].

(** [/\berror\b|exception|failed/i] *)
Definition re_vocabulary : re :=
  alts [seqs [WordB; lit "error"; WordB]; lit "exception"; lit "failed"].

(** The callback of the fallback [findIndex]. *)
Definition generic_test (l : jsstring) : bool :=
  match l with
  | [] => false
  | _ =>
      if test fl_i re_annotation l then false
      else test fl_i re_vocabulary l
  end.

Definition mk_hit (name : jsstring) (lines : list jsstring) (i : Z) : hit :=
  {| hrule := name;
     hline := index lines i;
     excerpt := slice lines (Z.max 0 (i - 2)) (Z.min (len lines) (i + 12));
     lineIndex := i |}.

(** The loop [for (const rule of rules)]: [None] when it falls through. *)
Fixpoint try_rules (rules : list rule) (lines : list jsstring) : option hit :=
  match rules with
  | [] => None
  | r :: rest =>
      let i := findIndex (rtest r) lines in
      if negb (i =? -1) then Some (mk_hit (rname r) lines i)
      else try_rules rest lines
  end.

Definition all_rules (customRules : list customRule) : list rule :=
  List.map (fun r => {| rname := cname r; rtest := cre r |}) customRules
  ++ builtin_rules.

(** [pickFirstMeaningfulError(lines, customRules)]; [None] is [null]. *)
Definition pickFirstMeaningfulError (lines : list jsstring)
    (customRules : list customRule) : option hit :=
  match try_rules (all_rules customRules) lines with
  | Some h => Some h
  | None =>
      let i := findIndex generic_test lines in
      if negb (i =? -1) then Some (mk_hit (u "Generic") lines i)
      else None
  end.

End ErrorDetector.

(* ===================================================================== *)
(** ** utils.js: normalizer and signature                                 *)
(* ===================================================================== *)

Module Utils.
Import Regex.

Definition ellipsis : N := 8230.   (* U+2026 *)

Definition is_hex (c : N) : bool :=
  (in_range 48 57 c || in_range 97 102 c || in_range 65 70 c)%bool.

Definition is_lower_hex (c : N) : bool :=
  (in_range 48 57 c || in_range 97 102 c)%bool.

(** [/^\uFEFF?\d{4}-\d{2}-\d{2}T\d{2}:\d{2}:\d{2}\.\d+Z\s+/g] *)
Definition re_timestamp : re :=
  seqs [Bol; opt (chr 65279); rep 4 dg; lit "-"; rep 2 dg; lit "-"; rep 2 dg;
        lit "T"; rep 2 dg; lit ":"; rep 2 dg; lit ":"; rep 2 dg; lit ".";
        plus dg; lit "Z"; plus sp].

(** [/\b0x[0-9a-fA-F]+\b/g] *)
Definition re_hexlit : re := seqs [WordB; lit "0x"; plus (Cls is_hex); WordB].

(** [/\b[0-9a-f]{7,40}\b/g] *)
Definition re_sha : re := seqs [WordB; range 7 40 (Cls is_lower_hex); WordB].

(** [/:\d+:\d+/g] *)
Definition re_linecol : re := seqs [lit ":"; plus dg; lit ":"; plus dg].

(** [/:\d+/g] *)
Definition re_line : re := seqs [lit ":"; plus dg].

Definition repl_hexlit : jsstring := u "0x" ++ [ellipsis].
Definition repl_sha : jsstring := [ellipsis] ++ u "sha" ++ [ellipsis].
Definition repl_linecol : jsstring := u ":<line>:<col>".
Definition repl_line : jsstring := u ":<line>".

(** [String.prototype.trim]: the white space it strips is the set [\s]. *)
Fixpoint trimStart (s : jsstring) : jsstring :=
  match s with
  | c :: rest => if is_space c then trimStart rest else s
  | [] => []
  end.

Definition trimEnd (s : jsstring) : jsstring := rev (trimStart (rev s)).

Definition trim (s : jsstring) : jsstring := trimEnd (trimStart s).

Definition normalize (line : jsstring) : jsstring :=
  let s1 := replace_all fl_none re_timestamp [] line in
  let s2 := replace_all fl_none re_hexlit repl_hexlit s1 in
  let s3 := replace_all fl_none re_sha repl_sha s2 in
  let s4 := replace_all fl_none re_linecol repl_linecol s3 in
  let s5 := replace_all fl_none re_line repl_line s4 in
  trim s5.

(** The template [`${hit.rule}: ${normalized}`] of [run]. *)
Definition signature (rule normalized : jsstring) : jsstring :=
  rule ++ u ": " ++ normalized.

Definition signature_of_hit (rule line : jsstring) : jsstring :=
  signature rule (normalize line).

End Utils.

(* ===================================================================== *)
(** ** Strings, numbers and dates used by pattern-tracker.js              *)
(* ===================================================================== *)

Module Text.

(** [s.startsWith(p)]. *)
Fixpoint startsWith (s p : jsstring) : bool :=
  match p, s with
  | [], _ => true
  | _ :: _, [] => false
  | a :: p', b :: s' => (N.eqb a b && startsWith s' p')%bool
  end.

(** [s.includes(p)]. *)
Fixpoint includes (s p : jsstring) : bool :=
  if startsWith s p then true
  else match s with
       | [] => false
       | _ :: s' => includes s' p
       end.

(** [s.endsWith(p)]. *)
Definition endsWith (s p : jsstring) : bool := startsWith (rev s) (rev p).

(** [arr.includes(x)] on an array of strings. *)
Definition mem (x : jsstring) (arr : list jsstring) : bool :=
  existsb (streq x) arr.

(** Decimal digits of a natural number, most significant first. *)
Fixpoint digits_of (fuel : nat) (n : Z) (acc : jsstring) : jsstring :=
  match fuel with
  | O => acc
  | S fuel' =>
      let acc' := Z.to_N (48 + n mod 10) :: acc in
      if n <? 10 then acc' else digits_of fuel' (n / 10) acc'
  end.

(** [String(n)] for an integer [n] (below the exponent notation). *)
Definition dec (n : Z) : jsstring :=
  if n <? 0 then 45%N :: digits_of (S (Z.to_nat (Z.log2 (- n)))) (- n) []
  else digits_of (S (Z.to_nat (Z.log2 n))) n [].

(** Value of a run of decimal digits. *)
Definition digits_val (ds : jsstring) : Z :=
  fold_left (fun acc c => acc * 10 + (Z.of_N c - 48)) ds 0.

End Text.

Module Dates.

(** A [Date]: its time value in milliseconds since the epoch, [None] for
    an invalid date (time value [NaN]). *)
Definition date := option Z.

Definition ms_per_day : Z := 86400000.

(** Day number of a date of the proleptic Gregorian calendar, day 0 being
    1970-01-01. *)
Definition days_from_civil (y m d : Z) : Z :=
  let y' := if m <=? 2 then y - 1 else y in
  let era := y' / 400 in
  let yoe := y' - era * 400 in
  let mp := if m >? 2 then m - 3 else m + 9 in
  let doy := (153 * mp + 2) / 5 + d - 1 in
  let doe := yoe * 365 + yoe / 4 - yoe / 100 + doy in
  era * 146097 + doe - 719468.

(** [new Date(s)] for a string [s] of the shape
    [YYYY-MM-DDTHH:mm:ss.sssZ] (the shape the occurrence pattern
    enforces), as the engine the action runs on reads it: a month 01 to
    12, a day 01 to 31, an hour 00 to 23 (or 24:00:00.000), minutes and
    seconds 00 to 59.  A day past the end of its month counts on into the
    next month, since the day number is the first of the month plus the
    day minus one.  Other field values give an invalid date. *)
Definition parse_iso (s : jsstring) : date :=
  let f a n := Text.digits_val (firstn n (skipn a s)) in
  let y := f 0%nat 4%nat in
  let mo := f 5%nat 2%nat in
  let d := f 8%nat 2%nat in
  let h := f 11%nat 2%nat in
  let mi := f 14%nat 2%nat in
  let sec := f 17%nat 2%nat in
  let ms := f 20%nat 3%nat in
  if ((1 <=? mo) && (mo <=? 12) && (1 <=? d) && (d <=? 31)
      && (mi <=? 59) && (sec <=? 59)
      && ((h <=? 23) || ((h =? 24) && (mi =? 0) && (sec =? 0) && (ms =? 0))))%bool
  then Some (days_from_civil y mo d * ms_per_day
             + h * 3600000 + mi * 60000 + sec * 1000 + ms)
  else None.

(** Relational operators on dates; a comparison with an invalid date is
    false. *)
Definition ge (a b : date) : bool :=
  match a, b with
  | Some x, Some y => x >=? y
  | _, _ => false
  end.

Definition gt (a b : date) : bool :=
  match a, b with
  | Some x, Some y => x >? y
  | _, _ => false
  end.

End Dates.

(* ===================================================================== *)
(** ** The issue-tracker store                                            *)
(* ===================================================================== *)

Module Store.

(** Modelled from the spec: the issue-tracker store behind [octokit]
    (section 6 of the specification), which is not code of this
    repository.  It holds the issues and the merged pull requests of the
    one repository the queries are scoped to.  What the search engine
    takes for a title or text match, and which calls fail, belong to the
    service and are fields of [octokit].  [now] is the clock read by
    [Date.now()] and [new Date()]; it does not advance within one call of
    the functions below. *)

Inductive istate : Type := Open | Closed.

Record issue := {
  number : Z;
  title : jsstring;
  body : option jsstring;
  state : istate;
  labels : list jsstring;
  comments : list jsstring;
  html_url : jsstring
}.

(** A merged pull request. *)
Record pull := {
  pnumber : Z;
  ptitle : jsstring;
  pbody : option jsstring;
  purl : jsstring
}.

(** The three shapes of search query the code builds. *)
Inductive query : Type :=
| QTitle (st : option istate) (needle label : jsstring)
| QOpenLabelled (label : jsstring)
| QMergedPulls (n : Z).

Inductive endpoint : Type :=
| EpSearch (q : query)
| EpGet (n : Z)
| EpUpdate (n : Z)
| EpCreateComment (n : Z)
| EpListLabels (n : Z)
| EpRemoveLabel (n : Z)
| EpAddLabels (n : Z)
| EpCreate.

Record octokit := {
  title_match : jsstring -> jsstring -> bool;
  pull_match : Z -> pull -> bool;
  fails : endpoint -> bool;
  url_of : Z -> jsstring
}.

Record world := {
  issues : list issue;
  pulls : list pull;
  now : Z
}.

(** Outcome of a call sequence: a value or a rejection, and the store as
    it then is. *)
Inductive result (A : Type) : Type :=
| Ok (a : A) (w : world)
| Err (e : jsstring) (w : world).
Arguments Ok {A} a w.
Arguments Err {A} e w.

Definition M (A : Type) : Type := world -> result A.

Definition ret {A} (a : A) : M A := fun w => Ok a w.

Definition bind {A B} (m : M A) (k : A -> M B) : M B :=
  fun w => match m w with
           | Ok a w' => k a w'
           | Err e w' => Err e w'
           end.

Definition throw {A} (e : jsstring) : M A := fun w => Err e w.

Definition get_world : M world := fun w => Ok w w.

Definition put_issues (l : list issue) : M unit :=
  fun w => Ok tt {| issues := l; pulls := pulls w; now := now w |}.

Definition final_world {A} (r : result A) : world :=
  match r with Ok _ w => w | Err _ w => w end.

End Store.

Notation "x <- c ;; k" := (Store.bind c (fun x => k))
  (at level 61, c at next level, right associativity).
Notation "c ;;; k" := (Store.bind c (fun _ => k))
  (at level 61, right associativity).

Module Api.
Import Store Text.

Definition http_error : jsstring := u "HttpError".

(** Every call first reaches the service, which may reject it. *)
Definition request (ok : octokit) (ep : endpoint) : M unit :=
  fun w => if fails ok ep then Err http_error w else Ok tt w.

Definition state_ok (f : option istate) (i : issue) : bool :=
  match f, state i with
  | None, _ => true
  | Some Open, Open => true
  | Some Closed, Closed => true
  | _, _ => false
  end.

Definition issue_matches (ok : octokit) (q : query) (i : issue) : bool :=
  match q with
  | QTitle st needle label =>
      (state_ok st i && title_match ok needle (title i) && mem label (labels i))%bool
  | QOpenLabelled label => (state_ok (Some Open) i && mem label (labels i))%bool
  | QMergedPulls _ => false
  end.

(** [octokit.rest.search.issuesAndPullRequests({ q, per_page })], for a
    query over issues. *)
Definition search_issues (ok : octokit) (q : query) (per_page : nat)
    : M (list issue) :=
  request ok (EpSearch q) ;;;
  w <- get_world ;;
  ret (firstn per_page (filter (issue_matches ok q) (issues w))).

(** The same call for the merged pull requests mentioning [n]. *)
Definition search_pulls (ok : octokit) (n : Z) (per_page : nat)
    : M (list pull) :=
  request ok (EpSearch (QMergedPulls n)) ;;;
  w <- get_world ;;
  ret (firstn per_page (filter (pull_match ok n) (pulls w))).

Definition find_issue (n : Z) (l : list issue) : option issue :=
  find (fun i => number i =? n) l.

Definition not_found : jsstring := u "Not Found".

Definition lookup (n : Z) : M issue :=
  w <- get_world ;;
  match find_issue n (issues w) with
  | Some i => ret i
  | None => throw not_found
  end.

(** [octokit.rest.issues.get]. *)
Definition issues_get (ok : octokit) (n : Z) : M issue :=
  request ok (EpGet n) ;;;
  lookup n.

Definition modify (n : Z) (f : issue -> issue) : M unit :=
  w <- get_world ;;
  match find_issue n (issues w) with
  | Some _ =>
      put_issues (List.map (fun i => if number i =? n then f i else i) (issues w))
  | None => throw not_found
  end.

(** [octokit.rest.issues.update] with a [body] and/or a [state]. *)
Definition issues_update (ok : octokit) (n : Z) (new_body : option jsstring)
    (new_state : option istate) : M unit :=
  request ok (EpUpdate n) ;;;
  modify n (fun i =>
    {| number := number i; title := title i;
       body := match new_body with Some b => Some b | None => body i end;
       state := match new_state with Some s => s | None => state i end;
       labels := labels i; comments := comments i; html_url := html_url i |}).

(** [octokit.rest.issues.createComment]. *)
Definition create_comment (ok : octokit) (n : Z) (text : jsstring) : M unit :=
  request ok (EpCreateComment n) ;;;
  modify n (fun i =>
    {| number := number i; title := title i; body := body i; state := state i;
       labels := labels i; comments := comments i ++ [text];
       html_url := html_url i |}).

(** [octokit.rest.issues.listLabelsOnIssue] with [per_page: 100]. *)
Definition list_labels (ok : octokit) (n : Z) : M (list jsstring) :=
  request ok (EpListLabels n) ;;;
  i <- lookup n ;;
  ret (firstn 100 (labels i)).

Definition set_labels (i : issue) (l : list jsstring) : issue :=
  {| number := number i; title := title i; body := body i; state := state i;
     labels := l; comments := comments i; html_url := html_url i |}.

(** [octokit.rest.issues.removeLabel]. *)
Definition remove_label (ok : octokit) (n : Z) (name : jsstring) : M unit :=
  request ok (EpRemoveLabel n) ;;;
  modify n (fun i => set_labels i (filter (fun l => negb (streq l name)) (labels i))).

(** [octokit.rest.issues.addLabels]: labels already present are kept once. *)
Definition add_labels (ok : octokit) (n : Z) (names : list jsstring) : M unit :=
  request ok (EpAddLabels n) ;;;
  modify n (fun i =>
    set_labels i (labels i ++ filter (fun l => negb (mem l (labels i))) names)).

Definition fresh_number (l : list issue) : Z :=
  1 + fold_right (fun i acc => Z.max (number i) acc) 0 l.

(** [octokit.rest.issues.create]. *)
Definition issues_create (ok : octokit) (t b : jsstring) (ls : list jsstring)
    : M issue :=
  request ok EpCreate ;;;
  w <- get_world ;;
  let n := fresh_number (issues w) in
  let i := {| number := n; title := t; body := Some b; state := Open;
              labels := ls; comments := []; html_url := url_of ok n |} in
  put_issues (issues w ++ [i]) ;;;
  ret i.

End Api.

(* ===================================================================== *)
(** ** pattern-tracker.js: occurrences, upsert, auto-close                *)
(* ===================================================================== *)

Module PatternTracker.
Import Regex Text Dates Store Api.

Definition nl : jsstring := [10%N].
Definition em_dash : N := 8212.   (* U+2014 *)

Definition ISSUE_MARKER : jsstring := u "<!-- pattern-signature:v0 -->".

(** [/^- (\d{4}-\d{2}-\d{2}T\d{2}:\d{2}:\d{2}\.\d{3}Z)/gm] *)
Definition re_occurrence : re :=
  seqs [Bol; lit "- "; rep 4 dg; lit "-"; rep 2 dg; lit "-"; rep 2 dg;
        lit "T"; rep 2 dg; lit ":"; rep 2 dg; lit ":"; rep 2 dg; lit ".";
        rep 3 dg; lit "Z"].

(** [parseOccurrenceTimestamps(body)].  The group [m[1]] is the match
    without its first two code units, the literal prefix of the
    pattern. *)
Definition parseOccurrenceTimestamps (b : jsstring) : list date :=
  List.map (fun m => parse_iso (skipn 2 m)) (exec_all fl_m re_occurrence b).

Record windowStats := { last7 : Z; last14 : Z }.

(** [computeWindowStats(timestamps, now)]. *)
Definition computeWindowStats (timestamps : list date) (now : Z) : windowStats :=
  let d7 := Some (now - 7 * 86400000) in
  let d14 := Some (now - 14 * 86400000) in
  fold_left
    (fun acc ts =>
       {| last7 := if ge ts d7 then last7 acc + 1 else last7 acc;
          last14 := if ge ts d14 then last14 acc + 1 else last14 acc |})
    timestamps {| last7 := 0; last14 := 0 |}.

(** [ToString] of a property value, as a template literal applies it. *)
Definition to_string (v : value) : jsstring :=
  match v with
  | VString s => s
  | VUndefined => u "undefined"
  | VFunction n => u "function " ++ n ++ u "() { [native code] }"
  | VObject _ => u "[object Object]"
  end.

(** [/^\*\*Last 7d:\*\*.+$/m] *)
Definition re_stats : re := seqs [Bol; lit "**Last 7d:**"; plus any; Eol].

(** [/^## Occurrences/m] *)
Definition re_heading : re := seqs [Bol; lit "## Occurrences"].

(** [/^## Occurrences\s*$/m] *)
Definition re_heading_line : re := seqs [Bol; lit "## Occurrences"; Star sp; Eol].

(** [/## Occurrences\s*\n/i] *)
Definition re_heading_nl : re := seqs [lit "## Occurrences"; Star sp; chr 10].

Definition heading : jsstring := u "## Occurrences".

(** [appendStatsLine(body, stats)]. *)
Definition appendStatsLine (b : jsstring) (stats : windowStats) : jsstring :=
  let statsLine :=
    u "**Last 7d:** " ++ dec (last7 stats) ++ u " | **Last 14d:** "
    ++ dec (last14 stats) in
  if test fl_m re_stats b then replace fl_m re_stats statsLine b
  else replace fl_m re_heading (statsLine ++ nl ++ nl ++ heading) b.

(** [findFixingPR]: the merged pull requests that mention the issue. *)
Definition findFixingPR (ok : octokit) (issueNumber : Z) : M (list pull) :=
  items <- search_pulls ok issueNumber 5 ;;
  ret (filter
         (fun pr =>
            let text := match pbody pr with Some b => b | None => [] end
                        ++ u " " ++ ptitle pr in
            (includes text (u "#" ++ dec issueNumber)
             || includes text (u "issues/" ++ dec issueNumber))%bool)
         items).

(** [arr.join(sep)]. *)
Fixpoint join (sep : jsstring) (parts : list jsstring) : jsstring :=
  match parts with
  | [] => []
  | [p] => p
  | p :: rest => p ++ sep ++ join sep rest
  end.

(** [timestamps.reduce((a, b) => (a > b ? a : b))] on a non-empty array. *)
Definition latest (first : date) (rest : list date) : date :=
  fold_left (fun a b => if gt a b then a else b) rest first.

(** [`${daysSince}`]. *)
Definition days_string (lastSeen : date) (now : Z) : jsstring :=
  match lastSeen with
  | Some t => dec ((now - t) / 86400000)
  | None => u "NaN"
  end.

Definition close_message (lastSeen : date) (now : Z) (fixing : list pull)
    : jsstring :=
  let closeMsg :=
    u "Pattern inactive for " ++ days_string lastSeen now ++ u " days "
    ++ [em_dash] ++ u " closing." in
  match fixing with
  | [] => closeMsg
  | _ =>
      closeMsg ++ nl ++ nl ++ u "**Likely fixed by:**" ++ nl
      ++ join nl (List.map (fun pr => u "- #" ++ dec (pnumber pr) ++ u " "
                                      ++ ptitle pr) fixing)
  end.

(** The body of [for (const item of result.data.items)] in
    [autoCloseQuietIssues], run over the remaining items; [closed] is the
    array of the same name. *)
Fixpoint sweep_items (ok : octokit) (items : list issue) (cutoff : Z)
    (closed : list Z) : M (list Z) :=
  match items with
  | [] => ret closed
  | item :: rest =>
      i <- issues_get ok (number item) ;;
      match parseOccurrenceTimestamps
              (match body i with Some b => b | None => [] end) with
      | [] => sweep_items ok rest cutoff closed
      | t :: ts =>
          let lastSeen := latest t ts in
          if ge lastSeen (Some cutoff) then sweep_items ok rest cutoff closed
          else
            w <- get_world ;;
            fixingPRs <- findFixingPR ok (number item) ;;
            create_comment ok (number item)
              (close_message lastSeen (now w) fixingPRs) ;;;
            issues_update ok (number item) None (Some Closed) ;;;
            sweep_items ok rest cutoff (closed ++ [number item])
      end
  end.

(** [autoCloseQuietIssues(octokit, { issueOwner, issueRepo, label, quietDays })]. *)
Definition autoCloseQuietIssues (ok : octokit) (label : jsstring)
    (quietDays : Z) : M (list Z) :=
  if quietDays <=? 0 then ret []
  else
    items <- search_issues ok (QOpenLabelled label) 50 ;;
    w <- get_world ;;
    sweep_items ok items (now w - quietDays * 86400000) [].

(** [applySeverityLabel]. *)
Definition applySeverityLabel (ok : octokit) (issueNumber : Z)
    (severity : value) : M unit :=
  let prefix := u "severity:" in
  let targetLabel := prefix ++ to_string severity in
  ls <- list_labels ok issueNumber ;;
  let stale :=
    filter (fun l => (startsWith l prefix && negb (streq l targetLabel))%bool) ls in
  fold_right (fun l k => remove_label ok issueNumber l ;;; k) (ret tt) stale ;;;
  if mem targetLabel ls then ret tt
  else add_labels ok issueNumber [targetLabel].

(** The [occurrence] argument; the empty string is the falsy value of
    [sourceRepo] and [explainerContext]. *)
Record occurrence := {
  when : jsstring;
  runUrl : jsstring;
  sourceRepo : jsstring;
  explainerContext : jsstring
}.

Inductive decision : Type := Created | Updated | Reopened.

(** The object [upsertIssueForSignature] resolves to. *)
Record upsertResult := {
  kind : decision;
  issueNumber : Z;
  url : jsstring;
  severity : value;
  muted : bool;
  totalOccurrences : Z;
  thresholdReached : bool
}.

Definition occurrence_tail (occ : occurrence) : jsstring :=
  let repoTag :=
    match sourceRepo occ with
    | [] => []
    | r => u " (" ++ r ++ u ")"
    end in
  let explainerSuffix :=
    match explainerContext occ with
    | [] => []
    | c => nl ++ u "  > " ++ c
    end in
  when occ ++ u " " ++ [em_dash] ++ u " " ++ runUrl occ ++ repoTag
  ++ explainerSuffix.

Definition occLine (occ : occurrence) : jsstring := u "- " ++ occurrence_tail occ.

Definition prefixedOccLine (occ : occurrence) (is_muted : bool) : jsstring :=
  if is_muted then u "- [muted] " ++ occurrence_tail occ else occLine occ.

(** The body with the new occurrence inserted under the heading
    ([newBody] before the statistics line is rewritten). *)
Definition insert_occurrence (b : jsstring) (occ : occurrence)
    (is_muted : bool) : jsstring :=
  let updatedBody :=
    if includes b heading then replace fl_m re_heading_line heading b
    else b ++ (if endsWith b nl then [] else nl) ++ nl ++ heading ++ nl in
  replace fl_i re_heading_nl
    (heading ++ nl ++ prefixedOccLine occ is_muted ++ nl) updatedBody.

Definition threshold_label : jsstring := u "threshold-reached".

Definition recurred_comment : jsstring :=
  u "**Pattern recurred** " ++ [em_dash]
  ++ u " this issue was previously resolved but the same failure has reappeared. Check the previous closing comment for fix context.".

(** The branch [if (found.data.items.length > 0)] of
    [upsertIssueForSignature], for the first item found. *)
Definition upsert_found (ok : octokit) (item : issue) (occ : occurrence)
    (ruleName : jsstring) (notifyThreshold : Z) : M upsertResult :=
  let issueNumber := number item in
  let wasClosed := match state item with Closed => true | Open => false end in
  let existingLabels := labels item in
  let is_muted := mem (u "muted") existingLabels in
  i <- issues_get ok issueNumber ;;
  let b := match body i with Some b => b | None => [] end in
  let newBody0 := insert_occurrence b occ is_muted in
  let allTimestamps := parseOccurrenceTimestamps newBody0 in
  w <- get_world ;;
  let stats := computeWindowStats allTimestamps (now w) in
  let newBody := appendStatsLine newBody0 stats in
  let severity := Severity.classifySeverity ruleName (last7 stats) in
  issues_update ok issueNumber (Some newBody)
    (if wasClosed then Some Open else None) ;;;
  (if wasClosed then create_comment ok issueNumber recurred_comment
   else ret tt) ;;;
  applySeverityLabel ok issueNumber severity ;;;
  let totalOccurrences := len allTimestamps in
  thresholdReached <-
    (if ((notifyThreshold >? 0) && (totalOccurrences >=? notifyThreshold))%bool
     then
       if mem threshold_label existingLabels then ret false
       else add_labels ok issueNumber [threshold_label] ;;; ret true
     else ret false) ;;
  ret {| kind := if wasClosed then Reopened else Updated;
         issueNumber := issueNumber;
         url := html_url item;
         severity := severity;
         muted := is_muted;
         totalOccurrences := totalOccurrences;
         thresholdReached := thresholdReached |}.

(** [upsertIssueForSignature({ octokit, issueOwner, issueRepo, label,
    signature, signatureHash, occurrence, ruleName, notifyThreshold })]. *)
Definition upsertIssueForSignature (ok : octokit) (label signature
    signatureHash : jsstring) (occ : occurrence) (ruleName : jsstring)
    (notifyThreshold : Z) : M upsertResult :=
  found0 <- search_issues ok (QTitle None signatureHash label) 10 ;;
  let title :=
    u "[CI Pattern " ++ slice signatureHash 0 8 ++ u "] "
    ++ slice signature 0 120 in
  let header :=
    ISSUE_MARKER ++ nl ++ nl ++ u "**Signature:**" ++ nl ++ u "```" ++ nl
    ++ signature ++ nl ++ u "```" ++ nl ++ nl in
  found <-
    (match found0 with
     | [] =>
         closedFound <-
           search_issues ok (QTitle (Some Closed) signatureHash label) 10 ;;
         ret (match closedFound with [] => found0 | _ => closedFound end)
     | _ => ret found0
     end) ;;
  match found with
  | item :: _ => upsert_found ok item occ ruleName notifyThreshold
  | [] =>
      let severity := Severity.classifySeverity ruleName 0 in
      let b := header ++ heading ++ nl ++ occLine occ ++ nl in
      created <-
        issues_create ok title b [label; u "severity:" ++ to_string severity] ;;
      ret {| kind := Created;
             issueNumber := number created;
             url := html_url created;
             severity := severity;
             muted := false;
             totalOccurrences := 1;
             thresholdReached := false |}
  end.

End PatternTracker.

(* ===================================================================== *)
(** ** Capture groups and [split]                                         *)
(* ===================================================================== *)

Module Groups.
Import Regex.

(** A pattern [pre(grp)post] with one capture group. *)
Record grouped := { g_pre : re; g_grp : re; g_post : re }.

Definition whole (g : grouped) : re := Seq (g_pre g) (Seq (g_grp g) (g_post g)).

(** Where the group starts in the first way (in priority order) of
    matching the whole pattern at [s]. *)
Definition group_start (fl : flags) (g : grouped) (s : pos) : option pos :=
  run fl (g_pre g) s
    (fun s1 =>
       match run fl (Seq (g_grp g) (g_post g)) s1 (fun e => Some e) with
       | Some _ => Some s1
       | None => None
       end).

(** Where the group then ends. *)
Definition group_end (fl : flags) (g : grouped) (s1 : pos) : option pos :=
  run fl (g_grp g) s1
    (fun s2 =>
       match run fl (g_post g) s2 (fun e => Some e) with
       | Some _ => Some s2
       | None => None
       end).

(** [s.match(re)[1]] for a regex without [g]: the text of the group in the
    leftmost match, [None] when [match] returns [null]. *)
Fixpoint match_group_from (fl : flags) (g : grouped) (bef aft : list N)
    : option jsstring :=
  match group_start fl g {| before := bef; after := aft |} with
  | Some s1 =>
      match group_end fl g s1 with
      | Some s2 => Some (between s1 s2)
      | None => None
      end
  | None =>
      match aft with
      | [] => None
      | c :: rest => match_group_from fl g (c :: bef) rest
      end
  end.

Definition match_group (fl : flags) (g : grouped) (s : jsstring)
    : option jsstring :=
  match_group_from fl g [] s.

Definition advance (q : pos) : pos :=
  match after q with
  | [] => q
  | c :: rest => {| before := c :: before q; after := rest |}
  end.

(** The loop of [RegExp.prototype[Symbol.split]] for a regex without
    capture groups: [p] is the end of the previous separator, [q] the
    position where a separator is tried next. *)
Fixpoint split_from (fuel : nat) (fl : flags) (r : re) (p q : pos)
    : list jsstring :=
  match fuel with
  | O => [after p]
  | S fuel' =>
      match after q with
      | [] => [after p]
      | _ :: _ =>
          match match_at fl r q with
          | None => split_from fuel' fl r p (advance q)
          | Some e =>
              if Nat.eqb (remaining e) (remaining p)
              then split_from fuel' fl r p (advance q)
              else between p q :: split_from fuel' fl r e e
          end
      end
  end.

(** [s.split(re)] without a limit. *)
Definition split (fl : flags) (r : re) (s : jsstring) : list jsstring :=
  match s with
  | [] =>
      match match_at fl r {| before := []; after := [] |} with
      | Some _ => []
      | None => [[]]
      end
  | _ =>
      split_from (S (2 * List.length s)) fl r {| before := []; after := s |}
        {| before := []; after := s |}
  end.

End Groups.

(* ===================================================================== *)
(** ** error-detector.js: step detection and error finding in text        *)
(* ===================================================================== *)

Module StepDetection.
Import Regex Groups StepIndex.

Definition group_tail : re := seqs [Star sp; Eol].

(** [/^.*##\[group\]Run\s+(.+)\s*$/] *)
Definition groupRun : grouped :=
  {| g_pre := seqs [Bol; Star any; lit "##[group]Run"; plus sp];
     g_grp := plus any;
     g_post := group_tail |}.

(** [/^.*##\[group\]Step:\s+(.+)\s*$/] *)
Definition groupStep : grouped :=
  {| g_pre := seqs [Bol; Star any; lit "##[group]Step:"; plus sp];
     g_grp := plus any;
     g_post := group_tail |}.

(** [/^.*##\[group\](.+)\s*$/] *)
Definition groupName : grouped :=
  {| g_pre := seqs [Bol; Star any; lit "##[group]"];
     g_grp := plus any;
     g_post := group_tail |}.

(** [/^Post\b/i] *)
Definition re_post : re := seqs [Bol; lit "Post"; WordB].

(** [/^Cleaning up\b/i] *)
Definition re_cleaning : re := seqs [Bol; lit "Cleaning up"; WordB].

(** What one iteration of the loop of [buildStepIndex] pushes for the line
    [l] at index [i]. *)
Definition step_of_line (i : Z) (l : jsstring) : option stepStart :=
  match match_group fl_none groupStep l with
  | Some m => Some {| idx := i; name := Utils.trim m |}
  | None =>
      match match_group fl_none groupRun l with
      | Some m => Some {| idx := i; name := u "Run " ++ Utils.trim m |}
      | None =>
          match match_group fl_none groupName l with
          | Some m =>
              let n := Utils.trim m in
              match n with
              | [] => None
              | _ =>
                  if (negb (test fl_i re_post n)
                      && negb (test fl_i re_cleaning n))%bool
                  then Some {| idx := i; name := n |}
                  else None
              end
          | None => None
          end
      end
  end.

(** The loop [for (let i = 0; i < lines.length; i++)], from index [i] on
    the remaining lines. *)
Fixpoint build_from (lines : list jsstring) (i : Z) : list stepStart :=
  match lines with
  | [] => []
  | l :: rest =>
      match step_of_line i l with
      | Some s => s :: build_from rest (i + 1)
      | None => build_from rest (i + 1)
      end
  end.

(** [buildStepIndex(lines)]. *)
Definition buildStepIndex (lines : list jsstring) : list stepStart :=
  build_from lines 0.

End StepDetection.

Module ErrorFinder.
Import Regex Groups StepIndex StepDetection ErrorDetector.

(** [/\r?\n/] *)
Definition re_newline : re := Seq (opt (chr 13)) (chr 10).

(** The object [{ ...hit, stepName, fileName }]. *)
Record located := {
  l_hit : hit;
  stepName : jsstring;
  fileName : jsstring
}.

(** [findFirstErrorInText({ text, fileName, customRules })]. *)
Definition findFirstErrorInText (text file : jsstring)
    (customRules : list customRule) : completion (option located) :=
  let lines := split fl_none re_newline text in
  let stepStarts := buildStepIndex lines in
  match pickFirstMeaningfulError lines customRules with
  | None => Normal None
  | Some h =>
      match findStepForLineIndex (Some stepStarts) (lineIndex h) with
      | Normal s =>
          Normal (Some {| l_hit := h; stepName := s; fileName := file |})
      | Thrown e => Thrown e
      | OutOfFuel => OutOfFuel
      end
  end.

(** An element of [textFiles]: [{ name, text }]. *)
Record textFile := { tf_name : jsstring; tf_text : jsstring }.

(** [findFirstErrorAcrossTexts(textFiles, customRules)]. *)
Fixpoint findFirstErrorAcrossTexts (textFiles : list textFile)
    (customRules : list customRule) : completion (option located) :=
  match textFiles with
  | [] => Normal None
  | f :: rest =>
      match findFirstErrorInText (tf_text f) (tf_name f) customRules with
      | Normal (Some h) => Normal (Some h)
      | Normal None => findFirstErrorAcrossTexts rest customRules
      | Thrown e => Thrown e
      | OutOfFuel => OutOfFuel
      end
  end.

End ErrorFinder.
(* ===================================================================== *)
(** ** error-detector.js: flaky detection and reviewer suggestions        *)
(* ===================================================================== *)

Module Service.

(** Outcome of awaiting a call of the service: the data it resolves to, or
    a rejection. *)
Inductive outcome (A : Type) : Type :=
| Resolved (a : A)
| Rejected (e : jsstring).
Arguments Resolved {A} a.
Arguments Rejected {A} e.

End Service.

Module Flaky.
Import Service Text.

(** An element of [jobsResp.data.jobs]; [None] is a [null] conclusion. *)
Record job := { jname : jsstring; conclusion : option jsstring }.

(** The two calls [detectFlaky] makes.  Which runs and jobs there are is
    the service's business: [listWorkflowRunsForRepo] answers with the ids
    of the runs, given the [workflow_id] parameter (when set) and
    [per_page]; [listJobsForWorkflowRun] answers with the jobs of a run. *)
Record actions := {
  listWorkflowRunsForRepo : option Z -> Z -> outcome (list Z);
  listJobsForWorkflowRun : Z -> outcome (list job)
}.

(** The object [detectFlaky] resolves to. *)
Record flakyResult := {
  isFlaky : bool;
  passes : Z;
  failures : Z;
  total : Z
}.

Definition conclusion_is (j : job) (c : string) : bool :=
  match conclusion j with
  | Some x => streq x (u c)
  | None => false
  end.

(** The loop [for (const run of ...)], over the remaining runs. *)
Fixpoint count_runs (api : actions) (jobName : jsstring) (runs : list Z)
    (passes failures : Z) : outcome (Z * Z) :=
  match runs with
  | [] => Resolved (passes, failures)
  | run :: rest =>
      match listJobsForWorkflowRun api run with
      | Rejected e => Rejected e
      | Resolved jobs =>
          match find (fun j => streq (jname j) jobName) jobs with
          | None => count_runs api jobName rest passes failures
          | Some matchingJob =>
              if conclusion_is matchingJob "success"
              then count_runs api jobName rest (passes + 1) failures
              else if conclusion_is matchingJob "failure"
              then count_runs api jobName rest passes (failures + 1)
              else count_runs api jobName rest passes failures
          end
      end
  end.

(** [detectFlaky(octokit, { owner, repo, workflowId, jobName, lookback })];
    a [workflowId] of [None] or [0] is falsy. *)
Definition detectFlaky (api : actions) (workflowId : option Z)
    (jobName : jsstring) (lookback : Z) : outcome flakyResult :=
  let workflow_id :=
    match workflowId with
    | Some n => if n =? 0 then None else Some n
    | None => None
    end in
  match listWorkflowRunsForRepo api workflow_id lookback with
  | Rejected e => Rejected e
  | Resolved workflow_runs =>
      match count_runs api jobName (slice workflow_runs 0 lookback) 0 0 with
      | Rejected e => Rejected e
      | Resolved (p, f) =>
          Resolved {| isFlaky := ((p >=? 2) && (f >=? 2))%bool;
                      passes := p;
                      failures := f;
                      total := p + f |}
      end
  end.

End Flaky.

Module Reviewers.
Import Service Text.

(** A [Map] from strings to numbers: its entries in insertion order. *)
Definition counts := list (jsstring * Z).

(** [map.get(k)]; [None] is [undefined]. *)
Fixpoint map_get (k : jsstring) (m : counts) : option Z :=
  match m with
  | [] => None
  | (k', v) :: rest => if streq k k' then Some v else map_get k rest
  end.

(** [map.set(k, v)]: an existing key keeps its place. *)
Fixpoint map_set (k : jsstring) (v : Z) (m : counts) : counts :=
  match m with
  | [] => [(k, v)]
  | (k', v') :: rest =>
      if streq k k' then (k', v) :: rest else (k', v') :: map_set k v rest
  end.

(** [authorCounts.set(login, (authorCounts.get(login) || 0) + 1)]. *)
Definition bump (login : jsstring) (m : counts) : counts :=
  let old := match map_get login m with
             | Some n => if n =? 0 then 0 else n
             | None => 0
             end in
  map_set login (old + 1) m.

(** An element of [commits.data], reduced to [c.author?.login]; [None]
    when there is no author or no login. *)
Definition commit := option jsstring.

(** The body of [for (const c of commits.data)]. *)
Definition count_commit (prAuthor : jsstring) (c : commit) (m : counts)
    : counts :=
  match c with
  | None => m
  | Some login =>
      match login with
      | [] => m
      | _ =>
          if (streq login prAuthor || includes login (u "[bot]"))%bool then m
          else bump login m
      end
  end.

(** The body of [for (const filePath of filePaths)]: a rejected listing is
    caught and the file skipped. *)
Definition count_file (listCommits : jsstring -> outcome (list commit))
    (prAuthor : jsstring) (m : counts) (filePath : jsstring) : counts :=
  match listCommits filePath with
  | Resolved commits =>
      fold_left (fun m c => count_commit prAuthor c m) commits m
  | Rejected _ => m
  end.

(** [entries.sort((a, b) => b[1] - a[1])].  The sort is stable and the
    comparator is consistent, so the result is the one stable arrangement
    by decreasing count; it is computed here by insertion. *)
Fixpoint insert_desc (x : jsstring * Z) (l : counts) : counts :=
  match l with
  | [] => [x]
  | y :: rest =>
      if snd y - snd x <=? 0 then x :: y :: rest
      else y :: insert_desc x rest
  end.

Definition sort_desc (l : counts) : counts := fold_right insert_desc [] l.

(** An element of the result: [{ login, commits }]. *)
Record suggestion := { login : jsstring; commits : Z }.

(** [suggestReviewersForFiles(octokit, { owner, repo, filePaths, prAuthor })];
    [listCommits] is [octokit.rest.repos.listCommits] for the path given,
    with [per_page: 10]. *)
Definition suggestReviewersForFiles
    (listCommits : jsstring -> outcome (list commit))
    (filePaths : list jsstring) (prAuthor : jsstring) : list suggestion :=
  let authorCounts :=
    fold_left (count_file listCommits prAuthor) filePaths [] in
  List.map (fun e => {| login := fst e; commits := snd e |})
    (slice (sort_desc authorCounts) 0 3).

End Reviewers.
(* ===================================================================== *)
(** ** error-detector.js: hints, deploy risk, runbook slugs               *)
(* ===================================================================== *)

Module Tables.
Import Regex ErrorDetector.

Definition RUNBOOK_SLUGS : list (jsstring * value) :=
  [
    (u "ESLint", VString (u "eslint"));
    (u "TypeScript", VString (u "typescript"));
    (u "npm", VString (u "npm"));
    (u "Jest/Vitest", VString (u "jest"));
    (u "Build", VString (u "build"));
    (u "Docker", VString (u "docker"));
    (u "Node", VString (u "node"));
    (u "pytest", VString (u "pytest"));
    (u "mypy", VString (u "mypy"));
    (u "ruff/flake8", VString (u "ruff"));
    (u "pip", VString (u "pip"));
    (u "Go", VString (u "go"));
    (u "Java", VString (u "java"));
    (u "Maven", VString (u "maven"));
    (u "Gradle", VString (u "gradle"));
    (u "JUnit", VString (u "junit"));
    (u "Generic", VString (u "generic")) ].

(** The object [hints] of [hintFor]: a pair of hints per category. *)
Definition hints : list (jsstring * (jsstring * jsstring)) :=
  [
    (u "ESLint",
     (u "Run the linter locally and apply the suggested fix (often `npm run lint -- --fix` depending on your script).",
      u "If it's intentional, adjust the specific rule or add a targeted disable (avoid global ignores)."));
    (u "TypeScript",
     (u "Open the referenced file/line and fix the type mismatch; TS errors often cascade, so start with the first one.",
      u "If it's dependency types, check lockfile drift and TypeScript version compatibility."));
    (u "npm",
     (u "Scroll up to the first `npm ERR!` / pnpm error line; the last lines are usually summaries.",
      u "If it's install-related, verify Node version, lockfile, and registry/auth."));
    (u "Jest/Vitest",
     (u "Run the failing test locally; focus on the first failing assertion and any snapshot mismatch.",
      u "If flaky, check timers, async cleanup, and shared state."));
    (u "Build",
     (u "Look for the first bundler error (missing import, invalid config, env mismatch).",
      u "If it's environment-only, compare Node version and build-time env vars."));
    (u "Docker",
     (u "The first failing build step is the real cause; missing files and auth issues are common.",
      u "Verify build context paths and base image tag availability."));
    (u "pytest",
     (u "Run the failing test locally with `pytest -x` to stop at the first failure.",
      u "Check for fixture issues, missing mocks, or environment-dependent tests."));
    (u "mypy",
     (u "Fix the type annotation at the referenced file/line; mypy errors often cascade from a single root cause.",
      u "If it's a third-party library, check for missing type stubs (`types-*` packages)."));
    (u "ruff/flake8",
     (u "Run `ruff check --fix` or `flake8` locally to see and auto-fix lint issues.",
      u "If the rule is intentionally violated, add a `# noqa: <code>` comment on the specific line."));
    (u "pip",
     (u "Check Python version compatibility and that all dependencies are available.",
      u "If it's a build dependency, ensure system packages (e.g., `libffi-dev`) are installed."));
    (u "Go",
     (u "Run `go test ./...` locally to reproduce the failure.",
      u "For build errors, check `go.mod` / `go.sum` and run `go mod tidy`."));
    (u "Java",
     (u "Check the referenced file/line for the compilation error; fix type mismatches or missing imports.",
      u "Verify Java version compatibility between source and CI environment."));
    (u "Maven",
     (u "Run `mvn clean install` locally to reproduce; check dependency resolution and plugin versions.",
      u "If it's a dependency issue, run `mvn dependency:tree` to identify conflicts."));
    (u "Gradle",
     (u "Run the failing task locally with `--stacktrace` for details.",
      u "Check Gradle wrapper version and dependency resolution in `build.gradle`."));
    (u "JUnit",
     (u "Run the failing test class locally; focus on the first assertion failure.",
      u "Check for test order dependencies and shared state between tests."));
    (u "Node",
     (u "Find the first stack trace frame pointing to your code; earlier frames are often library internals.",
      u "If it's an unhandled promise, ensure awaits/returns are correct and add proper error handling."));
    (u "Generic",
     (u "Start from the first error-looking line; later failures are often symptoms.",
      u "If logs are huge, split steps or fail fast to reduce noise.")) ].

(** What [hintFor] returns: an array of two hints, or, for a name that the
    object literal inherits from [Object.prototype], the inherited
    property. *)
Inductive hint_value : Type :=
| HintPair (primary secondary : jsstring)
| HintInherited (v : value).

Fixpoint assoc_hints (k : jsstring)
    (tbl : list (jsstring * (jsstring * jsstring)))
    : option (jsstring * jsstring) :=
  match tbl with
  | [] => None
  | (k', v) :: rest => if streq k k' then Some v else assoc_hints k rest
  end.

(** [hints[ruleName] || hints.Generic]. *)
Definition table_hint (ruleName : jsstring) : hint_value :=
  match assoc_hints ruleName hints with
  | Some (a, b) => HintPair a b
  | None =>
      match assoc ruleName object_prototype with
      | Some v => HintInherited v
      | None =>
          match assoc_hints (u "Generic") hints with
          | Some (a, b) => HintPair a b
          | None => HintInherited VUndefined
          end
      end
  end.

(** [hintFor(ruleName, customRules)]. *)
Definition hintFor (ruleName : jsstring) (customRules : list customRule)
    : hint_value :=
  match find (fun r => streq (cname r) ruleName) customRules with
  | Some custom =>
      match chint custom with
      | [] => table_hint ruleName
      | h => HintPair h []
      end
  | None => table_hint ruleName
  end.

Definition DEPLOY_RISK : list (jsstring * value) :=
  [
    (u "Docker", VString (u "high"));
    (u "Build", VString (u "high"));
    (u "npm", VString (u "high"));
    (u "Maven", VString (u "high"));
    (u "Gradle", VString (u "high"));
    (u "TypeScript", VString (u "medium"));
    (u "Jest/Vitest", VString (u "medium"));
    (u "JUnit", VString (u "medium"));
    (u "pytest", VString (u "medium"));
    (u "Go", VString (u "medium"));
    (u "Java", VString (u "medium"));
    (u "Node", VString (u "medium"));
    (u "ESLint", VString (u "low"));
    (u "ruff/flake8", VString (u "low"));
    (u "mypy", VString (u "low"));
    (u "pip", VString (u "medium"));
    (u "Generic", VString (u "medium")) ].

(** [getDeployRisk(ruleName)]. *)
Definition getDeployRisk (ruleName : jsstring) : value :=
  or_else (get DEPLOY_RISK ruleName) (VString (u "medium")).

Definition is_lower_alnum (c : N) : bool :=
  (in_range 97 122 c || in_range 48 57 c)%bool.

(** [/[^a-z0-9]+/g] *)
Definition re_not_alnum : re := plus (Cls (fun c => negb (is_lower_alnum c))).

(** The expression
    [RUNBOOK_SLUGS[hit.rule] || hit.rule.toLowerCase().replace(/[^a-z0-9]+/g, "-")]
    of [run]; [toLowerCase] is the method of that name. *)
Definition runbook_slug (toLowerCase : jsstring -> jsstring) (rule : jsstring)
    : value :=
  or_else (get RUNBOOK_SLUGS rule)
    (VString (replace_all fl_none re_not_alnum (u "-") (toLowerCase rule))).

End Tables.
(* ===================================================================== *)
(** ** utils.js: reading the inputs                                       *)
(* ===================================================================== *)

Module Config.
Import Regex Text.

Fixpoint leading_digits (s : jsstring) : jsstring :=
  match s with
  | c :: rest => if is_digit c then c :: leading_digits rest else []
  | [] => []
  end.

(** A leading [-] or [+]. *)
Definition strip_sign (t : jsstring) : bool * jsstring :=
  match t with
  | c :: r =>
      if N.eqb c 45 then (true, r)
      else if N.eqb c 43 then (false, r)
      else (false, t)
  | [] => (false, t)
  end.

(** The mathematical value [parseInt(s, 10)] reads: leading white space is
    skipped, a sign is taken, then the longest run of decimal digits; [None]
    is [NaN], when there is no digit. *)
Definition parseInt10 (s : jsstring) : option Z :=
  let signed := strip_sign (Utils.trimStart s) in
  match leading_digits (snd signed) with
  | [] => None
  | ds => Some (if fst signed then - digits_val ds else digits_val ds)
  end.

(** From this magnitude on a number rounds to [Infinity]. *)
Definition overflow : Z := 2 ^ 1024 - 2 ^ 970.

(** [clampInt(val, def, min, max)] for integers [def], [min] and [max],
    the bounds being safe integers as at every call; [val] is a string,
    [None] standing for [null] and [undefined].  A value read beyond the
    safe integers is rounded, which the bounds absorb, or is infinite. *)
Definition clampInt (val : option jsstring) (def min max : Z) : Z :=
  let s := match val with Some v => v | None => dec def end in
  match parseInt10 s with
  | None => def
  | Some n =>
      if (Z.abs n >=? overflow) then def
      else Z.max min (Z.min max n)
  end.

(** [String.prototype.toLowerCase] on the letters A to Z.  The words
    [toBool] compares with are made of ASCII letters and digits, and no
    character outside ASCII has one of their letters as its lower case, so
    for the comparison this is the whole of the method. *)
Definition lower_ascii (s : jsstring) : jsstring := List.map lower s.

(** [toBool(s, def)]; [None] is [null] or [undefined]. *)
Definition toBool (s : option jsstring) (def : bool) : bool :=
  match s with
  | None => def
  | Some x =>
      let v := lower_ascii (Utils.trim x) in
      if mem v [u "1"; u "true"; u "yes"; u "y"; u "on"] then true
      else if mem v [u "0"; u "false"; u "no"; u "n"; u "off"] then false
      else def
  end.

(** [codeBlock(text, lang)]; [None] is a [null] or [undefined] text. *)
Definition codeBlock (text : option jsstring) (lang : jsstring) : jsstring :=
  let safe :=
    replace_all fl_none (lit "```") (u "``\`")
      (match text with Some t => t | None => [] end) in
  [10%N] ++ u "```" ++ lang ++ [10%N] ++ safe ++ [10%N] ++ u "```" ++ [10%N].

End Config.
(* ===================================================================== *)
(** ** utils.js and the entry point: comments on pull requests            *)
(* ===================================================================== *)

Module Comments.
Import Text.

(** Modelled from the spec: the comments kept by the service behind
    [octokit], which is not code of this repository.  A comment belongs to
    one issue or pull request, [on], and has an id of its own; the
    comments are kept in the order of their creation.  Which calls the
    service rejects is its business. *)
Record comment := {
  on : Z;
  c_id : Z;
  c_body : option jsstring;
  c_url : jsstring
}.

Inductive call : Type :=
| ListComments (n : Z)
| UpdateComment (id : Z)
| CreateComment (n : Z)
| DeleteComment (id : Z).

Record service := {
  rejects : call -> bool;
  comment_url : Z -> jsstring
}.

Definition cstore := list comment.

Inductive cresult (A : Type) : Type :=
| Done (a : A) (st : cstore)
| Failed (e : jsstring) (st : cstore).
Arguments Done {A} a st.
Arguments Failed {A} e st.

Definition C (A : Type) : Type := cstore -> cresult A.

Definition cret {A} (a : A) : C A := fun st => Done a st.

Definition cbind {A B} (m : C A) (k : A -> C B) : C B :=
  fun st => match m st with
            | Done a st' => k a st'
            | Failed e st' => Failed e st'
            end.

(** [try { m } catch { }]. *)
Definition attempt (m : C unit) : C unit :=
  fun st => match m st with
            | Done a st' => Done a st'
            | Failed _ st' => Done tt st'
            end.

Definition final_store {A} (r : cresult A) : cstore :=
  match r with Done _ st => st | Failed _ st => st end.

Definition reach (sv : service) (c : call) : C unit :=
  fun st => if rejects sv c then Failed (u "HttpError") st else Done tt st.

(** [octokit.rest.issues.listComments] with [per_page: 100]. *)
Definition listComments (sv : service) (n : Z) : C (list comment) :=
  cbind (reach sv (ListComments n)) (fun _ =>
  fun st => Done (firstn 100 (filter (fun c => on c =? n) st)) st).

Definition has_id (id : Z) (c : comment) : bool := c_id c =? id.

(** [octokit.rest.issues.updateComment]. *)
Definition updateComment (sv : service) (id : Z) (b : jsstring) : C unit :=
  cbind (reach sv (UpdateComment id)) (fun _ =>
  fun st =>
    if existsb (has_id id) st
    then Done tt
           (List.map (fun c => if has_id id c
                               then {| on := on c; c_id := c_id c;
                                       c_body := Some b; c_url := c_url c |}
                               else c) st)
    else Failed (u "Not Found") st).

Definition fresh_id (st : cstore) : Z :=
  1 + fold_right (fun c acc => Z.max (c_id c) acc) 0 st.

(** [octokit.rest.issues.createComment]. *)
Definition createComment (sv : service) (n : Z) (b : jsstring) : C comment :=
  cbind (reach sv (CreateComment n)) (fun _ =>
  fun st =>
    let c := {| on := n; c_id := fresh_id st; c_body := Some b;
                c_url := comment_url sv (fresh_id st) |} in
    Done c (st ++ [c])).

(** [octokit.rest.issues.deleteComment]. *)
Definition deleteComment (sv : service) (id : Z) : C unit :=
  cbind (reach sv (DeleteComment id)) (fun _ =>
  fun st =>
    if existsb (has_id id) st
    then Done tt (filter (fun c => negb (has_id id c)) st)
    else Failed (u "Not Found") st).

(** [(c.body || "").includes(marker)]. *)
Definition mentions (marker : jsstring) (c : comment) : bool :=
  includes (match c_body c with Some b => b | None => [] end) marker.

(** The object [upsertComment] resolves to. *)
Record written := { updated : bool; w_url : jsstring }.

(** [upsertComment(octokit, { owner, repo, issue_number, body, marker })]. *)
Definition upsertComment (sv : service) (issue_number : Z)
    (b marker : jsstring) : C written :=
  cbind (listComments sv issue_number) (fun comments =>
  match find (mentions marker) comments with
  | Some existing =>
      cbind (updateComment sv (c_id existing) b) (fun _ =>
      cret {| updated := true; w_url := c_url existing |})
  | None =>
      cbind (createComment sv issue_number b) (fun created =>
      cret {| updated := false; w_url := c_url created |})
  end).

Definition OLD_MARKERS : list jsstring :=
  [ u "<!-- ci-failure-explainer:v0 -->";
    u "<!-- failure-pattern-detector:v0 -->" ].

(** The body of the inner loop of [deleteOldComments], with its
    [try]/[catch]. *)
Definition delete_marked (sv : service) (prNumber : Z) (marker : jsstring)
    : C unit :=
  attempt
    (cbind (listComments sv prNumber) (fun comments =>
     match find (mentions marker) comments with
     | Some existing => deleteComment sv (c_id existing)
     | None => cret tt
     end)).

Fixpoint for_each {A} (l : list A) (f : A -> C unit) : C unit :=
  match l with
  | [] => cret tt
  | x :: rest => cbind (f x) (fun _ => for_each rest f)
  end.

(** [deleteOldComments(octokit, { owner, repo, prNumbers })]. *)
Definition deleteOldComments (sv : service) (prNumbers : list Z) : C unit :=
  for_each (slice prNumbers 0 3) (fun prNumber =>
    for_each OLD_MARKERS (fun marker => delete_marked sv prNumber marker)).

End Comments.
(* ===================================================================== *)
(** ** pattern-tracker.js: the export of the tracked patterns             *)
(* ===================================================================== *)

Module PatternExport.
Import Regex Groups Text Utils Dates Store Service PatternTracker.

(** Lazy iteration, [a*?]: try the continuation first, and the body once
    more (it has to consume) when the continuation fails. *)
Fixpoint lazy_star (step : pos -> (pos -> option pos) -> option pos)
    (fuel : nat) (s : pos) (k : pos -> option pos) : option pos :=
  match k s with
  | Some e => Some e
  | None =>
      match fuel with
      | O => None
      | S fuel' =>
          step s (fun s' =>
                    if Nat.ltb (remaining s') (remaining s)
                    then lazy_star step fuel' s' k else None)
      end
  end.

(** A pattern [pre(head body*?)post] with one capture group that ends in
    a lazy iteration. *)
Record lazy_grouped := { l_pre : re; l_head : re; l_body : re; l_post : re }.

Definition accepts (fl : flags) (r : re) (s : pos) : bool :=
  match run fl r s (fun e => Some e) with Some _ => true | None => false end.

(** Where the group starts in the first way of matching the whole pattern
    at [s]. *)
Definition lazy_start (fl : flags) (g : lazy_grouped) (s : pos) : option pos :=
  run fl (l_pre g) s
    (fun s1 =>
       match run fl (l_head g) s1
               (fun sh =>
                  lazy_star (run fl (l_body g)) (remaining sh) sh
                    (fun s2 => run fl (l_post g) s2 (fun e => Some e))) with
       | Some _ => Some s1
       | None => None
       end).

(** Where the group then ends. *)
Definition lazy_end (fl : flags) (g : lazy_grouped) (s1 : pos) : option pos :=
  run fl (l_head g) s1
    (fun sh =>
       lazy_star (run fl (l_body g)) (remaining sh) sh
         (fun s2 => if accepts fl (l_post g) s2 then Some s2 else None)).

(** [s.match(re)[1]] for such a pattern without [g]. *)
Fixpoint match_lazy_from (fl : flags) (g : lazy_grouped) (bef aft : list N)
    : option jsstring :=
  match lazy_start fl g {| before := bef; after := aft |} with
  | Some s1 =>
      match lazy_end fl g s1 with
      | Some s2 => Some (between s1 s2)
      | None => None
      end
  | None =>
      match aft with
      | [] => None
      | c :: rest => match_lazy_from fl g (c :: bef) rest
      end
  end.

Definition match_lazy (fl : flags) (g : lazy_grouped) (s : jsstring)
    : option jsstring :=
  match_lazy_from fl g [] s.

(** [/\[CI Pattern ([a-f0-9]+)\]/] *)
Definition hashPattern : grouped :=
  {| g_pre := lit "[CI Pattern ";
     g_grp := plus (Cls is_lower_hex);
     g_post := lit "]" |}.

(** [/\*\*Signature:\*\*\n```\n([\s\S]*?)\n```/] *)
Definition sigPattern : lazy_grouped :=
  {| l_pre := lits (u "**Signature:**" ++ nl ++ u "```" ++ nl);
     l_head := Eps;
     l_body := Cls (fun _ => true);
     l_post := lits (nl ++ u "```") |}.

(** [hashMatch ? hashMatch[1] : ""]. *)
Definition read_hash (title : jsstring) : jsstring :=
  match match_group fl_none hashPattern title with
  | Some m => m
  | None => []
  end.

(** [sigMatch ? sigMatch[1] : item.title]. *)
Definition read_signature (body title : jsstring) : jsstring :=
  match match_lazy fl_none sigPattern body with
  | Some m => m
  | None => title
  end.

(** [s.replace(pat, "")] for a string pattern: the first occurrence is
    removed. *)
Fixpoint remove_first (pat s : jsstring) : jsstring :=
  if startsWith s pat then skipn (List.length pat) s
  else match s with
       | [] => []
       | c :: rest => c :: remove_first pat rest
       end.

(** [labels.find((l) => l.startsWith("severity:"))?.replace("severity:", "")
    || "unknown"]. *)
Definition read_severity (labels : list jsstring) : jsstring :=
  match find (fun l => startsWith l (u "severity:")) labels with
  | Some l =>
      match remove_first (u "severity:") l with
      | [] => u "unknown"
      | s => s
      end
  | None => u "unknown"
  end.

(** The civil date of a day number, day 0 being 1970-01-01. *)
Definition civil_from_days (z : Z) : Z * Z * Z :=
  let z' := z + 719468 in
  let era := z' / 146097 in
  let doe := z' - era * 146097 in
  let yoe := (doe - doe / 1460 + doe / 36524 - doe / 146096) / 365 in
  let doy := doe - (365 * yoe + yoe / 4 - yoe / 100) in
  let mp := (5 * doy + 2) / 153 in
  let d := doy - (153 * mp + 2) / 5 + 1 in
  let m := if mp <? 10 then mp + 3 else mp - 9 in
  let y := yoe + era * 400 + (if m <=? 2 then 1 else 0) in
  (y, m, d).

(** [String(n).padStart(w, "0")] for a natural number [n]. *)
Definition pad (w : nat) (n : Z) : jsstring :=
  let s := dec n in
  repeat 48%N (w - List.length s) ++ s.

(** [d.toISOString()]; [None] is the [RangeError] an invalid date
    raises. *)
Definition toISOString (d : date) : option jsstring :=
  match d with
  | None => None
  | Some t =>
      let day := t / ms_per_day in
      let r := t mod ms_per_day in
      let '(y, m, dd) := civil_from_days day in
      let year :=
        if (0 <=? y) && (y <=? 9999) then pad 4 y
        else if y <? 0 then u "-" ++ pad 6 (- y)
        else u "+" ++ pad 6 y in
      Some (year ++ u "-" ++ pad 2 m ++ u "-" ++ pad 2 dd ++ u "T"
            ++ pad 2 (r / 3600000) ++ u ":" ++ pad 2 (r mod 3600000 / 60000)
            ++ u ":" ++ pad 2 (r mod 60000 / 1000) ++ u "."
            ++ pad 3 (r mod 1000) ++ u "Z")
  end.

(** The element pushed to [patterns]. *)
Record pattern := {
  p_issueNumber : Z;
  p_hash : jsstring;
  p_signature : jsstring;
  p_occurrences : Z;
  p_lastSeen : option jsstring;
  p_severity : jsstring;
  p_muted : bool;
  p_state : istate;
  p_url : jsstring
}.

Definition range_error : jsstring := u "RangeError: Invalid time value".

(** The body of [for (const item of result.data.items)], after the issue
    was fetched. *)
Definition pattern_of (item fetched : issue) : outcome pattern :=
  let b := match body fetched with Some b => b | None => [] end in
  let timestamps := parseOccurrenceTimestamps b in
  let lastSeen :=
    match timestamps with
    | [] => Resolved None
    | t :: rest =>
        match toISOString (latest t rest) with
        | Some s => Resolved (Some s)
        | None => Rejected range_error
        end
    end in
  match lastSeen with
  | Rejected e => Rejected e
  | Resolved seen =>
      Resolved {| p_issueNumber := number item;
                  p_hash := read_hash (title item);
                  p_signature := read_signature b (title item);
                  p_occurrences := len timestamps;
                  p_lastSeen := seen;
                  p_severity := read_severity (labels item);
                  p_muted := mem (u "muted") (labels item);
                  p_state := state item;
                  p_url := html_url item |}
  end.

(** The loop over the items found. *)
Fixpoint export_items (get : Z -> outcome issue) (items : list issue)
    : outcome (list pattern) :=
  match items with
  | [] => Resolved []
  | item :: rest =>
      match get (number item) with
      | Rejected e => Rejected e
      | Resolved fetched =>
          match pattern_of item fetched with
          | Rejected e => Rejected e
          | Resolved p =>
              match export_items get rest with
              | Rejected e => Rejected e
              | Resolved ps => Resolved (p :: ps)
              end
          end
      end
  end.

(** [exportPatternsAsJson(octokit, { issueOwner, issueRepo, label })];
    [found] is what the search for the issues with the label resolves to
    (with [per_page: 100]) and [get] is [octokit.rest.issues.get]. *)
Definition exportPatternsAsJson (found : outcome (list issue))
    (get : Z -> outcome issue) : outcome (list pattern) :=
  match found with
  | Rejected e => Rejected e
  | Resolved items => export_items get items
  end.

End PatternExport.
(* ===================================================================== *)
(** ** error-detector.js: the time it took to fix a failure               *)
(* ===================================================================== *)

Module FixTime.
Import Regex Groups Text Service PatternExport.

(** [/\]\s*(\w[\w/]*?):/] *)
Definition typePattern : lazy_grouped :=
  {| l_pre := Seq (chr 93) (Star sp);
     l_head := wd;
     l_body := Cls (fun c => (is_word c || N.eqb c 47)%bool);
     l_post := chr 58 |}.

(** [typeMatch ? typeMatch[1] : "Generic"]. *)
Definition errorType (title : jsstring) : jsstring :=
  match match_lazy fl_none typePattern title with
  | Some m => m
  | None => u "Generic"
  end.

(** An element of [result.data.items]: a closed issue, with the time
    values of [new Date(item.created_at)] and [new Date(item.closed_at)].
    The service gives both as timestamps with four-digit years. *)
Record closedItem := {
  ci_title : jsstring;
  created_at : Z;
  closed_at : Z
}.

(** [Math.round(n / d)] for integers [n] and [d > 0]: to the nearest
    integer, a half upwards.  The floating-point quotient rounds as the
    exact one does as long as it stays below 2^30 in size, which it does
    for differences of such time values. *)
Definition round_div (n d : Z) : Z := (2 * n + d) / (2 * d).

(** [Math.round((closedAt - createdAt) / 3600000)]. *)
Definition hours (item : closedItem) : Z :=
  round_div (closed_at item - created_at item) 3600000.

(** The object [fixTimes]: its own properties in insertion order. *)
Definition fixTimes := list (jsstring * list Z).

Fixpoint own_times (k : jsstring) (ft : fixTimes) : option (list Z) :=
  match ft with
  | [] => None
  | (k', v) :: rest => if streq k k' then Some v else own_times k rest
  end.

Fixpoint set_times (k : jsstring) (v : list Z) (ft : fixTimes) : fixTimes :=
  match ft with
  | [] => [(k, v)]
  | (k', v') :: rest =>
      if streq k k' then (k', v) :: rest else (k', v') :: set_times k v rest
  end.

Definition type_error : jsstring :=
  u "TypeError: fixTimes[errorType].push is not a function".

(** [if (!fixTimes[errorType]) fixTimes[errorType] = [];
    fixTimes[errorType].push(hours);]
    A name that [fixTimes] inherits from [Object.prototype] reads as a
    function or an object, which is truthy and has no [push]. *)
Definition push_time (errorType : jsstring) (h : Z) (ft : fixTimes)
    : outcome fixTimes :=
  match own_times errorType ft with
  | Some times => Resolved (set_times errorType (times ++ [h]) ft)
  | None =>
      match assoc errorType object_prototype with
      | Some _ => Rejected type_error
      | None => Resolved (set_times errorType [h] ft)
      end
  end.

(** The loop [for (const item of result.data.items)]. *)
Fixpoint collect (items : list closedItem) (ft : fixTimes) : outcome fixTimes :=
  match items with
  | [] => Resolved ft
  | item :: rest =>
      match push_time (errorType (ci_title item)) (hours item) ft with
      | Resolved ft' => collect rest ft'
      | Rejected e => Rejected e
      end
  end.

(** [times.sort((a, b) => a - b)], computed by insertion. *)
Fixpoint insert_asc (x : Z) (l : list Z) : list Z :=
  match l with
  | [] => [x]
  | y :: rest =>
      if x - y <=? 0 then x :: y :: rest else y :: insert_asc x rest
  end.

Definition sort_asc (l : list Z) : list Z := fold_right insert_asc [] l.

(** The value stored in [medians[type]], for a non-empty array. *)
Definition median (times : list Z) : Z :=
  let sorted := sort_asc times in
  let mid := len sorted / 2 in
  if len sorted mod 2 =? 0
  then round_div (nth (Z.to_nat (mid - 1)) sorted 0
                  + nth (Z.to_nat mid) sorted 0) 2
  else nth (Z.to_nat mid) sorted 0.

(** [computeTimeToFix(octokit, { owner, repo, label })]; [found] is what
    the search for the closed issues with the label resolves to (with
    [per_page: 50]).  The result lists the properties of [medians], which
    the program reads by name only. *)
Definition computeTimeToFix (found : outcome (list closedItem))
    : outcome (list (jsstring * Z)) :=
  match found with
  | Rejected e => Rejected e
  | Resolved items =>
      match collect items [] with
      | Rejected e => Rejected e
      | Resolved ft =>
          Resolved (List.map (fun e => (fst e, median (snd e))) ft)
      end
  end.

(** [medians[type]]; [None] is [undefined]. *)
Fixpoint median_of (k : jsstring) (m : list (jsstring * Z)) : option Z :=
  match m with
  | [] => None
  | (k', v) :: rest => if streq k k' then Some v else median_of k rest
  end.

(** [formatFixTime(hours)] for an integer number of hours. *)
Definition formatFixTime (h : Z) : jsstring :=
  if h <? 1 then u "<1h"
  else if h <? 24 then dec h ++ u "h"
  else dec (round_div h 24) ++ u "d".

End FixTime.
(* ===================================================================== *)
(** ** error-detector.js: file paths in an error                          *)
(* ===================================================================== *)

Module Paths.
Import Regex Groups Text.

(** The class of the three quote characters: apostrophe, quotation mark
    and backtick. *)
Definition is_quote (c : N) : bool :=
  (N.eqb c 39 || N.eqb c 34 || N.eqb c 96)%bool.

(** [[\w.-]] *)
Definition is_path_atom (c : N) : bool :=
  (is_word c || N.eqb c 46 || N.eqb c 45)%bool.

(** [[a-zA-Z]] *)
Definition is_alpha (c : N) : bool :=
  (in_range 97 122 c || in_range 65 90 c)%bool.

(** [/(?:^|\s|Q)((?:\.\/)?(?:[\w.-]+\/)*[\w.-]+\.[a-zA-Z]{1,5})(?::\d+)?/g],
    where Q is the class of the quote characters. *)
Definition pathRe : grouped :=
  {| g_pre := alts [Bol; sp; Cls is_quote];
     g_grp := seqs [opt (lit "./");
                    Star (Seq (plus (Cls is_path_atom)) (chr 47));
                    plus (Cls is_path_atom);
                    chr 46;
                    range 1 5 (Cls is_alpha)];
     g_post := opt (Seq (chr 58) (plus dg)) |}.

(** The match of a pattern with one group at the position [s]: where the
    group starts, where it ends, and where the match ends. *)
Definition group_at (fl : flags) (g : grouped) (s : pos)
    : option (pos * pos * pos) :=
  match group_start fl g s with
  | Some s1 =>
      match group_end fl g s1 with
      | Some s2 =>
          match match_at fl (g_post g) s2 with
          | Some e => Some (s1, s2, e)
          | None => None
          end
      | None => None
      end
  | None => None
  end.

(** Leftmost match at or after the position [(bef, aft)]. *)
Fixpoint search_group (fl : flags) (g : grouped) (bef aft : list N)
    : option (pos * pos * pos) :=
  match group_at fl g {| before := bef; after := aft |} with
  | Some r => Some r
  | None =>
      match aft with
      | [] => None
      | c :: rest => search_group fl g (c :: bef) rest
      end
  end.

(** The loop [while ((m = re.exec(s)) !== null)] over a pattern with [g]
    and one group: the texts [m[1]], left to right.  [p] is the position
    [lastIndex]. *)
Fixpoint exec_groups_from (fuel : nat) (fl : flags) (g : grouped) (p : pos)
    : list jsstring :=
  match fuel with
  | O => []
  | S fuel' =>
      match search_group fl g (before p) (after p) with
      | None => []
      | Some (s1, s2, e) =>
          between s1 s2
          :: (if Nat.ltb (remaining e) (remaining p)
              then exec_groups_from fuel' fl g e
              else match after e with
                   | [] => []
                   | c :: rest =>
                       exec_groups_from fuel' fl g
                         {| before := c :: before e; after := rest |}
                   end)
      end
  end.

Definition exec_groups (fl : flags) (g : grouped) (s : jsstring)
    : list jsstring :=
  exec_groups_from (S (List.length s)) fl g {| before := []; after := s |}.

(** [/^\.\//] *)
Definition re_dot_slash : re := seqs [Bol; lit "./"].

Definition EXTENSIONS : list jsstring :=
  [ u "js"; u "ts"; u "jsx"; u "tsx"; u "py"; u "go"; u "java"; u "rb";
    u "rs"; u "css"; u "scss"; u "vue"; u "svelte" ].

(** [/\.(js|ts|jsx|tsx|py|go|java|rb|rs|css|scss|vue|svelte)$/i] *)
Definition re_source : re :=
  seqs [chr 46; alts (List.map lits EXTENSIONS); Eol].

(** [paths.add(p)] on a [Set], its elements in insertion order. *)
Definition add (p : jsstring) (paths : list jsstring) : list jsstring :=
  if mem p paths then paths else paths ++ [p].

(** The body of [for (const line of sources)]. *)
Definition scan_line (paths : list jsstring) (line : jsstring)
    : list jsstring :=
  fold_left
    (fun paths m =>
       let p := replace fl_none re_dot_slash [] m in
       if test fl_i re_source p then add p paths else paths)
    (exec_groups fl_none pathRe line) paths.

(** [extractFilePaths(errorLine, excerpt)]; [None] is a falsy
    [excerpt]. *)
Definition extractFilePaths (errorLine : jsstring)
    (excerpt : option (list jsstring)) : list jsstring :=
  let sources :=
    errorLine :: match excerpt with Some l => l | None => [] end in
  slice (fold_left scan_line sources []) 0 5.

End Paths.
(* ===================================================================== *)
(** ** Specification-side notions                                         *)
(* ===================================================================== *)

Module Spec.
Import StepIndex ErrorDetector.

(** The last boundary, in list order, whose [idx] is at most [q]. *)
Definition last_before (ss : list stepStart) (q : Z) : option stepStart :=
  fold_left (fun acc s => if idx s <=? q then Some s else acc) ss None.

(** Boundaries in non-decreasing [idx] order (section 3 of the
    specification). *)
Definition nondecreasing (ss : list stepStart) : Prop :=
  forall (i j : nat) (a b : stepStart),
    (i <= j)%nat -> nth_error ss i = Some a -> nth_error ss j = Some b ->
    idx a <= idx b.

(** [l] is the line of lowest index [i] that satisfies [p]. *)
Definition lowest_match (p : jsstring -> bool) (lines : list jsstring)
    (i : nat) (l : jsstring) : Prop :=
  nth_error lines i = Some l /\ p l = true /\
  forall j l', (j < i)%nat -> nth_error lines j = Some l' -> p l' = false.

Definition matches_no_line (p : jsstring -> bool) (lines : list jsstring)
    : Prop :=
  forall l, In l lines -> p l = false.

(** Equality of two code units up to the case of ASCII letters. *)
Definition ci_char (a b : N) : bool := N.eqb (Regex.upper a) (Regex.upper b).

(** [w] is a prefix of [s], letter case ignored. *)
Fixpoint ci_prefix (w s : jsstring) : bool :=
  match w, s with
  | [], _ => true
  | _ :: _, [] => false
  | a :: w', b :: s' => (ci_char a b && ci_prefix w' s')%bool
  end.

(** [w] occurs somewhere in [l], letter case ignored. *)
Definition occurs_ci (w l : jsstring) : Prop :=
  exists pre post, l = pre ++ post /\ ci_prefix w post = true.

Definition ends_with_word_char (pre : jsstring) : bool :=
  match rev pre with c :: _ => Regex.is_word c | [] => false end.

Definition starts_with_word_char (post : jsstring) : bool :=
  match post with c :: _ => Regex.is_word c | [] => false end.

(** [w] occurs in [l] as a word of its own, letter case ignored: no word
    character stands right before or right after it. *)
Definition occurs_as_word_ci (w l : jsstring) : Prop :=
  exists pre post,
    l = pre ++ post /\ ci_prefix w post = true /\
    ends_with_word_char pre = false /\
    starts_with_word_char (skipn (List.length w) post) = false.

(** A group, endgroup, debug or notice annotation of the log. *)
Definition annotation_line (l : jsstring) : Prop :=
  occurs_ci (u "##[group]") l \/ occurs_ci (u "##[endgroup]") l \/
  occurs_ci (u "##[debug]") l \/ occurs_ci (u "##[notice]") l.

(** The line holds a token of the generic failure vocabulary. *)
Definition failure_vocabulary (l : jsstring) : Prop :=
  occurs_as_word_ci (u "error") l \/ occurs_ci (u "exception") l \/
  occurs_ci (u "failed") l.

(** What the fallback scan looks for. *)
Definition generic_line (l : jsstring) : Prop :=
  ~ annotation_line l /\ failure_vocabulary l.

(** [l] is the line of lowest index [i] that is a [generic_line]. *)
Definition lowest_generic_line (lines : list jsstring) (i : nat)
    (l : jsstring) : Prop :=
  nth_error lines i = Some l /\ generic_line l /\
  forall j l', (j < i)%nat -> nth_error lines j = Some l' -> ~ generic_line l'.

Definition is_some {A} (o : option A) : bool :=
  match o with Some _ => true | None => false end.

(** The string contains a colon immediately followed by a decimal digit. *)
Fixpoint has_colon_digit (s : jsstring) : bool :=
  match s with
  | [] => false
  | c :: rest =>
      (N.eqb c 58 && match rest with d :: _ => Regex.is_digit d | [] => false end
       || has_colon_digit rest)%bool
  end.

(** The position after the run of decimal digits that starts at [aft]. *)
Fixpoint skip_digits (bef aft : list N) : Regex.pos :=
  match aft with
  | d :: rest =>
      if Regex.is_digit d then skip_digits (d :: bef) rest
      else {| Regex.before := bef; Regex.after := aft |}
  | [] => {| Regex.before := bef; Regex.after := [] |}
  end.

End Spec.


Module StoreSpec.
Import Store Api.

Definition with_issues (w : world) (l : list issue) : world :=
  {| issues := l; pulls := pulls w; now := now w |}.

(** [f] applied to the issues numbered [n]. *)
Definition upd (n : Z) (f : issue -> issue) (i : issue) : issue :=
  if number i =? n then f i else i.

Definition w_upd (n : Z) (f : issue -> issue) (w : world) : world :=
  with_issues w (List.map (upd n f) (issues w)).

(** The issue numbered [n] replaced by [x]. *)
Definition w_put (n : Z) (x : issue) (w : world) : world :=
  with_issues w (List.map (fun j => if number j =? n then x else j) (issues w)).

(** Labels left after removing the labels [stale] one after the other. *)
Definition remove_all (stale ls : list jsstring) : list jsstring :=
  fold_left (fun acc l => filter (fun x => negb (streq x l)) acc) stale ls.

(** The service rejects no call. *)
Definition healthy (ok : octokit) : Prop := forall ep, fails ok ep = false.

(** Issue numbers identify issues. *)
Definition well_formed (w : world) : Prop := NoDup (List.map number (issues w)).

(** No issue is closed in [w'] that was not already closed in [w]. *)
Definition nothing_closed (w w' : world) : Prop :=
  forall i', In i' (issues w') -> state i' = Closed ->
    exists i, In i (issues w) /\ number i = number i' /\ state i = Closed.

(** A replacement of a record that keeps its number and does not close
    it. *)
Definition closes_nothing (j j' : issue) : Prop :=
  number j' = number j /\ (state j' = Closed -> state j = Closed).

(** A computation that relates every store it starts from to the store it
    ends with, whether it fails or not. *)
Definition preserves {A} (R : world -> world -> Prop) (m : M A) : Prop :=
  forall w, R w (final_world (m w)).

(** On a well-formed store at clock [t] that holds an issue [i] numbered
    [n], the computation [m] succeeds with value [v i] and leaves [f i] in
    the place of [i]. *)
Definition acts {A} (n t : Z) (m : M A) (v : issue -> A) (f : issue -> issue)
    : Prop :=
  forall w i,
    well_formed w -> now w = t -> find_issue n (issues w) = Some i ->
    m w = Ok (v i) (w_put n (f i) w).

Definition keeps_number (f : issue -> issue) : Prop :=
  forall i, number (f i) = number i.

End StoreSpec.

Module UpsertSpec.
Import Text Dates Store Api PatternTracker StoreSpec.

(** The labels of a record after [applySeverityLabel]: severity labels
    other than the target removed, the target added when it was not
    listed. *)
Definition severity_labels (sev : value) (ls : list jsstring)
    : list jsstring :=
  let targetLabel := u "severity:" ++ to_string sev in
  let seen := firstn 100 ls in
  let stale :=
    filter (fun l => (startsWith l (u "severity:")
                      && negb (streq l targetLabel))%bool) seen in
  let kept := remove_all stale ls in
  if mem targetLabel seen then kept
  else kept ++ filter (fun l => negb (mem l kept)) [targetLabel].

(** The occurrence timestamps an upsert reads back from the body of the
    record [i] once the new occurrence is inserted. *)
Definition found_timestamps (item i : issue) (occ : occurrence) : list date :=
  parseOccurrenceTimestamps
    (insert_occurrence (match body i with Some b => b | None => [] end) occ
       (mem (u "muted") (labels item))).

Definition found_stats (item i : issue) (occ : occurrence) (t : Z)
    : windowStats :=
  computeWindowStats (found_timestamps item i occ) t.

(** Whether an upsert that finds [item] reports the threshold crossing. *)
Definition crossing (item i : issue) (occ : occurrence) (thr : Z) : bool :=
  ((thr >? 0) && (len (found_timestamps item i occ) >=? thr)
   && negb (mem threshold_label (labels item)))%bool.

(** The record an upsert leaves in the place of the record [i] it found
    through the search result [item], at clock [t]. *)
Definition found_issue (item : issue) (occ : occurrence) (ruleName : jsstring)
    (thr t : Z) (i : issue) : issue :=
  let stats := found_stats item i occ t in
  let ls :=
    severity_labels (Severity.classifySeverity ruleName (last7 stats))
      (labels i) in
  {| number := number i;
     title := title i;
     body :=
       Some (appendStatsLine
               (insert_occurrence
                  (match body i with Some b => b | None => [] end) occ
                  (mem (u "muted") (labels item)))
               stats);
     state := match state item with Closed => Open | Open => state i end;
     labels :=
       if crossing item i occ thr
       then ls ++ filter (fun l => negb (mem l ls)) [threshold_label]
       else ls;
     comments :=
       match state item with
       | Closed => comments i ++ [recurred_comment]
       | Open => comments i
       end;
     html_url := html_url i |}.

(** The value that upsert resolves to. *)
Definition found_result (item : issue) (occ : occurrence) (ruleName : jsstring)
    (thr t : Z) (i : issue) : upsertResult :=
  {| kind := match state item with Closed => Reopened | Open => Updated end;
     issueNumber := number item;
     url := html_url item;
     severity :=
       Severity.classifySeverity ruleName (last7 (found_stats item i occ t));
     muted := mem (u "muted") (labels item);
     totalOccurrences := len (found_timestamps item i occ);
     thresholdReached := crossing item i occ thr |}.

(** The arguments of one upsert. *)
Record upsertArgs := {
  a_label : jsstring;
  a_signature : jsstring;
  a_hash : jsstring;
  a_occurrence : occurrence;
  a_rule : jsstring;
  a_threshold : Z
}.

Definition run_upsert (ok : octokit) (a : upsertArgs) : M upsertResult :=
  upsertIssueForSignature ok (a_label a) (a_signature a) (a_hash a)
    (a_occurrence a) (a_rule a) (a_threshold a).

(** Upserts run one after the other, each from the store the previous one
    left; the outcomes in order. *)
Fixpoint run_upserts (ok : octokit) (l : list upsertArgs) (w : world)
    : list (result upsertResult) :=
  match l with
  | [] => []
  | a :: rest =>
      let r := run_upsert ok a w in
      r :: run_upserts ok rest (final_world r)
  end.

(** The record numbered [n] carries the one-shot threshold label. *)
Definition has_threshold_label (n : Z) (w : world) : Prop :=
  exists i, find_issue n (issues w) = Some i /\
            mem threshold_label (labels i) = true.

(** Well-formedness and the threshold labels are kept. *)
Definition keeps_marks (w w' : world) : Prop :=
  (well_formed w -> well_formed w') /\
  (forall n, has_threshold_label n w -> has_threshold_label n w').

(** A replacement of a record that keeps its number and its threshold
    label. *)
Definition keeps_mark (j j' : issue) : Prop :=
  number j' = number j /\
  (mem threshold_label (labels j) = true ->
   mem threshold_label (labels j') = true).

End UpsertSpec.
(* ===================================================================== *)
(** ** Specification-side notions: matching, lines, steps                 *)
(* ===================================================================== *)

Module RegexSpec.
Import Regex.

(** [matches fl r s e]: the pattern [r] can match the text between the
    positions [s] and [e]; priorities play no role. *)
Inductive matches (fl : flags) : re -> pos -> pos -> Prop :=
| m_eps (s : pos) : matches fl Eps s s
| m_cls (p : N -> bool) (c : N) (bef rest : list N) :
    cls_match fl p c = true ->
    matches fl (Cls p) {| before := bef; after := c :: rest |}
      {| before := c :: bef; after := rest |}
| m_seq (a b : re) (s1 s2 s3 : pos) :
    matches fl a s1 s2 -> matches fl b s2 s3 -> matches fl (Seq a b) s1 s3
| m_alt_l (a b : re) (s e : pos) :
    matches fl a s e -> matches fl (Alt a b) s e
| m_alt_r (a b : re) (s e : pos) :
    matches fl b s e -> matches fl (Alt a b) s e
| m_star_nil (a : re) (s : pos) : matches fl (Star a) s s
| m_star_cons (a : re) (s1 s2 s3 : pos) :
    matches fl a s1 s2 -> matches fl (Star a) s2 s3 ->
    matches fl (Star a) s1 s3
| m_bol (s : pos) : at_bol fl s = true -> matches fl Bol s s
| m_eol (s : pos) : at_eol fl s = true -> matches fl Eol s s
| m_wordb (s : pos) :
    xorb (prev_is_word s) (next_is_word s) = true -> matches fl WordB s s.

(** [e] is a position of the subject of [s], [mid] further on. *)
Definition span (s : pos) (mid : list N) (e : pos) : Prop :=
  after s = mid ++ after e /\ before e = rev mid ++ before s.

(** The whole text a position belongs to. *)
Definition subject (s : pos) : jsstring := rev (before s) ++ after s.

End RegexSpec.

Module StepSpec.
Import StepIndex StepDetection.

Definition marker : jsstring := u "##[group]".

(** The text cut at every line feed, a carriage return right before a line
    feed belonging to the cut; [cur] is the line read so far. *)
Fixpoint lines_from (cur : jsstring) (s : jsstring) : list jsstring :=
  match s with
  | [] => [cur]
  | c :: rest =>
      if N.eqb c 10 then cur :: lines_from [] rest
      else
        match rest with
        | d :: rest' =>
            if (N.eqb c 13 && N.eqb d 10)%bool then cur :: lines_from [] rest'
            else lines_from (cur ++ [c]) rest
        | [] => lines_from (cur ++ [c]) rest
        end
  end.

Definition lines_of (s : jsstring) : list jsstring := lines_from [] s.

(** The step a hit on line [k] is attributed to: the last boundary found
    on the lines [0..k]; when there is none, the first boundary of the
    log; when the log has no boundary, the sentinel. *)
Definition step_at (lines : list jsstring) (k : Z) : jsstring :=
  match rev (buildStepIndex (firstn (S (Z.to_nat k)) lines)) with
  | b :: _ => name b
  | [] =>
      match buildStepIndex lines with
      | first :: _ => name first
      | [] => unknown_step
      end
  end.

End StepSpec.

Module FlakySpec.
Import Service Flaky.

(** The first job of the run that carries the name concluded with [c];
    false when the listing is rejected or holds no such job. *)
Definition concluded (api : actions) (jobName : jsstring) (c : string)
    (run : Z) : bool :=
  match listJobsForWorkflowRun api run with
  | Resolved jobs =>
      match find (fun j => streq (jname j) jobName) jobs with
      | Some j => conclusion_is j c
      | None => false
      end
  | Rejected _ => false
  end.

Definition listing_resolves (api : actions) (run : Z) : Prop :=
  exists jobs, listJobsForWorkflowRun api run = Resolved jobs.

End FlakySpec.

Module ReviewersSpec.
Import Service Text Reviewers.

(** Whether a commit counts for its author. *)
Definition eligible (prAuthor : jsstring) (l : jsstring) : bool :=
  match l with
  | [] => false
  | _ => negb (streq l prAuthor || includes l (u "[bot]"))
  end.

Definition eligible_logins (prAuthor : jsstring) (cs : list commit)
    : list jsstring :=
  flat_map (fun c => match c with
                     | Some l => if eligible prAuthor l then [l] else []
                     | None => []
                     end) cs.

(** The authors of the commits that count, one entry per commit, over the
    files whose listing resolved. *)
Definition counted (listCommits : jsstring -> outcome (list commit))
    (prAuthor : jsstring) (filePaths : list jsstring) : list jsstring :=
  flat_map (fun p => match listCommits p with
                     | Resolved cs => eligible_logins prAuthor cs
                     | Rejected _ => []
                     end) filePaths.

(** Number of entries of [l] equal to [x]. *)
Definition occurrences (l : list jsstring) (x : jsstring) : Z :=
  len (filter (streq x) l).

Definition resolves (listCommits : jsstring -> outcome (list commit))
    (p : jsstring) : bool :=
  match listCommits p with Resolved _ => true | Rejected _ => false end.

(** The value under a key, [0] without one. *)
Definition val (x : jsstring) (m : counts) : Z :=
  match map_get x m with Some n => n | None => 0 end.

Definition keys (m : counts) : list jsstring := List.map fst m.

End ReviewersSpec.

Module SweepSpec.
Import Text Dates Store Api PatternTracker StoreSpec.

Definition body_text (i : issue) : jsstring :=
  match body i with Some b => b | None => [] end.

(** The latest occurrence timestamp in the body of a record, [None] when
    the body holds no occurrence line. *)
Definition last_seen (i : issue) : option date :=
  match parseOccurrenceTimestamps (body_text i) with
  | [] => None
  | t :: ts => Some (latest t ts)
  end.

(** The record has an occurrence line, and its latest occurrence is not at
    or after the cutoff. *)
Definition quiet (cutoff : Z) (i : issue) : bool :=
  match last_seen i with
  | Some d => negb (ge d (Some cutoff))
  | None => false
  end.

(** The merged pull requests the sweep links to the issue [n]. *)
Definition fixing_prs (ok : octokit) (ps : list pull) (n : Z) : list pull :=
  filter
    (fun pr =>
       let text := match pbody pr with Some b => b | None => [] end
                   ++ u " " ++ ptitle pr in
       (includes text (u "#" ++ dec n)
        || includes text (u "issues/" ++ dec n))%bool)
    (firstn 5 (filter (pull_match ok n) ps)).

(** The record as the sweep leaves it when it closes it at clock [t]. *)
Definition closed_issue (ok : octokit) (ps : list pull) (t : Z) (i : issue)
    : issue :=
  {| number := number i; title := title i; body := body i; state := Closed;
     labels := labels i;
     comments :=
       comments i
       ++ [close_message
             (match last_seen i with Some d => d | None => None end) t
             (fixing_prs ok ps (number i))];
     html_url := html_url i |}.

Definition close_all (ok : octokit) (w : world) (items : list issue) : world :=
  fold_left
    (fun w' i => w_put (number i) (closed_issue ok (pulls w) (now w) i) w')
    items w.

(** The issue is one of the batch. *)
Definition listed (items : list issue) (i : issue) : bool :=
  existsb (fun it => number it =? number i) items.

End SweepSpec.

Module CreateSpec.
Import Text Dates Store Api PatternTracker StoreSpec UpsertSpec.

(** The title an upsert gives the record it creates. *)
Definition created_title (a : upsertArgs) : jsstring :=
  u "[CI Pattern " ++ slice (a_hash a) 0 8 ++ u "] "
  ++ slice (a_signature a) 0 120.

Definition created_header (a : upsertArgs) : jsstring :=
  ISSUE_MARKER ++ nl ++ nl ++ u "**Signature:**" ++ nl ++ u "```" ++ nl
  ++ a_signature a ++ nl ++ u "```" ++ nl ++ nl.

(** The record an upsert creates in the store [w]. *)
Definition created_issue (ok : octokit) (a : upsertArgs) (w : world) : issue :=
  {| number := fresh_number (issues w);
     title := created_title a;
     body :=
       Some (created_header a ++ heading ++ nl ++ occLine (a_occurrence a)
             ++ nl);
     state := Open;
     labels :=
       [a_label a;
        u "severity:" ++ to_string (Severity.classifySeverity (a_rule a) 0)];
     comments := [];
     html_url := url_of ok (fresh_number (issues w)) |}.

Definition created_result (ok : octokit) (a : upsertArgs) (w : world)
    : upsertResult :=
  {| kind := Created;
     issueNumber := fresh_number (issues w);
     url := url_of ok (fresh_number (issues w));
     severity := Severity.classifySeverity (a_rule a) 0;
     muted := false;
     totalOccurrences := 1;
     thresholdReached := false |}.

End CreateSpec.

Module TablesSpec.
Import ErrorDetector Tables.

Definition is_level (v : value) : bool :=
  match v with
  | VString s => (streq s (u "high") || streq s (u "medium") || streq s (u "low"))%bool
  | _ => false
  end.

(** The category has an entry of its own in each of the three tables. *)
Definition covered (name : jsstring) : bool :=
  (match assoc_hints name hints with
   | Some (a, _) => match a with [] => false | _ => true end
   | None => false
   end
   && match assoc name DEPLOY_RISK with Some v => is_level v | None => false end
   && match assoc name RUNBOOK_SLUGS with
      | Some (VString (_ :: _)) => true
      | _ => false
      end)%bool.

(** The categories the classifier reports without custom rules. *)
Definition builtin_categories : list jsstring :=
  List.map rname builtin_rules ++ [u "Generic"].

End TablesSpec.

Module ReplaceSpec.
Import Regex.

(** The position after the run of code units satisfying [p] that starts
    at [aft]. *)
Fixpoint skip_while (p : N -> bool) (bef aft : list N) : pos :=
  match aft with
  | c :: rest =>
      if p c then skip_while p (c :: bef) rest
      else {| before := bef; after := aft |}
  | [] => {| before := bef; after := [] |}
  end.

Definition tick : N := 96.

(** Number of backticks the text starts with. *)
Fixpoint lead (s : jsstring) : nat :=
  match s with
  | c :: rest => if N.eqb c tick then S (lead rest) else O
  | [] => O
  end.

(** No run of backticks in [s] is longer than [limit], [cur] backticks
    standing right before [s]. *)
Fixpoint bounded (limit cur : nat) (s : jsstring) : bool :=
  match s with
  | [] => true
  | c :: rest =>
      if N.eqb c tick
      then (Nat.leb (S cur) limit && bounded limit (S cur) rest)%bool
      else bounded limit 0 rest
  end.

(** The pattern and the replacement of [codeBlock]. *)
Definition fence : re := lit "```".
Definition escaped : jsstring := u "``\`".

(** A code unit a slug is made of: a lower-case letter, a digit or a
    hyphen. *)
Definition slug_char (c : N) : bool :=
  (in_range 97 122 c || in_range 48 57 c || N.eqb c 45)%bool.

End ReplaceSpec.

Module CommentsSpec.
Import Text Comments.

(** The service rejects no call. *)
Definition obliging (sv : service) : Prop := forall c, rejects sv c = false.

(** Comment ids identify comments. *)
Definition unique_ids (st : cstore) : Prop := NoDup (List.map c_id st).

(** The comments on the issue or pull request [n]. *)
Definition thread (n : Z) (st : cstore) : list comment :=
  filter (fun c => on c =? n) st.

(** The comment carries the marker of one of the former actions. *)
Definition old_marked (c : comment) : bool :=
  existsb (fun m => mentions m c) OLD_MARKERS.

(** The comment [c] with the body [b]. *)
Definition with_body (b : jsstring) (c : comment) : comment :=
  {| on := on c; c_id := c_id c; c_body := Some b; c_url := c_url c |}.

(** Nothing is added, and what is removed satisfies [gone]. *)
Definition only_removes (gone : comment -> Prop) (st st' : cstore) : Prop :=
  (forall c, In c st' -> In c st) /\
  (forall c, In c st -> In c st' \/ gone c) /\
  (unique_ids st -> unique_ids st').

End CommentsSpec.

Module StatsSpec.
Import Regex Text PatternTracker.

(** What a statistics line starts with. *)
Definition stats_prefix : jsstring := u "**Last 7d:**".

Definition not_terminator (c : N) : bool := negb (is_line_terminator c).

(** The statistics line for [stats]. *)
Definition stats_line (stats : windowStats) : jsstring :=
  u "**Last 7d:** " ++ dec (last7 stats) ++ u " | **Last 14d:** "
  ++ dec (last14 stats).

(** The text is empty or starts with a line terminator. *)
Definition line_ends (post : jsstring) : Prop :=
  match post with
  | [] => True
  | c :: _ => is_line_terminator c = true
  end.

End StatsSpec.

Module OccurrenceSpec.
Import Regex Text PatternTracker.

(** The text starts with one code unit of each class, in order. *)
Fixpoint starts_with_classes (ps : list (N -> bool)) (s : jsstring) : bool :=
  match ps, s with
  | [], _ => true
  | _ :: _, [] => false
  | p :: ps', c :: s' => (p c && starts_with_classes ps' s')%bool
  end.

(** The classes of the occurrence pattern after its anchor: a hyphen, a
    space, and a timestamp with milliseconds and the zone Z. *)
Definition occ_classes : list (N -> bool) :=
  [N.eqb 45; N.eqb 32]
  ++ repeat is_digit 4 ++ [N.eqb 45] ++ repeat is_digit 2 ++ [N.eqb 45]
  ++ repeat is_digit 2 ++ [N.eqb 84] ++ repeat is_digit 2 ++ [N.eqb 58]
  ++ repeat is_digit 2 ++ [N.eqb 58] ++ repeat is_digit 2 ++ [N.eqb 46]
  ++ repeat is_digit 3 ++ [N.eqb 90].

(** The occurrence lines of a text, read line start by line start:
    [bol] tells whether the text starts a line. *)
Fixpoint occ_lines (bol : bool) (s : jsstring) : list jsstring :=
  (if (bol && starts_with_classes occ_classes s)%bool
   then [firstn 26 s] else [])
  ++ match s with
     | [] => []
     | c :: rest => occ_lines (is_line_terminator c) rest
     end.

(** Whether a line starts after [pre], which follows a position where
    [bol] tells the same. *)
Definition bol_after (bol : bool) (pre : jsstring) : bool :=
  match rev pre with
  | [] => bol
  | c :: _ => is_line_terminator c
  end.

End OccurrenceSpec.

Module ExportSpec.
Import Text PatternTracker UpsertSpec CreateSpec.

(** The line that closes the block of the signature, with the line break
    before it. *)
Definition closing : jsstring := nl ++ u "```".

(** The body an upsert gives the record it creates. *)
Definition created_body (a : upsertArgs) : jsstring :=
  created_header a ++ heading ++ nl ++ occLine (a_occurrence a) ++ nl.

End ExportSpec.

Module FixTimeSpec.
Import Text FixTime.

(** The fix times, in hours, of the items whose title gives the type
    [t], in the order of the items. *)
Definition hours_of_type (t : jsstring) (items : list closedItem) : list Z :=
  List.map hours
    (filter (fun i => streq (errorType (ci_title i)) t) items).

Definition count_le (m : Z) (l : list Z) : nat :=
  List.length (filter (fun x => x <=? m) l).

Definition count_ge (m : Z) (l : list Z) : nat :=
  List.length (filter (fun x => m <=? x) l).

(** [m] splits the values in two halves: at least half of them are at
    most [m], and at least half are at least [m]. *)
Definition halves (m : Z) (l : list Z) : Prop :=
  l <> [] /\
  (List.length l <= 2 * count_le m l)%nat /\
  (List.length l <= 2 * count_ge m l)%nat.

(** What the array of a type holds while the items are collected: the
    hours of the items seen that have the type, when there is one. *)
Definition holds (ft : fixTimes) (seen : list closedItem) : Prop :=
  NoDup (List.map fst ft) /\
  forall t, own_times t ft
            = match hours_of_type t seen with
              | [] => None
              | l => Some l
              end.

(** The name of a property that object literals inherit. *)
Definition inherited (t : jsstring) : Prop :=
  assoc t object_prototype <> None.

(** Values in ascending order. *)
Fixpoint ascending (l : list Z) : Prop :=
  match l with
  | [] => True
  | x :: rest => Forall (fun y => x <= y) rest /\ ascending rest
  end.

End FixTimeSpec.

Module PathsSpec.
Import Regex Text Spec Paths.

(** A code unit a path is made of: a letter, a digit, an underscore, a
    dot, a hyphen or a slash. *)
Definition path_char (c : N) : bool :=
  (is_word c || N.eqb c 46 || N.eqb c 45 || N.eqb c 47)%bool.

(** Every class of the pattern lies within [p]. *)
Fixpoint only_classes (p : N -> bool) (r : re) : Prop :=
  match r with
  | Cls q => forall c, q c = true -> p c = true
  | Seq a b => only_classes p a /\ only_classes p b
  | Alt a b => only_classes p a /\ only_classes p b
  | Star a => only_classes p a
  | _ => True
  end.

(** The same text up to the case of ASCII letters. *)
Definition ci_equal (a b : jsstring) : Prop :=
  List.length b = List.length a /\ ci_prefix a b = true.

(** The text ends with a dot and one of the extensions, letter case
    ignored. *)
Definition has_source_extension (p : jsstring) : Prop :=
  exists stem x ext,
    p = stem ++ 46%N :: x /\ In ext EXTENSIONS /\ ci_equal ext x.

(** The text [p] stands somewhere in [line]. *)
Definition occurs_in (p line : jsstring) : Prop :=
  exists a b, line = a ++ p ++ b.

(** What holds of a path found in one of the lines [sources]. *)
Definition found_path (sources : list jsstring) (p : jsstring) : Prop :=
  Forall (fun c => path_char c = true) p /\
  has_source_extension p /\
  exists line, In line sources /\ occurs_in p line.

End PathsSpec.
(* ===================================================================== *)
(** ** Sample inputs                                                      *)
(* ===================================================================== *)

Module Samples.
Import StepIndex ErrorDetector Regex Text.

(** A log of twenty lines whose line 5 is a build failure. *)
Definition build_log : list jsstring :=
  List.map (fun j => if j =? 5 then u "Build failed" else u "ok " ++ dec j)
    [0; 1; 2; 3; 4; 5; 6; 7; 8; 9; 10; 11; 12; 13; 14; 15; 16; 17; 18; 19].

(** A log with a compiler error on its second line. *)
Definition tsc_log : list jsstring :=
  [ u "##[group]Run tsc"; u "src/a.ts(3,1): error TS2322: bad type";
    u "Build failed" ].

(** A custom rule, as [parseCustomRules] compiles it, that matches no line
    of [tsc_log]. *)
Definition flaky_rule : customRule :=
  {| cname := u "Flaky"; cre := test fl_i (lit "timed out"); chint := [] |}.

Definition one_boundary : list stepStart := [ {| idx := 5; name := u "A" |} ].

Definition three_boundaries : list stepStart :=
  [ {| idx := 0; name := u "A" |}; {| idx := 10; name := u "B" |};
    {| idx := 25; name := u "C" |} ].

(** A colon and a digit in front of forty letters [a]: a word of 41
    hexadecimal digits, too long for the hash pattern. *)
Definition hidden_token : jsstring := u ":1" ++ repeat 97%N 40.

(** A stand-in for the digest function in examples. *)
Definition toy_hash (s : jsstring) : jsstring := Text.dec (len s).

End Samples.

Module Scenarios.
Import Text Store Api PatternTracker.

(** A service that rejects no call.  Its search matches a title that
    contains the first eight characters of the needle, which is how the
    record title embeds the fingerprint. *)
Definition service : octokit :=
  {| title_match := fun needle t => includes t (slice needle 0 8);
     pull_match := fun n p =>
       includes (match pbody p with Some b => b | None => [] end ++ ptitle p)
                (dec n);
     fails := fun _ => false;
     url_of := fun n => u "https://github.com/acme/app/issues/" ++ dec n |}.

(** A service that rejects no call and whose search matches a title that
    contains the needle as it is given: the substring match of section 6
    of the specification. *)
Definition substring_service : octokit :=
  {| title_match := fun needle t => includes t needle;
     pull_match := pull_match service;
     fails := fun _ => false;
     url_of := url_of service |}.

(** The same service, except that [issues.get] of issue [n] is rejected. *)
Definition get_fails (n : Z) : octokit :=
  {| title_match := title_match service;
     pull_match := pull_match service;
     fails := fun ep => match ep with EpGet m => m =? n | _ => false end;
     url_of := url_of service |}.

Definition tracking_label : jsstring := u "ci-failure-pattern".

Definition sig_a : jsstring := u "ESLint: src/a.ts:<line>:<col> error Foo".
Definition hash_a : jsstring := u "3f2a9c0d5b7e81f46a2d0c9b8e7f6a5d4c3b2a19".
Definition sig_b : jsstring := u "Build: Build failed".
Definition hash_b : jsstring := u "9b1d4e7a60c2f5a8d3e6b9c0f1a2b3c4d5e6f708".

(** 2026-11-02T12:00:00.000Z *)
Definition noon : Z := 1793620800000.

Definition empty_world : world := {| issues := []; pulls := []; now := noon |}.

Definition occ_at (t : string) : occurrence :=
  {| when := u t;
     runUrl := u "https://github.com/acme/app/actions/runs/42";
     sourceRepo := [];
     explainerContext := [] |}.

Definition upsert_a (t : string) (notifyThreshold : Z) : M upsertResult :=
  upsertIssueForSignature service tracking_label sig_a hash_a (occ_at t)
    (u "ESLint") notifyThreshold.

Definition upsert_b (t : string) : M upsertResult :=
  upsertIssueForSignature service tracking_label sig_b hash_b (occ_at t)
    (u "Build") 0.

Definition args_a (t : string) (notifyThreshold : Z) : UpsertSpec.upsertArgs :=
  {| UpsertSpec.a_label := tracking_label;
     UpsertSpec.a_signature := sig_a;
     UpsertSpec.a_hash := hash_a;
     UpsertSpec.a_occurrence := occ_at t;
     UpsertSpec.a_rule := u "ESLint";
     UpsertSpec.a_threshold := notifyThreshold |}.

(** One record with two occurrences. *)
Definition two_seen_world : world :=
  final_world
    (upsert_a "2026-11-02T09:00:00.000Z" 3
       (final_world (upsert_a "2026-11-02T08:00:00.000Z" 3 empty_world))).

(** One record with one occurrence, then muted from outside. *)
Definition muted_world : world :=
  final_world
    (add_labels service 1 [u "muted"]
       (final_world (upsert_a "2026-11-01T09:00:00.000Z" 0 empty_world))).

(** Two open records last seen 43 days ago. *)
Definition stale_world : world :=
  final_world
    (upsert_b "2026-09-20T12:00:00.000Z"
       (final_world (upsert_a "2026-09-20T12:00:00.000Z" 0 empty_world))).

(** One record, last seen 43 days ago and closed by the sweep. *)
Definition closed_world : world :=
  final_world
    (autoCloseQuietIssues service tracking_label 30
       (final_world (upsert_a "2026-09-20T12:00:00.000Z" 0 empty_world))).

Definition issue_state (n : Z) (w : world) : option istate :=
  option_map state (find_issue n (issues w)).

Definition issue_title (n : Z) (w : world) : jsstring :=
  match find_issue n (issues w) with Some i => title i | None => [] end.

Definition issue_comments (n : Z) (w : world) : list jsstring :=
  match find_issue n (issues w) with Some i => comments i | None => [] end.

Definition issue_labels (n : Z) (w : world) : list jsstring :=
  match find_issue n (issues w) with Some i => labels i | None => [] end.

Definition issue_body (n : Z) (w : world) : jsstring :=
  match find_issue n (issues w) with
  | Some i => match body i with Some b => b | None => [] end
  | None => []
  end.

(** Total and threshold flag of each outcome of a run of upserts. *)
Definition flags_of (rs : list (result upsertResult)) : list (option (Z * bool)) :=
  List.map (fun r => match r with
                     | Ok a _ => Some (totalOccurrences a, thresholdReached a)
                     | Err _ _ => None
                     end) rs.

End Scenarios.


Module MoreSamples.
Import Regex Service Flaky.

(** A log as downloaded: three lines, the first one a group marker, the
    first line break a carriage return and a line feed. *)
Definition tsc_text : jsstring :=
  u "##[group]Run tsc" ++ [13%N; 10%N]
  ++ u "src/a.ts(3,1): error TS2322: bad type" ++ [10%N] ++ u "Build failed".

(** The jobs of a run: a build job that passed and a test job with the
    conclusion given. *)
Definition jobs_with (c : string) : list job :=
  [ {| jname := u "build"; conclusion := Some (u "success") |};
    {| jname := u "test"; conclusion := Some (u c) |} ].

(** Five runs; the test job passed in two, failed in two, and the job
    listing of the fifth is rejected. *)
Definition five_runs : actions :=
  {| listWorkflowRunsForRepo := fun _ _ => Resolved [101; 102; 103; 104; 105];
     listJobsForWorkflowRun := fun run =>
       if run =? 101 then Resolved (jobs_with "success")
       else if run =? 102 then Resolved (jobs_with "failure")
       else if run =? 103 then Resolved (jobs_with "failure")
       else if run =? 104 then Resolved (jobs_with "success")
       else Rejected (u "HttpError") |}.

End MoreSamples.

Module MoreScenarios.
Import Store.

(** An issue with nothing in it, the default of list accesses in
    examples. *)
Definition blank : issue :=
  {| number := 0; title := []; body := None; state := Open; labels := [];
     comments := []; html_url := [] |}.

End MoreScenarios.

Module CommentSamples.
Import Text Comments.

(** [MARKER] of the entry point. *)
Definition MARKER : jsstring := u "<!-- ci-failure-analyzer:v0 -->".

(** A service that rejects no call. *)
Definition plain : service :=
  {| rejects := fun _ => false;
     comment_url := fun id => u "https://example.test/c/" ++ [N.of_nat (Z.to_nat id)] |}.

(** A service that rejects every deletion. *)
Definition read_only : service :=
  {| rejects := fun c => match c with DeleteComment _ => true | _ => false end;
     comment_url := fun id => u "https://example.test/c/" ++ [N.of_nat (Z.to_nat id)] |}.

(** Comments on the pull requests 7 and 8: a review remark, a comment of
    a former action on each, and one without a body. *)
Definition threads : cstore :=
  [ {| on := 7; c_id := 1; c_body := Some (u "looks good"); c_url := u "c1" |};
    {| on := 7; c_id := 2;
       c_body := Some (u "<!-- ci-failure-explainer:v0 -->" ++ [10%N] ++ u "old");
       c_url := u "c2" |};
    {| on := 8; c_id := 3;
       c_body := Some (u "<!-- failure-pattern-detector:v0 -->");
       c_url := u "c3" |};
    {| on := 8; c_id := 4; c_body := None; c_url := u "c4" |} ].

Definition first_body : jsstring := MARKER ++ [10%N] ++ u "first failure".
Definition second_body : jsstring := MARKER ++ [10%N] ++ u "second failure".

End CommentSamples.

Module FixTimeSamples.
Import Text FixTime.

Definition hour : Z := 3600000.

(** Three closed issues of the type "TypeError", fixed after two, five
    and thirty hours, and one of the type "Node/npm". *)
Definition closed_issues : list closedItem :=
  [ {| ci_title := u "[CI Pattern 3f2a9c0d] TypeError: x is not a function";
       created_at := 0; closed_at := 2 * hour |};
    {| ci_title := u "[CI Pattern 9b1d4e7a] Node/npm: ERESOLVE";
       created_at := hour; closed_at := 4 * hour |};
    {| ci_title := u "[CI Pattern 77aa12cd] TypeError: y is undefined";
       created_at := 0; closed_at := 30 * hour |};
    {| ci_title := u "[CI Pattern 0c0ffee0] TypeError: z is null";
       created_at := 10 * hour; closed_at := 15 * hour |} ].

(** A closed issue whose title gives the type "constructor". *)
Definition odd_issue : closedItem :=
  {| ci_title := u "[CI Pattern 5ca1ab1e] constructor: not a function";
     created_at := 0; closed_at := hour |}.

End FixTimeSamples.

Module DateSamples.
Import Text Store PatternTracker.

(** An open record whose only occurrence line carries the 31st of
    November. *)
Definition november_31_world : world :=
  {| issues :=
       [ {| number := 1;
            title := u "[CI Pattern 3f2a9c0d] ESLint: error Foo";
            body := Some (u "## Occurrences" ++ nl
                          ++ u "- 2026-11-31T00:00:00.000Z " ++ [em_dash]
                          ++ u " https://github.com/acme/app/actions/runs/42"
                          ++ nl);
            state := Open;
            labels := [Scenarios.tracking_label; u "severity:low"];
            comments := [];
            html_url := u "https://github.com/acme/app/issues/1" |} ];
     pulls := [];
     now := Scenarios.noon |}.

End DateSamples.
(* ===================================================================== *)
(** * Properties                                                          *)
(* ===================================================================== *)

Unset Implicit Arguments.

(** Boolean comparisons of the embedding, turned into propositions. *)
Ltac zbool :=
  repeat match goal with
         | H : (_ >=? _) = _ |- _ => rewrite Z.geb_leb in H
         | H : (_ >? _) = _ |- _ => rewrite Z.gtb_ltb in H
         | H : (_ <? _) = true |- _ => apply Z.ltb_lt in H
         | H : (_ <? _) = false |- _ => apply Z.ltb_ge in H
         | H : (_ <=? _) = true |- _ => apply Z.leb_le in H
         | H : (_ <=? _) = false |- _ => apply Z.leb_gt in H
         | H : (_ =? _) = true |- _ => apply Z.eqb_eq in H
         | H : (_ =? _) = false |- _ => apply Z.eqb_neq in H
         end.

Ltac zlia := zbool; lia.

(** ** Severity *)

Section SeverityFacts.
Import Severity.

Lemma get_own_table (tbl : list (jsstring * value)) (k : jsstring) (v : value) :
  assoc k tbl = Some v -> get tbl k = v.
Proof. unfold get. intros ->. reflexivity. Qed.

(** Away from the names inherited from [Object.prototype], the severity is
    "high" from five recent occurrences on and the base severity of the
    category below that, "low" for a category the table does not list. *)
Lemma classifySeverity_table (ruleName : jsstring) (n : Z) :
  assoc ruleName object_prototype = None ->
  classifySeverity ruleName n =
    VString (if n >=? 5 then u "high"
             else match assoc ruleName BASE_SEVERITY with
                  | Some (VString s) => s
                  | _ => u "low"
                  end).
Proof.
  intros Hproto. unfold classifySeverity, get. rewrite Hproto.
  destruct (n >=? 5); [reflexivity|].
  unfold BASE_SEVERITY. cbn [assoc].
  repeat match goal with
         | |- context [streq ruleName ?k] => destruct (streq ruleName k); [reflexivity|]
         end.
  reflexivity.
Qed.

Lemma classifySeverity_table_witness :
  classifySeverity (u "Docker") 1 = VString (u "high") /\
  classifySeverity (u "Jest/Vitest") 4 = VString (u "medium") /\
  classifySeverity (u "Terraform") 4 = VString (u "low") /\
  classifySeverity (u "Terraform") 5 = VString (u "high").
Proof.
  refine (conj _ (conj _ (conj _ _))).
  - exact (classifySeverity_table (u "Docker") 1 eq_refl).
  - exact (classifySeverity_table (u "Jest/Vitest") 4 eq_refl).
  - exact (classifySeverity_table (u "Terraform") 4 eq_refl).
  - exact (classifySeverity_table (u "Terraform") 5 eq_refl).
Defined.

Lemma classifySeverity_eslint :
  classifySeverity (u "ESLint") 5 = VString (u "high") /\
  classifySeverity (u "ESLint") 1 = VString (u "low").
Proof. split; reflexivity. Qed.

(** C6: a category named like a property inherited from
    [Object.prototype] is not recognised by the table, yet below five
    recent occurrences its severity is the inherited property, not
    "low". *)
Theorem classifySeverity_inherited_name :
  assoc (u "constructor") Severity.BASE_SEVERITY = None /\
  classifySeverity (u "constructor") 1 = VFunction (u "Object") /\
  classifySeverity (u "constructor") 1 <> VString (u "low").
Proof. repeat split; try reflexivity. discriminate. Qed.

End SeverityFacts.

(** ** The matcher on literal patterns; the generic failure test *)

Section VocabularyFacts.
Import Regex ErrorDetector Spec.

(** No match at any position means no match found. *)
Lemma search_none (fl : flags) (r : re) (aft bef : list N) :
  (forall a1 a2, aft = a1 ++ a2 ->
     match_at fl r {| before := rev a1 ++ bef; after := a2 |} = None) ->
  search fl r bef aft = None.
Proof.
  revert bef. induction aft as [|c aft IH]; intros bef H.
  - pose proof (H [] [] eq_refl) as H0. simpl in *. rewrite H0. reflexivity.
  - pose proof (H [] (c :: aft) eq_refl) as H0. simpl in *. rewrite H0.
    apply IH. intros a1 a2 E.
    specialize (H (c :: a1) a2). simpl in H. rewrite <- app_assoc in H.
    apply H. rewrite E. reflexivity.
Qed.

Lemma search_none_inv (fl : flags) (r : re) (aft bef : list N) :
  search fl r bef aft = None ->
  forall a1 a2, aft = a1 ++ a2 ->
    match_at fl r {| before := rev a1 ++ bef; after := a2 |} = None.
Proof.
  revert bef. induction aft as [|c aft IH]; intros bef H a1 a2 E.
  - destruct a1; [|discriminate]. simpl in E. subst a2. simpl in *.
    destruct (match_at fl r _); [discriminate|reflexivity].
  - cbn [search] in H.
    destruct (match_at fl r {| before := bef; after := c :: aft |}) eqn:Em;
      [discriminate|].
    destruct a1 as [|x a1].
    + simpl in E. subst a2. exact Em.
    + injection E as <- E. cbn [rev]. rewrite <- app_assoc.
      apply (IH (c :: bef) H a1 a2 E).
Qed.

(** A test succeeds exactly when the pattern matches at some position. *)
Lemma test_true_iff (fl : flags) (r : re) (s : jsstring) :
  test fl r s = true <->
  exists pre post,
    s = pre ++ post /\
    is_some (match_at fl r {| before := rev pre; after := post |}) = true.
Proof.
  unfold test. split.
  - intros H. destruct (search fl r [] s) as [p|] eqn:E; [|discriminate].
    destruct (List.existsb
                (fun k => is_some (match_at fl r {| before := rev (firstn k s);
                                                    after := skipn k s |}))
                (seq 0 (S (List.length s)))) eqn:Ex.
    + apply existsb_exists in Ex as (k & _ & Hk).
      exists (firstn k s), (skipn k s). split; [symmetry; apply firstn_skipn|exact Hk].
    + exfalso. rewrite (search_none fl r s []) in E; [discriminate|].
      intros a1 a2 Es. rewrite app_nil_r.
      destruct (match_at fl r _) eqn:Em; [|reflexivity].
      assert (Hfalse : forall k, In k (seq 0 (S (List.length s))) ->
                is_some (match_at fl r {| before := rev (firstn k s);
                                          after := skipn k s |}) = false).
      { intros k Hk. destruct (is_some _) eqn:Ek; [|reflexivity].
        assert (List.existsb
                  (fun k => is_some (match_at fl r {| before := rev (firstn k s);
                                                      after := skipn k s |}))
                  (seq 0 (S (List.length s))) = true)
          by (apply existsb_exists; exists k; auto).
        congruence. }
      specialize (Hfalse (List.length a1)).
      rewrite Es in Hfalse at 2 3.
      rewrite firstn_app, Nat.sub_diag, firstn_all, firstn_O, app_nil_r in Hfalse.
      rewrite skipn_app, Nat.sub_diag, skipn_all, skipn_O in Hfalse.
      cbn [app] in Hfalse. rewrite Em in Hfalse.
      assert (Hin : In (List.length a1) (seq 0 (S (List.length s)))).
      { apply in_seq. rewrite Es, length_app. lia. }
      specialize (Hfalse Hin). discriminate.
  - intros (pre & post & -> & Hm).
    destruct (search fl r [] (pre ++ post)) eqn:E; [reflexivity|].
    pose proof (search_none_inv fl r (pre ++ post) [] E pre post eq_refl) as Hn.
    rewrite app_nil_r in Hn. rewrite Hn in Hm. discriminate.
Qed.

Lemma upper_cases (c : N) :
  (in_range 97 122 c = true /\ upper c = (c - 32)%N) \/
  (in_range 97 122 c = false /\ upper c = c).
Proof. unfold upper. destruct (in_range 97 122 c); auto. Qed.

Lemma lower_cases (c : N) :
  (in_range 65 90 c = true /\ lower c = (c + 32)%N) \/
  (in_range 65 90 c = false /\ lower c = c).
Proof. unfold lower. destruct (in_range 65 90 c); auto. Qed.

Lemma in_range_true (lo hi c : N) :
  in_range lo hi c = true <-> (lo <= c /\ c <= hi)%N.
Proof.
  unfold in_range. rewrite andb_true_iff, !N.leb_le. reflexivity.
Qed.

Lemma in_range_false (lo hi c : N) :
  in_range lo hi c = false <-> (c < lo \/ hi < c)%N.
Proof.
  unfold in_range. rewrite andb_false_iff, !N.leb_gt. reflexivity.
Qed.

(** Under the flag [i], a literal of the pattern matches the code units
    that differ from it at most by the case of an ASCII letter. *)
Lemma cls_match_literal (a b : N) :
  cls_match fl_i (N.eqb a) b = ci_char a b.
Proof.
  unfold cls_match, ci_char. cbn [ignoreCase fl_i].
  destruct (upper_cases a) as [[Ha ->]|[Ha ->]];
    destruct (upper_cases b) as [[Hb ->]|[Hb ->]];
    destruct (lower_cases b) as [[Hl ->]|[Hl ->]];
    rewrite ?in_range_true, ?in_range_false in *;
    repeat match goal with
           | |- context [N.eqb ?x ?y] => destruct (N.eqb_spec x y)
           end; cbn [orb]; try reflexivity; lia.
Qed.

Lemma ci_char_word (a b : N) : ci_char a b = true -> is_word b = is_word a.
Proof.
  unfold ci_char, is_word. intros H. apply N.eqb_eq in H.
  destruct (upper_cases a) as [[Ha Ea]|[Ha Ea]];
    destruct (upper_cases b) as [[Hb Eb]|[Hb Eb]];
    rewrite Ea, Eb in H; rewrite ?Ha, ?Hb;
    rewrite ?in_range_true, ?in_range_false in *.
  - f_equal. f_equal. assert (a = b) by lia. subst. reflexivity.
  - cbn [orb].
    assert (Hw : in_range 65 90 b = true) by (apply in_range_true; lia).
    rewrite Hw. reflexivity.
  - cbn [orb].
    assert (Hw : in_range 65 90 a = true) by (apply in_range_true; lia).
    rewrite Hw. reflexivity.
  - subst. reflexivity.
Qed.

(** A literal run at a position: the text there starts with the literal,
    letter case ignored, and the continuation resumes after it. *)
Lemma run_lits (w : jsstring) (bef aft : list N) (k : pos -> option pos) :
  run fl_i (lits w) {| before := bef; after := aft |} k =
    if ci_prefix w aft
    then k {| before := rev (firstn (List.length w) aft) ++ bef;
              after := skipn (List.length w) aft |}
    else None.
Proof.
  revert bef aft k. induction w as [|c w IH]; intros bef aft k.
  - reflexivity.
  - assert (Hstep : run fl_i (lits (c :: w)) {| before := bef; after := aft |} k
                    = run fl_i (chr c) {| before := bef; after := aft |}
                        (fun s' => run fl_i (lits w) s' k)).
    { unfold lits. cbn [List.map seqs]. destruct w; reflexivity. }
    rewrite Hstep. cbn [run chr after before].
    destruct aft as [|x aft]; [reflexivity|].
    rewrite cls_match_literal. cbn [ci_prefix].
    destruct (ci_char c x); [|reflexivity]. cbn [andb].
    rewrite IH. cbn [List.length firstn skipn rev].
    rewrite <- app_assoc. reflexivity.
Qed.

Lemma ci_prefix_app (a b s : jsstring) :
  ci_prefix (a ++ b) s =
    (ci_prefix a s && ci_prefix b (skipn (List.length a) s))%bool.
Proof.
  revert s. induction a as [|x a IH]; intros s; [reflexivity|].
  destruct s as [|y s]; [reflexivity|].
  cbn [app ci_prefix List.length skipn]. rewrite IH. apply andb_assoc.
Qed.

Lemma is_some_alt (fl : flags) (a b : re) (s : pos) (k : pos -> option pos) :
  is_some (run fl (Alt a b) s k)
  = (is_some (run fl a s k) || is_some (run fl b s k))%bool.
Proof. cbn [run]. destruct (run fl a s k); reflexivity. Qed.

Lemma is_some_seq_alt (fl : flags) (a b r : re) (s : pos)
    (k : pos -> option pos) :
  is_some (run fl (Seq (Alt a b) r) s k)
  = (is_some (run fl (Seq a r) s k) || is_some (run fl (Seq b r) s k))%bool.
Proof. cbn [run]. destruct (run fl a s _); reflexivity. Qed.

Lemma run_seq (fl : flags) (a b : re) (s : pos) (k : pos -> option pos) :
  run fl (Seq a b) s k = run fl a s (fun s' => run fl b s' k).
Proof. reflexivity. Qed.

Lemma match_literal (w : jsstring) (bef aft : list N) :
  is_some (run fl_i (lits w) {| before := bef; after := aft |}
             (fun e => Some e))
  = ci_prefix w aft.
Proof. rewrite run_lits. destruct (ci_prefix w aft); reflexivity. Qed.

Lemma match_tag (tag : jsstring) (bef aft : list N) :
  is_some (run fl_i (Seq (lits tag) (lits (u "]")))
             {| before := bef; after := aft |} (fun e => Some e))
  = ci_prefix (tag ++ u "]") aft.
Proof.
  rewrite run_seq, run_lits, ci_prefix_app.
  destruct (ci_prefix tag aft); [|reflexivity].
  cbn [andb]. apply match_literal.
Qed.

(** The annotation pattern at a position. *)
Lemma match_annotation (bef aft : list N) :
  is_some (match_at fl_i re_annotation {| before := bef; after := aft |})
  = (ci_prefix (u "##[group]") aft || ci_prefix (u "##[endgroup]") aft
     || ci_prefix (u "##[debug]") aft || ci_prefix (u "##[notice]") aft)%bool.
Proof.
  unfold match_at, re_annotation. cbn [seqs alts]. unfold lit.
  rewrite run_seq, run_lits.
  change (u "##[group]") with (u "##[" ++ (u "group" ++ u "]")).
  change (u "##[endgroup]") with (u "##[" ++ (u "endgroup" ++ u "]")).
  change (u "##[debug]") with (u "##[" ++ (u "debug" ++ u "]")).
  change (u "##[notice]") with (u "##[" ++ (u "notice" ++ u "]")).
  rewrite !ci_prefix_app.
  destruct (ci_prefix (u "##[") aft); [|reflexivity]. cbn [andb].
  rewrite !is_some_seq_alt, !match_tag, !ci_prefix_app.
  rewrite !orb_assoc. reflexivity.
Qed.

Lemma ci_prefix_error_shape (aft : list N) :
  ci_prefix (u "error") aft = true ->
  exists e1 r1 r2 o r3 rest,
    aft = e1 :: r1 :: r2 :: o :: r3 :: rest /\
    is_word e1 = true /\ is_word r3 = true.
Proof.
  intros H. change (u "error") with [101; 114; 114; 111; 114]%N in H.
  destruct aft as [|e1 [|r1 [|r2 [|o [|r3 rest]]]]]; cbn [ci_prefix] in H;
    rewrite ?andb_false_r in H; try discriminate.
  repeat (apply andb_true_iff in H as [? H]).
  exists e1, r1, r2, o, r3, rest. split; [reflexivity|].
  split; [rewrite (ci_char_word 101 e1)|rewrite (ci_char_word 114 r3)];
    auto.
Qed.

(** The vocabulary pattern at a position. *)
Lemma match_vocabulary (bef aft : list N) :
  is_some (match_at fl_i re_vocabulary {| before := bef; after := aft |})
  = ((ci_prefix (u "error") aft
      && negb (match bef with c :: _ => is_word c | [] => false end)
      && negb (starts_with_word_char (skipn 5 aft)))
     || ci_prefix (u "exception") aft || ci_prefix (u "failed") aft)%bool.
Proof.
  unfold match_at, re_vocabulary. cbn [seqs alts]. unfold lit.
  rewrite !is_some_alt, !match_literal, orb_assoc. f_equal. f_equal.
  cbn [run]. unfold prev_is_word, next_is_word. cbn [before after].
  destruct (ci_prefix (u "error") aft) eqn:E.
  - destruct (ci_prefix_error_shape aft E)
      as (e1 & r1 & r2 & o & r3 & rest & -> & He & Hr).
    rewrite He. rewrite run_lits, E.
    cbn [List.length u List.map list_ascii_of_string firstn skipn rev app
         before after].
    rewrite Hr. unfold starts_with_word_char.
    destruct bef as [|c bef]; [|destruct (is_word c)]; cbn [xorb negb andb];
      try reflexivity;
      destruct rest as [|x rest]; [reflexivity|destruct (is_word x); reflexivity
                                   |reflexivity|destruct (is_word x); reflexivity].
  - cbn [andb].
    destruct (xorb _ _); [|reflexivity].
    rewrite run_lits, E. reflexivity.
Qed.

Lemma ends_with_word_char_rev (pre : jsstring) :
  match rev pre with c :: _ => is_word c | [] => false end
  = ends_with_word_char pre.
Proof. reflexivity. Qed.

Lemma test_annotation (l : jsstring) :
  test fl_i re_annotation l = true <-> annotation_line l.
Proof.
  rewrite test_true_iff. unfold annotation_line, occurs_ci. split.
  - intros (pre & post & E & H). rewrite match_annotation in H.
    repeat (apply orb_true_iff in H as [H|H]); eauto 10.
  - intros [H|[H|[H|H]]]; destruct H as (pre & post & E & H);
      exists pre, post; (split; [exact E|]); rewrite match_annotation, H;
      rewrite ?orb_true_r; reflexivity.
Qed.

Lemma test_vocabulary (l : jsstring) :
  test fl_i re_vocabulary l = true <-> failure_vocabulary l.
Proof.
  rewrite test_true_iff. unfold failure_vocabulary, occurs_ci, occurs_as_word_ci.
  split.
  - intros (pre & post & E & H). rewrite match_vocabulary in H.
    rewrite ends_with_word_char_rev in H.
    apply orb_true_iff in H as [H|H]; [apply orb_true_iff in H as [H|H]|].
    + left. apply andb_true_iff in H as [H H3].
      apply andb_true_iff in H as [H1 H2].
      apply negb_true_iff in H2, H3. exists pre, post. auto.
    + right. left. eauto.
    + right. right. eauto.
  - intros [H|[H|H]].
    + destruct H as (pre & post & E & H1 & H2 & H3).
      exists pre, post. split; [exact E|].
      rewrite match_vocabulary, ends_with_word_char_rev, H1, H2.
      change (List.length (u "error")) with 5%nat in H3. rewrite H3.
      reflexivity.
    + destruct H as (pre & post & E & H). exists pre, post.
      split; [exact E|]. rewrite match_vocabulary, H.
      rewrite ?orb_true_r. reflexivity.
    + destruct H as (pre & post & E & H). exists pre, post.
      split; [exact E|]. rewrite match_vocabulary, H.
      rewrite ?orb_true_r. reflexivity.
Qed.

(** The callback of the fallback scan accepts exactly the lines that hold
    a word of the failure vocabulary and no annotation marker. *)
Lemma generic_test_spec (l : jsstring) :
  generic_test l = true <-> generic_line l.
Proof.
  unfold generic_test, generic_line. destruct l as [|c l].
  - split; [discriminate|]. intros [_ H]. exfalso.
    unfold failure_vocabulary, occurs_as_word_ci, occurs_ci in H.
    destruct H as [H|[H|H]];
      [destruct H as (pre & post & E & H & _)|destruct H as (pre & post & E & H)
      |destruct H as (pre & post & E & H)];
      symmetry in E; apply app_eq_nil in E as [_ ->]; discriminate.
  - rewrite <- test_annotation, <- test_vocabulary.
    destruct (test fl_i re_annotation (c :: l)).
    + split; [discriminate|]. intros [H _]. exfalso. apply H. reflexivity.
    + split; [intros H; split; [discriminate|exact H]|intros [_ H]; exact H].
Qed.

End VocabularyFacts.

(** ** Classification *)

Section ClassifierFacts.
Import ErrorDetector Spec.

Lemma findIndex_from_none {A} (p : A -> bool) (l : list A) (i : Z) :
  0 <= i -> findIndex_from p l i = -1 -> forall x, In x l -> p x = false.
Proof.
  revert i. induction l as [|a l IH]; intros i Hi H x Hx; [destruct Hx|].
  simpl in H. destruct (p a) eqn:Ea; [zlia|].
  destruct Hx as [<-|Hx]; [assumption|].
  apply (IH (i + 1)); [lia|assumption|assumption].
Qed.

Lemma findIndex_from_all_false {A} (p : A -> bool) (l : list A) (i : Z) :
  (forall x, In x l -> p x = false) -> findIndex_from p l i = -1.
Proof.
  revert i. induction l as [|a l IH]; intros i H; [reflexivity|].
  simpl. rewrite (H a (or_introl eq_refl)). apply IH.
  intros x Hx. apply H. right. assumption.
Qed.

Lemma findIndex_from_found {A} (p : A -> bool) (l : list A) (i : Z) :
  findIndex_from p l i <> -1 ->
  exists (k : nat) (x : A),
    findIndex_from p l i = i + Z.of_nat k /\ nth_error l k = Some x /\
    p x = true /\
    forall j y, (j < k)%nat -> nth_error l j = Some y -> p y = false.
Proof.
  revert i. induction l as [|a l IH]; intros i H; [simpl in H; congruence|].
  simpl in *. destruct (p a) eqn:Ea.
  - exists 0%nat, a. repeat split; [lia|assumption|intros; lia].
  - destruct (IH (i + 1) H) as (k & x & Hk & Hn & Hp & Hlow).
    exists (S k), x. repeat split; [lia|assumption|assumption|].
    intros [|j] y Hj Hy; simpl in Hy.
    + injection Hy as <-. assumption.
    + apply (Hlow j); [lia|assumption].
Qed.

Lemma findIndex_lowest (p : jsstring -> bool) (lines : list jsstring)
    (i : nat) (l : jsstring) :
  lowest_match p lines i l -> findIndex p lines = Z.of_nat i.
Proof.
  intros (Hn & Hp & Hlow). unfold findIndex.
  destruct (Z.eq_dec (findIndex_from p lines 0) (-1)) as [E|E].
  - pose proof (findIndex_from_none p lines 0 (Z.le_refl 0) E l
                  (nth_error_In _ _ Hn)). congruence.
  - destruct (findIndex_from_found p lines 0 E) as (k & x & Hk & Hkn & Hkp & Hklow).
    rewrite Hk. destruct (Nat.lt_trichotomy k i) as [Hlt|[->|Hgt]].
    + rewrite (Hlow k x Hlt Hkn) in Hkp. discriminate.
    + reflexivity.
    + rewrite (Hklow i l Hgt Hn) in Hp. discriminate.
Qed.

Lemma index_of_nat {A} (l : list A) (k : nat) :
  index l (Z.of_nat k) = nth_error l k.
Proof.
  unfold index. destruct (Z.of_nat k <? 0) eqn:E; [zlia|].
  rewrite Nat2Z.id. reflexivity.
Qed.

Lemma try_rules_none (rules : list rule) (lines : list jsstring) :
  (forall r, In r rules -> matches_no_line (rtest r) lines) ->
  try_rules rules lines = None.
Proof.
  induction rules as [|r rules IH]; intros H; [reflexivity|].
  simpl. unfold findIndex.
  rewrite (findIndex_from_all_false (rtest r) lines 0 (H r (or_introl eq_refl))).
  simpl. apply IH. intros r' Hr'. apply H. right. assumption.
Qed.

Lemma try_rules_first (pre post : list rule) (r : rule)
    (lines : list jsstring) (i : nat) (l : jsstring) :
  (forall r', In r' pre -> matches_no_line (rtest r') lines) ->
  lowest_match (rtest r) lines i l ->
  try_rules (pre ++ r :: post) lines = Some (mk_hit (rname r) lines (Z.of_nat i)).
Proof.
  intros Hpre Hlow. induction pre as [|r0 pre IH]; simpl.
  - rewrite (findIndex_lowest _ _ _ _ Hlow).
    destruct (Z.of_nat i =? -1) eqn:E; [zlia|]. reflexivity.
  - unfold findIndex at 1.
    rewrite (findIndex_from_all_false (rtest r0) lines 0 (Hpre r0 (or_introl eq_refl))).
    simpl. apply IH. intros r' Hr'. apply Hpre. right. assumption.
Qed.

Lemma try_rules_some (rules : list rule) (lines : list jsstring) (h : hit) :
  try_rules rules lines = Some h ->
  exists (nm : jsstring) (k : nat) (l : jsstring),
    h = mk_hit nm lines (Z.of_nat k) /\ nth_error lines k = Some l.
Proof.
  induction rules as [|r rules IH]; intros H; [discriminate|].
  simpl in H. destruct (findIndex (rtest r) lines =? -1) eqn:E; simpl in H.
  - apply IH. assumption.
  - injection H as <-. unfold findIndex in *.
    destruct (findIndex_from_found (rtest r) lines 0) as (k & x & Hk & Hn & _); [zlia|].
    exists (rname r), k, x. rewrite Hk. split; [reflexivity|assumption].
Qed.

Lemma pick_some (lines : list jsstring) (customRules : list customRule) (h : hit) :
  pickFirstMeaningfulError lines customRules = Some h ->
  exists (nm : jsstring) (k : nat) (l : jsstring),
    h = mk_hit nm lines (Z.of_nat k) /\ nth_error lines k = Some l.
Proof.
  unfold pickFirstMeaningfulError. intros H.
  destruct (try_rules (all_rules customRules) lines) as [h'|] eqn:Et.
  - injection H as <-. apply (try_rules_some _ _ _ Et).
  - destruct (findIndex generic_test lines =? -1) eqn:E; simpl in H; [discriminate|].
    injection H as <-. unfold findIndex in *.
    destruct (findIndex_from_found generic_test lines 0) as (k & x & Hk & Hn & _); [zlia|].
    exists (u "Generic"), k, x. rewrite Hk. split; [reflexivity|assumption].
Qed.

Lemma generic_test_false (l : jsstring) :
  ~ generic_line l -> generic_test l = false.
Proof.
  intros H. destruct (generic_test l) eqn:E; [|reflexivity].
  exfalso. apply H, generic_test_spec, E.
Qed.

Lemma lowest_generic_line_match (lines : list jsstring) (i : nat) (l : jsstring) :
  lowest_generic_line lines i l -> lowest_match generic_test lines i l.
Proof.
  intros (Hn & Hg & Hlow). split; [exact Hn|]. split.
  - apply generic_test_spec, Hg.
  - intros j l' Hj Hl'. apply generic_test_false. exact (Hlow j l' Hj Hl').
Qed.

Lemma no_generic_line_no_match (lines : list jsstring) :
  (forall l, In l lines -> ~ generic_line l) ->
  matches_no_line generic_test lines.
Proof. intros H l Hl. apply generic_test_false, H, Hl. Qed.

(** C1: classification tries the custom rules and then the built-in rules
    in their declared order; the hit comes from the first rule of that list
    that matches some line, at the lowest matching line; when no rule
    matches any line, the hit is the lowest line that holds "error" as a
    word, "exception" or "failed", letter case ignored, and no group,
    endgroup, debug or notice annotation, reported as "Generic"; when there
    is no such line either, the result is null. *)
Theorem pickFirstMeaningfulError_first_rule_first_line
    (lines : list jsstring) (customRules : list customRule) :
  let rules :=
    List.map (fun c => {| rname := cname c; rtest := cre c |}) customRules
    ++ builtin_rules in
  (forall pre r post i l,
      rules = pre ++ r :: post ->
      (forall r', In r' pre -> matches_no_line (rtest r') lines) ->
      lowest_match (rtest r) lines i l ->
      exists h,
        pickFirstMeaningfulError lines customRules = Some h /\
        hrule h = rname r /\ hline h = Some l /\ lineIndex h = Z.of_nat i)
  /\ ((forall r, In r rules -> matches_no_line (rtest r) lines) ->
      forall i l,
        lowest_generic_line lines i l ->
        exists h,
          pickFirstMeaningfulError lines customRules = Some h /\
          hrule h = u "Generic" /\ hline h = Some l /\
          lineIndex h = Z.of_nat i)
  /\ ((forall r, In r rules -> matches_no_line (rtest r) lines) ->
      (forall l, In l lines -> ~ generic_line l) ->
      pickFirstMeaningfulError lines customRules = None).
Proof.
  intros rules. repeat split.
  - intros pre r post i l Hrules Hpre Hlow.
    exists (mk_hit (rname r) lines (Z.of_nat i)).
    unfold pickFirstMeaningfulError, all_rules. fold rules. rewrite Hrules.
    rewrite (try_rules_first pre post r lines i l Hpre Hlow). simpl.
    rewrite index_of_nat. destruct Hlow as (Hn & _). auto.
  - intros Hnone i l Hlow. apply lowest_generic_line_match in Hlow.
    exists (mk_hit (u "Generic") lines (Z.of_nat i)).
    unfold pickFirstMeaningfulError, all_rules. fold rules.
    rewrite (try_rules_none rules lines Hnone).
    rewrite (findIndex_lowest _ _ _ _ Hlow).
    destruct (Z.of_nat i =? -1) eqn:E; [zlia|]. simpl.
    rewrite index_of_nat. destruct Hlow as (Hn & _). auto.
  - intros Hnone Hgen. apply no_generic_line_no_match in Hgen.
    unfold pickFirstMeaningfulError, all_rules. fold rules.
    rewrite (try_rules_none rules lines Hnone). unfold findIndex.
    rewrite (findIndex_from_all_false generic_test lines 0 Hgen). reflexivity.
Qed.

Lemma nth_error_slice {A} (l : list A) (lo hi : Z) (k : nat) :
  0 <= lo -> lo <= hi -> hi <= len l ->
  nth_error (slice l lo hi) k =
    if Z.of_nat k <? hi - lo then index l (lo + Z.of_nat k) else None.
Proof.
  intros H0 H1 H2. unfold slice, index.
  destruct (lo <? 0) eqn:E1; [zlia|]. destruct (hi <? 0) eqn:E2; [zlia|].
  rewrite (Z.min_l lo), (Z.min_l hi) by lia.
  rewrite nth_error_firstn, nth_error_skipn.
  destruct (Z.of_nat k <? hi - lo) eqn:E3.
  - replace (k <? Z.to_nat (hi - lo))%nat with true
      by (symmetry; apply Nat.ltb_lt; lia).
    destruct (lo + Z.of_nat k <? 0) eqn:E4; [zlia|].
    f_equal. lia.
  - replace (k <? Z.to_nat (hi - lo))%nat with false
      by (symmetry; apply Nat.ltb_ge; lia).
    reflexivity.
Qed.

(** C5 (as the code has it): the excerpt of a hit at index [i] is made
    of the lines of index [i-2] to [i+11] inclusive, clipped to the bounds
    of the log: two lines before the match, the match, and eleven lines
    after it, fourteen lines at most. *)
Theorem excerpt_window (lines : list jsstring)
    (customRules : list customRule) (h : hit) :
  pickFirstMeaningfulError lines customRules = Some h ->
  let i := lineIndex h in
  let lo := Z.max 0 (i - 2) in
  let hi := Z.min (len lines) (i + 12) in
  0 <= i < len lines /\
  len (excerpt h) = hi - lo /\
  (forall k : nat,
      nth_error (excerpt h) k =
        if Z.of_nat k <? hi - lo then index lines (lo + Z.of_nat k) else None) /\
  (2 <= i -> i + 12 <= len lines ->
   len (excerpt h) = 14 /\
   nth_error (excerpt h) 0 = index lines (i - 2) /\
   nth_error (excerpt h) 2 = index lines i /\
   nth_error (excerpt h) 13 = index lines (i + 11) /\
   nth_error (excerpt h) 14 = None).
Proof.
  intros H i lo hi. destruct (pick_some _ _ _ H) as (nm & k & l & Eh & Hn).
  subst h. cbn [lineIndex excerpt mk_hit] in *. fold lo hi.
  assert (Hk : (k < List.length lines)%nat)
    by (apply nth_error_Some; congruence).
  assert (Hi : 0 <= i < len lines) by (unfold i, len; lia).
  assert (Hlo : 0 <= lo) by (unfold lo; lia).
  assert (Hlh : lo <= hi) by (unfold lo, hi; lia).
  assert (Hhi : hi <= len lines) by (unfold hi; lia).
  assert (Hnth : forall k0 : nat,
             nth_error (slice lines lo hi) k0 =
               if Z.of_nat k0 <? hi - lo then index lines (lo + Z.of_nat k0)
               else None)
    by (intros k0; apply nth_error_slice; assumption).
  assert (Hlen : len (slice lines lo hi) = hi - lo).
  { unfold slice, len. destruct (lo <? 0) eqn:E1; [zlia|].
    destruct (hi <? 0) eqn:E2; [zlia|].
    rewrite (Z.min_l lo), (Z.min_l hi) by (unfold len in *; lia).
    rewrite length_firstn, length_skipn. unfold len in *. lia. }
  split; [assumption|]. split; [assumption|]. split; [assumption|].
  intros H2 H12.
  assert (Elo : lo = i - 2) by (unfold lo; lia).
  assert (Ehi : hi = i + 12) by (unfold hi; lia).
  change (Z.max 0 (Z.of_nat k - 2)) with lo.
  change (Z.min (len lines) (Z.of_nat k + 12)) with hi.
  split; [lia|].
  rewrite !Hnth. rewrite Elo, Ehi.
  replace (i + 12 - (i - 2)) with 14 by lia. cbn.
  repeat split; f_equal; lia.
Qed.

Lemma pickFirstMeaningfulError_witness :
  exists h,
    pickFirstMeaningfulError Samples.tsc_log [Samples.flaky_rule] = Some h /\
    hrule h = u "TypeScript" /\
    hline h = Some (u "src/a.ts(3,1): error TS2322: bad type") /\
    lineIndex h = 1.
Proof.
  refine (proj1 (pickFirstMeaningfulError_first_rule_first_line
                   Samples.tsc_log [Samples.flaky_rule])
            (firstn 4 (all_rules [Samples.flaky_rule]))
            (nth 4 (all_rules [Samples.flaky_rule])
                 {| rname := []; rtest := fun _ => false |})
            (skipn 5 (all_rules [Samples.flaky_rule]))
            1%nat (u "src/a.ts(3,1): error TS2322: bad type") eq_refl _ _).
  - intros r' Hin l Hl. simpl in Hin, Hl.
    repeat (destruct Hin as [<-|Hin]);
      try (repeat (destruct Hl as [<-|Hl]); try (vm_compute; reflexivity));
      contradiction.
  - split; [reflexivity|]. split; [vm_compute; reflexivity|].
    intros j l' Hj Hl'. destruct j as [|j]; [|lia].
    injection Hl' as <-. vm_compute. reflexivity.
Defined.

(** C5, the claim as stated fails: for a hit at line 5 of a twenty-line log
    the excerpt ends with line 16, and line 17, twelve lines after the
    match, is not part of it. *)
Lemma excerpt_stops_before_line_i_plus_12 :
  exists h,
    pickFirstMeaningfulError Samples.build_log [] = Some h /\
    lineIndex h = 5 /\
    excerpt h = slice Samples.build_log 3 17 /\
    excerpt h
      <> slice Samples.build_log (Z.max 0 (5 - 2))
           (Z.min (len Samples.build_log) (5 + 12 + 1)) /\
    index Samples.build_log (5 + 12) = Some (u "ok 17") /\
    ~ In (u "ok 17") (excerpt h).
Proof.
  eexists. split; [vm_compute; reflexivity|].
  split; [reflexivity|]. split; [vm_compute; reflexivity|].
  split; [vm_compute; discriminate|]. split; [vm_compute; reflexivity|].
  vm_compute. intros H.
  repeat (destruct H as [H|H]; [discriminate H|]). exact H.
Qed.

Lemma excerpt_window_witness :
  exists h,
    pickFirstMeaningfulError Samples.build_log [] = Some h /\
    len (excerpt h) = 14 /\
    nth_error (excerpt h) 2 = index Samples.build_log (lineIndex h).
Proof.
  eexists. split; [vm_compute; reflexivity|].
  pose proof (excerpt_window Samples.build_log []
                (mk_hit (u "Build") Samples.build_log 5)
                ltac:(vm_compute; reflexivity)) as H.
  cbv zeta in H. destruct H as (_ & _ & _ & H).
  specialize (H ltac:(simpl; lia) ltac:(vm_compute; discriminate)).
  destruct H as (H14 & _ & H2 & _). split; [exact H14|exact H2].
Defined.

End ClassifierFacts.

(** ** Step lookup *)

Section StepFacts.
Import StepIndex Spec.

Lemma sar1_half (a : Z) : 0 <= a < 2147483648 -> sar1 a = a / 2.
Proof.
  intros H. unfold sar1, to_int32.
  rewrite Z.mod_small by lia.
  destruct (a <? 2147483648) eqn:E; [|zlia].
  rewrite Z.shiftr_div_pow2 by lia. reflexivity.
Qed.

Lemma nondecreasing_tail (a : stepStart) (ss : list stepStart) :
  nondecreasing (a :: ss) -> nondecreasing ss.
Proof.
  intros H i j x y Hij Hx Hy. apply (H (S i) (S j)); [lia|assumption|assumption].
Qed.

Lemma nondecreasing_head (a : stepStart) (ss : list stepStart) :
  nondecreasing (a :: ss) -> Forall (fun s => idx a <= idx s) ss.
Proof.
  intros H. apply Forall_forall. intros x Hx.
  destruct (In_nth_error _ _ Hx) as [j Hj].
  apply (H 0%nat (S j)); [lia|reflexivity|assumption].
Qed.

(** A sorted boundary list splits into the boundaries at or before the
    query and those after it. *)
Lemma sorted_split (ss : list stepStart) (q : Z) :
  nondecreasing ss ->
  exists l1 l2,
    ss = l1 ++ l2 /\ Forall (fun s => idx s <= q) l1 /\
    Forall (fun s => q < idx s) l2.
Proof.
  induction ss as [|a ss IH]; intros Hs.
  - exists [], []. repeat split; constructor.
  - destruct (Z_le_gt_dec (idx a) q) as [Hle|Hgt].
    + destruct (IH (nondecreasing_tail _ _ Hs)) as (l1 & l2 & -> & H1 & H2).
      exists (a :: l1), l2. repeat split; [constructor; assumption|assumption].
    + exists [], (a :: ss). repeat split; [constructor|].
      constructor; [lia|].
      pose proof (nondecreasing_head _ _ Hs) as Hh.
      rewrite Forall_forall in *. intros x Hx. specialize (Hh x Hx). lia.
Qed.

Lemma index_app_l {A} (l1 l2 : list A) (i : Z) :
  0 <= i < len l1 -> index (l1 ++ l2) i = index l1 i.
Proof.
  intros H. unfold index, len in *. destruct (i <? 0) eqn:E; [zlia|].
  apply nth_error_app1. lia.
Qed.

Lemma index_app_r {A} (l1 l2 : list A) (i : Z) :
  len l1 <= i -> index (l1 ++ l2) i = index l2 (i - len l1).
Proof.
  intros H. unfold index, len in *.
  destruct (i <? 0) eqn:E; [zlia|].
  destruct (i - Z.of_nat (List.length l1) <? 0) eqn:E'; [zlia|].
  rewrite nth_error_app2 by lia. f_equal. lia.
Qed.

Lemma index_in {A} (l : list A) (i : Z) :
  0 <= i < len l -> exists x, index l i = Some x /\ In x l.
Proof.
  intros H. unfold index, len in *. destruct (i <? 0) eqn:E; [zlia|].
  destruct (nth_error l (Z.to_nat i)) as [x|] eqn:En.
  - exists x. split; [reflexivity|]. eapply nth_error_In; eassumption.
  - apply nth_error_None in En. lia.
Qed.

Lemma len_app {A} (l1 l2 : list A) : len (l1 ++ l2) = len l1 + len l2.
Proof. unfold len. rewrite length_app. lia. Qed.

(** The loop ends with [hi] just before the first boundary after the
    query. *)
Lemma search_loop_partition (l1 l2 : list stepStart) (q : Z) :
  Forall (fun s => idx s <= q) l1 ->
  Forall (fun s => q < idx s) l2 ->
  len (l1 ++ l2) < 1073741824 ->
  forall (fuel : nat) (lo hi : Z),
    0 <= lo -> hi < len (l1 ++ l2) -> lo <= len l1 -> len l1 <= hi + 1 ->
    hi - lo + 1 < Z.of_nat fuel ->
    search_loop fuel (l1 ++ l2) q lo hi = Normal (len l1 - 1).
Proof.
  intros H1 H2 Hlen. induction fuel as [|fuel IH]; intros lo hi Hlo Hhi Hl1 Hl2 Hf.
  - lia.
  - cbn [search_loop]. destruct (lo <=? hi) eqn:Ecmp.
    + zbool. rewrite sar1_half by lia.
      assert (Hmid : lo <= (lo + hi) / 2 <= hi).
      { split; [apply Z.div_le_lower_bound; lia|apply Z.div_le_upper_bound; lia]. }
      set (mid := (lo + hi) / 2) in *.
      destruct (Z_lt_ge_dec mid (len l1)) as [Hin|Hout].
      * rewrite index_app_l by lia.
        destruct (index_in l1 mid) as (s & -> & Hs); [lia|].
        rewrite Forall_forall in H1. specialize (H1 s Hs).
        destruct (idx s <=? q) eqn:Es; [|zlia].
        apply IH; lia.
      * rewrite index_app_r by lia. rewrite len_app in Hhi.
        destruct (index_in l2 (mid - len l1)) as (s & -> & Hs); [lia|].
        rewrite Forall_forall in H2. specialize (H2 s Hs).
        destruct (idx s <=? q) eqn:Es; [zlia|].
        apply IH; rewrite ?len_app; lia.
    + zbool. f_equal. lia.
Qed.

Lemma fold_last_before_after (l2 : list stepStart) (q : Z)
    (acc : option stepStart) :
  Forall (fun s => q < idx s) l2 ->
  fold_left (fun acc s => if idx s <=? q then Some s else acc) l2 acc = acc.
Proof.
  revert acc. induction l2 as [|a l2 IH]; intros acc H; [reflexivity|].
  inversion H; subst. simpl. destruct (idx a <=? q) eqn:E; [zlia|]. apply IH.
  assumption.
Qed.

Lemma fold_last_before_snoc (l1 : list stepStart) (a : stepStart) (q : Z)
    (acc : option stepStart) :
  idx a <= q ->
  fold_left (fun acc s => if idx s <=? q then Some s else acc) (l1 ++ [a]) acc
  = Some a.
Proof.
  intros H. rewrite fold_left_app. simpl.
  destruct (idx a <=? q) eqn:E; [reflexivity|zlia].
Qed.

Lemma last_before_split (l1 l2 : list stepStart) (q : Z) :
  Forall (fun s => idx s <= q) l1 ->
  Forall (fun s => q < idx s) l2 ->
  last_before (l1 ++ l2) q =
    match l1 with [] => None | _ => index (l1 ++ l2) (len l1 - 1) end.
Proof.
  intros H1 H2. unfold last_before. rewrite fold_left_app.
  rewrite fold_last_before_after by assumption.
  destruct l1 as [|a l1] using rev_ind; [reflexivity|].
  clear IHl1. apply Forall_app in H1 as [_ H1]. inversion H1; subst.
  rewrite fold_last_before_snoc by assumption.
  destruct (l1 ++ [a]) eqn:E; [destruct l1; discriminate|]. rewrite <- E.
  rewrite index_app_l by (rewrite len_app; unfold len; simpl; lia).
  rewrite index_app_r by (rewrite len_app; unfold len; simpl; lia).
  rewrite len_app. replace (len l1 + len [a] - 1 - len l1) with 0
    by (unfold len; simpl; lia).
  reflexivity.
Qed.

(** C2 (as the code has it): over a boundary list in non-decreasing
    order, the lookup returns the name of the last boundary at or before
    the query; an empty list gives "Unknown step"; a query before the first
    boundary gives the name of the first boundary. *)
Theorem findStepForLineIndex_sorted (ss : list stepStart) (q : Z) :
  nondecreasing ss ->
  len ss < 1073741824 ->
  findStepForLineIndex (Some ss) q =
    Normal (match ss with
            | [] => unknown_step
            | first :: _ =>
                match last_before ss q with
                | Some b => name b
                | None => name first
                end
            end).
Proof.
  intros Hs Hlen. destruct ss as [|first rest] eqn:Ess; [reflexivity|].
  rewrite <- Ess in *. unfold findStepForLineIndex.
  destruct (sorted_split ss q Hs) as (l1 & l2 & E & H1 & H2).
  replace (match ss with [] => Normal unknown_step | _ :: _ =>
             match search_loop (S (List.length ss)) ss q 0 (len ss - 1) with
             | Normal hi => match index ss (Z.max 0 hi) with
                            | Some s => Normal (name s)
                            | None => Thrown (u "TypeError")
                            end
             | Thrown e => Thrown e
             | OutOfFuel => OutOfFuel
             end end)
    with (match search_loop (S (List.length ss)) ss q 0 (len ss - 1) with
          | Normal hi => match index ss (Z.max 0 hi) with
                         | Some s => Normal (name s)
                         | None => Thrown (u "TypeError")
                         end
          | Thrown e => Thrown e
          | OutOfFuel => OutOfFuel
          end) by (rewrite Ess; reflexivity).
  assert (Hpos : 0 < len ss) by (rewrite Ess; unfold len; simpl; lia).
  rewrite E in *.
  rewrite (search_loop_partition l1 l2 q H1 H2 Hlen)
    by (unfold len in *; rewrite ?length_app in *; lia).
  rewrite (last_before_split l1 l2 q H1 H2).
  destruct l1 as [|a l1].
  - simpl app in *. replace (Z.max 0 (len (@nil stepStart) - 1)) with 0
      by (unfold len; simpl; lia).
    rewrite Ess. reflexivity.
  - replace (Z.max 0 (len (a :: l1) - 1)) with (len (a :: l1) - 1)
      by (unfold len; cbn [List.length]; lia).
    destruct (index_in ((a :: l1) ++ l2) (len (a :: l1) - 1)) as (s & -> & _).
    + rewrite len_app. unfold len. cbn [List.length]. lia.
    + reflexivity.
Qed.

(** C2, the claim as stated fails: a query before the first boundary
    resolves to that boundary, not to the sentinel. *)
Lemma findStepForLineIndex_before_first :
  findStepForLineIndex (Some Samples.one_boundary) 2 = Normal (u "A") /\
  findStepForLineIndex (Some Samples.one_boundary) 2 <> Normal unknown_step.
Proof. split; [reflexivity|discriminate]. Qed.

Lemma nondecreasing_three : nondecreasing Samples.three_boundaries.
Proof.
  intros i j a b Hij Ha Hb.
  destruct i as [|[|[|[|i]]]]; simpl in Ha; try discriminate;
    destruct j as [|[|[|[|j]]]]; simpl in Hb; try discriminate; try lia;
    injection Ha as <-; injection Hb as <-; simpl; lia.
Qed.

Lemma findStepForLineIndex_sorted_witness :
  nondecreasing Samples.three_boundaries /\
  len Samples.three_boundaries < 1073741824 /\
  findStepForLineIndex (Some Samples.three_boundaries) 15 = Normal (u "B").
Proof.
  split; [exact nondecreasing_three|].
  split; [unfold len; simpl; lia|].
  exact (findStepForLineIndex_sorted Samples.three_boundaries 15
           nondecreasing_three ltac:(unfold len; simpl; lia)).
Defined.

Lemma findStepForLineIndex_examples :
  findStepForLineIndex (Some Samples.three_boundaries) 15 = Normal (u "B") /\
  findStepForLineIndex (Some Samples.three_boundaries) 5 = Normal (u "A") /\
  findStepForLineIndex (Some Samples.three_boundaries) 0 = Normal (u "A") /\
  findStepForLineIndex (Some []) 7 = Normal unknown_step /\
  findStepForLineIndex None 7 = Normal unknown_step.
Proof. repeat split. Qed.

End StepFacts.

(** ** The matcher on the patterns of the normalizer *)

Section RegexFacts.
Import Regex Spec.

Lemma test_false_search (fl : flags) (r : re) (s : jsstring) :
  test fl r s = false -> search fl r [] s = None.
Proof. unfold test. destruct (search fl r [] s); [discriminate|reflexivity]. Qed.

Lemma replace_all_no_match (fl : flags) (r : re) (repl s : jsstring) :
  search fl r [] s = None -> replace_all fl r repl s = s.
Proof. intros H. unfold replace_all. cbn [replace_from before after]. rewrite H. reflexivity. Qed.

Lemma run_cls_inv (fl : flags) (p : N -> bool) (s : pos)
    (k : pos -> option pos) (z : pos) :
  run fl (Cls p) s k = Some z ->
  exists c rest,
    after s = c :: rest /\ cls_match fl p c = true /\
    k {| before := c :: before s; after := rest |} = Some z.
Proof.
  simpl. destruct (after s) as [|c rest]; [discriminate|].
  destruct (cls_match fl p c) eqn:E; [|discriminate].
  intros H. exists c, rest. auto.
Qed.

Lemma has_colon_digit_cons (c : N) (rest : jsstring) :
  has_colon_digit (c :: rest) =
    (N.eqb c 58 && match rest with d :: _ => is_digit d | [] => false end
     || has_colon_digit rest)%bool.
Proof. reflexivity. Qed.

Lemma has_colon_digit_intro (a : jsstring) (d : N) (rest : jsstring) :
  is_digit d = true -> has_colon_digit (a ++ 58%N :: d :: rest) = true.
Proof.
  intros Hd. induction a as [|c a IH].
  - simpl. rewrite Hd. reflexivity.
  - cbn [app has_colon_digit]. rewrite IH. apply orb_true_r.
Qed.

Lemma has_colon_digit_app (a b : jsstring) :
  has_colon_digit (a ++ b) =
    (has_colon_digit (a ++ firstn 1 b) || has_colon_digit b)%bool.
Proof.
  induction a as [|c a IH].
  - destruct b as [|x b]; [reflexivity|]. cbn [app firstn has_colon_digit].
    rewrite andb_false_r. reflexivity.
  - cbn [app has_colon_digit]. rewrite IH.
    replace (match a ++ b with d :: _ => is_digit d | [] => false end)
      with (match a ++ firstn 1 b with d :: _ => is_digit d | [] => false end).
    + rewrite orb_assoc. reflexivity.
    + destruct a; [destruct b|]; reflexivity.
Qed.

Lemma has_colon_digit_suffix (a b : jsstring) :
  has_colon_digit (a ++ b) = false -> has_colon_digit b = false.
Proof.
  rewrite has_colon_digit_app. intros H. apply orb_false_iff in H. apply H.
Qed.

Lemma has_colon_digit_prefix (a b : jsstring) :
  has_colon_digit (a ++ b) = false -> has_colon_digit a = false.
Proof.
  induction a as [|c a IH]; [reflexivity|].
  cbn [app has_colon_digit]. intros H. apply orb_false_iff in H as [H1 H2].
  rewrite (IH H2). rewrite orb_false_r.
  destruct a as [|x a]; [apply andb_false_r|exact H1].
Qed.

(** The greedy digit loop, run to the end of the pattern, stops after the
    whole run of digits. *)
Lemma star_digits (n : nat) (bef aft : list N) :
  (List.length aft <= n)%nat ->
  star (run fl_none dg) n {| before := bef; after := aft |} (fun e => Some e)
  = Some (skip_digits bef aft).
Proof.
  revert bef aft. induction n as [|n IH]; intros bef aft Hn.
  - destruct aft; [reflexivity|simpl in Hn; lia].
  - cbn [star run dg after before]. destruct aft as [|d rest]; [reflexivity|].
    unfold cls_match. cbn [ignoreCase fl_none skip_digits].
    destruct (is_digit d) eqn:Ed; [|reflexivity].
    unfold remaining. cbn [after].
    replace (List.length rest <? List.length (d :: rest))%nat with true
      by (symmetry; apply Nat.ltb_lt; simpl; lia).
    rewrite IH by (simpl in Hn; lia). reflexivity.
Qed.

(** A match of [/:\d+/] at a position: a colon, then the whole run of
    digits after it. *)
Lemma match_at_re_line (bef aft : list N) :
  match_at fl_none Utils.re_line {| before := bef; after := aft |} =
    match aft with
    | 58%N :: d :: rest =>
        if is_digit d then Some (skip_digits (d :: 58%N :: bef) rest) else None
    | _ => None
    end.
Proof.
  unfold match_at, Utils.re_line.
  cbn [seqs lit lits u List.map list_ascii_of_string plus chr run after before].
  destruct aft as [|c rest]; [reflexivity|].
  unfold cls_match at 1. cbn [ignoreCase fl_none].
  change (N_of_ascii ":") with 58%N.
  destruct (N.eqb_spec 58 c) as [<-|Hne].
  - unfold dg. cbn [run after before].
    destruct rest as [|d rest]; [reflexivity|].
    unfold cls_match. cbn [ignoreCase fl_none].
    destruct (is_digit d) eqn:Ed; [|reflexivity].
    unfold remaining. cbn [after].
    apply (star_digits (List.length rest) (d :: 58%N :: bef) rest (Nat.le_refl _)).
  - destruct c as [|c]; [reflexivity|].
    repeat (destruct c as [c|c|]; try reflexivity). congruence.
Qed.

Lemma remaining_skip_digits (bef aft : list N) :
  (remaining (skip_digits bef aft) <= List.length aft)%nat.
Proof.
  revert bef. induction aft as [|d rest IH]; intros bef;
    [unfold remaining; simpl; lia|].
  cbn [skip_digits]. destruct (is_digit d).
  - specialize (IH (d :: bef)). cbn [List.length]. lia.
  - unfold remaining. cbn [after List.length]. lia.
Qed.

(** The leftmost match of [/:\d+/]: either the text has no colon followed by
    a digit, or the match starts at the first such colon. *)
Lemma search_re_line (aft bef : list N) :
  match search fl_none Utils.re_line bef aft with
  | None => has_colon_digit aft = false
  | Some (st, e) =>
      exists a1 d rest,
        aft = a1 ++ 58%N :: d :: rest /\ is_digit d = true /\
        has_colon_digit (a1 ++ [58%N]) = false /\
        after st = 58%N :: d :: rest /\
        e = skip_digits (d :: 58%N :: rev a1 ++ bef) rest
  end.
Proof.
  revert bef. induction aft as [|c aft IH]; intros bef.
  - reflexivity.
  - cbn [search]. rewrite match_at_re_line.
    destruct (N.eqb_spec c 58) as [->|Hc].
    + destruct aft as [|d rest].
      * simpl. reflexivity.
      * destruct (is_digit d) eqn:Ed.
        -- exists [], d, rest. cbn [app rev after]. auto.
        -- specialize (IH (58%N :: bef)).
           destruct (search fl_none Utils.re_line (58%N :: bef) (d :: rest))
             as [[st e]|].
           ++ destruct IH as (a1 & d' & rest' & E & Hd & Hno & Hst & He).
              exists (58%N :: a1), d', rest'. rewrite E.
              repeat split; try assumption.
              ** cbn [app]. rewrite has_colon_digit_cons, Hno.
                 destruct a1 as [|x a1].
                 --- reflexivity.
                 --- simpl in E. injection E as -> _. cbn [app]. rewrite Ed.
                     reflexivity.
              ** rewrite He. cbn [rev]. rewrite <- app_assoc. reflexivity.
           ++ rewrite has_colon_digit_cons, Ed, IH. reflexivity.
    + assert (Hm : match c :: aft with
                   | 58%N :: d :: rest =>
                       if is_digit d
                       then Some (skip_digits (d :: 58%N :: bef) rest) else None
                   | _ => None
                   end = None).
      { destruct c as [|c]; [reflexivity|].
        repeat (destruct c as [c|c|]; try reflexivity). congruence. }
      rewrite Hm. specialize (IH (c :: bef)).
      destruct (search fl_none Utils.re_line (c :: bef) aft) as [[st e]|].
      * destruct IH as (a1 & d' & rest' & E & Hd & Hno & Hst & He).
        exists (c :: a1), d', rest'. rewrite E.
        repeat split; try assumption.
        -- cbn [app]. rewrite has_colon_digit_cons, Hno.
           apply N.eqb_neq in Hc. rewrite Hc. reflexivity.
        -- rewrite He. cbn [rev]. rewrite <- app_assoc. reflexivity.
      * rewrite has_colon_digit_cons, IH.
        apply N.eqb_neq in Hc. rewrite Hc. reflexivity.
Qed.

End RegexFacts.

(** ** Normalizer and signature *)

Section NormalizerFacts.
Import Regex Utils Spec.

Lemma run_seq_assoc (fl : flags) (a b c : re) (s : pos) (k : pos -> option pos) :
  run fl (Seq (Seq a b) c) s k = run fl (Seq a (Seq b c)) s k.
Proof. reflexivity. Qed.

Lemma run_seq_eps (fl : flags) (r : re) (s : pos) (k : pos -> option pos) :
  run fl (Seq Eps r) s k = run fl r s k.
Proof. reflexivity. Qed.

Lemma run_seq_alt (fl : flags) (a b r : re) (s : pos) (k : pos -> option pos) :
  run fl (Seq (Alt a b) r) s k =
    match run fl (Seq a r) s k with
    | Some e => Some e
    | None => run fl (Seq b r) s k
    end.
Proof. reflexivity. Qed.

Lemma run_seq_bol_inv (fl : flags) (r : re) (s : pos) (k : pos -> option pos)
    (z : pos) :
  run fl (Seq Bol r) s k = Some z ->
  at_bol fl s = true /\ run fl r s k = Some z.
Proof. cbn [run]. destruct (at_bol fl s); [auto|discriminate]. Qed.

Lemma run_seq_cls_inv (fl : flags) (p : N -> bool) (r : re) (s : pos)
    (k : pos -> option pos) (z : pos) :
  run fl (Seq (Cls p) r) s k = Some z ->
  exists c rest,
    after s = c :: rest /\ cls_match fl p c = true /\
    run fl r {| before := c :: before s; after := rest |} k = Some z.
Proof. intros H. apply (run_cls_inv fl p s _ z H). Qed.

(** One character of the pattern consumed from hypothesis [H]. *)
Ltac peel H :=
  repeat first [rewrite run_seq_assoc in H | rewrite run_seq_eps in H];
  let c := fresh "c" in
  let rest := fresh "rest" in
  let Ha := fresh "Ha" in
  let Hc := fresh "Hc" in
  apply run_seq_cls_inv in H;
  destruct H as (c & rest & Ha & Hc & H);
  cbn [after before] in Ha, H;
  unfold cls_match in Hc; cbn [ignoreCase fl_none] in Hc;
  try subst.

Lemma has_colon_digit_nth (s : jsstring) (n : nat) (d : N) :
  nth_error s n = Some 58%N -> nth_error s (S n) = Some d ->
  is_digit d = true -> has_colon_digit s = true.
Proof.
  intros H1 H2 Hd.
  destruct (nth_error_split s n H1) as (l1 & l2 & -> & Hlen).
  rewrite nth_error_app2 in H2 by lia.
  replace (S n - List.length l1)%nat with 1%nat in H2 by lia.
  destruct l2 as [|x l2]; [discriminate|]. injection H2 as ->.
  apply has_colon_digit_intro. assumption.
Qed.

Lemma linecol_needs_colon_digit (bef aft : list N) (e : pos) :
  match_at fl_none re_linecol {| before := bef; after := aft |} = Some e ->
  exists d rest, aft = 58%N :: d :: rest /\ is_digit d = true.
Proof.
  unfold match_at, re_linecol.
  cbn [seqs lit lits u List.map list_ascii_of_string plus chr dg].
  intros H. peel H. peel H.
  apply N.eqb_eq in Hc. exists c0, rest0. split; [|assumption].
  rewrite <- Hc. reflexivity.
Qed.

Lemma timestamp_needs_colon_digit (y : jsstring) (e : pos) :
  match_at fl_none re_timestamp {| before := []; after := y |} = Some e ->
  has_colon_digit y = true.
Proof.
  unfold match_at, re_timestamp.
  cbn [seqs rep lit lits u List.map list_ascii_of_string].
  unfold opt, plus, chr, dg.
  intros H. apply run_seq_bol_inv in H as [_ H].
  rewrite run_seq_alt in H.
  destruct (run fl_none
              (Seq (Cls (N.eqb 65279)) _) _ _) eqn:E.
  - clear H. do 16 peel E.
    apply N.eqb_eq in Hc13.
    eapply has_colon_digit_nth with (n := 14%nat);
      [cbn [nth_error]; rewrite <- Hc13; reflexivity
      |reflexivity|eassumption].
  - clear E. do 15 peel H.
    apply N.eqb_eq in Hc12.
    eapply has_colon_digit_nth with (n := 13%nat);
      [cbn [nth_error]; rewrite <- Hc12; reflexivity
      |reflexivity|eassumption].
Qed.

Lemma no_match_re_line (y : jsstring) :
  has_colon_digit y = false -> search fl_none re_line [] y = None.
Proof.
  intros Hy. pose proof (search_re_line y []) as H.
  destruct (search fl_none re_line [] y) as [[st e]|]; [|reflexivity].
  destruct H as (a1 & d & rest & -> & Hd & _).
  rewrite (has_colon_digit_intro a1 d rest Hd) in Hy. discriminate.
Qed.

Lemma no_match_re_linecol (y : jsstring) :
  has_colon_digit y = false -> search fl_none re_linecol [] y = None.
Proof.
  intros Hy. apply search_none. intros a1 a2 ->.
  destruct (match_at fl_none re_linecol _) as [e|] eqn:E; [|reflexivity].
  apply linecol_needs_colon_digit in E as (d & rest & -> & Hd).
  rewrite (has_colon_digit_intro a1 d rest Hd) in Hy. discriminate.
Qed.

Lemma no_match_re_timestamp (y : jsstring) :
  has_colon_digit y = false -> search fl_none re_timestamp [] y = None.
Proof.
  intros Hy. apply search_none. intros a1 a2 E.
  destruct a1 as [|c a1] using rev_ind.
  - simpl in *. subst a2.
    destruct (match_at fl_none re_timestamp _) as [e|] eqn:Em; [|reflexivity].
    apply timestamp_needs_colon_digit in Em. congruence.
  - clear IHa1. rewrite rev_app_distr. cbn [rev app].
    unfold match_at, re_timestamp. cbn [seqs run at_bol before multiline fl_none].
    reflexivity.
Qed.

Lemma between_prefix (bef bef' : list N) (a1 a2 : list N) :
  between {| before := bef; after := a1 ++ a2 |}
          {| before := bef'; after := a2 |} = a1.
Proof.
  unfold between, remaining. cbn [after]. rewrite length_app.
  replace (List.length a1 + List.length a2 - List.length a2)%nat
    with (List.length a1 + 0)%nat by lia.
  rewrite firstn_app_2. cbn [firstn]. apply app_nil_r.
Qed.

(** After every [:digits] has been replaced, no colon is followed by a
    digit. *)
Lemma replace_line_no_colon_digit (fuel : nat) (bef aft : list N) :
  (List.length aft < fuel)%nat ->
  has_colon_digit
    (replace_from fuel fl_none re_line repl_line
       {| before := bef; after := aft |}) = false.
Proof.
  revert bef aft. induction fuel as [|fuel IH]; intros bef aft Hf; [lia|].
  cbn [replace_from before after].
  pose proof (search_re_line aft bef) as H.
  destruct (search fl_none re_line bef aft) as [[st e]|]; [|exact H].
  destruct H as (a1 & d & rest & E & Hd & Hno & Hst & He).
  destruct st as [sb sa]. cbn [after] in Hst. subst sa aft.
  rewrite between_prefix.
  change (expand repl_line _ _ _) with repl_line.
  pose proof (remaining_skip_digits (d :: 58%N :: rev a1 ++ bef) rest) as Hrem.
  rewrite <- He in Hrem.
  replace (remaining e <? remaining {| before := sb; after := 58%N :: d :: rest |})%nat
    with true
    by (symmetry; apply Nat.ltb_lt; unfold remaining in *; cbn [after List.length]; lia).
  destruct e as [eb ea]. unfold remaining in Hrem. cbn [after] in Hrem.
  rewrite has_colon_digit_app.
  change (firstn 1 (repl_line ++ _)) with [58%N].
  rewrite Hno. cbn [orb].
  change (has_colon_digit (repl_line ++ ?t)) with (has_colon_digit t).
  apply IH. rewrite length_app in Hf. cbn [List.length] in Hf. lia.
Qed.

Lemma trimStart_suffix (s : jsstring) : exists w, s = w ++ trimStart s.
Proof.
  induction s as [|c s IH]; [exists []; reflexivity|].
  cbn [trimStart]. destruct (is_space c).
  - destruct IH as [w Hw]. exists (c :: w). cbn [app]. rewrite <- Hw. reflexivity.
  - exists []. reflexivity.
Qed.

Lemma trimEnd_prefix (s : jsstring) : exists w, s = trimEnd s ++ w.
Proof.
  unfold trimEnd. destruct (trimStart_suffix (rev s)) as [w Hw].
  exists (rev w). rewrite <- rev_app_distr, <- Hw. symmetry. apply rev_involutive.
Qed.

Lemma trimStart_head (s : jsstring) :
  match trimStart s with [] => True | c :: _ => is_space c = false end.
Proof.
  induction s as [|c s IH]; [exact I|].
  cbn [trimStart]. destruct (is_space c) eqn:E; [exact IH|exact E].
Qed.

Lemma trimStart_fixed (s : jsstring) :
  match s with [] => True | c :: _ => is_space c = false end ->
  trimStart s = s.
Proof. destruct s as [|c s]; [reflexivity|]. cbn [trimStart]. intros ->. reflexivity. Qed.

Lemma trimStart_idempotent (s : jsstring) : trimStart (trimStart s) = trimStart s.
Proof. apply trimStart_fixed. apply trimStart_head. Qed.

Lemma trimEnd_idempotent (s : jsstring) : trimEnd (trimEnd s) = trimEnd s.
Proof.
  unfold trimEnd. rewrite rev_involutive, trimStart_idempotent. reflexivity.
Qed.

Lemma trim_idempotent (s : jsstring) : trim (trim s) = trim s.
Proof.
  unfold trim. set (t := trimStart s).
  assert (Ht : trimStart (trimEnd t) = trimEnd t).
  { apply trimStart_fixed. pose proof (trimStart_head s) as Hh. fold t in Hh.
    destruct (trimEnd_prefix t) as [w Hw].
    destruct (trimEnd t) as [|c r]; [exact I|].
    rewrite Hw in Hh. exact Hh. }
  rewrite Ht. apply trimEnd_idempotent.
Qed.

Lemma trim_no_colon_digit (s : jsstring) :
  has_colon_digit s = false -> has_colon_digit (trim s) = false.
Proof.
  intros H. unfold trim.
  destruct (trimStart_suffix s) as [w Hw]. rewrite Hw in H.
  apply has_colon_digit_suffix in H.
  destruct (trimEnd_prefix (trimStart s)) as [w' Hw']. rewrite Hw' in H.
  apply has_colon_digit_prefix in H. exact H.
Qed.

Lemma normalize_no_colon_digit (x : jsstring) :
  has_colon_digit (normalize x) = false.
Proof.
  unfold normalize. apply trim_no_colon_digit. unfold replace_all.
  apply replace_line_no_colon_digit. cbn [after]. lia.
Qed.

(** C9 (as the code has it): normalizing a normalized string changes
    nothing as long as the first pass has left no hexadecimal literal and
    no hash-like token of 7 to 40 hexadecimal digits in it. *)
Theorem normalize_idempotent_without_exposed_token (x : jsstring) :
  test fl_none re_hexlit (normalize x) = false ->
  test fl_none re_sha (normalize x) = false ->
  normalize (normalize x) = normalize x.
Proof.
  intros Hhex Hsha.
  pose proof (normalize_no_colon_digit x) as Hcd.
  assert (Htrim : trim (normalize x) = normalize x)
    by (unfold normalize; cbv zeta; apply trim_idempotent).
  set (y := normalize x) in *. unfold normalize.
  rewrite (replace_all_no_match fl_none re_timestamp [] y (no_match_re_timestamp y Hcd)).
  rewrite (replace_all_no_match fl_none re_hexlit repl_hexlit y (test_false_search _ _ _ Hhex)).
  rewrite (replace_all_no_match fl_none re_sha repl_sha y (test_false_search _ _ _ Hsha)).
  rewrite (replace_all_no_match fl_none re_linecol repl_linecol y (no_match_re_linecol y Hcd)).
  rewrite (replace_all_no_match fl_none re_line repl_line y (no_match_re_line y Hcd)).
  exact Htrim.
Qed.

Lemma normalize_idempotent_witness :
  test fl_none re_hexlit (normalize (u "src/a.ts:12:4 error Foo")) = false /\
  test fl_none re_sha (normalize (u "src/a.ts:12:4 error Foo")) = false /\
  normalize (normalize (u "src/a.ts:12:4 error Foo"))
  = normalize (u "src/a.ts:12:4 error Foo").
Proof.
  split; [vm_compute; reflexivity|]. split; [vm_compute; reflexivity|].
  exact (normalize_idempotent_without_exposed_token
           (u "src/a.ts:12:4 error Foo")
           ltac:(vm_compute; reflexivity) ltac:(vm_compute; reflexivity)).
Defined.

(** C9, the claim as stated fails: replacing [:1] by the line placeholder
    in front of forty hexadecimal letters turns them into a token that the
    second pass replaces. *)
Lemma normalize_not_idempotent :
  normalize (normalize Samples.hidden_token) <> normalize Samples.hidden_token.
Proof. vm_compute. discriminate. Qed.

Lemma split_at_first_colon (c1 c2 t1 t2 : jsstring) :
  ~ In 58%N c1 -> ~ In 58%N c2 ->
  c1 ++ 58%N :: t1 = c2 ++ 58%N :: t2 -> c1 = c2 /\ t1 = t2.
Proof.
  revert c2. induction c1 as [|a c1 IH]; intros c2 H1 H2 E.
  - destruct c2 as [|b c2].
    + injection E as ->. auto.
    + injection E as <- _. exfalso. apply H2. left. reflexivity.
  - destruct c2 as [|b c2].
    + injection E as -> _. exfalso. apply H1. left. reflexivity.
    + injection E as -> E.
      destruct (IH c2) as [-> ->]; auto.
      * intros Hin. apply H1. right. assumption.
      * intros Hin. apply H2. right. assumption.
Qed.

Lemma builtin_categories_without_colon :
  Forall (fun r => ~ In 58%N (ErrorDetector.rname r)) ErrorDetector.builtin_rules /\
  ~ In 58%N (u "Generic").
Proof.
  split.
  - repeat constructor;
      (intros H; vm_compute in H;
       repeat (destruct H as [H|H]; [discriminate H|]); exact H).
  - intros H; vm_compute in H.
    repeat (destruct H as [H|H]; [discriminate H|]). exact H.
Qed.

(** C10 (as the code has it): for categories whose name contains no
    colon, as all built-in categories, two hits have the same signature
    exactly when their categories are equal and their normalized lines are
    equal; equal signatures have equal fingerprints, whatever the hash
    function. *)
Theorem signature_equality (sha1 : jsstring -> jsstring)
    (cat1 line1 cat2 line2 : jsstring) :
  ~ In 58%N cat1 -> ~ In 58%N cat2 ->
  (signature_of_hit cat1 line1 = signature_of_hit cat2 line2 <->
   cat1 = cat2 /\ normalize line1 = normalize line2) /\
  (signature_of_hit cat1 line1 = signature_of_hit cat2 line2 ->
   sha1 (signature_of_hit cat1 line1) = sha1 (signature_of_hit cat2 line2)).
Proof.
  intros H1 H2. split; [split|].
  - unfold signature_of_hit, signature. change (u ": ") with [58%N; 32%N].
    cbn [app]. intros E.
    destruct (split_at_first_colon cat1 cat2 _ _ H1 H2 E) as [-> E'].
    injection E' as E'. auto.
  - intros [-> E]. unfold signature_of_hit. rewrite E. reflexivity.
  - intros ->. reflexivity.
Qed.

Lemma signature_equality_witness :
  ~ In 58%N (u "ESLint") /\
  normalize (u "src/a.ts:12:4 error Foo") = normalize (u "src/a.ts:99:1 error Foo") /\
  signature_of_hit (u "ESLint") (u "src/a.ts:12:4 error Foo")
  = signature_of_hit (u "ESLint") (u "src/a.ts:99:1 error Foo") /\
  Samples.toy_hash (signature_of_hit (u "ESLint") (u "src/a.ts:12:4 error Foo"))
  = Samples.toy_hash (signature_of_hit (u "ESLint") (u "src/a.ts:99:1 error Foo")).
Proof.
  assert (Hc : ~ In 58%N (u "ESLint")).
  { intros H; vm_compute in H.
    repeat (destruct H as [H|H]; [discriminate H|]). exact H. }
  assert (Hn : normalize (u "src/a.ts:12:4 error Foo")
               = normalize (u "src/a.ts:99:1 error Foo"))
    by (vm_compute; reflexivity).
  pose proof (signature_equality Samples.toy_hash (u "ESLint")
                (u "src/a.ts:12:4 error Foo") (u "ESLint")
                (u "src/a.ts:99:1 error Foo") Hc Hc) as [Hiff Hsha].
  pose proof (proj2 Hiff (conj eq_refl Hn)) as Hsig.
  split; [exact Hc|]. split; [exact Hn|]. split; [exact Hsig|].
  exact (Hsha Hsig).
Defined.

(** C10, the claim as stated fails: a custom category whose name contains
    a colon and a space shares its signature with another category. *)
Lemma signature_collision_across_categories :
  signature_of_hit (u "a") (u "b: c") = signature_of_hit (u "a: b") (u "c") /\
  u "a" <> u "a: b".
Proof. split; [vm_compute; reflexivity|vm_compute; discriminate]. Qed.

End NormalizerFacts.

(** ** Pattern tracker: occurrence statistics, threshold, sweep *)

Section TrackerScenarios.
Import Text Dates Store Api PatternTracker Scenarios.

(** C3: on a muted record the new occurrence is appended with the muted
    prefix, and the occurrence pattern does not read it back: the log holds
    two occurrences, the total and both windows count one. *)
Theorem upsert_muted_occurrence_not_counted :
  exists res w,
    upsert_a "2026-11-02T11:59:00.000Z" 0 muted_world = Ok res w /\
    muted res = true /\
    includes (issue_body 1 w) (u "- [muted] 2026-11-02T11:59:00.000Z") = true /\
    includes (issue_body 1 w) (u "- 2026-11-01T09:00:00.000Z") = true /\
    parseOccurrenceTimestamps (issue_body 1 w)
    = [parse_iso (u "2026-11-01T09:00:00.000Z")] /\
    totalOccurrences res = 1 /\
    includes (issue_body 1 w) (u "**Last 7d:** 1 | **Last 14d:** 1") = true.
Proof.
  eexists. eexists. split; [vm_compute; reflexivity|].
  repeat split; vm_compute; reflexivity.
Qed.

(** The same occurrence on the record before it was muted is counted. *)
Lemma upsert_unmuted_occurrence_counted :
  exists res w,
    upsert_a "2026-11-02T11:59:00.000Z" 0
      (final_world (upsert_a "2026-11-01T09:00:00.000Z" 0 empty_world))
    = Ok res w /\
    muted res = false /\ totalOccurrences res = 2 /\
    includes (issue_body 1 w) (u "**Last 7d:** 2 | **Last 14d:** 2") = true.
Proof.
  eexists. eexists. split; [vm_compute; reflexivity|].
  repeat split; vm_compute; reflexivity.
Qed.

(** C7: with a notification threshold of one, the upsert that creates the
    record brings the total to the threshold and reports no crossing; the
    marker is applied, and the crossing reported, by the second upsert, at
    a total of two. *)
Theorem threshold_one_not_reported_on_creation :
  exists r1 w1 r2 w2,
    upsert_a "2026-11-02T11:00:00.000Z" 1 empty_world = Ok r1 w1 /\
    kind r1 = Created /\ totalOccurrences r1 = 1 /\
    thresholdReached r1 = false /\
    mem threshold_label (issue_labels 1 w1) = false /\
    upsert_a "2026-11-02T11:30:00.000Z" 1 w1 = Ok r2 w2 /\
    kind r2 = Updated /\ totalOccurrences r2 = 2 /\
    thresholdReached r2 = true /\
    mem threshold_label (issue_labels 1 w2) = true.
Proof.
  do 4 eexists. split; [vm_compute; reflexivity|].
  do 4 (split; [reflexivity|]).
  split; [vm_compute; reflexivity|].
  repeat split; vm_compute; reflexivity.
Qed.

(** With a threshold of three, the third upsert against a fingerprint
    reports the crossing and the fourth does not. *)
Lemma threshold_three_scenario :
  let r1 := upsert_a "2026-11-02T08:00:00.000Z" 3 empty_world in
  let r2 := upsert_a "2026-11-02T09:00:00.000Z" 3 (final_world r1) in
  let r3 := upsert_a "2026-11-02T10:00:00.000Z" 3 (final_world r2) in
  let r4 := upsert_a "2026-11-02T11:00:00.000Z" 3 (final_world r3) in
  flags_of [r1; r2; r3; r4]
  = [Some (1, false); Some (2, false); Some (3, true); Some (4, false)].
Proof. vm_compute. reflexivity. Qed.

End TrackerScenarios.

Section SweepFacts.
Import Text Dates Store Api PatternTracker.

(** Sweeping a batch is sweeping its first part and then, if that did not
    fail, the rest from the store and the [closed] list so reached. *)
Lemma sweep_items_app (ok : octokit) (l1 l2 : list issue) (cutoff : Z) :
  forall (closed : list Z) (w : world),
    sweep_items ok (l1 ++ l2) cutoff closed w =
      match sweep_items ok l1 cutoff closed w with
      | Ok c w' => sweep_items ok l2 cutoff c w'
      | Err e w' => Err e w'
      end.
Proof.
  induction l1 as [|a l1 IH]; intros closed w; [reflexivity|].
  cbn [app sweep_items]. unfold bind.
  destruct (issues_get ok (number a) w) as [i w1|e w1]; [|reflexivity].
  destruct (parseOccurrenceTimestamps _) as [|t ts]; [apply IH|].
  destruct (ge (latest t ts) (Some cutoff)); [apply IH|].
  cbn [get_world].
  destruct (findFixingPR ok (number a) w1) as [prs w2|e w2]; [|reflexivity].
  destruct (create_comment ok (number a) _ w2) as [[] w3|e w3]; [|reflexivity].
  destruct (issues_update ok (number a) None (Some Closed) w3) as [[] w4|e w4];
    [|reflexivity].
  apply IH.
Qed.

(** C4 (as the code has it): the sweep handles the open records in
    order, and a failure while processing one record ends it: the
    rejection is the outcome of the whole sweep, and the store stays as it
    was when the call failed, so no later record of the batch is
    processed. *)
Theorem sweep_aborts_at_first_failure (ok : octokit) (label : jsstring)
    (quietDays : Z) (w : world) (pre : list issue) (item : issue)
    (post : list issue) (closed1 : list Z) (w1 : world) (e : jsstring)
    (w2 : world) :
  0 < quietDays ->
  search_issues ok (QOpenLabelled label) 50 w = Ok (pre ++ item :: post) w ->
  sweep_items ok pre (now w - quietDays * 86400000) [] w = Ok closed1 w1 ->
  sweep_items ok [item] (now w - quietDays * 86400000) closed1 w1 = Err e w2 ->
  autoCloseQuietIssues ok label quietDays w = Err e w2.
Proof.
  intros Hq Hs Hpre Hitem. unfold autoCloseQuietIssues.
  destruct (quietDays <=? 0) eqn:E; [zlia|].
  unfold bind. rewrite Hs. cbn [get_world].
  rewrite sweep_items_app, Hpre.
  change (item :: post) with ([item] ++ post).
  rewrite sweep_items_app, Hitem. reflexivity.
Qed.

Lemma sweep_aborts_witness :
  exists w2,
    autoCloseQuietIssues (Scenarios.get_fails 2) Scenarios.tracking_label 30
      Scenarios.stale_world = Err http_error w2 /\
    Scenarios.issue_state 1 w2 = Some Closed /\
    Scenarios.issue_state 2 w2 = Some Open.
Proof.
  pose (w1 := final_world
                (sweep_items (Scenarios.get_fails 2)
                   (firstn 1 (issues Scenarios.stale_world))
                   (now Scenarios.stale_world - 30 * 86400000) []
                   Scenarios.stale_world)).
  exists w1. split.
  - apply (sweep_aborts_at_first_failure (Scenarios.get_fails 2)
             Scenarios.tracking_label 30 Scenarios.stale_world
             (firstn 1 (issues Scenarios.stale_world))
             (nth 1 (issues Scenarios.stale_world)
                  {| number := 0; title := []; body := None; state := Open;
                     labels := []; comments := []; html_url := [] |})
             [] [1] w1 http_error w1).
    + lia.
    + vm_compute. reflexivity.
    + vm_compute. reflexivity.
    + vm_compute. reflexivity.
  - split; vm_compute; reflexivity.
Defined.

(** C4, the claim as stated fails: when reading the first of two quiet
    records is rejected, the sweep ends with that rejection and the second
    record is left open and without closure comment, while the same sweep
    without the failure closes both. *)
Lemma sweep_failure_leaves_later_record :
  (exists w2,
      autoCloseQuietIssues (Scenarios.get_fails 1) Scenarios.tracking_label 30
        Scenarios.stale_world = Err http_error w2 /\
      Scenarios.issue_state 2 w2 = Some Open /\
      Scenarios.issue_comments 2 w2 = []) /\
  (exists w2,
      autoCloseQuietIssues Scenarios.service Scenarios.tracking_label 30
        Scenarios.stale_world = Ok [1; 2] w2 /\
      Scenarios.issue_state 2 w2 = Some Closed).
Proof.
  split; eexists; (split; [vm_compute; reflexivity|]);
    repeat split; vm_compute; reflexivity.
Qed.

(** With a quiet period of zero or fewer days the sweep is switched off:
    it returns the empty list without a single store call, on any store,
    healthy or not. *)
Theorem autoCloseQuietIssues_disabled (ok : octokit) (label : jsstring)
    (quietDays : Z) (w : world) :
  quietDays <= 0 ->
  autoCloseQuietIssues ok label quietDays w = Ok [] w.
Proof.
  intros H. unfold autoCloseQuietIssues.
  destruct (quietDays <=? 0) eqn:E; [reflexivity|zlia].
Qed.

Lemma autoCloseQuietIssues_disabled_witness :
  autoCloseQuietIssues Scenarios.service (u "ci-pattern") 0
    Scenarios.stale_world
  = Ok [] Scenarios.stale_world.
Proof.
  apply (autoCloseQuietIssues_disabled Scenarios.service (u "ci-pattern") 0
           Scenarios.stale_world).
  lia.
Defined.

End SweepFacts.

(** ** The store: what an upsert does to the record it finds *)

Section StoreFacts.
Import Text Dates Store Api PatternTracker StoreSpec.

Lemma streq_true (a b : jsstring) : streq a b = true <-> a = b.
Proof. unfold streq. destruct (list_eq_dec N.eq_dec a b); split; congruence. Qed.

Lemma mem_In (x : jsstring) (l : list jsstring) : mem x l = true <-> In x l.
Proof.
  unfold mem. rewrite existsb_exists. split.
  - intros (y & Hy & E). apply streq_true in E. subst. assumption.
  - intros H. exists x. split; [assumption|apply streq_true; reflexivity].
Qed.

Lemma find_issue_some (n : Z) (l : list issue) (i : issue) :
  find_issue n l = Some i -> number i = n /\ In i l.
Proof.
  unfold find_issue. intros H. destruct (find_some _ _ H) as [Hin Hn].
  cbv beta in Hn. split; [zlia|assumption].
Qed.

Lemma find_issue_unique (n : Z) (l : list issue) (i j : issue) :
  NoDup (List.map number l) -> find_issue n l = Some i ->
  In j l -> number j = n -> j = i.
Proof.
  induction l as [|a l IH]; intros Hnd Hf Hj Hn; [destruct Hj|].
  cbn [List.map] in Hnd. inversion Hnd as [|x xs Hnotin Hnd']; subst x xs.
  unfold find_issue in *. cbn [find] in Hf.
  destruct (number a =? n) eqn:Ea.
  - injection Hf as <-. destruct Hj as [->|Hj]; [reflexivity|].
    exfalso. apply Hnotin. apply in_map_iff. exists j. split; [zlia|assumption].
  - destruct Hj as [->|Hj]; [zlia|]. apply IH; assumption.
Qed.

Lemma find_issue_In (n : Z) (l : list issue) (i : issue) :
  NoDup (List.map number l) -> In i l -> number i = n ->
  find_issue n l = Some i.
Proof.
  intros Hnd Hin Hn. destruct (find_issue n l) as [j|] eqn:E.
  - f_equal. symmetry. apply (find_issue_unique n l j i Hnd E Hin Hn).
  - unfold find_issue in E. pose proof (find_none _ _ E i Hin) as H. cbv beta in H. zlia.
Qed.

Lemma map_put_number (n : Z) (x : issue) (l : list issue) :
  number x = n ->
  List.map number (List.map (fun j => if number j =? n then x else j) l)
  = List.map number l.
Proof.
  intros Hx. rewrite map_map. apply map_ext. intros j.
  destruct (number j =? n) eqn:E; [zlia|reflexivity].
Qed.

Lemma well_formed_w_put (n : Z) (x : issue) (w : world) :
  well_formed w -> number x = n -> well_formed (w_put n x w).
Proof.
  unfold well_formed, w_put, with_issues. cbn [issues]. intros H Hx.
  rewrite map_put_number by assumption. assumption.
Qed.

Lemma find_w_put (n : Z) (x i : issue) (w : world) :
  find_issue n (issues w) = Some i -> number x = n ->
  find_issue n (issues (w_put n x w)) = Some x.
Proof.
  unfold w_put, with_issues, find_issue. cbn [issues]. intros H Hx.
  induction (issues w) as [|a l IH]; [discriminate|].
  cbn [find List.map] in *. destruct (number a =? n) eqn:Ea.
  - replace (number x =? n) with true by (symmetry; apply Z.eqb_eq; assumption).
    reflexivity.
  - rewrite Ea. apply IH. assumption.
Qed.

Lemma w_put_w_put (n : Z) (x y : issue) (w : world) :
  number y = n -> w_put n x (w_put n y w) = w_put n x w.
Proof.
  intros Hy. unfold w_put, with_issues. cbn [issues pulls now]. f_equal.
  rewrite map_map. apply map_ext. intros j.
  destruct (number j =? n) eqn:E; [|rewrite E; reflexivity].
  replace (number y =? n) with true by (symmetry; apply Z.eqb_eq; assumption).
  reflexivity.
Qed.

Lemma w_put_same (n : Z) (i : issue) (w : world) :
  well_formed w -> find_issue n (issues w) = Some i -> w_put n i w = w.
Proof.
  intros Hwf Hf. unfold w_put, with_issues. destruct w as [l ps t].
  cbn [issues pulls now] in *. f_equal.
  rewrite <- (map_id l) at 2. apply map_ext_in. intros j Hj.
  destruct (number j =? n) eqn:E; [|reflexivity].
  symmetry. apply (find_issue_unique n l i j Hwf Hf Hj). zlia.
Qed.

Lemma now_w_put (n : Z) (x : issue) (w : world) : now (w_put n x w) = now w.
Proof. reflexivity. Qed.

(** *** Calls on a healthy service *)

Section Healthy.
Variable ok : octokit.
Hypothesis Hok : healthy ok.
Variables n t : Z.

Lemma request_healthy (ep : endpoint) (w : world) : request ok ep w = Ok tt w.
Proof. unfold request. rewrite Hok. reflexivity. Qed.

Lemma search_issues_healthy (q : query) (per_page : nat) (w : world) :
  search_issues ok q per_page w
  = Ok (firstn per_page (filter (issue_matches ok q) (issues w))) w.
Proof. unfold search_issues, bind. rewrite request_healthy. reflexivity. Qed.

Lemma acts_ret {A} (a : A) : acts n t (ret a) (fun _ => a) (fun i => i).
Proof.
  intros w i Hwf Ht Hf. unfold ret. rewrite (w_put_same n i w Hwf Hf). reflexivity.
Qed.

Lemma acts_ext {A} (m : M A) (v v' : issue -> A) (f f' : issue -> issue) :
  (forall i, v i = v' i) -> (forall i, f i = f' i) ->
  acts n t m v f -> acts n t m v' f'.
Proof. intros Hv Hf H w i Hwf Ht Hfi. rewrite <- Hv, <- Hf. apply H; assumption. Qed.

Lemma acts_bind {A B} (m : M A) (k : A -> M B) (v : issue -> A)
    (f : issue -> issue) (v' : A -> issue -> B) (f' : A -> issue -> issue) :
  acts n t m v f -> keeps_number f ->
  (forall a, acts n t (k a) (v' a) (f' a)) ->
  acts n t (bind m k) (fun i => v' (v i) (f i)) (fun i => f' (v i) (f i)).
Proof.
  intros Hm Hkeep Hk w i Hwf Ht Hf. unfold bind.
  rewrite (Hm w i Hwf Ht Hf).
  destruct (find_issue_some _ _ _ Hf) as [Hn _].
  assert (Hfn : number (f i) = n) by (rewrite Hkeep; assumption).
  rewrite (Hk (v i) (w_put n (f i) w) (f i)
             (well_formed_w_put n (f i) w Hwf Hfn) Ht
             (find_w_put n (f i) i w Hf Hfn)).
  rewrite w_put_w_put by assumption. reflexivity.
Qed.

Lemma acts_get_world {A} (k : world -> M A) (v : issue -> A)
    (f : issue -> issue) :
  (forall w0, now w0 = t -> acts n t (k w0) v f) ->
  acts n t (bind get_world k) v f.
Proof.
  intros H w i Hwf Ht Hf. unfold bind, get_world. apply (H w Ht); assumption.
Qed.

Lemma acts_if {A} (b : bool) (m1 m2 : M A) (v1 v2 : issue -> A)
    (f1 f2 : issue -> issue) :
  acts n t m1 v1 f1 -> acts n t m2 v2 f2 ->
  acts n t (if b then m1 else m2) (if b then v1 else v2) (if b then f1 else f2).
Proof. destruct b; auto. Qed.

Lemma acts_lookup : acts n t (lookup n) (fun i => i) (fun i => i).
Proof.
  intros w i Hwf Ht Hf. unfold lookup, bind, get_world. rewrite Hf.
  unfold ret. rewrite (w_put_same n i w Hwf Hf). reflexivity.
Qed.

Lemma acts_issues_get : acts n t (issues_get ok n) (fun i => i) (fun i => i).
Proof.
  intros w i Hwf Ht Hf. unfold issues_get, bind. rewrite request_healthy.
  apply acts_lookup; assumption.
Qed.

Lemma acts_modify (f : issue -> issue) :
  acts n t (modify n f) (fun _ => tt) f.
Proof.
  intros w i Hwf Ht Hf. unfold modify, bind, get_world. rewrite Hf.
  unfold put_issues, w_put, with_issues. do 2 f_equal.
  apply map_ext_in. intros j Hj.
  destruct (number j =? n) eqn:E; [|reflexivity].
  f_equal. apply (find_issue_unique n (issues w) i j Hwf Hf Hj). zlia.
Qed.

Lemma acts_after_request {A} (ep : endpoint) (m : M A) (v : issue -> A)
    (f : issue -> issue) :
  acts n t m v f -> acts n t (request ok ep ;;; m) v f.
Proof.
  intros H w i Hwf Ht Hf. unfold bind. rewrite request_healthy.
  apply H; assumption.
Qed.

Lemma acts_issues_update (nb : option jsstring) (ns : option istate) :
  acts n t (issues_update ok n nb ns) (fun _ => tt)
    (fun i =>
       {| number := number i; title := title i;
          body := match nb with Some b => Some b | None => body i end;
          state := match ns with Some s => s | None => state i end;
          labels := labels i; comments := comments i; html_url := html_url i |}).
Proof. apply acts_after_request, acts_modify. Qed.

Lemma acts_create_comment (text : jsstring) :
  acts n t (create_comment ok n text) (fun _ => tt)
    (fun i =>
       {| number := number i; title := title i; body := body i; state := state i;
          labels := labels i; comments := comments i ++ [text];
          html_url := html_url i |}).
Proof. apply acts_after_request, acts_modify. Qed.

Lemma acts_list_labels :
  acts n t (list_labels ok n) (fun i => firstn 100 (labels i)) (fun i => i).
Proof.
  unfold list_labels. apply acts_after_request.
  eapply acts_ext;
    [| |eapply acts_bind;
        [apply acts_lookup|intros i; reflexivity|intros a; apply acts_ret]];
    intros i; reflexivity.
Qed.

Lemma acts_remove_label (name : jsstring) :
  acts n t (remove_label ok n name) (fun _ => tt)
    (fun i => set_labels i (filter (fun l => negb (streq l name)) (labels i))).
Proof. apply acts_after_request, acts_modify. Qed.

Lemma acts_add_labels (names : list jsstring) :
  acts n t (add_labels ok n names) (fun _ => tt)
    (fun i =>
       set_labels i (labels i ++ filter (fun l => negb (mem l (labels i))) names)).
Proof. apply acts_after_request, acts_modify. Qed.

Lemma acts_remove_stale (stale : list jsstring) :
  acts n t
    (fold_right (fun l k => remove_label ok n l ;;; k) (ret tt) stale)
    (fun _ => tt)
    (fun i => set_labels i (remove_all stale (labels i))).
Proof.
  induction stale as [|l stale IH].
  - cbn [fold_right]. eapply acts_ext; [| |apply acts_ret].
    + reflexivity.
    + intros i. destruct i. reflexivity.
  - cbn [fold_right].
    eapply acts_ext;
      [| |eapply acts_bind
            with (v' := fun _ _ => tt)
                 (f' := fun _ i => set_labels i (remove_all stale (labels i)));
          [apply acts_remove_label|intros i; reflexivity|intros []; exact IH]];
      intros i; reflexivity.
Qed.

End Healthy.

End StoreFacts.

(** ** Upsert on a record that exists *)

Section UpsertFacts.
Import Text Dates Store Api PatternTracker StoreSpec UpsertSpec.

Variable ok : octokit.
Hypothesis Hok : healthy ok.

Lemma acts_applySeverityLabel (n t : Z) (sev : value) :
  acts n t (applySeverityLabel ok n sev) (fun _ => tt)
    (fun i => set_labels i (severity_labels sev (labels i))).
Proof.
  unfold applySeverityLabel.
  eapply acts_ext;
    [| |eapply acts_bind
          with (v' := fun _ _ => tt)
               (f' := fun ls i =>
                  let targetLabel := u "severity:" ++ to_string sev in
                  let stale :=
                    filter (fun l => (startsWith l (u "severity:")
                                      && negb (streq l targetLabel))%bool) ls in
                  let kept := remove_all stale (labels i) in
                  set_labels i
                    (if mem targetLabel ls then kept
                     else kept ++ filter (fun l => negb (mem l kept)) [targetLabel]));
        [apply (acts_list_labels ok Hok)|intros i; reflexivity|]].
  - intros i. reflexivity.
  - intros i. cbv beta zeta. unfold severity_labels. cbv zeta. reflexivity.
  - intros ls. cbv zeta.
    eapply acts_ext;
      [| |eapply acts_bind
            with (v' := fun _ _ => tt)
                 (f' := fun _ j =>
                    if mem (u "severity:" ++ to_string sev) ls then j
                    else set_labels j
                           (labels j
                            ++ filter (fun l => negb (mem l (labels j)))
                                 [u "severity:" ++ to_string sev]));
          [apply (acts_remove_stale ok Hok)|intros i; reflexivity|]].
    + intros i. reflexivity.
    + intros i. cbv beta. destruct (mem (u "severity:" ++ to_string sev) ls).
      * destruct i. reflexivity.
      * reflexivity.
    + intros []. destruct (mem (u "severity:" ++ to_string sev) ls).
      * apply acts_ret.
      * apply (acts_add_labels ok Hok).
Qed.

(** What an upsert does when the search has found [item]: it resolves to
    [found_result] and leaves [found_issue] in the store. *)
Lemma acts_upsert_found (item : issue) (occ : occurrence)
    (ruleName : jsstring) (thr t : Z) :
  acts (number item) t (upsert_found ok item occ ruleName thr)
    (found_result item occ ruleName thr t)
    (found_issue item occ ruleName thr t).
Proof.
  intros w i Hwf Ht Hf. unfold upsert_found.
  set (n := number item) in *.
  destruct (find_issue_some _ _ _ Hf) as [Hn _].
  unfold bind at 1. rewrite (acts_issues_get ok Hok n t w i Hwf Ht Hf).
  rewrite (w_put_same n i w Hwf Hf).
  unfold bind at 1. cbn [get_world]. rewrite Ht.
  fold (found_timestamps item i occ).
  fold (found_stats item i occ t).
  set (sev := Severity.classifySeverity ruleName (last7 (found_stats item i occ t))).
  set (body1 := appendStatsLine _ (found_stats item i occ t)).
  unfold bind at 1.
  rewrite (acts_issues_update ok Hok n t _ _ w i Hwf Ht Hf).
  match goal with
  | |- context [w_put n ?x w] => set (i1 := x)
  end.
  assert (Hn1 : number i1 = n) by exact Hn.
  pose proof (well_formed_w_put n i1 w Hwf Hn1) as Hwf1.
  pose proof (find_w_put n i1 i w Hf Hn1) as Hf1.
  assert (Hstep2 : exists i2,
             number i2 = n /\
             (if match state item with Closed => true | Open => false end
              then create_comment ok n recurred_comment else ret tt)
               (w_put n i1 w) = Ok tt (w_put n i2 w) /\
             i2 = {| number := number i; title := title i; body := Some body1;
                     state := match state item with Closed => Open | Open => state i end;
                     labels := labels i;
                     comments := match state item with
                                 | Closed => comments i ++ [recurred_comment]
                                 | Open => comments i
                                 end;
                     html_url := html_url i |}).
  { destruct (state item) eqn:Est.
    - exists i1. split; [exact Hn1|]. split; [|reflexivity].
      unfold ret. reflexivity.
    - eexists. split; [|split; [|reflexivity]]; [exact Hn|].
      rewrite (acts_create_comment ok Hok n t _ (w_put n i1 w) i1 Hwf1 Ht Hf1).
      rewrite w_put_w_put by exact Hn1. reflexivity. }
  destruct Hstep2 as (i2 & Hn2 & Hstep2 & Ei2).
  unfold bind at 1. rewrite Hstep2.
  pose proof (well_formed_w_put n i2 w Hwf Hn2) as Hwf2.
  pose proof (find_w_put n i2 i w Hf Hn2) as Hf2.
  unfold bind at 1.
  rewrite (acts_applySeverityLabel n t sev (w_put n i2 w) i2 Hwf2 Ht Hf2).
  rewrite w_put_w_put by exact Hn2.
  set (i3 := set_labels i2 (severity_labels sev (labels i2))).
  assert (Hn3 : number i3 = n) by exact Hn2.
  pose proof (well_formed_w_put n i3 w Hwf Hn3) as Hwf3.
  pose proof (find_w_put n i3 i w Hf Hn3) as Hf3.
  unfold bind at 1.
  fold (crossing item i occ thr).
  unfold found_result, found_issue. fold sev. fold body1.
  unfold crossing.
  destruct ((thr >? 0) && (len (found_timestamps item i occ) >=? thr))%bool.
  - destruct (mem threshold_label (labels item)).
    + cbn [negb andb ret]. unfold i3. rewrite Ei2.
      destruct (state item); reflexivity.
    + unfold bind.
      rewrite (acts_add_labels ok Hok n t _ (w_put n i3 w) i3 Hwf3 Ht Hf3).
      rewrite w_put_w_put by exact Hn3.
      cbn [negb andb ret]. unfold i3. rewrite Ei2.
      destruct (state item); reflexivity.
  - cbn [negb andb ret]. unfold i3. rewrite Ei2.
      destruct (state item); reflexivity.
Qed.

End UpsertFacts.

(** ** Relations that every step of an upsert preserves *)

Section Invariant.
Import Text Dates Store Api PatternTracker StoreSpec.

Variable R : world -> world -> Prop.
Hypothesis R_refl : forall w, R w w.
Hypothesis R_trans : forall w1 w2 w3, R w1 w2 -> R w2 w3 -> R w1 w3.

(** [good j j']: the record [j] may be replaced by [j']. *)
Variable good : issue -> issue -> Prop.
Hypothesis R_map : forall w n f,
  (forall j, good j (f j)) ->
  R w (with_issues w
         (List.map (fun i => if number i =? n then f i else i) (issues w))).
Hypothesis R_new : forall w i,
  state i = Open -> number i = fresh_number (issues w) ->
  R w (with_issues w (issues w ++ [i])).
Hypothesis good_update : forall j nb ns,
  ns <> Some Closed ->
  good j {| number := number j; title := title j;
            body := match nb with Some b => Some b | None => body j end;
            state := match ns with Some s => s | None => state j end;
            labels := labels j; comments := comments j;
            html_url := html_url j |}.
Hypothesis good_comment : forall j text,
  good j {| number := number j; title := title j; body := body j;
            state := state j; labels := labels j;
            comments := comments j ++ [text]; html_url := html_url j |}.
Hypothesis good_add : forall j names,
  good j (set_labels j
            (labels j ++ filter (fun l => negb (mem l (labels j))) names)).
Hypothesis good_remove : forall j name,
  startsWith name (u "severity:") = true ->
  good j (set_labels j (filter (fun l => negb (streq l name)) (labels j))).

Lemma preserves_ret {A} (a : A) : preserves R (ret a).
Proof. intros w. apply R_refl. Qed.

Lemma preserves_throw {A} (e : jsstring) : preserves R (@throw A e).
Proof. intros w. apply R_refl. Qed.

Lemma preserves_bind {A B} (m : M A) (k : A -> M B) :
  preserves R m -> (forall a, preserves R (k a)) -> preserves R (bind m k).
Proof.
  intros Hm Hk w. unfold bind. specialize (Hm w).
  destruct (m w) as [a w'|e w']; cbn [final_world] in *.
  - apply (R_trans _ _ _ Hm). apply Hk.
  - exact Hm.
Qed.

Lemma preserves_request (ok : octokit) (ep : endpoint) :
  preserves R (request ok ep).
Proof. intros w. unfold request. destruct (fails ok ep); apply R_refl. Qed.

Lemma preserves_get_world : preserves R get_world.
Proof. intros w. apply R_refl. Qed.

Lemma preserves_search_issues (ok : octokit) (q : query) (pp : nat) :
  preserves R (search_issues ok q pp).
Proof.
  unfold search_issues. apply preserves_bind; [apply preserves_request|].
  intros _. apply preserves_bind; [apply preserves_get_world|].
  intros w. apply preserves_ret.
Qed.

Lemma preserves_lookup (n : Z) : preserves R (lookup n).
Proof.
  unfold lookup. apply preserves_bind; [apply preserves_get_world|].
  intros w. destruct (find_issue n (issues w));
    [apply preserves_ret|apply preserves_throw].
Qed.

Lemma preserves_issues_get (ok : octokit) (n : Z) :
  preserves R (issues_get ok n).
Proof.
  unfold issues_get. apply preserves_bind; [apply preserves_request|].
  intros _. apply preserves_lookup.
Qed.

Lemma preserves_modify (n : Z) (f : issue -> issue) :
  (forall j, good j (f j)) -> preserves R (modify n f).
Proof.
  intros Hf w. unfold modify, bind, get_world.
  destruct (find_issue n (issues w)); [|apply R_refl].
  unfold put_issues. cbn [final_world]. apply (R_map w n f Hf).
Qed.

Lemma preserves_issues_update (ok : octokit) (n : Z) (nb : option jsstring)
    (ns : option istate) :
  ns <> Some Closed -> preserves R (issues_update ok n nb ns).
Proof.
  intros Hns. unfold issues_update.
  apply preserves_bind; [apply preserves_request|].
  intros _. apply preserves_modify. intros j. apply good_update. exact Hns.
Qed.

Lemma preserves_create_comment (ok : octokit) (n : Z) (text : jsstring) :
  preserves R (create_comment ok n text).
Proof.
  unfold create_comment. apply preserves_bind; [apply preserves_request|].
  intros _. apply preserves_modify. intros j. apply good_comment.
Qed.

Lemma preserves_list_labels (ok : octokit) (n : Z) :
  preserves R (list_labels ok n).
Proof.
  unfold list_labels. apply preserves_bind; [apply preserves_request|].
  intros _. apply preserves_bind; [apply preserves_lookup|].
  intros i. apply preserves_ret.
Qed.

Lemma preserves_remove_label (ok : octokit) (n : Z) (name : jsstring) :
  startsWith name (u "severity:") = true ->
  preserves R (remove_label ok n name).
Proof.
  intros Hp. unfold remove_label. apply preserves_bind; [apply preserves_request|].
  intros _. apply preserves_modify. intros j. apply good_remove. exact Hp.
Qed.

Lemma preserves_add_labels (ok : octokit) (n : Z) (names : list jsstring) :
  preserves R (add_labels ok n names).
Proof.
  unfold add_labels. apply preserves_bind; [apply preserves_request|].
  intros _. apply preserves_modify. intros j. apply good_add.
Qed.

Lemma preserves_issues_create (ok : octokit) (t b : jsstring)
    (ls : list jsstring) :
  preserves R (issues_create ok t b ls).
Proof.
  intros w. unfold issues_create, bind, request, get_world, put_issues, ret.
  destruct (fails ok EpCreate); cbn [final_world]; [apply R_refl|].
  apply (R_new w); reflexivity.
Qed.

Lemma preserves_remove_stale (ok : octokit) (n : Z) (stale : list jsstring) :
  Forall (fun l => startsWith l (u "severity:") = true) stale ->
  preserves R
    (fold_right (fun l k => remove_label ok n l ;;; k) (ret tt) stale).
Proof.
  induction 1 as [|l stale Hl Hst IH]; cbn [fold_right].
  - apply preserves_ret.
  - apply preserves_bind; [apply preserves_remove_label; exact Hl|].
    intros _. exact IH.
Qed.

Lemma preserves_applySeverityLabel (ok : octokit) (n : Z) (sev : value) :
  preserves R (applySeverityLabel ok n sev).
Proof.
  unfold applySeverityLabel.
  apply preserves_bind; [apply preserves_list_labels|].
  intros ls. apply preserves_bind.
  - apply preserves_remove_stale. apply Forall_forall. intros l Hl.
    apply filter_In in Hl as [_ Hl]. apply andb_true_iff in Hl. apply Hl.
  - intros _. destruct (mem _ ls);
      [apply preserves_ret|apply preserves_add_labels].
Qed.

Lemma preserves_upsert_found (ok : octokit) (item : issue) (occ : occurrence)
    (ruleName : jsstring) (thr : Z) :
  preserves R (upsert_found ok item occ ruleName thr).
Proof.
  unfold upsert_found.
  apply preserves_bind; [apply preserves_issues_get|]. intros i.
  apply preserves_bind; [apply preserves_get_world|]. intros w0.
  apply preserves_bind.
  { apply preserves_issues_update. destruct (state item); discriminate. }
  intros _. apply preserves_bind.
  { destruct (state item); [apply preserves_ret|apply preserves_create_comment]. }
  intros _. apply preserves_bind; [apply preserves_applySeverityLabel|].
  intros _. apply preserves_bind.
  { destruct (_ && _)%bool; [|apply preserves_ret].
    destruct (mem threshold_label (labels item)); [apply preserves_ret|].
    apply preserves_bind; [apply preserves_add_labels|].
    intros _. apply preserves_ret. }
  intros b. apply preserves_ret.
Qed.

Lemma preserves_upsert (ok : octokit) (label signature signatureHash : jsstring)
    (occ : occurrence) (ruleName : jsstring) (thr : Z) :
  preserves R
    (upsertIssueForSignature ok label signature signatureHash occ ruleName thr).
Proof.
  unfold upsertIssueForSignature.
  apply preserves_bind; [apply preserves_search_issues|]. intros found0.
  apply preserves_bind.
  { destruct found0; [|apply preserves_ret].
    apply preserves_bind; [apply preserves_search_issues|].
    intros closedFound. apply preserves_ret. }
  intros found. destruct found as [|item rest].
  - apply preserves_bind; [apply preserves_issues_create|].
    intros created. apply preserves_ret.
  - apply preserves_upsert_found.
Qed.

End Invariant.

(** ** Reopening, and what an upsert never does *)

Section ReopenFacts.
Import Text Dates Store Api PatternTracker StoreSpec UpsertSpec.

Lemma nothing_closed_refl (w : world) : nothing_closed w w.
Proof. intros i Hi Hc. exists i. auto. Qed.

Lemma nothing_closed_trans (w1 w2 w3 : world) :
  nothing_closed w1 w2 -> nothing_closed w2 w3 -> nothing_closed w1 w3.
Proof.
  intros H12 H23 i3 Hi3 Hc3.
  destruct (H23 i3 Hi3 Hc3) as (i2 & Hi2 & Hn2 & Hc2).
  destruct (H12 i2 Hi2 Hc2) as (i1 & Hi1 & Hn1 & Hc1).
  exists i1. repeat split; [assumption|congruence|assumption].
Qed.

Lemma nothing_closed_map (w : world) (n : Z) (f : issue -> issue) :
  (forall j, closes_nothing j (f j)) ->
  nothing_closed w
    (with_issues w
       (List.map (fun i => if number i =? n then f i else i) (issues w))).
Proof.
  intros Hf i' Hi' Hc. cbn [issues with_issues] in Hi'.
  apply in_map_iff in Hi' as (i & <- & Hi). exists i.
  destruct (number i =? n).
  - destruct (Hf i) as [Hn Hs]. auto.
  - auto.
Qed.

Lemma nothing_closed_new (w : world) (i : issue) :
  state i = Open -> number i = fresh_number (issues w) ->
  nothing_closed w (with_issues w (issues w ++ [i])).
Proof.
  intros Ho _ i' Hi' Hc. cbn [issues with_issues] in Hi'.
  apply in_app_iff in Hi' as [Hi'|[<-|[]]].
  - exists i'. auto.
  - congruence.
Qed.

(** An upsert, whatever it is given and whether its calls fail or not,
    closes no record. *)
Lemma upsert_closes_nothing (ok : octokit)
    (label signature signatureHash : jsstring) (occ : occurrence)
    (ruleName : jsstring) (thr : Z) (w : world) :
  nothing_closed w
    (final_world
       (upsertIssueForSignature ok label signature signatureHash occ ruleName
          thr w)).
Proof.
  apply (preserves_upsert nothing_closed nothing_closed_refl
           nothing_closed_trans closes_nothing nothing_closed_map
           nothing_closed_new).
  - intros j nb ns Hns. split; [reflexivity|]. cbn [state].
    destruct ns as [[]|]; [discriminate|congruence|auto].
  - intros j text. split; [reflexivity|auto].
  - intros j names. split; [reflexivity|auto].
  - intros j name _. split; [reflexivity|auto].
Qed.

Lemma mem_app_l (x : jsstring) (a b : list jsstring) :
  mem x a = true -> mem x (a ++ b) = true.
Proof. rewrite !mem_In. intros H. apply in_or_app. left. exact H. Qed.

Lemma mem_remove_all (x : jsstring) (stale ls : list jsstring) :
  mem x ls = true -> ~ In x stale -> mem x (remove_all stale ls) = true.
Proof.
  unfold remove_all. revert ls. induction stale as [|s stale IH]; intros ls Hm Hn.
  - exact Hm.
  - cbn [fold_left]. apply IH.
    + apply mem_In. apply filter_In. split; [apply mem_In; exact Hm|].
      destruct (streq x s) eqn:E; [|reflexivity].
      apply streq_true in E. subst. exfalso. apply Hn. left. reflexivity.
    + intros Hin. apply Hn. right. exact Hin.
Qed.

(** [applySeverityLabel] keeps every label that is not a severity label. *)
Lemma severity_labels_keep (sev : value) (ls : list jsstring) (x : jsstring) :
  mem x ls = true -> startsWith x (u "severity:") = false ->
  mem x (severity_labels sev ls) = true.
Proof.
  intros Hm Hx. unfold severity_labels.
  assert (Hk : mem x
                 (remove_all
                    (filter
                       (fun l => (startsWith l (u "severity:")
                                  && negb (streq l (u "severity:" ++ to_string sev)))%bool)
                       (firstn 100 ls)) ls) = true).
  { apply mem_remove_all; [exact Hm|]. intros Hin.
    apply filter_In in Hin as [_ Hin]. apply andb_true_iff in Hin as [Hin _].
    congruence. }
  destruct (mem _ (firstn 100 ls)); [exact Hk|apply mem_app_l; exact Hk].
Qed.

Lemma found_issue_keeps_label (item : issue) (occ : occurrence)
    (ruleName : jsstring) (thr t : Z) (i : issue) (x : jsstring) :
  mem x (labels i) = true -> startsWith x (u "severity:") = false ->
  mem x (labels (found_issue item occ ruleName thr t i)) = true.
Proof.
  intros Hm Hx. unfold found_issue. cbn [labels].
  destruct (crossing item i occ thr).
  - apply mem_app_l. apply severity_labels_keep; assumption.
  - apply severity_labels_keep; assumption.
Qed.

Lemma filter_w_put (m : issue -> bool) (n : Z) (x item : issue) (w : world) :
  well_formed w -> number item = n -> number x = n ->
  filter m (issues w) = [item] -> m x = true ->
  filter m (issues (w_put n x w)) = [x].
Proof.
  unfold well_formed, w_put, with_issues. cbn [issues].
  intros Hwf Hi Hx Hfil Hm.
  induction (issues w) as [|a l IH]; [discriminate|].
  cbn [List.map] in Hwf. inversion Hwf as [|y ys Hnotin Hwf']; subst y ys.
  cbn [List.map filter] in *.
  destruct (number a =? n) eqn:Ea.
  - rewrite Hm.
    assert (Hrest : forall j, In j l -> number j <> n).
    { intros j Hj Hjn. apply Hnotin. apply in_map_iff. exists j.
      split; [zlia|exact Hj]. }
    assert (Hl : List.map (fun j => if number j =? n then x else j) l = l).
    { rewrite <- (map_id l) at 2. apply map_ext_in. intros j Hj.
      destruct (number j =? n) eqn:Ej; [|reflexivity].
      exfalso. apply (Hrest j Hj). zlia. }
    rewrite Hl. f_equal.
    destruct (m a).
    + injection Hfil as _ Hfil. exact Hfil.
    + exfalso. assert (Hin : In item (filter m l)) by (rewrite Hfil; left; reflexivity).
      apply filter_In in Hin as [Hin _]. apply (Hrest item Hin Hi).
  - destruct (m a) eqn:Ema.
    + injection Hfil as -> _. zlia.
    + apply IH; assumption.
Qed.

(** The branch for a closed record that the search returns: the upsert
    reopens it, reports "reopened" and appends the comment that starts
    with "**Pattern recurred**"; the next upsert reports "updated" and the
    record stays open.  An upsert never closes a record, whatever its
    outcome; a record is closed by the quiet-period sweep. *)
Lemma upsert_reopens_closed_record (ok : octokit)
    (label signature signatureHash : jsstring) (occ1 occ2 : occurrence)
    (ruleName : jsstring) (thr1 thr2 : Z) (w : world) (item : issue) :
  healthy ok ->
  well_formed w ->
  filter (issue_matches ok (QTitle None signatureHash label)) (issues w)
  = [item] ->
  state item = Closed ->
  startsWith label (u "severity:") = false ->
  (exists res1 w1 res2 w2 i1 i2,
      upsertIssueForSignature ok label signature signatureHash occ1 ruleName
        thr1 w = Ok res1 w1 /\
      kind res1 = Reopened /\ issueNumber res1 = number item /\
      find_issue (number item) (issues w1) = Some i1 /\
      state i1 = Open /\
      comments i1 = comments item ++ [recurred_comment] /\
      upsertIssueForSignature ok label signature signatureHash occ2 ruleName
        thr2 w1 = Ok res2 w2 /\
      kind res2 = Updated /\ issueNumber res2 = number item /\
      find_issue (number item) (issues w2) = Some i2 /\
      state i2 = Open /\
      comments i2 = comments item ++ [recurred_comment]) /\
  (forall ok' label' signature' signatureHash' occ' ruleName' thr' w',
      nothing_closed w'
        (final_world
           (upsertIssueForSignature ok' label' signature' signatureHash' occ'
              ruleName' thr' w'))) /\
  startsWith recurred_comment (u "**Pattern recurred**") = true.
Proof.
  intros Hok Hwf Hfil Hclosed Hlabel.
  split; [|split; [intros; apply upsert_closes_nothing|reflexivity]].
  set (n := number item).
  set (q := QTitle None signatureHash label) in *.
  assert (Hin : In item (filter (issue_matches ok q) (issues w)))
    by (rewrite Hfil; left; reflexivity).
  apply filter_In in Hin as [Hin Hmatch].
  pose proof (find_issue_In n (issues w) item Hwf Hin eq_refl) as Hf.
  set (i1 := found_issue item occ1 ruleName thr1 (now w) item).
  set (w1 := w_put n i1 w).
  assert (Hn1 : number i1 = n) by reflexivity.
  assert (Hs1 : state i1 = Open) by (unfold i1, found_issue; cbn [state]; rewrite Hclosed; reflexivity).
  assert (Hc1 : comments i1 = comments item ++ [recurred_comment])
    by (unfold i1, found_issue; cbn [comments]; rewrite Hclosed; reflexivity).
  assert (Hwf1 : well_formed w1) by (apply well_formed_w_put; assumption).
  assert (Hf1 : find_issue n (issues w1) = Some i1)
    by (apply (find_w_put n i1 item w Hf Hn1)).
  assert (Hmatch1 : issue_matches ok q i1 = true).
  { unfold q, issue_matches in *. cbn [state_ok] in *.
    apply andb_true_iff in Hmatch as [Hmatch Hlab]. cbn [andb] in Hmatch.
    cbn [andb]. apply andb_true_iff. split.
    - exact Hmatch.
    - apply found_issue_keeps_label; assumption. }
  assert (Hfil1 : filter (issue_matches ok q) (issues w1) = [i1])
    by (apply (filter_w_put _ n i1 item w Hwf eq_refl Hn1 Hfil Hmatch1)).
  set (i2 := found_issue i1 occ2 ruleName thr2 (now w1) i1).
  exists (found_result item occ1 ruleName thr1 (now w) item), w1,
         (found_result i1 occ2 ruleName thr2 (now w1) i1), (w_put n i2 w1), i1, i2.
  assert (E1 : upsertIssueForSignature ok label signature signatureHash occ1
                 ruleName thr1 w
               = Ok (found_result item occ1 ruleName thr1 (now w) item) w1).
  { unfold upsertIssueForSignature. unfold bind at 1.
    rewrite (search_issues_healthy ok Hok). fold q. rewrite Hfil.
    cbn [firstn]. unfold bind at 1. cbn [ret].
    apply (acts_upsert_found ok Hok item occ1 ruleName thr1 (now w) w item
             Hwf eq_refl Hf). }
  assert (E2 : upsertIssueForSignature ok label signature signatureHash occ2
                 ruleName thr2 w1
               = Ok (found_result i1 occ2 ruleName thr2 (now w1) i1)
                    (w_put n i2 w1)).
  { unfold upsertIssueForSignature. unfold bind at 1.
    rewrite (search_issues_healthy ok Hok). fold q. rewrite Hfil1.
    cbn [firstn]. unfold bind at 1. cbn [ret].
    apply (acts_upsert_found ok Hok i1 occ2 ruleName thr2 (now w1) w1 i1
             Hwf1 eq_refl Hf1). }
  split; [exact E1|].
  split; [unfold found_result; cbn [kind]; rewrite Hclosed; reflexivity|].
  split; [reflexivity|]. split; [exact Hf1|]. split; [exact Hs1|].
  split; [exact Hc1|]. split; [exact E2|].
  split; [unfold found_result; cbn [kind]; rewrite Hs1; reflexivity|].
  split; [reflexivity|].
  split; [apply (find_w_put n i2 i1 w1 Hf1); reflexivity|].
  split.
  - unfold i2, found_issue. cbn [state]. rewrite Hs1. reflexivity.
  - unfold i2, found_issue. cbn [comments]. rewrite Hs1. exact Hc1.
Qed.

Lemma service_healthy : healthy Scenarios.service.
Proof. intros ep. reflexivity. Qed.

Lemma closed_world_well_formed : well_formed Scenarios.closed_world.
Proof. unfold well_formed. vm_compute. repeat constructor. intros []. Qed.

Lemma upsert_reopens_witness :
  exists res1 w1 res2 w2,
    Scenarios.upsert_a "2026-11-02T10:00:00.000Z" 0 Scenarios.closed_world
    = Ok res1 w1 /\
    kind res1 = Reopened /\
    Scenarios.issue_state 1 w1 = Some Open /\
    Scenarios.upsert_a "2026-11-02T11:00:00.000Z" 0 w1 = Ok res2 w2 /\
    kind res2 = Updated.
Proof.
  destruct (proj1 (upsert_reopens_closed_record Scenarios.service
                     Scenarios.tracking_label Scenarios.sig_a Scenarios.hash_a
                     (Scenarios.occ_at "2026-11-02T10:00:00.000Z")
                     (Scenarios.occ_at "2026-11-02T11:00:00.000Z")
                     (u "ESLint") 0 0 Scenarios.closed_world
                     (nth 0 (issues Scenarios.closed_world)
                          {| number := 0; title := []; body := None;
                             state := Open; labels := []; comments := [];
                             html_url := [] |})
                     service_healthy closed_world_well_formed
                     ltac:(vm_compute; reflexivity)
                     ltac:(vm_compute; reflexivity)
                     ltac:(vm_compute; reflexivity)))
    as (res1 & w1 & res2 & w2 & i1 & i2 & E1 & K1 & _ & F1 & S1 & _ & E2 & K2 & _).
  exists res1, w1, res2, w2.
  split; [exact E1|]. split; [exact K1|].
  split; [unfold Scenarios.issue_state; change (number _) with 1 in F1;
          rewrite F1; cbn [option_map]; rewrite S1; reflexivity|].
  split; [exact E2|exact K2].
Defined.

(** C8: the search asks for the whole fingerprint, forty characters, in
    the title, and the title a record is created with carries its first
    eight.  With a search that matches substrings of the title, the record
    an upsert created is therefore not found again: once the sweep has
    closed it, the next upsert against the same fingerprint creates a
    second record and reports "created"; the closed record stays closed
    and gets no recurrence comment. *)
Theorem upsert_duplicates_closed_record :
  exists res1 w1 w2 res2 w3,
    run_upsert Scenarios.substring_service
      (Scenarios.args_a "2026-09-01T10:00:00.000Z" 0) Scenarios.empty_world
    = Ok res1 w1 /\
    kind res1 = Created /\ issueNumber res1 = 1 /\
    autoCloseQuietIssues Scenarios.substring_service Scenarios.tracking_label
      30 w1 = Ok [1] w2 /\
    List.map (fun i => (number i, state i)) (issues w2) = [(1, Closed)] /\
    run_upsert Scenarios.substring_service
      (Scenarios.args_a "2026-11-02T11:00:00.000Z" 0) w2 = Ok res2 w3 /\
    kind res2 = Created /\ issueNumber res2 = 2 /\
    List.map (fun i => (number i, state i)) (issues w3)
    = [(1, Closed); (2, Open)] /\
    Scenarios.issue_comments 1 w3 = Scenarios.issue_comments 1 w2 /\
    List.length (Scenarios.hash_a) = 40%nat /\
    Scenarios.issue_title 1 w3
    = u "[CI Pattern 3f2a9c0d] ESLint: src/a.ts:<line>:<col> error Foo".
Proof.
  do 5 eexists. split; [vm_compute; reflexivity|].
  do 2 (split; [reflexivity|]).
  split; [vm_compute; reflexivity|].
  split; [reflexivity|].
  split; [vm_compute; reflexivity|].
  repeat split; vm_compute; reflexivity.
Qed.

(** The same steps on a service whose search finds a title by the first
    eight characters of the fingerprint: the closed record is reopened. *)
Lemma upsert_reopens_with_prefix_search :
  exists res1 w1 w2 res2 w3,
    run_upsert Scenarios.service
      (Scenarios.args_a "2026-09-01T10:00:00.000Z" 0) Scenarios.empty_world
    = Ok res1 w1 /\
    autoCloseQuietIssues Scenarios.service Scenarios.tracking_label 30 w1
    = Ok [1] w2 /\
    run_upsert Scenarios.service
      (Scenarios.args_a "2026-11-02T11:00:00.000Z" 0) w2 = Ok res2 w3 /\
    kind res2 = Reopened /\ issueNumber res2 = 1 /\
    List.map (fun i => (number i, state i)) (issues w3) = [(1, Open)].
Proof.
  do 5 eexists. split; [vm_compute; reflexivity|].
  split; [vm_compute; reflexivity|].
  split; [vm_compute; reflexivity|].
  repeat split; vm_compute; reflexivity.
Qed.

End ReopenFacts.

(** ** The threshold marker is applied once *)

Section ThresholdFacts.
Import Text Dates Store Api PatternTracker StoreSpec UpsertSpec.

Lemma keeps_marks_refl (w : world) : keeps_marks w w.
Proof. split; auto. Qed.

Lemma keeps_marks_trans (w1 w2 w3 : world) :
  keeps_marks w1 w2 -> keeps_marks w2 w3 -> keeps_marks w1 w3.
Proof. intros [A1 B1] [A2 B2]. split; auto. Qed.

Lemma find_issue_map (n m : Z) (f : issue -> issue) (l : list issue) :
  (forall j, number (f j) = number j) ->
  find_issue n (List.map (fun i => if number i =? m then f i else i) l)
  = option_map (fun i => if number i =? m then f i else i) (find_issue n l).
Proof.
  intros Hf. unfold find_issue. induction l as [|a l IH]; [reflexivity|].
  cbn [List.map find].
  assert (E : number (if number a =? m then f a else a) = number a)
    by (destruct (number a =? m); [apply Hf|reflexivity]).
  rewrite E. destruct (number a =? n); [reflexivity|exact IH].
Qed.

Lemma keeps_marks_map (w : world) (m : Z) (f : issue -> issue) :
  (forall j, keeps_mark j (f j)) ->
  keeps_marks w
    (with_issues w
       (List.map (fun i => if number i =? m then f i else i) (issues w))).
Proof.
  intros Hf. split.
  - unfold well_formed, with_issues. cbn [issues]. intros Hwf.
    rewrite map_map.
    rewrite (map_ext _ number); [exact Hwf|].
    intros j. destruct (number j =? m); [apply Hf|reflexivity].
  - intros n (i & Hi & Hl). unfold has_threshold_label, with_issues.
    cbn [issues]. rewrite find_issue_map by (intros j; apply Hf).
    rewrite Hi. cbn [option_map]. eexists. split; [reflexivity|].
    destruct (number i =? m); [apply Hf; exact Hl|exact Hl].
Qed.

Lemma fresh_number_above (l : list issue) (i : issue) :
  In i l -> number i < fresh_number l.
Proof.
  unfold fresh_number. induction l as [|a l IH]; [intros []|].
  cbn [fold_right]. intros [->|Hin]; [lia|]. specialize (IH Hin). lia.
Qed.

Lemma find_issue_app (n : Z) (l l' : list issue) :
  find_issue n (l ++ l') =
    match find_issue n l with
    | Some x => Some x
    | None => find_issue n l'
    end.
Proof.
  unfold find_issue. induction l as [|a l IH]; [reflexivity|].
  cbn [app find]. destruct (number a =? n); [reflexivity|exact IH].
Qed.

Lemma keeps_marks_new (w : world) (i : issue) :
  state i = Open -> number i = fresh_number (issues w) ->
  keeps_marks w (with_issues w (issues w ++ [i])).
Proof.
  intros _ Hn. split.
  - unfold well_formed, with_issues. cbn [issues]. intros Hwf.
    rewrite map_app. cbn [List.map].
    apply NoDup_app; [exact Hwf|repeat constructor; intros []|].
    intros x Hx [<-|[]]. apply in_map_iff in Hx as (j & Hj & Hin).
    pose proof (fresh_number_above _ _ Hin). lia.
  - intros n (j & Hj & Hl). exists j. split; [|exact Hl].
    unfold with_issues. cbn [issues].
    rewrite find_issue_app, Hj. reflexivity.
Qed.

Lemma in_firstn {A} (k : nat) (l : list A) (x : A) :
  In x (firstn k l) -> In x l.
Proof.
  intros H. rewrite <- (firstn_skipn k l). apply in_or_app. left. exact H.
Qed.

Lemma threshold_label_not_severity :
  startsWith threshold_label (u "severity:") = false.
Proof. reflexivity. Qed.

(** An upsert, whatever it is given, keeps issue numbers distinct and
    removes no threshold label. *)
Lemma upsert_keeps_marks (ok : octokit) (a : upsertArgs) (w : world) :
  keeps_marks w (final_world (run_upsert ok a w)).
Proof.
  unfold run_upsert.
  apply (preserves_upsert keeps_marks keeps_marks_refl keeps_marks_trans
           keeps_mark keeps_marks_map keeps_marks_new).
  - intros j nb ns _. split; [reflexivity|auto].
  - intros j text. split; [reflexivity|auto].
  - intros j names. split; [reflexivity|]. cbn [labels set_labels].
    apply mem_app_l.
  - intros j name Hname. split; [reflexivity|]. cbn [labels set_labels].
    intros Hl. apply mem_In. apply filter_In. split; [apply mem_In; exact Hl|].
    destruct (streq threshold_label name) eqn:E; [|reflexivity].
    apply streq_true in E. subst name.
    rewrite threshold_label_not_severity in Hname. discriminate.
Qed.

(** On a healthy service an upsert either finds a record of the store and
    leaves [found_issue] in its place, or creates a record and reports no
    crossing. *)
Lemma upsert_healthy_cases (ok : octokit) (a : upsertArgs) (w : world) :
  healthy ok -> well_formed w ->
  (exists item,
      In item (issues w) /\
      run_upsert ok a w
      = Ok (found_result item (a_occurrence a) (a_rule a) (a_threshold a)
              (now w) item)
           (w_put (number item)
              (found_issue item (a_occurrence a) (a_rule a) (a_threshold a)
                 (now w) item) w)) \/
  (exists res w',
      run_upsert ok a w = Ok res w' /\ kind res = Created /\
      thresholdReached res = false).
Proof.
  intros Hok Hwf.
  assert (Hfound : forall item,
             In item (issues w) ->
             upsert_found ok item (a_occurrence a) (a_rule a) (a_threshold a) w
             = Ok (found_result item (a_occurrence a) (a_rule a)
                     (a_threshold a) (now w) item)
                  (w_put (number item)
                     (found_issue item (a_occurrence a) (a_rule a)
                        (a_threshold a) (now w) item) w)).
  { intros item Hi.
    apply (acts_upsert_found ok Hok item _ _ _ (now w) w item Hwf eq_refl).
    apply find_issue_In; [exact Hwf|exact Hi|reflexivity]. }
  assert (Hsub : forall q item rest,
             firstn 10 (filter (issue_matches ok q) (issues w)) = item :: rest ->
             In item (issues w)).
  { intros q item rest E.
    assert (Hx : In item (firstn 10 (filter (issue_matches ok q) (issues w))))
      by (rewrite E; left; reflexivity).
    apply in_firstn in Hx. apply filter_In in Hx. apply Hx. }
  unfold run_upsert, upsertIssueForSignature, bind.
  rewrite (search_issues_healthy ok Hok).
  destruct (firstn 10 (filter (issue_matches ok (QTitle None _ _)) (issues w)))
    as [|item rest] eqn:El0; cbn beta iota.
  - rewrite (search_issues_healthy ok Hok).
    destruct (firstn 10
                (filter (issue_matches ok (QTitle (Some Closed) _ _)) (issues w)))
      as [|item rest] eqn:El1; cbn [ret].
    + right. unfold issues_create, bind. rewrite (request_healthy ok Hok).
      cbn [get_world put_issues ret]. eexists. eexists.
      split; [reflexivity|]. split; reflexivity.
    + left. exists item. split; [apply (Hsub _ _ _ El1)|].
      apply Hfound. apply (Hsub _ _ _ El1).
  - left. cbn [ret]. exists item. split; [apply (Hsub _ _ _ El0)|].
    apply Hfound. apply (Hsub _ _ _ El0).
Qed.

Lemma crossing_sets_label (item : issue) (occ : occurrence)
    (ruleName : jsstring) (thr t : Z) (i : issue) :
  crossing item i occ thr = true ->
  mem threshold_label (labels (found_issue item occ ruleName thr t i)) = true.
Proof.
  intros Hc. unfold found_issue. cbn [labels]. rewrite Hc.
  set (ls := severity_labels _ _).
  destruct (mem threshold_label ls) eqn:E.
  - apply mem_app_l. exact E.
  - apply mem_In. apply in_or_app. right. cbn [filter]. rewrite E.
    left. reflexivity.
Qed.

Lemma later_upserts_report_nothing (ok : octokit) (n : Z) :
  healthy ok ->
  forall (l : list upsertArgs) (w : world),
    well_formed w -> has_threshold_label n w ->
    forall r, In r (run_upserts ok l w) ->
      forall res w', r = Ok res w' -> issueNumber res = n ->
        thresholdReached res = false.
Proof.
  intros Hok. induction l as [|a l IH]; intros w Hwf Hlab r Hr res w' Er Hn;
    [destruct Hr|].
  cbn [run_upserts] in Hr. destruct Hr as [<-|Hr].
  - destruct (upsert_healthy_cases ok a w Hok Hwf)
      as [(item & Hin & E)|(res0 & w0 & E & _ & Hth)].
    + rewrite E in Er. injection Er as <- <-.
      cbn [issueNumber found_result] in Hn.
      destruct Hlab as (i & Hi & Hl).
      assert (item = i)
        by (apply (find_issue_unique n (issues w) i item Hwf Hi Hin Hn)).
      subst i. cbn [thresholdReached found_result]. unfold crossing.
      rewrite Hl. apply andb_false_r.
    + rewrite E in Er. injection Er as <- <-. exact Hth.
  - destruct (upsert_keeps_marks ok a w) as [Kwf Klab].
    apply (IH (final_world (run_upsert ok a w)) (Kwf Hwf) (Klab n Hlab) r Hr
              res w' Er Hn).
Qed.

(** The threshold crossing is reported once per record: after an upsert
    that reported it, the record carries the marker, and no later upsert
    against that record reports a crossing, whatever upserts (against this
    or other fingerprints, with this or another threshold) run in
    between. *)
Theorem threshold_reported_once (ok : octokit) (a : upsertArgs)
    (later : list upsertArgs) (w : world) (res0 : upsertResult) (w0 : world) :
  healthy ok -> well_formed w ->
  run_upsert ok a w = Ok res0 w0 ->
  thresholdReached res0 = true ->
  has_threshold_label (issueNumber res0) w0 /\
  forall r, In r (run_upserts ok later w0) ->
    forall res w', r = Ok res w' -> issueNumber res = issueNumber res0 ->
      thresholdReached res = false.
Proof.
  intros Hok Hwf E Hth.
  destruct (upsert_keeps_marks ok a w) as [Kwf _].
  rewrite E in Kwf. cbn [final_world] in Kwf.
  assert (Hlab : has_threshold_label (issueNumber res0) w0).
  { destruct (upsert_healthy_cases ok a w Hok Hwf)
      as [(item & Hin & E')|(res1 & w1 & E' & _ & Hth')].
    - rewrite E' in E. injection E as <- <-.
      cbn [issueNumber thresholdReached found_result] in *.
      eexists. split.
      + apply (find_w_put (number item) _ item w); [|reflexivity].
        apply find_issue_In; [exact Hwf|exact Hin|reflexivity].
      + apply crossing_sets_label. exact Hth.
    - rewrite E' in E. injection E as <- <-. congruence. }
  split; [exact Hlab|].
  apply (later_upserts_report_nothing ok (issueNumber res0) Hok later w0
           (Kwf Hwf) Hlab).
Qed.

Lemma threshold_reported_once_witness :
  exists res3 w3 res4 w4,
    run_upsert Scenarios.service (Scenarios.args_a "2026-11-02T10:00:00.000Z" 3)
      Scenarios.two_seen_world = Ok res3 w3 /\
    thresholdReached res3 = true /\
    run_upsert Scenarios.service (Scenarios.args_a "2026-11-02T11:00:00.000Z" 3)
      w3 = Ok res4 w4 /\
    issueNumber res4 = issueNumber res3 /\
    thresholdReached res4 = false.
Proof.
  eassert (E3 : run_upsert Scenarios.service
                  (Scenarios.args_a "2026-11-02T10:00:00.000Z" 3)
                  Scenarios.two_seen_world = Ok _ _)
    by (vm_compute; reflexivity).
  match type of E3 with
  | _ = Ok ?r3 ?w3 =>
      eassert (E4 : run_upsert Scenarios.service
                      (Scenarios.args_a "2026-11-02T11:00:00.000Z" 3) w3
                    = Ok _ _)
        by (vm_compute; reflexivity)
  end.
  do 4 eexists. split; [exact E3|]. split; [reflexivity|].
  split; [exact E4|]. split; [reflexivity|].
  refine (proj2 (threshold_reported_once Scenarios.service
                   (Scenarios.args_a "2026-11-02T10:00:00.000Z" 3)
                   [Scenarios.args_a "2026-11-02T11:00:00.000Z" 3]
                   Scenarios.two_seen_world _ _ service_healthy _ E3 eq_refl)
            _ (or_introl eq_refl) _ _ E4 eq_refl).
  unfold well_formed. vm_compute. repeat constructor. intros [].
Defined.

Lemma window_fold (d7 d14 : date) (ts : list date) (acc : windowStats) :
  fold_left
    (fun acc ts =>
       {| last7 := if ge ts d7 then last7 acc + 1 else last7 acc;
          last14 := if ge ts d14 then last14 acc + 1 else last14 acc |})
    ts acc
  = {| last7 := last7 acc + len (filter (fun x => ge x d7) ts);
       last14 := last14 acc + len (filter (fun x => ge x d14) ts) |}.
Proof.
  revert acc. induction ts as [|x ts IH]; intros acc.
  - destruct acc. cbn. unfold len. cbn. f_equal; lia.
  - cbn [fold_left filter]. rewrite IH. cbn [last7 last14].
    destruct (ge x d7), (ge x d14); unfold len; cbn [List.length];
      f_equal; lia.
Qed.

(** The rolling counts are the numbers of timestamps at or after the
    window starts, seven and fourteen days before now; an invalid date is
    in neither. *)
Theorem computeWindowStats_counts (timestamps : list date) (now : Z) :
  last7 (computeWindowStats timestamps now)
  = len (filter (fun x => ge x (Some (now - 7 * 86400000))) timestamps) /\
  last14 (computeWindowStats timestamps now)
  = len (filter (fun x => ge x (Some (now - 14 * 86400000))) timestamps).
Proof.
  unfold computeWindowStats. rewrite window_fold. cbn [last7 last14].
  split; lia.
Qed.

(** On a record it finds, an upsert recomputes the total, the rolling
    counts, the severity and the statistics line from the timestamps it
    parses out of the body once the new occurrence line is inserted. *)
Theorem upsert_statistics_from_body (ok : octokit) (a : upsertArgs)
    (w : world) (item : issue) (rest : list issue) :
  healthy ok -> well_formed w ->
  firstn 10
    (filter (issue_matches ok (QTitle None (a_hash a) (a_label a))) (issues w))
  = item :: rest ->
  let new_body :=
    insert_occurrence (match body item with Some b => b | None => [] end)
      (a_occurrence a) (mem (u "muted") (labels item)) in
  let timestamps := parseOccurrenceTimestamps new_body in
  let n7 :=
    len (filter (fun x => ge x (Some (now w - 7 * 86400000))) timestamps) in
  let n14 :=
    len (filter (fun x => ge x (Some (now w - 14 * 86400000))) timestamps) in
  exists res w' i',
    run_upsert ok a w = Ok res w' /\
    totalOccurrences res = len timestamps /\
    severity res = Severity.classifySeverity (a_rule a) n7 /\
    find_issue (number item) (issues w') = Some i' /\
    body i' = Some (appendStatsLine new_body {| last7 := n7; last14 := n14 |}).
Proof.
  intros Hok Hwf Hfound new_body timestamps n7 n14.
  assert (Hin : In item (issues w)).
  { assert (Hx : In item (firstn 10
                            (filter (issue_matches ok
                                       (QTitle None (a_hash a) (a_label a)))
                               (issues w))))
      by (rewrite Hfound; left; reflexivity).
    apply in_firstn in Hx. apply filter_In in Hx. apply Hx. }
  pose proof (find_issue_In (number item) (issues w) item Hwf Hin eq_refl) as Hf.
  assert (Hcounts :
            last7 (computeWindowStats timestamps (now w)) = n7 /\
            last14 (computeWindowStats timestamps (now w)) = n14).
  { unfold computeWindowStats, n7, n14. rewrite window_fold.
    cbn [last7 last14]. split; lia. }
  destruct Hcounts as [H7 H14].
  exists (found_result item (a_occurrence a) (a_rule a) (a_threshold a) (now w) item),
         (w_put (number item)
            (found_issue item (a_occurrence a) (a_rule a) (a_threshold a)
               (now w) item) w),
         (found_issue item (a_occurrence a) (a_rule a) (a_threshold a) (now w) item).
  split.
  { unfold run_upsert, upsertIssueForSignature, bind.
    rewrite (search_issues_healthy ok Hok), Hfound. cbn [ret].
    apply (acts_upsert_found ok Hok item _ _ _ (now w) w item Hwf eq_refl Hf). }
  split; [reflexivity|].
  split.
  { cbn [severity found_result]. unfold found_stats, found_timestamps.
    fold new_body. fold timestamps. rewrite H7. reflexivity. }
  split; [apply (find_w_put _ _ item w Hf); reflexivity|].
  cbn [body found_issue]. unfold found_stats, found_timestamps.
  fold new_body. fold timestamps. do 2 f_equal.
  destruct (computeWindowStats timestamps (now w)) as [x y].
  cbn [last7 last14] in *. subst. reflexivity.
Qed.

Lemma upsert_statistics_witness :
  exists res w',
    run_upsert Scenarios.service (Scenarios.args_a "2026-11-02T10:00:00.000Z" 3)
      Scenarios.two_seen_world = Ok res w' /\
    totalOccurrences res = 3 /\
    severity res = VString (u "low").
Proof.
  destruct (upsert_statistics_from_body Scenarios.service
              (Scenarios.args_a "2026-11-02T10:00:00.000Z" 3)
              Scenarios.two_seen_world
              (nth 0 (issues Scenarios.two_seen_world)
                   {| number := 0; title := []; body := None; state := Open;
                      labels := []; comments := []; html_url := [] |})
              [] service_healthy
              ltac:(unfold well_formed; vm_compute; repeat constructor; intros [])
              ltac:(vm_compute; reflexivity))
    as (res & w' & i' & E & Ht & Hs & _).
  exists res, w'. split; [exact E|]. split.
  - rewrite Ht. vm_compute. reflexivity.
  - rewrite Hs. vm_compute. reflexivity.
Defined.

End ThresholdFacts.

(** ** The matcher against the declarative reading of a pattern *)

Section MatcherFacts.
Import Regex RegexSpec.

Lemma star_sound (fl : flags) (a : re)
    (IHa : forall s k e, run fl a s k = Some e ->
             exists s', matches fl a s s' /\ k s' = Some e)
    (fuel : nat) :
  forall s k e,
    star (run fl a) fuel s k = Some e ->
    exists s', matches fl (Star a) s s' /\ k s' = Some e.
Proof.
  induction fuel as [|fuel IH]; intros s k e H.
  - exists s. split; [constructor|exact H].
  - cbn [star] in H.
    destruct (run fl a s _) as [x|] eqn:E.
    + injection H as ->.
      destruct (IHa _ _ _ E) as (s1 & M1 & K1).
      destruct (Nat.ltb (remaining s1) (remaining s)); [|discriminate].
      destruct (IH _ _ _ K1) as (s' & M2 & K2).
      exists s'. split; [eapply m_star_cons; eassumption|exact K2].
    + exists s. split; [constructor|exact H].
Qed.

(** Whatever the matcher returns is a match of the pattern. *)
Lemma run_sound (fl : flags) (r : re) :
  forall s k e,
    run fl r s k = Some e ->
    exists s', matches fl r s s' /\ k s' = Some e.
Proof.
  induction r as [|p|a IHa b IHb|a IHa b IHb|a IHa| | |]; intros s k e H;
    cbn [run] in H.
  - exists s. split; [constructor|exact H].
  - destruct s as [bef aft]. cbn [after before] in H.
    destruct aft as [|c rest]; [discriminate|].
    destruct (cls_match fl p c) eqn:Ec; [|discriminate].
    eexists. split; [constructor; exact Ec|exact H].
  - destruct (IHa _ _ _ H) as (s1 & M1 & K1).
    destruct (IHb _ _ _ K1) as (s2 & M2 & K2).
    exists s2. split; [econstructor; eassumption|exact K2].
  - destruct (run fl a s k) as [x|] eqn:E.
    + injection H as ->. destruct (IHa _ _ _ E) as (s1 & M1 & K1).
      exists s1. split; [apply m_alt_l; exact M1|exact K1].
    + destruct (IHb _ _ _ H) as (s1 & M1 & K1).
      exists s1. split; [apply m_alt_r; exact M1|exact K1].
  - apply (star_sound fl a IHa _ _ _ _ H).
  - destruct (at_bol fl s) eqn:E; [|discriminate].
    exists s. split; [constructor; exact E|exact H].
  - destruct (at_eol fl s) eqn:E; [|discriminate].
    exists s. split; [constructor; exact E|exact H].
  - destruct (xorb _ _) eqn:E; [|discriminate].
    exists s. split; [constructor; exact E|exact H].
Qed.

Lemma span_refl (s : pos) : span s [] s.
Proof. split; reflexivity. Qed.

Lemma span_trans (s1 s2 s3 : pos) (m1 m2 : list N) :
  span s1 m1 s2 -> span s2 m2 s3 -> span s1 (m1 ++ m2) s3.
Proof.
  intros [A1 B1] [A2 B2]. split.
  - rewrite A1, A2. apply app_assoc.
  - rewrite B2, B1, rev_app_distr. apply app_assoc.
Qed.

(** A match spans a piece of the subject. *)
Lemma matches_span (fl : flags) (r : re) (s e : pos) :
  matches fl r s e -> exists mid, span s mid e.
Proof.
  induction 1;
    try (exists []; apply span_refl);
    try assumption.
  - exists [c]. split; reflexivity.
  - destruct IHmatches1 as [m1 S1]. destruct IHmatches2 as [m2 S2].
    exists (m1 ++ m2). eapply span_trans; eassumption.
  - destruct IHmatches1 as [m1 S1]. destruct IHmatches2 as [m2 S2].
    exists (m1 ++ m2). eapply span_trans; eassumption.
Qed.

Lemma matches_seqs_cons (fl : flags) (r : re) (rs : list re) (s e : pos) :
  matches fl (seqs (r :: rs)) s e ->
  exists s1, matches fl r s s1 /\ matches fl (seqs rs) s1 e.
Proof.
  destruct rs as [|r' rs]; cbn [seqs]; intros H.
  - exists e. split; [exact H|constructor].
  - inversion H; subst. eauto.
Qed.

(** Without the flag [i] a literal matches itself only. *)
Lemma matches_lits (w : jsstring) (s e : pos) :
  matches fl_none (lits w) s e -> span s w e.
Proof.
  revert s e. induction w as [|c w IH]; intros s e H.
  - inversion H; subst. apply span_refl.
  - unfold lits in H. cbn [List.map] in H.
    apply matches_seqs_cons in H as (s1 & H1 & H2).
    unfold chr in H1. inversion H1; subst.
    cbn [cls_match fl_none ignoreCase] in *.
    match goal with Hc : N.eqb _ _ = true |- _ => apply N.eqb_eq in Hc; subst end.
    match type of H2 with
    | matches _ _ {| before := ?x :: ?b; after := ?r |} _ =>
        apply (span_trans _ {| before := x :: b; after := r |} _ [x] w);
          [split; reflexivity|]
    end.
    apply IH. exact H2.
Qed.

End MatcherFacts.

(** ** Lines, step boundaries and the step of a hit *)

Section StepDetectionFacts.
Import Regex RegexSpec Groups Text StepIndex StepDetection ErrorDetector
       ErrorFinder StepSpec.

Lemma match_at_newline (bef aft : list N) :
  match_at fl_none re_newline {| before := bef; after := aft |} =
    match aft with
    | [] => None
    | c :: rest =>
        if N.eqb c 10 then Some {| before := c :: bef; after := rest |}
        else
          match rest with
          | d :: rest' =>
              if (N.eqb c 13 && N.eqb d 10)%bool
              then Some {| before := d :: c :: bef; after := rest' |}
              else None
          | [] => None
          end
    end.
Proof.
  unfold match_at, re_newline, opt, chr.
  cbn [run after before cls_match fl_none ignoreCase].
  destruct aft as [|c rest]; [reflexivity|].
  rewrite (N.eqb_sym 13 c), (N.eqb_sym 10 c).
  destruct (N.eqb_spec c 13) as [->|H13].
  - change ((13 =? 13)%N) with true. change ((13 =? 10)%N) with false.
    cbn [andb]. destruct rest as [|d rest]; [reflexivity|].
    rewrite (N.eqb_sym 10 d). destruct (N.eqb d 10); reflexivity.
  - cbn [andb]. destruct (N.eqb c 10); [reflexivity|].
    destruct rest; reflexivity.
Qed.

Lemma between_prefix_of (p q : pos) (cur : list N) :
  after p = cur ++ after q -> between p q = cur.
Proof.
  intros H. unfold between, remaining. rewrite H, length_app.
  replace (List.length cur + List.length (after q) - List.length (after q))%nat
    with (List.length cur) by lia.
  rewrite firstn_app, Nat.sub_diag, firstn_all, firstn_O. apply app_nil_r.
Qed.

(** The split loop on the line-break pattern cuts as [lines_from] does. *)
Lemma split_from_lines (fuel : nat) :
  forall (aft bef : list N) (p : pos) (cur : list N),
    after p = cur ++ aft ->
    (List.length aft < fuel)%nat ->
    split_from fuel fl_none re_newline p {| before := bef; after := aft |}
    = lines_from cur aft.
Proof.
  induction fuel as [|fuel IH]; intros aft bef p cur Hp Hf; [lia|].
  cbn [split_from after]. destruct aft as [|c rest].
  - rewrite Hp, app_nil_r. reflexivity.
  - rewrite match_at_newline. cbn [lines_from].
    assert (Hcut : forall (b : list N) (r : list N),
               (List.length r < List.length (c :: rest))%nat ->
               Nat.eqb (remaining {| before := b; after := r |}) (remaining p)
               = false).
    { intros b r Hr. apply Nat.eqb_neq. unfold remaining. cbn [after].
      rewrite Hp, length_app. lia. }
    assert (Hadv : split_from fuel fl_none re_newline p
                     (advance {| before := bef; after := c :: rest |})
                   = lines_from (cur ++ [c]) rest).
    { unfold advance. cbn [after before]. apply IH.
      - rewrite Hp, <- app_assoc. reflexivity.
      - cbn [List.length] in Hf. lia. }
    destruct (N.eqb c 10).
    + rewrite Hcut by (cbn [List.length]; lia).
      rewrite (between_prefix_of p _ cur) by exact Hp. f_equal.
      apply IH; [reflexivity|cbn [List.length] in Hf; lia].
    + destruct rest as [|d rest']; [exact Hadv|].
      destruct (N.eqb c 13 && N.eqb d 10)%bool; [|exact Hadv].
      rewrite Hcut by (cbn [List.length]; lia).
      rewrite (between_prefix_of p _ cur) by exact Hp. f_equal.
      apply IH; [reflexivity|cbn [List.length] in Hf; lia].
Qed.

Lemma lines_from_facts (n : nat) :
  forall (s cur : jsstring),
    (List.length s <= n)%nat ->
    ~ In 10%N cur ->
    Forall (fun l => ~ In 10%N l) (lines_from cur s) /\
    len (lines_from cur s) = 1 + len (filter (N.eqb 10) s).
Proof.
  induction n as [|n IH]; intros s cur Hn Hcur.
  - destruct s; [|cbn [List.length] in Hn; lia].
    split; [repeat constructor; exact Hcur|reflexivity].
  - destruct s as [|c rest];
      [split; [repeat constructor; exact Hcur|reflexivity]|].
    cbn [List.length] in Hn. cbn [lines_from filter].
    rewrite (N.eqb_sym 10 c).
    assert (Hnil : ~ In 10%N (@nil N)) by (intros []).
    assert (Hstep : N.eqb c 10 = false ->
              Forall (fun l => ~ In 10%N l) (lines_from (cur ++ [c]) rest) /\
              len (lines_from (cur ++ [c]) rest)
              = 1 + len (filter (N.eqb 10) rest)).
    { intros Hc. apply IH; [lia|].
      intros Hin. apply in_app_or in Hin as [Hin|[Hin|[]]];
        [exact (Hcur Hin)|].
      subst c. discriminate. }
    destruct (N.eqb c 10) eqn:Ec.
    + destruct (IH rest [] ltac:(lia) Hnil) as [F L].
      split; [constructor; assumption|].
      unfold len in *. cbn [List.length]. lia.
    + destruct rest as [|d rest']; [apply Hstep; reflexivity|].
      destruct (N.eqb c 13 && N.eqb d 10)%bool eqn:Ecd;
        [|apply Hstep; reflexivity].
      apply andb_true_iff in Ecd as [_ Ed].
      cbn [List.length] in Hn.
      destruct (IH rest' [] ltac:(lia) Hnil) as [F L].
      split; [constructor; assumption|].
      cbn [filter]. rewrite (N.eqb_sym 10 d), Ed.
      unfold len in *. cbn [List.length]. lia.
Qed.

(** [text.split(/\r?\n/)] cuts the text at every line feed; a carriage
    return right before the line feed is dropped with it.  No line holds a
    line feed, and there is one line more than there are line feeds. *)
Theorem split_newline_lines (text : jsstring) :
  let lines := split fl_none re_newline text in
  lines = lines_of text /\
  Forall (fun l => ~ In 10%N l) lines /\
  len lines = 1 + len (filter (N.eqb 10) text).
Proof.
  intros lines.
  assert (E : lines = lines_of text).
  { unfold lines, split, lines_of. destruct text as [|c rest].
    - rewrite match_at_newline. reflexivity.
    - apply split_from_lines; [reflexivity|lia]. }
  split; [exact E|]. rewrite E. unfold lines_of.
  apply (lines_from_facts (List.length text)); [lia|intros []].
Qed.

Lemma span_subject (s e : pos) (mid : list N) :
  span s mid e -> subject e = subject s /\ subject s = rev (before s) ++ mid ++ after e.
Proof.
  intros [A B]. unfold subject. rewrite B, A, rev_app_distr, rev_involutive.
  rewrite <- app_assoc. split; reflexivity.
Qed.

Lemma matches_subject (fl : flags) (r : re) (s e : pos) :
  matches fl r s e -> subject e = subject s.
Proof.
  intros H. destruct (matches_span fl r s e H) as [mid Hs].
  apply (span_subject s e mid Hs).
Qed.

(** A successful group match starts with a match of the part before the
    group, somewhere in the subject. *)
Lemma match_group_pre (fl : flags) (g : grouped) (aft bef : list N)
    (m : jsstring) :
  match_group_from fl g bef aft = Some m ->
  exists s s1, subject s = rev bef ++ aft /\ matches fl (g_pre g) s s1.
Proof.
  revert bef. induction aft as [|c aft IH]; intros bef H; cbn [match_group_from] in H.
  - destruct (group_start fl g _) as [s1|] eqn:E; [|discriminate].
    unfold group_start in E. apply run_sound in E as (s' & M & _).
    exists {| before := bef; after := [] |}, s'. split; [reflexivity|exact M].
  - destruct (group_start fl g _) as [s1|] eqn:E.
    + unfold group_start in E. apply run_sound in E as (s' & M & _).
      exists {| before := bef; after := c :: aft |}, s'.
      split; [reflexivity|exact M].
    + destruct (IH (c :: bef) H) as (s & s1 & Hs & M).
      exists s, s1. split; [|exact M].
      rewrite Hs. cbn [rev]. rewrite <- app_assoc. reflexivity.
Qed.

Lemma startsWith_app (w x : jsstring) : startsWith (w ++ x) w = true.
Proof.
  induction w as [|c w IH]; [destruct x; reflexivity|].
  cbn [app startsWith]. rewrite N.eqb_refl. exact IH.
Qed.

Lemma includes_app (a w b : jsstring) : includes (a ++ w ++ b) w = true.
Proof.
  induction a as [|c a IH].
  - cbn [app]. destruct (w ++ b) eqn:E; cbn [includes];
      rewrite <- E, startsWith_app; reflexivity.
  - cbn [app includes]. rewrite IH. destruct (startsWith _ _); reflexivity.
Qed.

(** A pattern that starts [^.*w] matches only in a subject that holds the
    literal [w]. *)
Lemma matches_marker (w : jsstring) (more : list re) (s e : pos) :
  matches fl_none (seqs (Bol :: Star any :: lits w :: more)) s e ->
  exists a b, subject s = a ++ w ++ b.
Proof.
  intros H.
  apply matches_seqs_cons in H as (s1 & H1 & H).
  apply matches_seqs_cons in H as (s2 & H2 & H).
  apply matches_seqs_cons in H as (s3 & H3 & _).
  apply matches_lits in H3.
  destruct (span_subject _ _ _ H3) as [_ E].
  rewrite <- (matches_subject _ _ _ _ H1), <- (matches_subject _ _ _ _ H2).
  eauto.
Qed.

Lemma includes_marker (a t b : jsstring) :
  includes (a ++ (marker ++ t) ++ b) marker = true.
Proof. rewrite <- (app_assoc marker t b). apply includes_app. Qed.

Lemma match_group_marker (g : grouped) (t : jsstring) (more : list re)
    (l m : jsstring) :
  g_pre g = seqs (Bol :: Star any :: lits (marker ++ t) :: more) ->
  match_group fl_none g l = Some m ->
  includes l marker = true.
Proof.
  intros Hg H. unfold match_group in H.
  apply match_group_pre in H as (s & s1 & Hs & M).
  rewrite Hg in M. apply matches_marker in M as (a & b & E).
  cbn [rev app] in Hs. rewrite <- Hs, E. apply includes_marker.
Qed.

(** A line gives a boundary only when it holds the group marker. *)
Lemma step_of_line_marker (i : Z) (l : jsstring) (s : stepStart) :
  step_of_line i l = Some s -> idx s = i /\ includes l marker = true.
Proof.
  unfold step_of_line. intros H.
  destruct (match_group fl_none groupStep l) as [m|] eqn:E1.
  { injection H as <-. split; [reflexivity|].
    apply (match_group_marker groupStep (u "Step:") [plus sp] l m eq_refl E1). }
  destruct (match_group fl_none groupRun l) as [m|] eqn:E2.
  { injection H as <-. split; [reflexivity|].
    apply (match_group_marker groupRun (u "Run") [plus sp] l m eq_refl E2). }
  destruct (match_group fl_none groupName l) as [m|] eqn:E3; [|discriminate].
  assert (Hm : includes l marker = true)
    by apply (match_group_marker groupName [] [] l m eq_refl E3).
  destruct (Utils.trim m); [discriminate|].
  destruct (negb _ && negb _)%bool; [|discriminate].
  injection H as <-. split; [reflexivity|exact Hm].
Qed.

Lemma build_from_app (l1 l2 : list jsstring) (i : Z) :
  build_from (l1 ++ l2) i = build_from l1 i ++ build_from l2 (i + len l1).
Proof.
  revert i. induction l1 as [|l l1 IH]; intros i.
  - cbn [app build_from]. f_equal. unfold len. cbn. lia.
  - cbn [app build_from]. rewrite IH.
    replace (i + 1 + len l1) with (i + len (l :: l1))
      by (unfold len; cbn [List.length]; lia).
    destruct (step_of_line i l); reflexivity.
Qed.

Lemma build_from_in (lines : list jsstring) (i : Z) (s : stepStart) :
  In s (build_from lines i) ->
  i <= idx s < i + len lines /\
  exists l, nth_error lines (Z.to_nat (idx s - i)) = Some l /\
            includes l marker = true.
Proof.
  revert i. induction lines as [|l lines IH]; intros i H; [destruct H|].
  cbn [build_from] in H.
  assert (Hrest : In s (build_from lines (i + 1)) ->
            i <= idx s < i + len (l :: lines) /\
            exists l0, nth_error (l :: lines) (Z.to_nat (idx s - i)) = Some l0 /\
                       includes l0 marker = true).
  { intros Hin. destruct (IH _ Hin) as (Hb & l0 & Hn & Hm).
    split; [unfold len in *; cbn [List.length]; lia|].
    exists l0. split; [|exact Hm].
    replace (Z.to_nat (idx s - i)) with (S (Z.to_nat (idx s - (i + 1))))
      by lia.
    exact Hn. }
  destruct (step_of_line i l) as [s0|] eqn:E; [|exact (Hrest H)].
  destruct H as [<-|H]; [|exact (Hrest H)].
  apply step_of_line_marker in E as [Ei Em].
  split; [unfold len; cbn [List.length]; lia|].
  exists l. rewrite Ei, Z.sub_diag. split; [reflexivity|exact Em].
Qed.

Lemma build_from_increasing (lines : list jsstring) :
  forall (i : Z) (j k : nat) (a b : stepStart),
    (j < k)%nat ->
    nth_error (build_from lines i) j = Some a ->
    nth_error (build_from lines i) k = Some b ->
    idx a < idx b.
Proof.
  induction lines as [|l lines IH]; intros i j k a b Hjk Ha Hb.
  - destruct j; discriminate.
  - cbn [build_from] in Ha, Hb.
    destruct (step_of_line i l) as [s0|] eqn:E;
      [|exact (IH _ _ _ _ _ Hjk Ha Hb)].
    destruct k as [|k]; [lia|]. cbn [nth_error] in Hb.
    destruct j as [|j].
    + injection Ha as <-. apply step_of_line_marker in E as [-> _].
      apply nth_error_In in Hb. apply build_from_in in Hb. lia.
    + cbn [nth_error] in Ha.
      apply (IH (i + 1) j k a b); [lia|assumption|assumption].
Qed.

(** [buildStepIndex] lists the boundaries by strictly increasing line
    index; every boundary points at a line of the log, and that line holds
    the marker [##[group]]. *)
Theorem buildStepIndex_boundaries (lines : list jsstring) :
  (forall (j k : nat) (a b : stepStart),
      (j < k)%nat ->
      nth_error (buildStepIndex lines) j = Some a ->
      nth_error (buildStepIndex lines) k = Some b ->
      idx a < idx b) /\
  (forall s, In s (buildStepIndex lines) ->
      exists l, index lines (idx s) = Some l /\
                includes l (u "##[group]") = true).
Proof.
  split.
  - intros j k a b. apply build_from_increasing.
  - intros s Hs. unfold buildStepIndex in Hs.
    apply build_from_in in Hs as (Hb & l & Hn & Hm).
    exists l. split; [|exact Hm].
    unfold index. destruct (idx s <? 0) eqn:E; [zlia|].
    rewrite Z.sub_0_r in Hn. exact Hn.
Qed.

(** The lookup over a boundary list given as the boundaries at or before
    the query followed by those after it. *)
Lemma lookup_partition (l1 l2 : list stepStart) (q : Z) :
  Forall (fun s => idx s <= q) l1 ->
  Forall (fun s => q < idx s) l2 ->
  len (l1 ++ l2) < 1073741824 ->
  findStepForLineIndex (Some (l1 ++ l2)) q =
    Normal (match rev l1 with
            | b :: _ => name b
            | [] => match l2 with
                    | first :: _ => name first
                    | [] => unknown_step
                    end
            end).
Proof.
  intros H1 H2 Hlen.
  destruct (l1 ++ l2) as [|x rest] eqn:E.
  { apply app_eq_nil in E as [-> ->]. reflexivity. }
  rewrite <- E in *. unfold findStepForLineIndex.
  replace (match l1 ++ l2 with [] => Normal unknown_step | _ :: _ =>
             match search_loop (S (List.length (l1 ++ l2))) (l1 ++ l2) q 0
                     (len (l1 ++ l2) - 1) with
             | Normal hi => match index (l1 ++ l2) (Z.max 0 hi) with
                            | Some s => Normal (name s)
                            | None => Thrown (u "TypeError")
                            end
             | Thrown e => Thrown e
             | OutOfFuel => OutOfFuel
             end end)
    with (match search_loop (S (List.length (l1 ++ l2))) (l1 ++ l2) q 0
                  (len (l1 ++ l2) - 1) with
          | Normal hi => match index (l1 ++ l2) (Z.max 0 hi) with
                         | Some s => Normal (name s)
                         | None => Thrown (u "TypeError")
                         end
          | Thrown e => Thrown e
          | OutOfFuel => OutOfFuel
          end) by (rewrite E; reflexivity).
  assert (Hpos : 0 < len (l1 ++ l2))
    by (rewrite E; unfold len; cbn [List.length]; lia).
  rewrite (search_loop_partition l1 l2 q H1 H2 Hlen)
    by (unfold len in *; rewrite ?length_app in *; lia).
  destruct l1 as [|b l1] using rev_ind.
  - cbn [app rev] in *.
    replace (Z.max 0 (len (@nil stepStart) - 1)) with 0
      by (unfold len; cbn; lia).
    destruct l2 as [|f l2]; [discriminate|]. reflexivity.
  - clear IHl1. rewrite rev_app_distr. cbn [rev app].
    rewrite len_app.
    replace (Z.max 0 (len l1 + len [b] - 1)) with (len l1)
      by (unfold len; cbn [List.length]; lia).
    rewrite <- app_assoc. rewrite index_app_r by lia.
    rewrite Z.sub_diag. reflexivity.
Qed.

Lemma len_firstn_le {A} (n : nat) (l : list A) :
  (n <= List.length l)%nat -> len (firstn n l) = Z.of_nat n.
Proof. intros H. unfold len. rewrite length_firstn. lia. Qed.

Lemma step_at_lookup (lines : list jsstring) (k : nat) :
  (k < List.length lines)%nat ->
  len lines < 1073741824 ->
  findStepForLineIndex (Some (buildStepIndex lines)) (Z.of_nat k)
  = Normal (step_at lines (Z.of_nat k)).
Proof.
  intros Hk Hlen. unfold step_at. rewrite Nat2Z.id.
  assert (E : buildStepIndex lines
              = buildStepIndex (firstn (S k) lines)
                ++ build_from (skipn (S k) lines) (Z.of_nat (S k))).
  { unfold buildStepIndex.
    rewrite <- (firstn_skipn (S k) lines) at 1.
    rewrite build_from_app, len_firstn_le by lia. reflexivity. }
  rewrite E.
  set (l1 := buildStepIndex (firstn (S k) lines)).
  set (l2 := build_from (skipn (S k) lines) (Z.of_nat (S k))).
  assert (H1 : Forall (fun s => idx s <= Z.of_nat k) l1).
  { apply Forall_forall. intros s Hs. apply build_from_in in Hs as [Hb _].
    rewrite len_firstn_le in Hb by lia. lia. }
  assert (H2 : Forall (fun s => Z.of_nat k < idx s) l2).
  { apply Forall_forall. intros s Hs. apply build_from_in in Hs as [Hb _]. lia. }
  assert (Hn : len (l1 ++ l2) < 1073741824).
  { unfold l1, l2. rewrite <- E. unfold len in *.
    assert (Hle : forall ls i, (List.length (build_from ls i) <= List.length ls)%nat).
    { induction ls as [|x ls IH]; intros i; [reflexivity|].
      cbn [build_from]. specialize (IH (i + 1)).
      destruct (step_of_line i x); cbn [List.length]; lia. }
    specialize (Hle lines 0). unfold buildStepIndex. lia. }
  rewrite (lookup_partition l1 l2 _ H1 H2 Hn).
  destruct l1 as [|b l1] using rev_ind; [reflexivity|].
  rewrite rev_app_distr. reflexivity.
Qed.

(** The step name reported with a hit: the boundaries of the log are in
    increasing order, so the lookup finds the last group marker at or
    before the line of the hit; when every marker comes after that line it
    is the first of them, and the sentinel when the log has no marker.  The
    lookup never fails. *)
Theorem findFirstErrorInText_step (text file : jsstring)
    (customRules : list customRule) :
  let lines := split fl_none re_newline text in
  len lines < 1073741824 ->
  findFirstErrorInText text file customRules =
    Normal (match pickFirstMeaningfulError lines customRules with
            | None => None
            | Some h =>
                Some {| l_hit := h;
                        stepName := step_at lines (lineIndex h);
                        fileName := file |}
            end).
Proof.
  intros lines Hlen. unfold findFirstErrorInText. fold lines.
  destruct (pickFirstMeaningfulError lines customRules) as [h|] eqn:Ep;
    [|reflexivity].
  destruct (pick_some _ _ _ Ep) as (nm & k & l & Eh & Hn).
  assert (Hk : (k < List.length lines)%nat)
    by (apply nth_error_Some; congruence).
  assert (Eidx : lineIndex h = Z.of_nat k) by (rewrite Eh; reflexivity).
  rewrite Eidx, (step_at_lookup lines k Hk Hlen). reflexivity.
Qed.

Lemma findFirstErrorInText_step_witness :
  len (split fl_none re_newline MoreSamples.tsc_text) < 1073741824 /\
  exists h,
    findFirstErrorInText MoreSamples.tsc_text (u "job-1.log") []
    = Normal (Some h) /\
    hrule (l_hit h) = u "TypeScript" /\ lineIndex (l_hit h) = 1 /\
    stepName h = u "Run tsc".
Proof.
  assert (H : len (split fl_none re_newline MoreSamples.tsc_text) < 1073741824)
    by (vm_compute; reflexivity).
  split; [exact H|].
  eexists. split.
  - rewrite (findFirstErrorInText_step MoreSamples.tsc_text (u "job-1.log") [] H).
    vm_compute. reflexivity.
  - repeat split.
Defined.

(** Across several files the result is that of the first file, in the
    order given, in which a hit is found; files after it are not looked
    at, and without a hit in any file the result is null. *)
Theorem findFirstErrorAcrossTexts_first (textFiles : list textFile)
    (customRules : list customRule) :
  findFirstErrorAcrossTexts textFiles customRules =
    match find (fun f =>
                  match pickFirstMeaningfulError
                          (split fl_none re_newline (tf_text f)) customRules
                  with Some _ => true | None => false end) textFiles with
    | Some f => findFirstErrorInText (tf_text f) (tf_name f) customRules
    | None => Normal None
    end.
Proof.
  induction textFiles as [|f rest IH]; [reflexivity|].
  cbn [findFirstErrorAcrossTexts find]. rewrite IH. clear IH.
  destruct (pickFirstMeaningfulError
              (split fl_none re_newline (tf_text f)) customRules)
    as [h|] eqn:Ep.
  - assert (E : findFirstErrorInText (tf_text f) (tf_name f) customRules
                = match findStepForLineIndex
                          (Some (buildStepIndex
                                   (split fl_none re_newline (tf_text f))))
                          (lineIndex h) with
                  | Normal s =>
                      Normal (Some {| l_hit := h; stepName := s;
                                      fileName := tf_name f |})
                  | Thrown e => Thrown e
                  | OutOfFuel => OutOfFuel
                  end)
      by (unfold findFirstErrorInText; rewrite Ep; reflexivity).
    rewrite E. destruct (findStepForLineIndex _ _); reflexivity.
  - assert (E : findFirstErrorInText (tf_text f) (tf_name f) customRules
                = Normal None)
      by (unfold findFirstErrorInText; rewrite Ep; reflexivity).
    rewrite E. reflexivity.
Qed.

End StepDetectionFacts.

(** ** Flaky detection *)

Section FlakyFacts.
Import Service Flaky FlakySpec.

Lemma count_runs_resolved (api : actions) (jobName : jsstring)
    (runs : list Z) :
  (forall run, In run runs -> listing_resolves api run) ->
  forall p f,
    count_runs api jobName runs p f =
      Resolved (p + len (filter (concluded api jobName "success") runs),
                f + len (filter (fun r =>
                                   (negb (concluded api jobName "success" r)
                                    && concluded api jobName "failure" r)%bool)
                           runs)).
Proof.
  induction runs as [|run rest IH]; intros Hres p f.
  - unfold len. cbn [count_runs filter List.length]. f_equal. f_equal; lia.
  - assert (Hrest : forall r, In r rest -> listing_resolves api r)
      by (intros r Hr; apply Hres; right; exact Hr).
    destruct (Hres run (or_introl eq_refl)) as [jobs Ej].
    assert (Hc : forall c, concluded api jobName c run =
                match find (fun j => streq (jname j) jobName) jobs with
                | Some j => conclusion_is j c
                | None => false
                end)
      by (intros c; unfold concluded; rewrite Ej; reflexivity).
    cbn [count_runs filter]. rewrite Ej, !Hc.
    destruct (find _ jobs) as [j|].
    + destruct (conclusion_is j "success").
      * rewrite (IH Hrest). cbn [negb andb]. f_equal.
        unfold len. cbn [List.length]. f_equal; lia.
      * cbn [negb andb]. destruct (conclusion_is j "failure").
        -- rewrite (IH Hrest). f_equal. unfold len. cbn [List.length].
           f_equal; lia.
        -- apply (IH Hrest).
    + cbn [negb andb]. apply (IH Hrest).
Qed.

Lemma conclusion_exclusive (j : job) :
  conclusion_is j "success" = true -> conclusion_is j "failure" = false.
Proof.
  unfold conclusion_is. destruct (conclusion j) as [x|]; [|discriminate].
  unfold streq. destruct (list_eq_dec N.eq_dec x (u "success")) as [->|];
    [reflexivity|discriminate].
Qed.

Lemma concluded_exclusive (api : actions) (jobName : jsstring) (r : Z) :
  (negb (concluded api jobName "success" r)
   && concluded api jobName "failure" r)%bool
  = concluded api jobName "failure" r.
Proof.
  unfold concluded. destruct (listJobsForWorkflowRun api r); [|reflexivity].
  destruct (find _ a) as [j|]; [|reflexivity].
  destruct (conclusion_is j "success") eqn:E; [|reflexivity].
  rewrite (conclusion_exclusive j E). reflexivity.
Qed.

Lemma filter_le {A} (p : A -> bool) (l : list A) :
  len (filter p l) <= len l.
Proof.
  unfold len. induction l as [|x l IH]; [reflexivity|].
  cbn [filter]. destruct (p x); cbn [List.length]; lia.
Qed.

Lemma filter_disjoint_le {A} (p q : A -> bool) (l : list A) :
  (forall x, p x = true -> q x = false) ->
  len (filter p l) + len (filter q l) <= len l.
Proof.
  intros H. unfold len. induction l as [|x l IH]; [reflexivity|].
  cbn [filter]. destruct (p x) eqn:Ep.
  - rewrite (H x Ep). cbn [List.length]. lia.
  - destruct (q x); cbn [List.length]; lia.
Qed.

(** When the run listing and the job listings of the runs looked at
    resolve, [passes] and [failures] are the numbers of those runs whose
    first job of the given name concluded "success" and "failure"; a run
    counts at most once, runs beyond the first [lookback] of the listing
    are not looked at, and the job is flaky exactly from two passes and two
    failures on. *)
Theorem detectFlaky_counts (api : actions) (workflowId : option Z)
    (jobName : jsstring) (lookback : Z) (runs : list Z) :
  listWorkflowRunsForRepo api
    (match workflowId with
     | Some n => if n =? 0 then None else Some n
     | None => None
     end) lookback = Resolved runs ->
  (forall run, In run (slice runs 0 lookback) -> listing_resolves api run) ->
  let looked_at := slice runs 0 lookback in
  let p := len (filter (concluded api jobName "success") looked_at) in
  let f := len (filter (concluded api jobName "failure") looked_at) in
  detectFlaky api workflowId jobName lookback =
    Resolved {| isFlaky := ((p >=? 2) && (f >=? 2))%bool;
                passes := p; failures := f; total := p + f |} /\
  p + f <= len looked_at.
Proof.
  intros Hruns Hres looked_at p f. split.
  - unfold detectFlaky. rewrite Hruns.
    rewrite (count_runs_resolved api jobName _ Hres).
    rewrite (filter_ext _ _ (concluded_exclusive api jobName)).
    reflexivity.
  - apply filter_disjoint_le. intros r. unfold concluded.
    destruct (listJobsForWorkflowRun api r); [|discriminate].
    destruct (find _ a); [|discriminate]. apply conclusion_exclusive.
Qed.

Lemma detectFlaky_counts_witness :
  detectFlaky MoreSamples.five_runs None (u "test") 4 =
    Resolved {| isFlaky := true; passes := 2; failures := 2; total := 4 |}.
Proof.
  refine (proj1 (detectFlaky_counts MoreSamples.five_runs None (u "test") 4
                   [101; 102; 103; 104; 105] eq_refl _)).
  intros run [<-|[<-|[<-|[<-|[]]]]]; eexists; reflexivity.
Defined.

(** A rejected job listing for one of the runs looked at rejects the whole
    call: no partial counts are returned. *)
Theorem detectFlaky_rejects (api : actions) (workflowId : option Z)
    (jobName : jsstring) (lookback : Z) (runs : list Z) (run : Z)
    (e : jsstring) :
  listWorkflowRunsForRepo api
    (match workflowId with
     | Some n => if n =? 0 then None else Some n
     | None => None
     end) lookback = Resolved runs ->
  In run (slice runs 0 lookback) ->
  listJobsForWorkflowRun api run = Rejected e ->
  exists e', detectFlaky api workflowId jobName lookback = Rejected e'.
Proof.
  intros Hruns Hin Hrej. unfold detectFlaky. rewrite Hruns.
  assert (H : forall l p f, In run l ->
            exists e', count_runs api jobName l p f = Rejected e').
  { induction l as [|r l IH]; intros p f Hl; [destruct Hl|].
    cbn [count_runs]. destruct (Z.eq_dec r run) as [->|Hne].
    - rewrite Hrej. eauto.
    - destruct Hl as [Hl|Hl]; [contradiction|].
      destruct (listJobsForWorkflowRun api r); [|eauto].
      destruct (find _ a) as [j|]; [|apply IH; exact Hl].
      destruct (conclusion_is j "success"); [apply IH; exact Hl|].
      destruct (conclusion_is j "failure"); apply IH; exact Hl. }
  destruct (H _ 0 0 Hin) as [e' ->]. eauto.
Qed.

Lemma detectFlaky_rejects_witness :
  exists e, detectFlaky MoreSamples.five_runs None (u "test") 5 = Rejected e.
Proof.
  refine (detectFlaky_rejects MoreSamples.five_runs None (u "test") 5
            [101; 102; 103; 104; 105] 105 (u "HttpError") eq_refl _ eq_refl).
  do 4 right. left. reflexivity.
Defined.

End FlakyFacts.

(** ** Reviewer suggestions *)

Section ReviewerFacts.
Import Service Text Reviewers ReviewersSpec.

Lemma streq_refl (a : jsstring) : streq a a = true.
Proof. unfold streq. destruct (list_eq_dec N.eq_dec a a); congruence. Qed.

Lemma streq_neq (a b : jsstring) : a <> b -> streq a b = false.
Proof. unfold streq. destruct (list_eq_dec N.eq_dec a b); congruence. Qed.

Lemma streq_spec (a b : jsstring) : reflect (a = b) (streq a b).
Proof.
  unfold streq. destruct (list_eq_dec N.eq_dec a b); constructor; assumption.
Qed.

Lemma map_get_set (x k : jsstring) (v : Z) (m : counts) :
  map_get x (map_set k v m) = if streq x k then Some v else map_get x m.
Proof.
  induction m as [|[k' v'] m IH]; [reflexivity|].
  cbn [map_set]. destruct (streq_spec k k') as [->|Hk]; cbn [map_get].
  - destruct (streq x k'); reflexivity.
  - rewrite IH. destruct (streq_spec x k') as [->|Hx]; [|reflexivity].
    rewrite (streq_neq k' k) by congruence. reflexivity.
Qed.

Lemma bump_set (l : jsstring) (m : counts) :
  bump l m = map_set l (val l m + 1) m.
Proof.
  unfold bump, val. destruct (map_get l m) as [n|]; [|reflexivity].
  destruct (n =? 0) eqn:E; [|reflexivity]. zbool. subst. reflexivity.
Qed.

Lemma val_bump (x l : jsstring) (m : counts) :
  val x (bump l m) = val x m + (if streq x l then 1 else 0).
Proof.
  rewrite bump_set. unfold val at 1. rewrite map_get_set.
  destruct (streq_spec x l) as [->|]; [reflexivity|]. unfold val. lia.
Qed.

Lemma val_fold (x : jsstring) (ls : list jsstring) (m : counts) :
  val x (fold_left (fun m l => bump l m) ls m) = val x m + occurrences ls x.
Proof.
  revert m. induction ls as [|l ls IH]; intros m.
  - unfold occurrences, len. cbn. lia.
  - cbn [fold_left]. rewrite IH, val_bump. unfold occurrences, len.
    cbn [filter]. destruct (streq x l); cbn [List.length]; lia.
Qed.

Lemma keys_set (k : jsstring) (v : Z) (m : counts) :
  keys (map_set k v m) = if mem k (keys m) then keys m else keys m ++ [k].
Proof.
  unfold mem. induction m as [|[k' v'] m IH]; [reflexivity|].
  cbn [map_set keys List.map existsb fst].
  destruct (streq k k'); [reflexivity|]. cbn [keys List.map fst orb].
  fold (keys (map_set k v m)). fold (keys m). rewrite IH.
  destruct (existsb (streq k) (keys m)); reflexivity.
Qed.

Lemma mem_false (x : jsstring) (l : list jsstring) :
  mem x l = false -> ~ In x l.
Proof.
  unfold mem. intros H Hin.
  assert (existsb (streq x) l = true)
    by (apply existsb_exists; exists x; split; [exact Hin|apply streq_refl]).
  congruence.
Qed.

Lemma keys_bump_in (x l : jsstring) (m : counts) :
  In x (keys (bump l m)) <-> x = l \/ In x (keys m).
Proof.
  rewrite bump_set, keys_set. destruct (mem l (keys m)) eqn:E.
  - split; [auto|]. intros [->|H]; [|exact H]. apply mem_In. exact E.
  - rewrite in_app_iff. cbn [In]. intuition congruence.
Qed.

Lemma keys_bump_nodup (l : jsstring) (m : counts) :
  NoDup (keys m) -> NoDup (keys (bump l m)).
Proof.
  intros H. rewrite bump_set, keys_set. destruct (mem l (keys m)) eqn:E;
    [exact H|].
  apply NoDup_app; [exact H|repeat constructor; intros []|].
  intros a Ha [<-|[]]. apply (mem_false _ _ E). exact Ha.
Qed.

Lemma keys_fold (ls : list jsstring) (m : counts) :
  (NoDup (keys m) -> NoDup (keys (fold_left (fun m l => bump l m) ls m))) /\
  (forall x, In x (keys (fold_left (fun m l => bump l m) ls m))
             <-> In x ls \/ In x (keys m)).
Proof.
  revert m. induction ls as [|l ls IH]; intros m.
  - split; [auto|]. intros x. cbn. tauto.
  - cbn [fold_left]. destruct (IH (bump l m)) as [N I]. split.
    + intros H. apply N, keys_bump_nodup, H.
    + intros x. rewrite I, keys_bump_in. cbn [In]. intuition congruence.
Qed.

Lemma map_get_in (m : counts) (k : jsstring) (v : Z) :
  NoDup (keys m) -> In (k, v) m -> map_get k m = Some v.
Proof.
  induction m as [|[k' v'] m IH]; intros Hn Hin; [destruct Hin|].
  cbn [keys List.map fst] in Hn. inversion Hn as [|? ? Hnot Hn']; subst.
  cbn [map_get]. destruct Hin as [E|Hin].
  - injection E as -> ->. rewrite streq_refl. reflexivity.
  - destruct (streq_spec k k') as [->|]; [|apply IH; assumption].
    exfalso. apply Hnot. change (In (fst (k', v)) (List.map fst m)).
    apply in_map. exact Hin.
Qed.

Lemma count_commits_fold (prAuthor : jsstring) (cs : list commit)
    (m : counts) :
  fold_left (fun m c => count_commit prAuthor c m) cs m
  = fold_left (fun m l => bump l m) (eligible_logins prAuthor cs) m.
Proof.
  revert m. induction cs as [|c cs IH]; intros m; [reflexivity|].
  cbn [fold_left eligible_logins flat_map]. rewrite fold_left_app, IH.
  f_equal. unfold count_commit, eligible.
  destruct c as [[|x l]|]; try reflexivity.
  destruct (streq (x :: l) prAuthor || includes (x :: l) (u "[bot]"))%bool;
    reflexivity.
Qed.

Lemma count_files_fold (listCommits : jsstring -> outcome (list commit))
    (prAuthor : jsstring) (paths : list jsstring) (m : counts) :
  fold_left (count_file listCommits prAuthor) paths m
  = fold_left (fun m l => bump l m) (counted listCommits prAuthor paths) m.
Proof.
  revert m. induction paths as [|p paths IH]; intros m; [reflexivity|].
  cbn [fold_left counted flat_map]. rewrite fold_left_app, IH. f_equal.
  unfold count_file. destruct (listCommits p); [|reflexivity].
  apply count_commits_fold.
Qed.

Lemma insert_desc_in (x y : jsstring * Z) (l : counts) :
  In x (insert_desc y l) <-> x = y \/ In x l.
Proof.
  induction l as [|z l IH]; cbn [insert_desc In]; [intuition congruence|].
  destruct (snd z - snd y <=? 0); cbn [In]; [intuition congruence|].
  rewrite IH. intuition congruence.
Qed.

Lemma sort_desc_in (x : jsstring * Z) (l : counts) :
  In x (sort_desc l) <-> In x l.
Proof.
  induction l as [|y l IH]; [reflexivity|].
  cbn [sort_desc fold_right]. fold (sort_desc l).
  rewrite insert_desc_in, IH. cbn [In]. intuition congruence.
Qed.

Lemma keys_in (m : counts) (k : jsstring) :
  In k (keys m) <-> exists v, In (k, v) m.
Proof.
  unfold keys. rewrite in_map_iff. split.
  - intros [[k' v] [E H]]. cbn in E. subst. eauto.
  - intros [v H]. exists (k, v). auto.
Qed.

Lemma insert_desc_nodup (y : jsstring * Z) (l : counts) :
  NoDup (keys (y :: l)) -> NoDup (keys (insert_desc y l)).
Proof.
  induction l as [|z l IH]; intros H; [exact H|].
  cbn [insert_desc]. destruct (snd z - snd y <=? 0); [exact H|].
  cbn [keys List.map] in *. fold (keys l) in *. fold (keys (insert_desc y l)).
  inversion H as [|? ? Hy Hzl]; subst. inversion Hzl as [|? ? Hz Hl]; subst.
  constructor.
  - intros Hin. apply keys_in in Hin as [v Hin].
    apply (proj1 (insert_desc_in _ _ _)) in Hin as [E|Hin].
    + apply Hy. left. rewrite <- E. reflexivity.
    + apply Hz. apply keys_in. eauto.
  - apply IH. constructor; [|exact Hl].
    intros Hin. apply Hy. right. exact Hin.
Qed.

Lemma sort_desc_nodup (l : counts) :
  NoDup (keys l) -> NoDup (keys (sort_desc l)).
Proof.
  induction l as [|y l IH]; intros H; [exact H|].
  cbn [sort_desc fold_right]. fold (sort_desc l).
  apply insert_desc_nodup. cbn [keys List.map] in *.
  fold (keys l) in *. fold (keys (sort_desc l)).
  inversion H as [|? ? Hy Hl]; subst. constructor; [|apply IH; exact Hl].
  intros Hin. apply Hy. apply keys_in in Hin as [v Hin].
  apply (proj1 (sort_desc_in _ _)) in Hin. apply keys_in. eauto.
Qed.

Lemma insert_desc_sorted (y : jsstring * Z) (l : counts) :
  ForallOrdPairs (fun a b => snd b <= snd a) l ->
  ForallOrdPairs (fun a b => snd b <= snd a) (insert_desc y l).
Proof.
  induction l as [|z l IH]; intros H; [repeat constructor|].
  cbn [insert_desc]. destruct (snd z - snd y <=? 0) eqn:E.
  - constructor; [|exact H]. inversion H as [|? ? Hz Hl]; subst.
    constructor; [zlia|]. rewrite Forall_forall in *. intros b Hb.
    specialize (Hz b Hb). zlia.
  - inversion H as [|? ? Hz Hl]; subst. constructor; [|apply IH; exact Hl].
    rewrite Forall_forall in *. intros b Hb.
    apply (proj1 (insert_desc_in _ _ _)) in Hb as [->|Hb];
      [zlia|apply Hz; exact Hb].
Qed.

Lemma sort_desc_sorted (l : counts) :
  ForallOrdPairs (fun a b => snd b <= snd a) (sort_desc l).
Proof.
  induction l as [|y l IH]; [constructor|].
  cbn [sort_desc fold_right]. apply insert_desc_sorted. exact IH.
Qed.

Lemma slice_firstn {A} (l : list A) (n : nat) :
  slice l 0 (Z.of_nat n) = firstn n l.
Proof.
  unfold slice, len. cbn [Z.ltb Z.compare].
  destruct (Z.of_nat n <? 0) eqn:E; [zlia|].
  rewrite (Z.min_l 0) by lia. rewrite Z.sub_0_r. cbn [Z.to_nat skipn].
  destruct (Nat.le_gt_cases n (List.length l)) as [H|H].
  - rewrite (Z.min_l (Z.of_nat n)) by lia. rewrite Nat2Z.id. reflexivity.
  - rewrite (Z.min_r (Z.of_nat n)) by lia. rewrite Nat2Z.id.
    rewrite !firstn_all2 by lia. reflexivity.
Qed.

Lemma sorted_nth {A} (R : A -> A -> Prop) (l : list A) :
  ForallOrdPairs R l ->
  forall (i j : nat) (a b : A),
    (i < j)%nat -> nth_error l i = Some a -> nth_error l j = Some b -> R a b.
Proof.
  induction 1 as [|x l Hx Hl IH]; intros i j a b Hij Ha Hb;
    [destruct i; discriminate|].
  destruct j as [|j]; [lia|]. cbn [nth_error] in Hb. destruct i as [|i].
  - injection Ha as <-. rewrite Forall_forall in Hx. apply Hx.
    eapply nth_error_In; eassumption.
  - cbn [nth_error] in Ha. apply (IH i j); [lia|assumption|assumption].
Qed.

Lemma sorted_firstn_skipn {A} (R : A -> A -> Prop) (n : nat) (l : list A) :
  ForallOrdPairs R l ->
  forall a b, In a (firstn n l) -> In b (skipn n l) -> R a b.
Proof.
  intros H a b Ha Hb.
  destruct (In_nth_error _ _ Ha) as [i Hi].
  destruct (In_nth_error _ _ Hb) as [j Hj].
  assert (Hil : (i < n)%nat).
  { assert (i < List.length (firstn n l))%nat
      by (apply nth_error_Some; congruence).
    rewrite length_firstn in *. lia. }
  rewrite nth_error_firstn in Hi.
  destruct (Nat.ltb_spec i n) as [_|]; [|lia].
  rewrite nth_error_skipn in Hj.
  apply (sorted_nth R l H i (n + j)); [lia|assumption|assumption].
Qed.

(** The entries of the author map: one per author of a commit that
    counts, with the number of such commits. *)
Lemma author_counts (listCommits : jsstring -> outcome (list commit))
    (prAuthor : jsstring) (paths : list jsstring) :
  let m := fold_left (count_file listCommits prAuthor) paths [] in
  let cs := counted listCommits prAuthor paths in
  NoDup (keys m) /\
  (forall k v, In (k, v) m -> In k cs /\ v = occurrences cs k) /\
  (forall k, In k cs -> In (k, occurrences cs k) m).
Proof.
  intros m cs. unfold m. rewrite count_files_fold. fold cs.
  destruct (keys_fold cs []) as [Hn Hk].
  specialize (Hn (NoDup_nil _)).
  set (m' := fold_left (fun m l => bump l m) cs []) in *.
  assert (Hv : forall k v, In (k, v) m' -> v = occurrences cs k).
  { intros k v Hin. pose proof (val_fold k cs []) as Hval.
    fold m' in Hval. unfold val in Hval.
    rewrite (map_get_in m' k v Hn Hin) in Hval. cbn [map_get] in Hval. lia. }
  split; [exact Hn|]. split.
  - intros k v Hin. split; [|apply Hv; exact Hin].
    assert (Hkk : In k (keys m')) by (apply keys_in; eauto).
    apply Hk in Hkk as [H|[]]. exact H.
  - intros k Hin. assert (Hkk : In k (keys m')) by (apply Hk; left; exact Hin).
    apply keys_in in Hkk as [v Hv']. rewrite <- (Hv k v Hv'). exact Hv'.
Qed.

Lemma eligible_logins_in (prAuthor : jsstring) (cs : list commit)
    (x : jsstring) :
  In x (eligible_logins prAuthor cs) -> eligible prAuthor x = true.
Proof.
  unfold eligible_logins. rewrite in_flat_map.
  intros [[l|] [_ H]]; [|destruct H].
  destruct (eligible prAuthor l) eqn:E; [|destruct H].
  destruct H as [<-|[]]. exact E.
Qed.

Lemma counted_eligible (listCommits : jsstring -> outcome (list commit))
    (prAuthor : jsstring) (paths : list jsstring) (x : jsstring) :
  In x (counted listCommits prAuthor paths) -> eligible prAuthor x = true.
Proof.
  unfold counted. rewrite in_flat_map. intros [p [_ H]].
  destruct (listCommits p); [|destruct H].
  apply (eligible_logins_in prAuthor a x H).
Qed.

Lemma occurrences_pos (l : list jsstring) (x : jsstring) :
  In x l -> 1 <= occurrences l x.
Proof.
  unfold occurrences, len. induction l as [|y l IH]; intros H; [destruct H|].
  cbn [filter]. destruct (streq_spec x y) as [->|Hne].
  - cbn [List.length]. lia.
  - destruct H as [H|H]; [congruence|]. apply IH. exact H.
Qed.

(** Who is suggested: at most three distinct logins; none is empty, the
    author of the pull request or a bot account; each comes with the number
    of commits that count for it, over the files whose commit listing
    resolved. *)
Theorem suggestReviewers_entries
    (listCommits : jsstring -> outcome (list commit))
    (filePaths : list jsstring) (prAuthor : jsstring) :
  let res := suggestReviewersForFiles listCommits filePaths prAuthor in
  len res <= 3 /\
  NoDup (List.map login res) /\
  forall s, In s res ->
    login s <> [] /\ login s <> prAuthor /\
    includes (login s) (u "[bot]") = false /\
    commits s = occurrences (counted listCommits prAuthor filePaths) (login s) /\
    1 <= commits s.
Proof.
  intros res. unfold res, suggestReviewersForFiles.
  change 3 with (Z.of_nat 3). rewrite slice_firstn.
  destruct (author_counts listCommits prAuthor filePaths) as (Hn & Hin & _).
  set (m := fold_left (count_file listCommits prAuthor) filePaths []) in *.
  set (cs := counted listCommits prAuthor filePaths) in *.
  split; [|split].
  - unfold len. rewrite length_map, length_firstn. lia.
  - rewrite map_map. cbn [login].
    assert (Hs : NoDup (keys (sort_desc m))) by (apply sort_desc_nodup, Hn).
    unfold keys in Hs. rewrite <- (firstn_skipn 3 (sort_desc m)) in Hs.
    rewrite map_app in Hs. apply NoDup_app_remove_r in Hs. exact Hs.
  - intros s Hs. apply in_map_iff in Hs as ([k v] & <- & Hkv).
    cbn [login commits fst snd].
    assert (Hm : In (k, v) m).
    { apply (proj1 (sort_desc_in _ _)). eapply in_firstn. exact Hkv. }
    destruct (Hin k v Hm) as [Hk ->].
    pose proof (counted_eligible _ _ _ _ Hk) as He.
    unfold eligible in He. destruct k as [|c k]; [discriminate|].
    apply negb_true_iff, orb_false_iff in He as [He1 He2].
    split; [discriminate|]. split.
    + intros E. rewrite E, streq_refl in He1. discriminate.
    + split; [exact He2|]. split; [reflexivity|].
      apply occurrences_pos. exact Hk.
Qed.

(** In what order: by decreasing number of commits; an author with
    commits that count is left out only when three are suggested, each
    with at least as many commits. *)
Theorem suggestReviewers_ranking
    (listCommits : jsstring -> outcome (list commit))
    (filePaths : list jsstring) (prAuthor : jsstring) :
  let res := suggestReviewersForFiles listCommits filePaths prAuthor in
  let cs := counted listCommits prAuthor filePaths in
  (forall (i j : nat) (a b : suggestion),
      (i < j)%nat -> nth_error res i = Some a -> nth_error res j = Some b ->
      commits b <= commits a) /\
  (forall x, In x cs -> ~ In x (List.map login res) ->
      len res = 3 /\ forall s, In s res -> occurrences cs x <= commits s).
Proof.
  intros res cs. unfold res, suggestReviewersForFiles.
  change 3 with (Z.of_nat 3). rewrite slice_firstn.
  destruct (author_counts listCommits prAuthor filePaths) as (Hn & Hin & Hall).
  fold cs in Hin, Hall.
  set (m := fold_left (count_file listCommits prAuthor) filePaths []) in *.
  pose proof (sort_desc_sorted m) as Hsorted.
  split.
  - intros i j a b Hij Ha Hb.
    rewrite nth_error_map in Ha, Hb.
    destruct (nth_error (firstn 3 (sort_desc m)) i) as [ea|] eqn:Ea;
      [|discriminate].
    destruct (nth_error (firstn 3 (sort_desc m)) j) as [eb|] eqn:Eb;
      [|discriminate].
    injection Ha as <-. injection Hb as <-. cbn [commits].
    rewrite nth_error_firstn in Ea, Eb.
    destruct (Nat.ltb i 3); [|discriminate].
    destruct (Nat.ltb j 3); [|discriminate].
    apply (sorted_nth _ _ Hsorted i j ea eb Hij Ea Eb).
  - intros x Hx Hout.
    assert (Hxm : In (x, occurrences cs x) (sort_desc m))
      by (apply (proj2 (sort_desc_in _ _)), Hall, Hx).
    rewrite <- (firstn_skipn 3 (sort_desc m)) in Hxm.
    apply in_app_or in Hxm as [Hf|Hs].
    { exfalso. apply Hout. apply in_map_iff.
      exists {| login := x; commits := occurrences cs x |}.
      split; [reflexivity|].
      apply in_map_iff. exists (x, occurrences cs x). auto. }
    split.
    + unfold len. rewrite length_map, length_firstn.
      assert (3 < List.length (sort_desc m))%nat; [|lia].
      destruct (Nat.lt_ge_cases 3 (List.length (sort_desc m))) as [H|H];
        [exact H|].
      assert (List.length (skipn 3 (sort_desc m)) = 0)%nat
        by (rewrite length_skipn; lia).
      destruct (skipn 3 (sort_desc m)); [destruct Hs|discriminate].
    + intros s Hs'. apply in_map_iff in Hs' as ([k v] & <- & Hkv).
      cbn [commits snd].
      apply (sorted_firstn_skipn _ 3 _ Hsorted (k, v) (x, occurrences cs x)
               Hkv Hs).
Qed.

(** A file whose commit listing is rejected is skipped, and the other
    files still count: the suggestions are those for the files whose
    listing resolves. *)
Theorem suggestReviewers_skips_rejected
    (listCommits : jsstring -> outcome (list commit))
    (filePaths : list jsstring) (prAuthor : jsstring) :
  suggestReviewersForFiles listCommits filePaths prAuthor
  = suggestReviewersForFiles listCommits
      (filter (resolves listCommits) filePaths) prAuthor.
Proof.
  unfold suggestReviewersForFiles. do 3 f_equal.
  generalize (@nil (jsstring * Z)).
  induction filePaths as [|p paths IH]; intros m; [reflexivity|].
  cbn [fold_left filter]. unfold resolves at 1, count_file at 2.
  destruct (listCommits p) eqn:E.
  - cbn [fold_left]. unfold count_file at 3. rewrite E. apply IH.
  - apply IH.
Qed.

End ReviewerFacts.

(** ** The severity label of a record *)

Section SeverityLabelFacts.
Import Text Dates Store Api PatternTracker StoreSpec UpsertSpec.

Lemma remove_all_in (stale ls : list jsstring) (x : jsstring) :
  In x (remove_all stale ls) <-> In x ls /\ ~ In x stale.
Proof.
  unfold remove_all. revert ls. induction stale as [|l stale IH]; intros ls.
  - cbn. tauto.
  - cbn [fold_left]. rewrite IH, filter_In. cbn [In].
    destruct (streq x l) eqn:E.
    + apply streq_true in E. subst. cbn [negb]. intuition congruence.
    + cbn [negb]. assert (l <> x)
        by (intros ->; rewrite (proj2 (streq_true x x) eq_refl) in E;
            discriminate).
      tauto.
Qed.

Lemma severity_labels_in (sev : value) (ls : list jsstring) (x : jsstring) :
  (List.length ls <= 100)%nat ->
  In x (severity_labels sev ls) <->
    x = u "severity:" ++ to_string sev \/
    (In x ls /\ startsWith x (u "severity:") = false).
Proof.
  intros Hlen. unfold severity_labels. cbv zeta.
  rewrite firstn_all2 by lia.
  set (target := u "severity:" ++ to_string sev).
  set (stale := filter _ ls).
  assert (Hstale : forall y, In y stale <->
            In y ls /\ startsWith y (u "severity:") = true /\ y <> target).
  { intros y. unfold stale. rewrite filter_In, andb_true_iff, negb_true_iff.
    destruct (streq y target) eqn:E.
    - apply streq_true in E. intuition congruence.
    - assert (y <> target)
        by (intros ->; rewrite (proj2 (streq_true _ _) eq_refl) in E;
            discriminate).
      tauto. }
  assert (Hkept : forall y, In y (remove_all stale ls) <->
            In y ls /\ (startsWith y (u "severity:") = false \/ y = target)).
  { intros y. rewrite remove_all_in, Hstale.
    destruct (startsWith y (u "severity:"));
      destruct (list_eq_dec N.eq_dec y target); intuition congruence. }
  assert (Htarget : startsWith target (u "severity:") = true)
    by apply startsWith_app.
  destruct (mem target ls) eqn:Em.
  - apply mem_In in Em. rewrite Hkept. intuition (subst; auto).
  - assert (Hnot : ~ In target ls)
      by (intros H; apply mem_In in H; congruence).
    rewrite in_app_iff, Hkept. cbn [filter].
    assert (Ek : mem target (remove_all stale ls) = false).
    { destruct (mem target (remove_all stale ls)) eqn:E; [|reflexivity].
      apply mem_In, Hkept in E. tauto. }
    rewrite Ek. cbn [negb In]. intuition (subst; auto; congruence).
Qed.

(** After [applySeverityLabel] on a record with at most a hundred labels
    (the page the code lists), the record carries the target severity
    label and no other label that starts with "severity:"; its other
    labels, and everything else of the record, are as before. *)
Theorem applySeverityLabel_one_label (ok : octokit) (n : Z) (sev : value)
    (w : world) (i : issue) :
  healthy ok -> well_formed w ->
  find_issue n (issues w) = Some i ->
  (List.length (labels i) <= 100)%nat ->
  exists ls,
    applySeverityLabel ok n sev w = Ok tt (w_put n (set_labels i ls) w) /\
    forall x, In x ls <->
      x = u "severity:" ++ to_string sev \/
      (In x (labels i) /\ startsWith x (u "severity:") = false).
Proof.
  intros Hok Hwf Hf Hlen.
  exists (severity_labels sev (labels i)). split.
  - apply (acts_applySeverityLabel ok Hok n (now w) sev w i Hwf eq_refl Hf).
  - intros x. apply severity_labels_in. exact Hlen.
Qed.

Lemma applySeverityLabel_one_label_witness :
  exists ls,
    applySeverityLabel Scenarios.service 1 (VString (u "high"))
      Scenarios.two_seen_world
    = Ok tt (w_put 1 (set_labels (hd MoreScenarios.blank
                                    (issues Scenarios.two_seen_world)) ls)
               Scenarios.two_seen_world) /\
    forall x, In x ls <->
      x = u "severity:high" \/
      (In x (labels (hd MoreScenarios.blank (issues Scenarios.two_seen_world))) /\
       startsWith x (u "severity:") = false).
Proof.
  apply (applySeverityLabel_one_label Scenarios.service 1 (VString (u "high"))
           Scenarios.two_seen_world
           (hd MoreScenarios.blank (issues Scenarios.two_seen_world))
           service_healthy).
  - unfold well_formed. vm_compute. repeat constructor. intros [].
  - vm_compute. reflexivity.
  - vm_compute. lia.
Defined.

End SeverityLabelFacts.

(** ** The sweep on a store that rejects no call *)

Section SweepHealthy.
Import Text Dates Store Api PatternTracker StoreSpec SweepSpec.

Variable ok : octokit.
Hypothesis Hok : healthy ok.

Lemma findFixingPR_healthy (n : Z) (w : world) :
  findFixingPR ok n w = Ok (fixing_prs ok (pulls w) n) w.
Proof.
  unfold findFixingPR, search_pulls, bind.
  rewrite (request_healthy ok Hok). reflexivity.
Qed.

Lemma find_w_put_other (n m : Z) (x : issue) (w : world) :
  number x = n -> m <> n ->
  find_issue m (issues (w_put n x w)) = find_issue m (issues w).
Proof.
  intros Hx Hm. unfold w_put, with_issues, find_issue. cbn [issues].
  induction (issues w) as [|j l IH]; [reflexivity|].
  cbn [List.map find]. destruct (number j =? n) eqn:E.
  - zbool. rewrite Hx. destruct (n =? m) eqn:E1; [zlia|].
    destruct (number j =? m) eqn:E2; [zlia|]. exact IH.
  - destruct (number j =? m); [reflexivity|exact IH].
Qed.

(** One quiet record: comment, then close. *)
Lemma close_one (item : issue) (w : world) (t : Z) (msg : jsstring) :
  well_formed w ->
  find_issue (number item) (issues w) = Some item ->
  (create_comment ok (number item) msg ;;;
   issues_update ok (number item) None (Some Closed)) w
  = Ok tt
      (w_put (number item)
         {| number := number item; title := title item; body := body item;
            state := Closed; labels := labels item;
            comments := comments item ++ [msg];
            html_url := html_url item |} w).
Proof.
  intros Hwf Hf. unfold bind.
  rewrite (acts_create_comment ok Hok (number item) (now w) msg w item Hwf
             eq_refl Hf).
  set (i1 := {| number := number item; title := title item;
                body := body item; state := state item;
                labels := labels item; comments := comments item ++ [msg];
                html_url := html_url item |}).
  assert (Hwf1 : well_formed (w_put (number item) i1 w))
    by (apply well_formed_w_put; [exact Hwf|reflexivity]).
  assert (Hf1 : find_issue (number item) (issues (w_put (number item) i1 w))
                = Some i1)
    by (apply (find_w_put _ _ item); [exact Hf|reflexivity]).
  rewrite (acts_issues_update ok Hok (number item) (now w) None (Some Closed)
             _ i1 Hwf1 (now_w_put _ _ _) Hf1).
  rewrite w_put_w_put by reflexivity. reflexivity.
Qed.

Lemma pulls_w_put (n : Z) (x : issue) (w : world) :
  pulls (w_put n x w) = pulls w.
Proof. reflexivity. Qed.

Lemma sweep_items_healthy (cutoff : Z) (ps : list pull) (t : Z) :
  forall (items : list issue) (closed : list Z) (w : world),
    well_formed w -> pulls w = ps -> now w = t ->
    NoDup (List.map number items) ->
    (forall it, In it items ->
       find_issue (number it) (issues w) = Some it) ->
    sweep_items ok items cutoff closed w =
      Ok (closed ++ List.map number (filter (quiet cutoff) items))
         (fold_left
            (fun w' i => w_put (number i) (closed_issue ok ps t i) w')
            (filter (quiet cutoff) items) w).
Proof.
  induction items as [|item rest IH]; intros closed w Hwf Hps Ht Hnd Hfind.
  - cbn. rewrite app_nil_r. reflexivity.
  - cbn [List.map] in Hnd. apply NoDup_cons_iff in Hnd as [Hnot Hnd'].
    assert (Hitem : find_issue (number item) (issues w) = Some item)
      by (apply Hfind; left; reflexivity).
    assert (Hrest : forall it, In it rest ->
              find_issue (number it) (issues w) = Some it)
      by (intros it Hit; apply Hfind; right; exact Hit).
    cbn [sweep_items filter]. unfold bind at 1.
    rewrite (acts_issues_get ok Hok (number item) (now w) w item Hwf eq_refl
               Hitem).
    rewrite w_put_same by assumption.
    unfold quiet, last_seen, body_text.
    destruct (parseOccurrenceTimestamps
                (match body item with Some b => b | None => [] end))
      as [|d ds] eqn:Ets.
    { apply IH; assumption. }
    destruct (ge (latest d ds) (Some cutoff)) eqn:Ege; cbn [negb].
    { apply IH; assumption. }
    unfold bind at 1. cbn [get_world]. unfold bind at 1.
    rewrite findFixingPR_healthy.
    rewrite Hps, Ht.
    pose proof (close_one item w t
                  (close_message (latest d ds) t
                     (fixing_prs ok ps (number item))) Hwf Hitem)
      as Hclose.
    unfold bind in Hclose. unfold bind.
    destruct (create_comment ok (number item) _ w) as [[] w1|e w1];
      [|discriminate].
    destruct (issues_update ok (number item) None (Some Closed) w1)
      as [[] w2|e w2]; [|discriminate].
    injection Hclose as ->.
    cbn [fold_left List.map].
    assert (Ec : closed_issue ok ps t item
                 = {| number := number item; title := title item;
                      body := body item; state := Closed;
                      labels := labels item;
                      comments :=
                        comments item
                        ++ [close_message (latest d ds) t
                              (fixing_prs ok ps (number item))];
                      html_url := html_url item |}).
    { unfold closed_issue, last_seen, body_text. rewrite Ets. reflexivity. }
    rewrite <- Ec.
    rewrite (IH (closed ++ [number item])
               (w_put (number item) (closed_issue ok ps t item) w)).
    + rewrite <- app_assoc. reflexivity.
    + apply well_formed_w_put; [exact Hwf|reflexivity].
    + exact Hps.
    + exact Ht.
    + exact Hnd'.
    + intros it Hit. rewrite find_w_put_other; [apply Hrest; exact Hit
                                               |reflexivity|].
      intros E. apply Hnot. rewrite <- E. apply in_map. exact Hit.
Qed.

Lemma find_put_all_other (f : issue -> issue) (n : Z) :
  (forall i, number (f i) = number i) ->
  forall (items : list issue) (w : world),
    ~ In n (List.map number items) ->
    find_issue n
      (issues (fold_left (fun w' i => w_put (number i) (f i) w') items w))
    = find_issue n (issues w).
Proof.
  intros Hf. induction items as [|it rest IH]; intros w Hn; [reflexivity|].
  cbn [fold_left]. rewrite IH by (intros H; apply Hn; right; exact H).
  apply find_w_put_other; [apply Hf|].
  intros E. apply Hn. left. symmetry. exact E.
Qed.

Lemma find_put_all_in (f : issue -> issue) :
  (forall i, number (f i) = number i) ->
  forall (items : list issue) (w : world) (it x : issue),
    NoDup (List.map number items) -> In it items ->
    find_issue (number it) (issues w) = Some x ->
    find_issue (number it)
      (issues (fold_left (fun w' i => w_put (number i) (f i) w') items w))
    = Some (f it).
Proof.
  intros Hf. induction items as [|a rest IH]; intros w it x Hnd Hin Hx;
    [destruct Hin|].
  cbn [List.map] in Hnd. apply NoDup_cons_iff in Hnd as [Hnot Hnd'].
  cbn [fold_left]. destruct Hin as [->|Hin].
  - rewrite find_put_all_other by assumption.
    apply (find_w_put _ _ x); [exact Hx|apply Hf].
  - assert (Hne : number it <> number a)
      by (intros E; apply Hnot; rewrite <- E; apply in_map; exact Hin).
    apply (IH _ it x Hnd' Hin).
    rewrite find_w_put_other; [exact Hx|apply Hf|exact Hne].
Qed.

Lemma nodup_map_filter {A B} (f : A -> B) (p : A -> bool) (l : list A) :
  NoDup (List.map f l) -> NoDup (List.map f (filter p l)).
Proof.
  induction l as [|a l IH]; intros H; [constructor|].
  cbn [List.map] in H. apply NoDup_cons_iff in H as [Hnot Hnd].
  cbn [filter]. destruct (p a); [|apply IH; exact Hnd].
  cbn [List.map]. constructor; [|apply IH; exact Hnd].
  intros Hin. apply Hnot. apply in_map_iff in Hin as (x & E & Hx).
  apply filter_In in Hx as [Hx _]. apply in_map_iff. eauto.
Qed.

Lemma nodup_map_firstn {A B} (f : A -> B) (n : nat) (l : list A) :
  NoDup (List.map f l) -> NoDup (List.map f (firstn n l)).
Proof.
  revert l. induction n as [|n IH]; intros l H; [constructor|].
  destruct l as [|a l]; [constructor|].
  cbn [List.map] in H. apply NoDup_cons_iff in H as [Hnot Hnd].
  cbn [firstn List.map]. constructor; [|apply IH; exact Hnd].
  intros Hin. apply Hnot. apply in_map_iff in Hin as (x & E & Hx).
  apply in_firstn in Hx. apply in_map_iff. eauto.
Qed.

Lemma same_number (l : list issue) (i j : issue) :
  NoDup (List.map number l) -> In i l -> In j l -> number i = number j ->
  i = j.
Proof.
  intros Hnd Hi Hj E.
  pose proof (find_issue_In (number j) l j Hnd Hj eq_refl) as Hf.
  apply (find_issue_unique (number j) l j i Hnd Hf Hi E).
Qed.

(** The sweep on a store that rejects no call.  Of the open records with
    the label (the first fifty the search lists), exactly those are closed
    whose body holds an occurrence line and whose latest occurrence is
    before the cutoff, [quietDays] days before now; their numbers are
    returned in the order of the list.  A closed record gets the closing
    comment and keeps its body and labels; every other record of the store
    is left as it was. *)
Theorem autoCloseQuietIssues_healthy (label : jsstring) (quietDays : Z)
    (w : world) :
  well_formed w ->
  0 < quietDays ->
  let cutoff := now w - quietDays * 86400000 in
  let items :=
    firstn 50 (filter (issue_matches ok (QOpenLabelled label)) (issues w)) in
  exists w',
    autoCloseQuietIssues ok label quietDays w
    = Ok (List.map number (filter (quiet cutoff) items)) w' /\
    forall i, In i (issues w) ->
      find_issue (number i) (issues w')
      = Some (if (listed items i && quiet cutoff i)%bool
              then closed_issue ok (pulls w) (now w) i
              else i).
Proof.
  intros Hwf Hq cutoff items.
  assert (Hsub : forall it, In it items -> In it (issues w)).
  { intros it Hit. unfold items in Hit. apply in_firstn in Hit.
    apply filter_In in Hit. apply Hit. }
  assert (Hnd : NoDup (List.map number items))
    by (apply nodup_map_firstn, nodup_map_filter, Hwf).
  assert (Hfind : forall it, In it items ->
            find_issue (number it) (issues w) = Some it)
    by (intros it Hit; apply find_issue_In;
        [exact Hwf|apply Hsub; exact Hit|reflexivity]).
  eexists. split.
  - unfold autoCloseQuietIssues. destruct (quietDays <=? 0) eqn:E; [zlia|].
    unfold bind. rewrite (search_issues_healthy ok Hok). cbn [get_world].
    fold items. fold cutoff.
    apply (sweep_items_healthy cutoff (pulls w) (now w) items [] w Hwf
             eq_refl eq_refl Hnd Hfind).
  - intros i Hi.
    assert (Hkeep : forall j, number (closed_issue ok (pulls w) (now w) j)
                              = number j) by reflexivity.
    assert (Hndq : NoDup (List.map number (filter (quiet cutoff) items)))
      by (apply nodup_map_filter, Hnd).
    destruct (listed items i && quiet cutoff i)%bool eqn:Esw.
    + apply andb_true_iff in Esw as [Hl Hqi].
      unfold listed in Hl. apply existsb_exists in Hl as (it & Hit & E).
      zbool. assert (it = i)
        by (apply (same_number (issues w)); auto).
      subst it.
      apply (find_put_all_in _ Hkeep _ w i i Hndq).
      * apply filter_In. split; assumption.
      * apply Hfind. exact Hit.
    + rewrite find_put_all_other; [apply find_issue_In; auto|exact Hkeep|].
      intros Hin. apply in_map_iff in Hin as (it & E & Hit).
      apply filter_In in Hit as [Hit Hqi].
      assert (it = i) by (apply (same_number (issues w)); auto).
      subst it.
      assert (listed items i = true).
      { unfold listed. apply existsb_exists. exists i.
        split; [exact Hit|apply Z.eqb_refl]. }
      rewrite H, Hqi in Esw. discriminate.
Qed.

End SweepHealthy.

Section SweepExamples.
Import Text Dates Store Api PatternTracker StoreSpec SweepSpec.

Lemma autoCloseQuietIssues_healthy_witness :
  exists w',
    autoCloseQuietIssues Scenarios.service Scenarios.tracking_label 30
      Scenarios.stale_world = Ok [1; 2] w' /\
    Scenarios.issue_state 1 w' = Some Closed /\
    Scenarios.issue_state 2 w' = Some Closed.
Proof.
  assert (Hwf : well_formed Scenarios.stale_world)
    by (unfold well_formed; vm_compute; repeat constructor;
        [intros [H|[]]; discriminate|intros []]).
  destruct (autoCloseQuietIssues_healthy Scenarios.service service_healthy
              Scenarios.tracking_label 30 Scenarios.stale_world Hwf
              ltac:(lia)) as (w' & E & Hrec).
  exists w'. split; [rewrite E; vm_compute; reflexivity|].
  unfold Scenarios.issue_state. split.
  - pose proof (Hrec (nth 0 (issues Scenarios.stale_world) MoreScenarios.blank)
                  ltac:(vm_compute; auto)) as H1.
    assert (E1 : number (nth 0 (issues Scenarios.stale_world)
                           MoreScenarios.blank) = 1)
      by (vm_compute; reflexivity).
    rewrite E1 in H1. rewrite H1. vm_compute. reflexivity.
  - pose proof (Hrec (nth 1 (issues Scenarios.stale_world) MoreScenarios.blank)
                  ltac:(vm_compute; auto)) as H2.
    assert (E2 : number (nth 1 (issues Scenarios.stale_world)
                           MoreScenarios.blank) = 2)
      by (vm_compute; reflexivity).
    rewrite E2 in H2. rewrite H2. vm_compute. reflexivity.
Defined.

End SweepExamples.

(** ** Upsert: find or create *)

Section CreateFacts.
Import Text Dates Store Api PatternTracker StoreSpec UpsertSpec CreateSpec.

Variable ok : octokit.
Hypothesis Hok : healthy ok.

Lemma closed_search_within (needle label : jsstring) (l : list issue) :
  filter (issue_matches ok (QTitle None needle label)) l = [] ->
  filter (issue_matches ok (QTitle (Some Closed) needle label)) l = [].
Proof.
  induction l as [|i l IH]; [reflexivity|]. cbn [filter].
  destruct (issue_matches ok (QTitle None needle label) i) eqn:E;
    [discriminate|].
  intros H. rewrite (IH H).
  assert (Em : issue_matches ok (QTitle (Some Closed) needle label) i = false).
  { unfold issue_matches, state_ok in *. cbn [andb] in E.
    destruct (state i); cbn [andb]; [reflexivity|exact E]. }
  rewrite Em. reflexivity.
Qed.

Lemma firstn_nil_inv {A} (n : nat) (l : list A) :
  firstn (S n) l = [] -> l = [].
Proof. destruct l; [reflexivity|discriminate]. Qed.

(** The two outcomes of an upsert on a store that rejects no call. *)
Lemma upsert_outcome (a : upsertArgs) (w : world) :
  well_formed w ->
  (exists item,
      In item (issues w) /\
      issue_matches ok (QTitle None (a_hash a) (a_label a)) item = true /\
      run_upsert ok a w
      = Ok (found_result item (a_occurrence a) (a_rule a) (a_threshold a)
              (now w) item)
           (w_put (number item)
              (found_issue item (a_occurrence a) (a_rule a) (a_threshold a)
                 (now w) item) w)) \/
  (filter (issue_matches ok (QTitle None (a_hash a) (a_label a))) (issues w)
   = [] /\
   run_upsert ok a w
   = Ok (created_result ok a w)
        (with_issues w (issues w ++ [created_issue ok a w]))).
Proof.
  intros Hwf.
  unfold run_upsert, upsertIssueForSignature, bind.
  rewrite (search_issues_healthy ok Hok).
  destruct (firstn 10 (filter (issue_matches ok (QTitle None _ _)) (issues w)))
    as [|item rest] eqn:El0; cbn beta iota.
  - apply firstn_nil_inv in El0.
    rewrite (search_issues_healthy ok Hok).
    rewrite (closed_search_within _ _ _ El0). cbn [firstn ret].
    right. split; [exact El0|].
    unfold issues_create, bind. rewrite (request_healthy ok Hok).
    reflexivity.
  - left. cbn [ret]. exists item.
    assert (Hx : In item (firstn 10
                            (filter (issue_matches ok
                                       (QTitle None (a_hash a) (a_label a)))
                               (issues w))))
      by (rewrite El0; left; reflexivity).
    apply in_firstn in Hx. apply filter_In in Hx as [Hin Hm].
    split; [exact Hin|]. split; [exact Hm|].
    apply (acts_upsert_found ok Hok item _ _ _ (now w) w item Hwf eq_refl).
    apply find_issue_In; [exact Hwf|exact Hin|reflexivity].
Qed.

Lemma find_issue_app_old (l : list issue) (x i : issue) :
  NoDup (List.map number l) -> In i l ->
  find_issue (number i) (l ++ [x]) = Some i.
Proof.
  intros Hnd Hi. rewrite find_issue_app.
  rewrite (find_issue_In (number i) l i Hnd Hi eq_refl). reflexivity.
Qed.

Lemma length_w_put (n : Z) (x : issue) (w : world) :
  List.length (issues (w_put n x w)) = List.length (issues w).
Proof. unfold w_put, with_issues. cbn [issues]. apply length_map. Qed.

(** On a store that rejects no call an upsert succeeds, and it touches one
    record only, the one whose number it returns: every other record is
    left as it was, and a record is added exactly when the outcome is
    "created". *)
Theorem upsert_touches_one_record (a : upsertArgs) (w : world) :
  well_formed w ->
  exists res w',
    run_upsert ok a w = Ok res w' /\
    (forall i, In i (issues w) -> number i <> issueNumber res ->
       find_issue (number i) (issues w') = Some i) /\
    len (issues w')
    = len (issues w) + match kind res with Created => 1 | _ => 0 end.
Proof.
  intros Hwf.
  destruct (upsert_outcome a w Hwf) as [(item & Hin & _ & E)|[_ E]];
    rewrite E; eexists; eexists; (split; [reflexivity|]); split.
  - intros i Hi Hne. cbn [issueNumber found_result] in Hne.
    rewrite find_w_put_other; [|reflexivity|exact Hne].
    apply find_issue_In; [exact Hwf|exact Hi|reflexivity].
  - unfold len. rewrite length_w_put. cbn [kind found_result].
    destruct (state item); lia.
  - intros i Hi _. cbn [issues with_issues].
    apply find_issue_app_old; [exact Hwf|exact Hi].
  - unfold len. cbn [issues with_issues kind created_result].
    rewrite length_app. cbn [List.length]. lia.
Qed.

Lemma well_formed_created (a : upsertArgs) (w : world) :
  well_formed w ->
  well_formed (with_issues w (issues w ++ [created_issue ok a w])).
Proof.
  unfold well_formed. cbn [issues with_issues]. intros Hwf.
  rewrite map_app. cbn [List.map number created_issue].
  apply NoDup_app; [exact Hwf|repeat constructor; intros []|].
  intros n Hn [<-|[]]. apply in_map_iff in Hn as (i & E & Hi).
  pose proof (fresh_number_above (issues w) i Hi). lia.
Qed.

(** Find or create: when no record matches the fingerprint, an upsert
    creates one; if the service then finds the title it was given (which
    carries the first eight characters of the hash) when it searches for
    the hash, the next upsert for the same hash and label updates that
    record and creates no second one. *)
Theorem upsert_create_then_update (a1 a2 : upsertArgs) (w : world) :
  well_formed w ->
  a_hash a2 = a_hash a1 -> a_label a2 = a_label a1 ->
  filter (issue_matches ok (QTitle None (a_hash a1) (a_label a1))) (issues w)
  = [] ->
  title_match ok (a_hash a1) (created_title a1) = true ->
  exists res1 w1 res2 w2,
    run_upsert ok a1 w = Ok res1 w1 /\
    kind res1 = Created /\ totalOccurrences res1 = 1 /\
    run_upsert ok a2 w1 = Ok res2 w2 /\
    kind res2 = Updated /\ issueNumber res2 = issueNumber res1 /\
    len (issues w2) = len (issues w) + 1.
Proof.
  intros Hwf Eh El Hnone Htitle.
  destruct (upsert_outcome a1 w Hwf) as [(item & Hin & Hm & _)|[_ E1]].
  { exfalso.
    assert (Hx : In item (filter (issue_matches ok
                                    (QTitle None (a_hash a1) (a_label a1)))
                            (issues w)))
      by (apply filter_In; split; assumption).
    rewrite Hnone in Hx. destruct Hx. }
  set (new := created_issue ok a1 w) in *.
  set (w1 := with_issues w (issues w ++ [new])) in *.
  assert (Hwf1 : well_formed w1) by apply (well_formed_created a1 w Hwf).
  assert (Hmatch : issue_matches ok (QTitle None (a_hash a1) (a_label a1)) new
                   = true).
  { unfold issue_matches, state_ok, new. cbn [title labels created_issue].
    rewrite Htitle. unfold mem. cbn [existsb].
    rewrite (proj2 (streq_true _ _) eq_refl). reflexivity. }
  assert (Hfilter : filter (issue_matches ok
                              (QTitle None (a_hash a2) (a_label a2)))
                      (issues w1) = [new]).
  { rewrite Eh, El. unfold w1. cbn [issues with_issues].
    rewrite filter_app, Hnone. cbn [filter app]. rewrite Hmatch. reflexivity. }
  destruct (upsert_outcome a2 w1 Hwf1) as [(item & Hin & Hm & E2)|[Hn _]].
  2:{ rewrite Hfilter in Hn. discriminate. }
  assert (item = new).
  { assert (Hx : In item [new])
      by (rewrite <- Hfilter; apply filter_In; split; assumption).
    destruct Hx as [<-|[]]. reflexivity. }
  subst item.
  do 4 eexists. split; [exact E1|]. split; [reflexivity|].
  split; [reflexivity|]. split; [exact E2|].
  split; [reflexivity|]. split; [reflexivity|].
  unfold len. rewrite length_w_put. unfold w1. cbn [issues with_issues].
  rewrite length_app. cbn [List.length]. lia.
Qed.

End CreateFacts.

Section CreateExamples.
Import Text Dates Store Api PatternTracker StoreSpec UpsertSpec CreateSpec.

Lemma upsert_touches_one_record_witness :
  exists res w',
    run_upsert Scenarios.service (Scenarios.args_a "2026-11-02T10:00:00.000Z" 0)
      Scenarios.stale_world = Ok res w' /\
    issueNumber res = 1 /\
    find_issue 2 (issues w') = find_issue 2 (issues Scenarios.stale_world).
Proof.
  assert (Hwf : well_formed Scenarios.stale_world)
    by (unfold well_formed; vm_compute; repeat constructor;
        [intros [H|[]]; discriminate|intros []]).
  destruct (upsert_touches_one_record Scenarios.service service_healthy
              (Scenarios.args_a "2026-11-02T10:00:00.000Z" 0)
              Scenarios.stale_world Hwf) as (res & w' & E & Hother & _).
  exists res, w'. split; [exact E|].
  assert (Hn : issueNumber res = 1).
  { assert (Ev : exists r w0,
               run_upsert Scenarios.service
                 (Scenarios.args_a "2026-11-02T10:00:00.000Z" 0)
                 Scenarios.stale_world = Ok r w0 /\ issueNumber r = 1)
      by (eexists; eexists; split; [vm_compute; reflexivity|reflexivity]).
    destruct Ev as (r & w0 & Er & Hr). rewrite E in Er.
    injection Er as -> ->. exact Hr. }
  split; [exact Hn|].
  pose proof (Hother (nth 1 (issues Scenarios.stale_world) MoreScenarios.blank)
                ltac:(vm_compute; auto)) as H2.
  assert (E2 : number (nth 1 (issues Scenarios.stale_world)
                         MoreScenarios.blank) = 2)
    by (vm_compute; reflexivity).
  rewrite E2, Hn in H2. rewrite (H2 ltac:(lia)).
  vm_compute. reflexivity.
Defined.

Lemma upsert_create_then_update_witness :
  exists res1 w1 res2 w2,
    run_upsert Scenarios.service (Scenarios.args_a "2026-11-02T10:00:00.000Z" 0)
      Scenarios.empty_world = Ok res1 w1 /\
    kind res1 = Created /\ totalOccurrences res1 = 1 /\
    run_upsert Scenarios.service (Scenarios.args_a "2026-11-02T11:00:00.000Z" 0)
      w1 = Ok res2 w2 /\
    kind res2 = Updated /\ issueNumber res2 = issueNumber res1 /\
    len (issues w2) = len (issues Scenarios.empty_world) + 1.
Proof.
  apply (upsert_create_then_update Scenarios.service service_healthy
           (Scenarios.args_a "2026-11-02T10:00:00.000Z" 0)
           (Scenarios.args_a "2026-11-02T11:00:00.000Z" 0)
           Scenarios.empty_world).
  - unfold well_formed. vm_compute. constructor.
  - reflexivity.
  - reflexivity.
  - reflexivity.
  - vm_compute. reflexivity.
Defined.

End CreateExamples.

(** ** The tables behind a hit *)

Section TableFacts.
Import Regex ErrorDetector Tables TablesSpec.

Lemma try_rules_name (rules : list rule) (lines : list jsstring) (h : hit) :
  try_rules rules lines = Some h -> In (hrule h) (List.map rname rules).
Proof.
  induction rules as [|r rules IH]; [discriminate|].
  cbn [try_rules List.map]. destruct (negb _).
  - intros E. injection E as <-. left. reflexivity.
  - intros E. right. apply IH. exact E.
Qed.

Lemma pick_builtin_category (lines : list jsstring) (h : hit) :
  pickFirstMeaningfulError lines [] = Some h ->
  In (hrule h) builtin_categories.
Proof.
  unfold pickFirstMeaningfulError, all_rules, builtin_categories.
  cbn [List.map app]. intros H. apply in_or_app.
  destruct (try_rules builtin_rules lines) as [h'|] eqn:E.
  - injection H as <-. left. apply (try_rules_name _ _ _ E).
  - destruct (negb _); [|discriminate]. injection H as <-.
    right. left. reflexivity.
Qed.

Lemma builtin_categories_covered :
  forallb covered builtin_categories = true.
Proof. vm_compute. reflexivity. Qed.

Lemma covered_hint (name : jsstring) :
  covered name = true ->
  exists a b, table_hint name = HintPair a b /\ a <> [].
Proof.
  unfold covered, table_hint. intros H.
  apply andb_true_iff in H as [H _]. apply andb_true_iff in H as [H _].
  destruct (assoc_hints name hints) as [[a b]|]; [|discriminate].
  exists a, b. split; [reflexivity|]. destruct a; [discriminate|discriminate].
Qed.

Lemma covered_risk (name : jsstring) :
  covered name = true -> is_level (getDeployRisk name) = true.
Proof.
  unfold covered, getDeployRisk, get. intros H.
  apply andb_true_iff in H as [H _]. apply andb_true_iff in H as [_ H].
  destruct (assoc name DEPLOY_RISK) as [v|]; [|discriminate].
  unfold is_level in H. destruct v as [|s| |]; try discriminate.
  unfold or_else, truthy. destruct s as [|c s]; [discriminate|exact H].
Qed.

Lemma covered_slug (toLowerCase : jsstring -> jsstring) (name : jsstring) :
  covered name = true ->
  exists s, assoc name RUNBOOK_SLUGS = Some (VString s) /\
            runbook_slug toLowerCase name = VString s.
Proof.
  unfold covered, runbook_slug, get. intros H.
  apply andb_true_iff in H as [_ H].
  destruct (assoc name RUNBOOK_SLUGS) as [[|s| |]|]; try discriminate.
  destruct s as [|c s]; [discriminate|].
  exists (c :: s). split; reflexivity.
Qed.

(** Every category a hit of the built-in rules or of the fallback scan
    can carry has its own entry in the three tables read for it: [hintFor]
    returns that category's pair of hints, [getDeployRisk] one of "high",
    "medium" and "low", and the runbook slug comes from [RUNBOOK_SLUGS]. *)
Theorem hit_category_is_tabled (lines : list jsstring) (h : hit)
    (toLowerCase : jsstring -> jsstring) :
  pickFirstMeaningfulError lines [] = Some h ->
  (exists a b, hintFor (hrule h) [] = HintPair a b /\ a <> [] /\
               assoc_hints (hrule h) hints = Some (a, b)) /\
  (exists level, getDeployRisk (hrule h) = VString level /\
                 assoc (hrule h) DEPLOY_RISK = Some (VString level) /\
                 (level = u "high" \/ level = u "medium" \/ level = u "low")) /\
  (exists slug, runbook_slug toLowerCase (hrule h) = VString slug /\
                assoc (hrule h) RUNBOOK_SLUGS = Some (VString slug)).
Proof.
  intros H. apply pick_builtin_category in H.
  pose proof builtin_categories_covered as Hall.
  rewrite forallb_forall in Hall. specialize (Hall _ H).
  generalize dependent (hrule h). intros name _ Hc.
  split; [|split].
  - destruct (covered_hint name Hc) as (a & b & E & Ha).
    exists a, b. unfold hintFor. cbn [find]. split; [exact E|].
    split; [exact Ha|]. unfold table_hint in E.
    unfold covered in Hc.
    destruct (assoc_hints name hints) as [[a' b']|]; [|discriminate].
    injection E as -> ->. reflexivity.
  - pose proof (covered_risk name Hc) as Hr.
    unfold covered in Hc. apply andb_true_iff in Hc as [Hc _].
    apply andb_true_iff in Hc as [_ Hc].
    unfold getDeployRisk, get in *.
    destruct (assoc name DEPLOY_RISK) as [v|]; [|discriminate].
    destruct v as [|s| |]; try discriminate.
    destruct s as [|c s]; [discriminate|].
    exists (c :: s). split; [reflexivity|]. split; [reflexivity|].
    unfold or_else, truthy, is_level in Hr.
    apply orb_true_iff in Hr as [Hr|Hr];
      [apply orb_true_iff in Hr as [Hr|Hr]|];
      apply streq_true in Hr; auto.
  - destruct (covered_slug toLowerCase name Hc) as (s & E1 & E2).
    exists s. split; assumption.
Qed.

Lemma hit_category_is_tabled_witness :
  (exists a b, hintFor (u "TypeScript") [] = HintPair a b /\ a <> [] /\
               assoc_hints (u "TypeScript") hints = Some (a, b)) /\
  (exists level, getDeployRisk (u "TypeScript") = VString level /\
                 assoc (u "TypeScript") DEPLOY_RISK = Some (VString level) /\
                 (level = u "high" \/ level = u "medium" \/ level = u "low")) /\
  (exists slug, runbook_slug (fun s => s) (u "TypeScript") = VString slug /\
                assoc (u "TypeScript") RUNBOOK_SLUGS = Some (VString slug)).
Proof.
  exact (hit_category_is_tabled Samples.tsc_log
           (mk_hit (u "TypeScript") Samples.tsc_log 1) (fun s => s)
           ltac:(vm_compute; reflexivity)).
Defined.

End TableFacts.

(** ** Reading integers *)

Section ConfigFacts.
Import Regex Text Config.

Lemma digits_val_snoc (l : jsstring) (d : N) :
  digits_val (l ++ [d]) = digits_val l * 10 + (Z.of_N d - 48).
Proof. unfold digits_val. rewrite fold_left_app. reflexivity. Qed.

Lemma digits_of_acc (fuel : nat) :
  forall (n : Z) (acc : jsstring),
    digits_of fuel n acc = digits_of fuel n [] ++ acc.
Proof.
  induction fuel as [|fuel IH]; intros n acc; [reflexivity|].
  cbn [digits_of]. destruct (n <? 10); [reflexivity|].
  rewrite IH, (IH _ [_]), <- app_assoc. reflexivity.
Qed.

Lemma digit_char (n : Z) :
  0 <= n ->
  is_digit (Z.to_N (48 + n mod 10)) = true /\
  Z.of_N (Z.to_N (48 + n mod 10)) - 48 = n mod 10.
Proof.
  intros Hn. pose proof (Z.mod_pos_bound n 10 ltac:(lia)) as Hm. split.
  - unfold is_digit, in_range. apply andb_true_iff.
    rewrite !N.leb_le. lia.
  - rewrite Z2N.id by lia. lia.
Qed.

(** The decimal digits written for [n] read back as [n]. *)
Lemma digits_of_val (fuel : nat) :
  forall n, 0 <= n < 2 ^ Z.of_nat fuel ->
    digits_val (digits_of fuel n []) = n /\
    Forall (fun c => is_digit c = true) (digits_of fuel n []) /\
    (fuel <> O -> digits_of fuel n [] <> []).
Proof.
  induction fuel as [|fuel IH]; intros n Hn.
  - cbn in Hn. assert (n = 0) by lia. subst.
    split; [reflexivity|]. split; [constructor|congruence].
  - cbn [digits_of]. destruct (digit_char n ltac:(lia)) as [Hd Hv].
    destruct (n <? 10) eqn:E.
    + zbool. split.
      * unfold digits_val. cbn [fold_left]. rewrite Hv.
        rewrite Z.mod_small by lia. lia.
      * split; [repeat constructor; exact Hd|discriminate].
    + zbool. rewrite digits_of_acc.
      assert (Hq : 0 <= n / 10 < 2 ^ Z.of_nat fuel).
      { split; [apply Z.div_pos; lia|].
        apply Z.div_lt_upper_bound; [lia|].
        rewrite Nat2Z.inj_succ, Z.pow_succ_r in Hn by lia. lia. }
      destruct (IH _ Hq) as (Hval & Hall & _).
      split.
      * rewrite digits_val_snoc, Hval, Hv.
        pose proof (Z.div_mod n 10 ltac:(lia)). lia.
      * split.
        -- apply Forall_app. split; [exact Hall|repeat constructor; exact Hd].
        -- intros _ H. apply app_eq_nil in H as [_ H]. discriminate.
Qed.

Lemma dec_nonneg (n : Z) :
  0 <= n ->
  exists ds, dec n = ds /\ ds <> [] /\
             Forall (fun c => is_digit c = true) ds /\ digits_val ds = n.
Proof.
  intros Hn. unfold dec. destruct (n <? 0) eqn:E; [zlia|].
  assert (Hb : 0 <= n < 2 ^ Z.of_nat (S (Z.to_nat (Z.log2 n)))).
  { split; [exact Hn|]. rewrite Nat2Z.inj_succ, Z2Nat.id by apply Z.log2_nonneg.
    destruct (Z.eq_dec n 0) as [->|Hne]; [reflexivity|].
    apply Z.log2_spec. lia. }
  destruct (digits_of_val _ n Hb) as (Hv & Ha & Hne).
  eexists. split; [reflexivity|]. split; [apply Hne; discriminate|].
  split; assumption.
Qed.

Lemma leading_digits_app (ds rest : jsstring) :
  Forall (fun c => is_digit c = true) ds ->
  match rest with c :: _ => is_digit c = false | [] => True end ->
  leading_digits (ds ++ rest) = ds.
Proof.
  intros Hds Hrest. induction Hds as [|c ds Hc _ IH].
  - destruct rest as [|c rest]; [reflexivity|]. cbn. rewrite Hrest. reflexivity.
  - cbn [app leading_digits]. rewrite Hc, IH. reflexivity.
Qed.

Lemma trimStart_app (ws x : jsstring) :
  Forall (fun c => is_space c = true) ws ->
  match x with c :: _ => is_space c = false | [] => True end ->
  Utils.trimStart (ws ++ x) = x.
Proof.
  intros Hws Hx. induction Hws as [|c ws Hc _ IH].
  - destruct x as [|c x]; [reflexivity|]. cbn. rewrite Hx. reflexivity.
  - cbn [app Utils.trimStart]. rewrite Hc. exact IH.
Qed.

Lemma digit_not_space (c : N) : is_digit c = true -> is_space c = false.
Proof.
  unfold is_digit, is_space, in_range. intros H.
  apply andb_true_iff in H as [H1 H2]. apply N.leb_le in H1, H2.
  repeat (apply orb_false_iff; split);
    try (apply N.eqb_neq; lia);
    apply andb_false_iff; rewrite !N.leb_gt; lia.
Qed.

Lemma digit_not_sign (c : N) :
  is_digit c = true -> c <> 45%N /\ c <> 43%N.
Proof.
  unfold is_digit, in_range. intros H.
  apply andb_true_iff in H as [H1 H2]. apply N.leb_le in H1, H2. lia.
Qed.

(** What [parseInt] reads from an integer written in decimal, whatever
    white space stands before it and whatever text that does not start
    with a digit stands after it. *)
Lemma parseInt10_dec (ws rest : jsstring) (n : Z) :
  Forall (fun c => is_space c = true) ws ->
  match rest with c :: _ => is_digit c = false | [] => True end ->
  parseInt10 (ws ++ dec n ++ rest) = Some n.
Proof.
  intros Hws Hrest. unfold parseInt10.
  destruct (Z_lt_ge_dec n 0) as [Hneg|Hpos].
  - assert (E : dec n = 45%N :: dec (- n)).
    { unfold dec. destruct (n <? 0) eqn:E1; [|zlia].
      destruct (- n <? 0) eqn:E2; [zlia|]. reflexivity. }
    destruct (dec_nonneg (- n) ltac:(lia)) as (ds & Ed & Hne & Hall & Hval).
    rewrite E, Ed. cbn [app].
    rewrite trimStart_app; [|exact Hws|reflexivity].
    cbn [strip_sign N.eqb Pos.eqb fst snd].
    rewrite leading_digits_app by assumption.
    destruct ds as [|d ds]; [congruence|]. rewrite Hval. f_equal. lia.
  - destruct (dec_nonneg n ltac:(lia)) as (ds & Ed & Hne & Hall & Hval).
    rewrite Ed. destruct ds as [|d ds]; [congruence|].
    assert (Hd : is_digit d = true) by (inversion Hall; assumption).
    rewrite trimStart_app;
      [|exact Hws|cbn [app]; apply digit_not_space; exact Hd].
    destruct (digit_not_sign d Hd) as [H45 H43].
    assert (Es : strip_sign ((d :: ds) ++ rest) = (false, (d :: ds) ++ rest)).
    { cbn [app strip_sign].
      destruct (N.eqb_spec d 45); [congruence|].
      destruct (N.eqb_spec d 43); [congruence|]. reflexivity. }
    rewrite Es. cbn [fst snd]. rewrite leading_digits_app by assumption.
    rewrite Hval. reflexivity.
Qed.

(** [clampInt] on an input that holds an integer in decimal: the integer
    is read (white space before it and any text after it are ignored) and
    brought into the range; the default plays no role.  In every case the
    result is the default or lies within the range. *)
Theorem clampInt_reads_integer (ws rest : jsstring) (n def lo hi : Z) :
  Forall (fun c => is_space c = true) ws ->
  match rest with c :: _ => is_digit c = false | [] => True end ->
  Z.abs n < overflow ->
  lo <= hi ->
  clampInt (Some (ws ++ dec n ++ rest)) def lo hi = Z.max lo (Z.min hi n) /\
  lo <= clampInt (Some (ws ++ dec n ++ rest)) def lo hi <= hi /\
  forall val, clampInt val def lo hi = def \/
              lo <= clampInt val def lo hi <= hi.
Proof.
  intros Hws Hrest Hn Hlh.
  assert (E : clampInt (Some (ws ++ dec n ++ rest)) def lo hi
              = Z.max lo (Z.min hi n)).
  { unfold clampInt. rewrite parseInt10_dec by assumption.
    destruct (Z.abs n >=? overflow) eqn:Eo; [zlia|reflexivity]. }
  split; [exact E|]. split; [rewrite E; lia|].
  intros val. unfold clampInt. destruct (parseInt10 _) as [m|]; [|left; reflexivity].
  destruct (Z.abs m >=? overflow); [left; reflexivity|right; lia].
Qed.

Lemma clampInt_reads_integer_witness :
  clampInt (Some (u " 45 days")) 0 0 365 = 45 /\
  clampInt (Some (u "-3")) 10 3 30 = 3 /\
  clampInt (Some (u "1000")) 10 3 30 = 30.
Proof.
  assert (Ho : forall n, Z.abs n < 2 ^ 20 -> Z.abs n < overflow).
  { intros n H. unfold overflow.
    assert (2 ^ 20 < 2 ^ 1024 - 2 ^ 970); [|lia].
    replace (2 ^ 1024) with (2 ^ 970 * 2 ^ 54)
      by (rewrite <- Z.pow_add_r by lia; reflexivity).
    assert (2 ^ 20 < 2 ^ 970) by (apply Z.pow_lt_mono_r; lia).
    assert (2 <= 2 ^ 54) by (change 2 with (2 ^ 1) at 1;
                            apply Z.pow_le_mono_r; lia).
    nia. }
  split; [|split].
  - exact (proj1 (clampInt_reads_integer (u " ") (u " days") 45 0 0 365
                    ltac:(repeat constructor) eq_refl
                    (Ho 45 ltac:(cbn; lia)) ltac:(lia))).
  - exact (proj1 (clampInt_reads_integer [] [] (-3) 10 3 30
                    ltac:(constructor) I (Ho (-3) ltac:(cbn; lia))
                    ltac:(lia))).
  - exact (proj1 (clampInt_reads_integer [] [] 1000 10 3 30
                    ltac:(constructor) I (Ho 1000 ltac:(cbn; lia))
                    ltac:(lia))).
Defined.

End ConfigFacts.

(** ** Global replacement, step by step *)

Section ReplaceFacts.
Import Regex Text ReplaceSpec.

Lemma between_cons (bef bef' : list N) (c : N) (rest aft' : list N) :
  (List.length aft' <= List.length rest)%nat ->
  between {| before := bef; after := c :: rest |}
          {| before := bef'; after := aft' |}
  = c :: between {| before := c :: bef; after := rest |}
                 {| before := bef'; after := aft' |}.
Proof.
  intros H. unfold between, remaining. cbn [after List.length].
  replace (S (List.length rest) - List.length aft')%nat
    with (S (List.length rest - List.length aft')) by lia.
  reflexivity.
Qed.

(** A search result lies at or after the position searched from. *)
Lemma search_after (fl : flags) (r : re) (aft bef : list N) (st e : pos) :
  search fl r bef aft = Some (st, e) ->
  (remaining st <= List.length aft)%nat /\ match_at fl r st = Some e.
Proof.
  revert bef. induction aft as [|c aft IH]; intros bef H; cbn [search] in H.
  - destruct (match_at fl r {| before := bef; after := [] |}) eqn:E;
      [|discriminate].
    injection H as <- <-. split; [reflexivity|exact E].
  - destruct (match_at fl r {| before := bef; after := c :: aft |}) eqn:E.
    + injection H as <- <-. split; [reflexivity|exact E].
    + destruct (IH _ H) as [H1 H2]. split; [cbn [List.length]; lia|exact H2].
Qed.

(** Where the pattern does not match, the code unit is kept. *)
Lemma replace_from_skip (fuel : nat) (fl : flags) (r : re) (repl : jsstring)
    (bef : list N) (c : N) (rest : list N) :
  match_at fl r {| before := bef; after := c :: rest |} = None ->
  replace_from (S fuel) fl r repl {| before := bef; after := c :: rest |}
  = c :: replace_from (S fuel) fl r repl {| before := c :: bef; after := rest |}.
Proof.
  intros H. cbn [replace_from before after search]. rewrite H.
  destruct (search fl r (c :: bef) rest) as [[st e]|] eqn:Es; [|reflexivity].
  destruct st as [sb sa]. destruct (search_after _ _ _ _ _ _ Es) as [Hst _].
  unfold remaining in Hst. cbn [after] in Hst.
  rewrite between_cons by exact Hst. reflexivity.
Qed.

(** Where it matches a piece of the text, the piece is replaced. *)
Lemma replace_from_match (fuel : nat) (fl : flags) (r : re) (repl : jsstring)
    (p e : pos) :
  match_at fl r p = Some e ->
  (remaining e < remaining p)%nat ->
  replace_from (S fuel) fl r repl p
  = expand repl (between p e) (rev (before p)) (after e)
    ++ replace_from fuel fl r repl e.
Proof.
  intros H Hlt. destruct p as [bef aft]. cbn [replace_from before after].
  assert (Es : search fl r bef aft
               = Some ({| before := bef; after := aft |}, e)).
  { destruct aft; cbn [search]; rewrite H; reflexivity. }
  rewrite Es.
  assert (Eb : between {| before := bef; after := aft |}
                       {| before := bef; after := aft |} = []).
  { unfold between. rewrite Nat.sub_diag. reflexivity. }
  rewrite Eb. cbn [app].
  apply Nat.ltb_lt in Hlt. rewrite Hlt. reflexivity.
Qed.

Lemma replace_from_end (fuel : nat) (fl : flags) (r : re) (repl : jsstring)
    (bef : list N) :
  match_at fl r {| before := bef; after := [] |} = None ->
  replace_from fuel fl r repl {| before := bef; after := [] |} = [].
Proof.
  intros H. destruct fuel; [reflexivity|].
  cbn [replace_from before after search]. rewrite H. reflexivity.
Qed.

(** A replacement text without a dollar sign is inserted as it is. *)
Lemma expand_plain (repl matched pre post : jsstring) :
  ~ In 36%N repl -> expand repl matched pre post = repl.
Proof.
  induction repl as [|c repl IH]; intros H; [reflexivity|].
  assert (Hc : c <> 36%N) by (intros ->; apply H; left; reflexivity).
  assert (Hr : ~ In 36%N repl) by (intros Hin; apply H; right; exact Hin).
  cbn [expand]. destruct c as [|q]; [rewrite IH by exact Hr; reflexivity|].
  repeat (destruct q as [q|q|]; try (rewrite IH by exact Hr; reflexivity));
    congruence.
Qed.

(** Without the flag [i], a literal matches where the text starts with
    it. *)
Lemma run_lits_exact (w : jsstring) (bef aft : list N)
    (k : pos -> option pos) :
  run fl_none (lits w) {| before := bef; after := aft |} k =
    if startsWith aft w
    then k {| before := rev (firstn (List.length w) aft) ++ bef;
              after := skipn (List.length w) aft |}
    else None.
Proof.
  revert bef aft k. induction w as [|c w IH]; intros bef aft k.
  - destruct aft; reflexivity.
  - assert (Hstep : run fl_none (lits (c :: w)) {| before := bef; after := aft |} k
                    = run fl_none (chr c) {| before := bef; after := aft |}
                        (fun s' => run fl_none (lits w) s' k)).
    { unfold lits. cbn [List.map seqs]. destruct w; reflexivity. }
    rewrite Hstep. cbn [run chr after before cls_match fl_none ignoreCase].
    destruct aft as [|x aft]; [reflexivity|].
    cbn [startsWith]. destruct (N.eqb c x); [|reflexivity]. cbn [andb].
    rewrite IH. cbn [List.length firstn skipn rev].
    rewrite <- app_assoc. reflexivity.
Qed.

(** The greedy run of a class. *)
Lemma star_cls (p : N -> bool) (n : nat) (bef aft : list N) :
  (List.length aft <= n)%nat ->
  star (run fl_none (Cls p)) n {| before := bef; after := aft |}
    (fun e => Some e)
  = Some (skip_while p bef aft).
Proof.
  revert bef aft. induction n as [|n IH]; intros bef aft Hn.
  - destruct aft; [reflexivity|cbn [List.length] in Hn; lia].
  - cbn [star run after before]. destruct aft as [|d rest]; [reflexivity|].
    cbn [cls_match ignoreCase fl_none skip_while].
    destruct (p d) eqn:Ed; [|reflexivity].
    unfold remaining. cbn [after].
    replace (List.length rest <? List.length (d :: rest))%nat with true
      by (symmetry; apply Nat.ltb_lt; cbn [List.length]; lia).
    rewrite IH by (cbn [List.length] in Hn; lia). reflexivity.
Qed.

Lemma match_at_plus_cls (p : N -> bool) (bef aft : list N) :
  match_at fl_none (plus (Cls p)) {| before := bef; after := aft |} =
    match aft with
    | c :: rest => if p c then Some (skip_while p (c :: bef) rest) else None
    | [] => None
    end.
Proof.
  unfold match_at, plus. cbn [run after before cls_match ignoreCase fl_none].
  destruct aft as [|c rest]; [reflexivity|].
  destruct (p c); [|reflexivity].
  unfold remaining. cbn [after]. apply star_cls. lia.
Qed.

Lemma skip_while_spec (p : N -> bool) (aft bef : list N) :
  exists mid,
    aft = mid ++ after (skip_while p bef aft) /\
    Forall (fun c => p c = true) mid /\
    match after (skip_while p bef aft) with
    | c :: _ => p c = false
    | [] => True
    end.
Proof.
  revert bef. induction aft as [|c rest IH]; intros bef.
  - exists []. repeat split. constructor.
  - cbn [skip_while]. destruct (p c) eqn:E.
    + destruct (IH (c :: bef)) as (mid & E1 & E2 & E3).
      exists (c :: mid). split; [cbn [app]; f_equal; exact E1|].
      split; [constructor; assumption|exact E3].
    + exists []. cbn [after app]. repeat split; [constructor|exact E].
Qed.

End ReplaceFacts.

(** ** The fenced block and the runbook slug *)

Section CodeBlockFacts.
Import Regex Text ReplaceSpec Config Tables.

Lemma bounded_mono (limit : nat) (s : jsstring) :
  forall c c', bounded limit c s = true -> (c' <= c)%nat ->
               bounded limit c' s = true.
Proof.
  induction s as [|x s IH]; intros c c' H Hc; [reflexivity|].
  cbn [bounded] in *. destruct (N.eqb x tick); [|exact H].
  apply andb_true_iff in H as [H1 H2]. apply Nat.leb_le in H1.
  apply andb_true_iff. split; [apply Nat.leb_le; lia|].
  apply (IH (S c)); [exact H2|lia].
Qed.

Lemma bounded_lead (limit : nat) (s : jsstring) :
  forall c, (c <= limit)%nat -> bounded limit c s = true ->
            (lead s + c <= limit)%nat.
Proof.
  induction s as [|x s IH]; intros c Hc H; [cbn [lead]; lia|].
  cbn [bounded lead] in *. destruct (N.eqb x tick); [|lia].
  apply andb_true_iff in H as [H1 H2]. apply Nat.leb_le in H1.
  specialize (IH _ H1 H2). lia.
Qed.

Lemma starts_with_fence (s : jsstring) :
  startsWith s (u "```") = true ->
  exists s', s = tick :: tick :: tick :: s'.
Proof.
  change (u "```") with [tick; tick; tick].
  destruct s as [|a [|b [|c s']]]; cbn [startsWith];
    rewrite ?andb_false_r; try discriminate.
  intros H. apply andb_true_iff in H as [Ha H].
  apply andb_true_iff in H as [Hb H]. apply andb_true_iff in H as [Hc _].
  apply N.eqb_eq in Ha, Hb, Hc. subst. eauto.
Qed.

Lemma no_fence_lead (s : jsstring) :
  startsWith s (u "```") = false -> (lead s <= 2)%nat.
Proof.
  change (u "```") with [tick; tick; tick].
  destruct s as [|a [|b [|c s']]]; cbn [startsWith lead]; intros H;
    repeat match goal with
           | |- context [N.eqb ?x tick] => destruct (N.eqb_spec x tick)
           end; subst; try lia.
  rewrite !N.eqb_refl in H. destruct s'; cbn in H; discriminate.
Qed.

(** After the replacement no run of backticks is longer than two, when no
    run of the text was longer than four; [o] backticks end the output
    written so far. *)
Lemma escape_bounded (n : nat) :
  forall (s bef : list N) (fuel o : nat),
    (List.length s <= n)%nat -> (List.length s < fuel)%nat ->
    bounded 4 0 s = true ->
    (0 < o -> lead s + o <= 2)%nat -> (o <= 2)%nat ->
    bounded 2 o
      (replace_from fuel fl_none fence escaped {| before := bef; after := s |})
    = true.
Proof.
  induction n as [|n IH]; intros s bef fuel o Hn Hf Hb Hlead Ho.
  { destruct s; [|cbn [List.length] in Hn; lia].
    rewrite replace_from_end; reflexivity. }
  destruct s as [|c rest]; [rewrite replace_from_end; reflexivity|].
  destruct fuel as [|fuel]; [lia|].
  assert (Hm : match_at fl_none fence {| before := bef; after := c :: rest |}
               = if startsWith (c :: rest) (u "```")
                 then Some {| before := rev (firstn 3 (c :: rest)) ++ bef;
                              after := skipn 3 (c :: rest) |}
                 else None)
    by (unfold match_at, fence, lit; apply run_lits_exact).
  destruct (startsWith (c :: rest) (u "```")) eqn:Es.
  - destruct (starts_with_fence _ Es) as [s' E]. rewrite E in *.
    cbn [firstn skipn rev app] in Hm.
    rewrite (replace_from_match _ _ _ _ _ _ Hm)
      by (unfold remaining; cbn [after List.length]; lia).
    rewrite expand_plain
      by (intros H; cbn in H; intuition discriminate).
    assert (o = 0)%nat.
    { destruct o; [reflexivity|]. cbn [lead] in Hlead.
      rewrite N.eqb_refl in Hlead. specialize (Hlead ltac:(lia)). lia. }
    subst o. change (escaped ++ ?x) with (tick :: tick :: 92%N :: tick :: x).
    cbn [bounded]. rewrite N.eqb_refl.
    change (N.eqb 92 tick) with false. cbn [Nat.leb andb].
    cbn [bounded] in Hb. rewrite N.eqb_refl in Hb. cbn [Nat.leb andb] in Hb.
    apply IH.
    + cbn [List.length] in Hn. lia.
    + cbn [List.length] in Hf. lia.
    + apply (bounded_mono 4 s' 3); [exact Hb|lia].
    + intros _. pose proof (bounded_lead 4 s' 3 ltac:(lia) Hb). lia.
    + lia.
  - rewrite (replace_from_skip _ _ _ _ _ _ _ Hm).
    pose proof (no_fence_lead _ Es) as Hl.
    cbn [bounded lead] in *. destruct (N.eqb c tick) eqn:Ec.
    + apply andb_true_iff in Hb as [_ Hb].
      assert (Hso : (S o <= 2)%nat).
      { destruct o; [lia|]. specialize (Hlead ltac:(lia)). lia. }
      apply andb_true_iff. split; [apply Nat.leb_le; exact Hso|].
      apply IH.
      * cbn [List.length] in Hn. lia.
      * cbn [List.length] in Hf. lia.
      * apply (bounded_mono 4 rest 1); [exact Hb|lia].
      * intros _. destruct o; [lia|]. specialize (Hlead ltac:(lia)). lia.
      * exact Hso.
    + apply IH.
      * cbn [List.length] in Hn. lia.
      * cbn [List.length] in Hf. lia.
      * exact Hb.
      * intros H. lia.
      * lia.
Qed.

Lemma includes_fence_unbounded (s : jsstring) :
  forall c, includes s (u "```") = true -> bounded 2 c s = false.
Proof.
  induction s as [|x s IH]; intros c H.
  - cbn in H. discriminate.
  - cbn [includes] in H. destruct (startsWith (x :: s) (u "```")) eqn:Es.
    + destruct (starts_with_fence _ Es) as [s' E]. rewrite E.
      cbn [bounded]. rewrite N.eqb_refl.
      destruct c as [|[|c]]; cbn [Nat.leb andb]; reflexivity.
    + cbn [bounded]. destruct (N.eqb x tick).
      * rewrite (IH _ H). apply andb_false_r.
      * apply (IH _ H).
Qed.

Lemma includes_suffix (a b w : jsstring) :
  includes b w = true -> includes (a ++ b) w = true.
Proof.
  intros H. induction a as [|x a IH]; [exact H|].
  cbn [app includes]. rewrite IH. destruct (startsWith _ _); reflexivity.
Qed.

Lemma repeat_snoc {A} (x : A) (n : nat) (l : list A) :
  repeat x n ++ x :: l = repeat x (S n) ++ l.
Proof.
  induction n as [|n IH]; [reflexivity|].
  cbn [repeat app] in *. rewrite IH. reflexivity.
Qed.

Lemma unbounded_includes_run (s : jsstring) :
  forall c, (c <= 4)%nat -> bounded 4 c s = false ->
            includes (repeat tick c ++ s) (repeat tick 5) = true.
Proof.
  induction s as [|x s IH]; intros c Hc H; [discriminate|].
  cbn [bounded] in H. destruct (N.eqb_spec x tick) as [->|Hx].
  - rewrite repeat_snoc. destruct (Nat.leb_spec (S c) 4) as [Hle|Hgt].
    + cbn [andb] in H. apply IH; [lia|exact H].
    + assert (c = 4)%nat by lia. subst c.
      apply (includes_app [] (repeat tick 5) s).
  - apply includes_suffix. apply (includes_suffix [x]).
    apply (IH 0%nat); [lia|exact H].
Qed.

Lemma includes_false_at (a1 a2 w : jsstring) :
  includes (a1 ++ a2) w = false -> startsWith a2 w = false.
Proof.
  intros H. destruct (startsWith a2 w) eqn:E; [|reflexivity].
  assert (includes a2 w = true)
    by (destruct a2; cbn [includes]; rewrite E; reflexivity).
  rewrite includes_suffix in H by assumption. discriminate.
Qed.

(** [codeBlock] when the text has no run of five backticks: the text is
    embedded between the opening and the closing fence with every fence in
    it broken up, so that what stands between the two fences holds no
    fence; a text without a fence is embedded as it is. *)
Theorem codeBlock_fence (text lang : jsstring) :
  includes text (u "`````") = false ->
  exists safe,
    codeBlock (Some text) lang
    = [10%N] ++ u "```" ++ lang ++ [10%N] ++ safe ++ [10%N] ++ u "```"
      ++ [10%N] /\
    includes safe (u "```") = false /\
    (includes text (u "```") = false -> safe = text).
Proof.
  intros H5. eexists. split; [reflexivity|]. split.
  - destruct (includes _ (u "```")) eqn:E; [|reflexivity].
    apply (includes_fence_unbounded _ 0%nat) in E.
    unfold replace_all in E.
    assert (Hb : bounded 4 0 text = true).
    { destruct (bounded 4 0 text) eqn:Eb; [reflexivity|].
      apply (unbounded_includes_run text 0%nat) in Eb; [|lia].
      assert (Eb' : includes text (u "`````") = true) by exact Eb.
      congruence. }
    pose proof (escape_bounded (List.length text) text []
                  (S (List.length text)) 0%nat
                  ltac:(lia) ltac:(lia) Hb ltac:(lia) ltac:(lia)) as Hx.
    unfold fence, escaped in Hx. rewrite Hx in E. discriminate.
  - intros H3. apply replace_all_no_match. apply search_none.
    intros a1 a2 E. unfold match_at, lit. rewrite run_lits_exact.
    rewrite E in H3. rewrite (includes_false_at _ _ _ H3). reflexivity.
Qed.

Lemma codeBlock_fence_witness :
  exists safe,
    codeBlock (Some (u "a ```` b")) [] 
    = [10%N] ++ u "```" ++ [] ++ [10%N] ++ safe ++ [10%N] ++ u "```"
      ++ [10%N] /\
    includes safe (u "```") = false /\
    (includes (u "a ```` b") (u "```") = false -> safe = u "a ```` b").
Proof.
  exact (codeBlock_fence (u "a ```` b") [] eq_refl).
Defined.

End CodeBlockFacts.

Section SlugFacts.
Import Regex Text ReplaceSpec Tables.

Lemma slug_replace_chars (n : nat) :
  forall (s bef : list N) (fuel : nat),
    (List.length s <= n)%nat -> (List.length s < fuel)%nat ->
    Forall (fun c => slug_char c = true)
      (replace_from fuel fl_none re_not_alnum (u "-")
         {| before := bef; after := s |}).
Proof.
  induction n as [|n IH]; intros s bef fuel Hn Hf.
  { destruct s; [|cbn [List.length] in Hn; lia].
    rewrite replace_from_end; [constructor|reflexivity]. }
  destruct s as [|c rest];
    [rewrite replace_from_end; [constructor|reflexivity]|].
  destruct fuel as [|fuel]; [lia|].
  pose proof (match_at_plus_cls (fun c => negb (is_lower_alnum c)) bef
                (c :: rest)) as Hm.
  fold re_not_alnum in Hm. cbv beta iota in Hm.
  destruct (is_lower_alnum c) eqn:Ec; rewrite ?Ec in Hm; cbn [negb] in Hm.
  - rewrite (replace_from_skip _ _ _ _ _ _ _ Hm). constructor.
    + unfold slug_char. unfold is_lower_alnum in Ec. rewrite Ec. reflexivity.
    + apply IH; cbn [List.length] in *; lia.
  - destruct (skip_while_spec (fun c => negb (is_lower_alnum c)) rest
                (c :: bef)) as (mid & E & _ & _).
    set (e := skip_while (fun c => negb (is_lower_alnum c)) (c :: bef) rest)
      in *.
    assert (Hle : (List.length (after e) <= List.length rest)%nat).
    { apply (f_equal (@List.length N)) in E. rewrite length_app in E. lia. }
    rewrite (replace_from_match _ _ _ _ _ _ Hm)
      by (unfold remaining; cbn [after List.length]; lia).
    rewrite expand_plain by (intros H; cbn in H; intuition discriminate).
    apply Forall_app. split; [repeat constructor|].
    destruct e as [eb ea]. cbn [after] in Hle.
    apply IH; cbn [List.length] in *; lia.
Qed.

Lemma table_slugs_chars :
  forallb (fun e => match snd e with
                    | VString s => forallb slug_char s
                    | _ => false
                    end) RUNBOOK_SLUGS = true.
Proof. vm_compute. reflexivity. Qed.

Lemma assoc_in (k : jsstring) (tbl : list (jsstring * value)) (v : value) :
  assoc k tbl = Some v -> In (k, v) tbl.
Proof.
  induction tbl as [|[k' v'] tbl IH]; [discriminate|].
  cbn [assoc]. destruct (streq k k') eqn:E.
  - intros H. injection H as ->. apply streq_true in E. subst. left. reflexivity.
  - intros H. right. apply IH. exact H.
Qed.

(** The slug a runbook link ends with, for a category whose name is not
    the name of a property inherited from [Object.prototype]: a string
    made of lower-case letters, digits and hyphens only, whatever the
    category name holds and however [toLowerCase] maps it. *)
Theorem runbook_slug_chars (toLowerCase : jsstring -> jsstring)
    (rule : jsstring) :
  assoc rule object_prototype = None ->
  exists slug,
    runbook_slug toLowerCase rule = VString slug /\
    Forall (fun c => slug_char c = true) slug.
Proof.
  intros Hp. unfold runbook_slug, get. rewrite Hp.
  destruct (assoc rule RUNBOOK_SLUGS) as [v|] eqn:E.
  - apply assoc_in in E. pose proof table_slugs_chars as Ht.
    rewrite forallb_forall in Ht. specialize (Ht _ E). cbn [snd] in Ht.
    destruct v as [|s| |]; try discriminate.
    rewrite forallb_forall in Ht. unfold or_else, truthy.
    destruct s as [|c s].
    + eexists. split; [reflexivity|].
      apply (slug_replace_chars (List.length (toLowerCase rule))); lia.
    + exists (c :: s). split; [reflexivity|]. apply Forall_forall. exact Ht.
  - unfold or_else, truthy. eexists. split; [reflexivity|].
    apply (slug_replace_chars (List.length (toLowerCase rule))); lia.
Qed.

Lemma runbook_slug_chars_witness :
  exists slug,
    runbook_slug Config.lower_ascii (u "My Rule #1") = VString slug /\
    Forall (fun c => slug_char c = true) slug.
Proof.
  exact (runbook_slug_chars Config.lower_ascii (u "My Rule #1") eq_refl).
Defined.

End SlugFacts.

(** ** Comments on pull requests *)

Section CommentFacts.
Import Text Comments CommentsSpec.

Lemma find_split {A} (p : A -> bool) (l : list A) (e : A) :
  find p l = Some e ->
  exists l1 l2, l = l1 ++ e :: l2 /\ p e = true /\
                forall x, In x l1 -> p x = false.
Proof.
  induction l as [|a l IH]; [discriminate|]. cbn [find].
  destruct (p a) eqn:E.
  - intros H. injection H as <-. exists [], l. repeat split; [exact E|].
    intros x [].
  - intros H. destruct (IH H) as (l1 & l2 & -> & He & Hl).
    exists (a :: l1), l2. repeat split; [exact He|].
    intros x [<-|Hx]; [exact E|apply Hl; exact Hx].
Qed.

Lemma find_first {A} (p : A -> bool) (l1 l2 : list A) (e : A) :
  (forall x, In x l1 -> p x = false) -> p e = true ->
  find p (l1 ++ e :: l2) = Some e.
Proof.
  intros Hl He. induction l1 as [|a l1 IH]; cbn [app find].
  - rewrite He. reflexivity.
  - rewrite (Hl a (or_introl eq_refl)). apply IH.
    intros x Hx. apply Hl. right. exact Hx.
Qed.

Lemma find_none_all {A} (p : A -> bool) (l : list A) :
  find p l = None -> forall x, In x l -> p x = false.
Proof. intros H x Hx. apply (find_none p l H x Hx). Qed.

Lemma thread_map (n : Z) (f : comment -> comment) (st : cstore) :
  (forall c, on (f c) = on c) ->
  thread n (List.map f st) = List.map f (thread n st).
Proof.
  intros Hf. unfold thread. induction st as [|c st IH]; [reflexivity|].
  cbn [List.map filter]. rewrite Hf.
  destruct (on c =? n); [cbn [List.map]; rewrite IH; reflexivity|exact IH].
Qed.

Lemma existsb_has_id (st : cstore) (e : comment) :
  In e st -> existsb (has_id (c_id e)) st = true.
Proof.
  intros H. apply existsb_exists. exists e. split; [exact H|].
  unfold has_id. apply Z.eqb_refl.
Qed.

Lemma fresh_id_above (st : cstore) (c : comment) :
  In c st -> c_id c < fresh_id st.
Proof.
  unfold fresh_id. induction st as [|a st IH]; intros H; [destruct H|].
  cbn [fold_right]. destruct H as [->|H]; [lia|].
  specialize (IH H). lia.
Qed.

Section Obliging.
Variable sv : service.
Hypothesis Hsv : obliging sv.

Lemma listComments_obliging (n : Z) (st : cstore) :
  listComments sv n st = Done (firstn 100 (thread n st)) st.
Proof. unfold listComments, cbind, reach. rewrite Hsv. reflexivity. Qed.

Lemma updateComment_obliging (e : comment) (b : jsstring) (st : cstore) :
  In e st ->
  updateComment sv (c_id e) b st
  = Done tt (List.map (fun c => if has_id (c_id e) c then with_body b c else c)
               st).
Proof.
  intros H. unfold updateComment, cbind, reach. rewrite Hsv.
  rewrite (existsb_has_id st e H). reflexivity.
Qed.

(** An upsert that finds the marked comment [e]. *)
Lemma upsert_existing (n : Z) (b marker : jsstring) (st : cstore)
    (l1 l2 : list comment) (e : comment) :
  firstn 100 (thread n st) = l1 ++ e :: l2 ->
  (forall x, In x l1 -> mentions marker x = false) ->
  mentions marker e = true ->
  upsertComment sv n b marker st
  = Done {| updated := true; w_url := c_url e |}
      (List.map (fun c => if has_id (c_id e) c then with_body b c else c) st).
Proof.
  intros El H1 He. unfold upsertComment, cbind at 1.
  rewrite listComments_obliging, El, (find_first _ _ _ _ H1 He).
  unfold cbind. rewrite updateComment_obliging; [reflexivity|].
  assert (Hin : In e (firstn 100 (thread n st)))
    by (rewrite El; apply in_or_app; right; left; reflexivity).
  apply in_firstn in Hin. apply filter_In in Hin. apply Hin.
Qed.

(** The comment is written once: an upsert with a body that carries the
    marker creates or updates one comment, and the next upsert on the same
    pull request, with any body that carries the marker, updates that
    same comment and adds none.  This holds as long as the pull request has
    fewer than a hundred comments, the page that is listed. *)
Theorem upsertComment_writes_once (n : Z) (b1 b2 marker : jsstring)
    (st : cstore) :
  unique_ids st ->
  (List.length (thread n st) < 100)%nat ->
  includes b1 marker = true -> includes b2 marker = true ->
  exists r1 st1 r2 st2,
    upsertComment sv n b1 marker st = Done r1 st1 /\
    upsertComment sv n b2 marker st1 = Done r2 st2 /\
    updated r2 = true /\ w_url r2 = w_url r1 /\
    len st2 = len st1 /\
    len st1 = len st + (if updated r1 then 0 else 1) /\
    exists c, In c st2 /\ c_url c = w_url r1 /\ c_body c = Some b2.
Proof.
  intros Hu Hlen Hb1 Hb2.
  assert (Hpage : firstn 100 (thread n st) = thread n st)
    by (apply firstn_all2; lia).
  destruct (find (mentions marker) (thread n st)) as [e|] eqn:Ef.
  - destruct (find_split _ _ _ Ef) as (l1 & l2 & El & He & Hl1).
    set (upd := fun b (c : comment) =>
                  if has_id (c_id e) c then with_body b c else c).
    assert (Hon : forall b c, on (upd b c) = on c)
      by (intros b c; unfold upd; destruct (has_id (c_id e) c); reflexivity).
    assert (Hids : NoDup (List.map c_id (l1 ++ e :: l2))).
    { rewrite <- El. apply nodup_map_filter. exact Hu. }
    assert (Hl1id : forall x, In x l1 -> has_id (c_id e) x = false).
    { intros x Hx. unfold has_id. apply Z.eqb_neq. intros E.
      rewrite map_app in Hids. cbn [List.map] in Hids.
      apply NoDup_remove_2 in Hids. apply Hids. apply in_or_app. left.
      rewrite <- E. apply in_map. exact Hx. }
    assert (E1 : upsertComment sv n b1 marker st
                 = Done {| updated := true; w_url := c_url e |}
                     (List.map (upd b1) st))
      by (apply (upsert_existing n b1 marker st l1 l2 e);
          [rewrite Hpage; exact El|exact Hl1|exact He]).
    assert (Hth1 : firstn 100 (thread n (List.map (upd b1) st))
                   = l1 ++ upd b1 e :: List.map (upd b1) l2).
    { rewrite thread_map by apply Hon.
      rewrite firstn_all2 by (rewrite length_map; lia).
      rewrite El, map_app. cbn [List.map]. f_equal.
      rewrite <- (map_id l1) at 2. apply map_ext_in.
      intros x Hx. unfold upd. rewrite (Hl1id x Hx). reflexivity. }
    assert (Ee : upd b1 e = with_body b1 e)
      by (unfold upd, has_id; rewrite Z.eqb_refl; reflexivity).
    assert (E2 : upsertComment sv n b2 marker (List.map (upd b1) st)
                 = Done {| updated := true; w_url := c_url (upd b1 e) |}
                     (List.map (fun c => if has_id (c_id (upd b1 e)) c
                                         then with_body b2 c else c)
                        (List.map (upd b1) st))).
    { apply (upsert_existing n b2 marker _ l1 (List.map (upd b1) l2));
        [exact Hth1|exact Hl1|].
      rewrite Ee. unfold mentions, with_body. cbn [c_body]. exact Hb1. }
    do 4 eexists. split; [exact E1|]. split; [exact E2|].
    cbn [updated w_url]. split; [reflexivity|].
    split; [rewrite Ee; reflexivity|].
    split; [unfold len; rewrite !length_map; reflexivity|].
    split; [unfold len; rewrite length_map; lia|].
    exists (with_body b2 (upd b1 e)). split.
    + apply in_map_iff. exists (upd b1 e). split.
      * rewrite Ee. unfold has_id, with_body. cbn [c_id].
        rewrite Z.eqb_refl. reflexivity.
      * apply in_map.
        assert (Hin : In e (thread n st))
          by (rewrite El; apply in_or_app; right; left; reflexivity).
        apply filter_In in Hin. apply Hin.
    + rewrite Ee. split; reflexivity.
  - pose proof (find_none_all _ _ Ef) as Hnone.
    set (c := {| on := n; c_id := fresh_id st; c_body := Some b1;
                 c_url := comment_url sv (fresh_id st) |}).
    assert (E1 : upsertComment sv n b1 marker st
                 = Done {| updated := false; w_url := c_url c |} (st ++ [c])).
    { unfold upsertComment, cbind at 1.
      rewrite listComments_obliging, Hpage, Ef.
      unfold cbind, createComment, cbind, reach. rewrite Hsv. reflexivity. }
    assert (Hth1 : firstn 100 (thread n (st ++ [c])) = thread n st ++ [c]).
    { unfold thread. rewrite filter_app. cbn [filter on c].
      rewrite Z.eqb_refl. apply firstn_all2.
      rewrite length_app. cbn [List.length]. unfold thread in Hlen. lia. }
    assert (E2 : upsertComment sv n b2 marker (st ++ [c])
                 = Done {| updated := true; w_url := c_url c |}
                     (List.map (fun x => if has_id (c_id c) x
                                         then with_body b2 x else x)
                        (st ++ [c]))).
    { apply (upsert_existing n b2 marker _ (thread n st) []);
        [exact Hth1|exact Hnone|exact Hb1]. }
    do 4 eexists. split; [exact E1|]. split; [exact E2|].
    cbn [updated w_url]. split; [reflexivity|]. split; [reflexivity|].
    split; [unfold len; rewrite length_map; reflexivity|].
    split; [unfold len; rewrite length_app; cbn [List.length]; lia|].
    exists (with_body b2 c). split; [|split; reflexivity].
    apply in_map_iff. exists c. split.
    + unfold has_id. rewrite Z.eqb_refl. reflexivity.
    + apply in_or_app. right. left. reflexivity.
Qed.

End Obliging.

(** *** Removing the comments of the former actions *)

Lemma only_removes_refl (gone : comment -> Prop) (st : cstore) :
  only_removes gone st st.
Proof. repeat split; auto. Qed.

Lemma only_removes_trans (gone : comment -> Prop) (s1 s2 s3 : cstore) :
  only_removes gone s1 s2 -> only_removes gone s2 s3 ->
  only_removes gone s1 s3.
Proof.
  intros (A1 & B1 & C1) (A2 & B2 & C2). repeat split.
  - auto.
  - intros c Hc. destruct (B1 c Hc) as [H|H]; [|right; exact H].
    apply B2. exact H.
  - auto.
Qed.

Lemma unique_ids_eq (st : cstore) (c e : comment) :
  unique_ids st -> In c st -> In e st -> c_id c = c_id e -> c = e.
Proof.
  unfold unique_ids. induction st as [|a st IH]; intros Hu Hc He E;
    [destruct Hc|].
  cbn [List.map] in Hu. apply NoDup_cons_iff in Hu as [Hnot Hu].
  destruct Hc as [->|Hc], He as [->|He].
  - reflexivity.
  - exfalso. apply Hnot. rewrite E. apply in_map. exact He.
  - exfalso. apply Hnot. rewrite <- E. apply in_map. exact Hc.
  - apply IH; assumption.
Qed.

Lemma for_each_only_removes {A} (gone : comment -> Prop) (l : list A)
    (f : A -> C unit) :
  (forall x, In x l -> forall st, unique_ids st -> exists st',
      f x st = Done tt st' /\ only_removes gone st st') ->
  forall st, unique_ids st -> exists st',
    for_each l f st = Done tt st' /\ only_removes gone st st'.
Proof.
  induction l as [|x l IH]; intros Hf st Hu.
  - exists st. split; [reflexivity|apply only_removes_refl].
  - destruct (Hf x (or_introl eq_refl) st Hu) as (s1 & E1 & R1).
    assert (Hu1 : unique_ids s1) by (apply R1; exact Hu).
    destruct (IH (fun y Hy => Hf y (or_intror Hy)) s1 Hu1) as (s2 & E2 & R2).
    exists s2. split.
    + cbn [for_each]. unfold cbind. rewrite E1. exact E2.
    + eapply only_removes_trans; eassumption.
Qed.

Lemma only_removes_weaken (g1 g2 : comment -> Prop) (st st' : cstore) :
  (forall c, g1 c -> g2 c) -> only_removes g1 st st' ->
  only_removes g2 st st'.
Proof.
  intros Hg (A & B & Cu). repeat split; [exact A| |exact Cu].
  intros c Hc. destruct (B c Hc) as [H|H]; [left; exact H|right; auto].
Qed.

Lemma delete_marked_only_removes (sv : service) (prNumber : Z)
    (marker : jsstring) (st : cstore) :
  unique_ids st ->
  exists st',
    delete_marked sv prNumber marker st = Done tt st' /\
    only_removes (fun c => mentions marker c = true /\ on c = prNumber)
      st st'.
Proof.
  intros Hu.
  unfold delete_marked, attempt, cbind, listComments, cbind, reach.
  destruct (rejects sv (ListComments prNumber));
    [exists st; split; [reflexivity|apply only_removes_refl]|].
  destruct (find (mentions marker) _) as [e|] eqn:Ef;
    [|exists st; split; [reflexivity|apply only_removes_refl]].
  apply find_some in Ef as [Hin He]. apply in_firstn in Hin.
  apply filter_In in Hin as [Hin Hon]. apply Z.eqb_eq in Hon.
  unfold deleteComment, cbind, reach.
  destruct (rejects sv (DeleteComment (c_id e)));
    [exists st; split; [reflexivity|apply only_removes_refl]|].
  rewrite (existsb_has_id st e Hin).
  eexists. split; [reflexivity|]. repeat split.
  - intros c Hc. apply filter_In in Hc. apply Hc.
  - intros c Hc. destruct (has_id (c_id e) c) eqn:Ec.
    + right. unfold has_id in Ec. apply Z.eqb_eq in Ec.
      rewrite (unique_ids_eq st c e Hu Hc Hin Ec). split; assumption.
    + left. apply filter_In. split; [exact Hc|]. rewrite Ec. reflexivity.
  - unfold unique_ids. apply nodup_map_filter.
Qed.

(** Removing the comments of the former actions is safe, whatever the
    service does: the call completes, no comment is added or changed, and
    a comment that is gone carried one of the two old markers and was on
    one of the first three pull requests given. *)
Theorem deleteOldComments_safe (sv : service) (prNumbers : list Z)
    (st : cstore) :
  unique_ids st ->
  exists st',
    deleteOldComments sv prNumbers st = Done tt st' /\
    (forall c, In c st' -> In c st) /\
    (forall c, In c st -> ~ In c st' ->
       old_marked c = true /\ In (on c) (firstn 3 prNumbers)).
Proof.
  intros Hu.
  set (gone := fun c => old_marked c = true /\ In (on c) (slice prNumbers 0 3)).
  assert (H : exists st', deleteOldComments sv prNumbers st = Done tt st' /\
                          only_removes gone st st').
  { unfold deleteOldComments. apply for_each_only_removes; [|exact Hu].
    intros pr Hpr s Hs. apply for_each_only_removes; [|exact Hs].
    intros m Hm s' Hs'.
    destruct (delete_marked_only_removes sv pr m s' Hs') as (s2 & E & R).
    exists s2. split; [exact E|].
    apply (only_removes_weaken _ gone _ _) in R; [exact R|].
    intros c [Hc <-]. split; [|exact Hpr].
    unfold old_marked. apply existsb_exists. exists m. split; assumption. }
  destruct H as (st' & E & A & B & _).
  exists st'. split; [exact E|]. split; [exact A|].
  intros c Hc Hn. destruct (B c Hc) as [H|[H1 H2]]; [contradiction|].
  split; [exact H1|]. rewrite <- (slice_firstn prNumbers 3). exact H2.
Qed.

End CommentFacts.

Section CommentExamples.
Import Text Comments CommentsSpec CommentSamples.

Lemma threads_unique : unique_ids threads.
Proof.
  unfold unique_ids. cbn. repeat constructor; cbn; intuition discriminate.
Qed.

Lemma upsertComment_writes_once_witness :
  exists r1 st1 r2 st2,
    upsertComment plain 7 first_body MARKER threads = Done r1 st1 /\
    upsertComment plain 7 second_body MARKER st1 = Done r2 st2 /\
    updated r2 = true /\ w_url r2 = w_url r1 /\
    len st2 = len st1 /\
    len st1 = len threads + (if updated r1 then 0 else 1) /\
    exists c, In c st2 /\ c_url c = w_url r1 /\ c_body c = Some second_body.
Proof.
  apply (upsertComment_writes_once plain (fun c => eq_refl) 7 first_body
           second_body MARKER threads threads_unique).
  - cbn. lia.
  - vm_compute. reflexivity.
  - vm_compute. reflexivity.
Defined.

Lemma deleteOldComments_safe_witness :
  exists st',
    deleteOldComments read_only [7; 8; 9; 10] threads = Done tt st' /\
    (forall c, In c st' -> In c threads) /\
    (forall c, In c threads -> ~ In c st' ->
       old_marked c = true /\ In (on c) (firstn 3 [7; 8; 9; 10])).
Proof.
  exact (deleteOldComments_safe read_only [7; 8; 9; 10] threads
           threads_unique).
Defined.

End CommentExamples.

(** ** The statistics line of an issue body *)

Section StatsFacts.
Import Regex Text PatternTracker ReplaceSpec StatsSpec.

Lemma search_split (fl : flags) (r : re) (aft bef : list N) (st e : pos) :
  search fl r bef aft = Some (st, e) ->
  exists p,
    aft = p ++ after st /\ before st = rev p ++ bef /\
    match_at fl r st = Some e /\
    forall p1 c p2, p = p1 ++ c :: p2 ->
      match_at fl r {| before := rev p1 ++ bef;
                       after := c :: p2 ++ after st |} = None.
Proof.
  revert bef. induction aft as [|c aft IH]; intros bef H; cbn [search] in H.
  - destruct (match_at fl r {| before := bef; after := [] |}) eqn:E;
      [|discriminate].
    injection H as <- <-. exists []. repeat split; [exact E|].
    intros [|? ?] ? ? Hp; discriminate.
  - destruct (match_at fl r {| before := bef; after := c :: aft |}) eqn:E.
    + injection H as <- <-. exists []. repeat split; [exact E|].
      intros [|? ?] ? ? Hp; discriminate.
    + destruct (IH _ H) as (p & E1 & E2 & E3 & E4).
      exists (c :: p). cbn [app rev]. rewrite <- app_assoc.
      split; [f_equal; exact E1|]. split; [exact E2|]. split; [exact E3|].
      intros [|x p1] c' p2 Hp; cbn [app] in Hp; injection Hp as <- ->.
      * cbn [rev app]. rewrite <- E1. exact E.
      * cbn [rev]. rewrite <- app_assoc. apply (E4 p1 c' p2 eq_refl).
Qed.

Lemma search_found (fl : flags) (r : re) (p X bef : list N) (e : pos) :
  (forall p1 c p2, p = p1 ++ c :: p2 ->
     match_at fl r {| before := rev p1 ++ bef; after := c :: p2 ++ X |}
     = None) ->
  match_at fl r {| before := rev p ++ bef; after := X |} = Some e ->
  search fl r bef (p ++ X)
  = Some ({| before := rev p ++ bef; after := X |}, e).
Proof.
  revert bef. induction p as [|c p IH]; intros bef Hn Hm.
  - cbn [app rev] in *. destruct X; cbn [search]; rewrite Hm; reflexivity.
  - cbn [app search]. pose proof (Hn [] c p eq_refl) as H0.
    cbn [rev app] in H0. rewrite H0.
    cbn [rev]. rewrite <- app_assoc. apply IH.
    + intros p1 c' p2 ->. specialize (Hn (c :: p1) c' p2 eq_refl).
      cbn [rev] in Hn. rewrite <- app_assoc in Hn. exact Hn.
    + cbn [rev] in Hm. rewrite <- app_assoc in Hm. exact Hm.
Qed.

Lemma startsWith_split (w aft : jsstring) :
  startsWith aft w = true -> aft = w ++ skipn (List.length w) aft.
Proof.
  revert aft. induction w as [|c w IH]; intros aft H; [reflexivity|].
  destruct aft as [|x aft]; [discriminate|]. cbn [startsWith] in H.
  apply andb_true_iff in H as [H1 H2]. apply N.eqb_eq in H1. subst x.
  cbn [app List.length skipn]. f_equal. apply IH. exact H2.
Qed.

Lemma firstn_startsWith (w aft : jsstring) :
  startsWith aft w = true -> firstn (List.length w) aft = w.
Proof.
  revert aft. induction w as [|c w IH]; intros aft H; [reflexivity|].
  destruct aft as [|x aft]; [discriminate|]. cbn [startsWith] in H.
  apply andb_true_iff in H as [H1 H2]. apply N.eqb_eq in H1. subst x.
  cbn [List.length firstn]. f_equal. apply IH. exact H2.
Qed.

(** With the flag [m] and without [i], a literal matches where the text
    starts with it. *)
Lemma run_lits_m (w : jsstring) (bef aft : list N) (k : pos -> option pos) :
  run fl_m (lits w) {| before := bef; after := aft |} k =
    if startsWith aft w
    then k {| before := rev w ++ bef; after := skipn (List.length w) aft |}
    else None.
Proof.
  revert bef aft k. induction w as [|c w IH]; intros bef aft k.
  - destruct aft; reflexivity.
  - assert (Hstep : run fl_m (lits (c :: w)) {| before := bef; after := aft |} k
                    = run fl_m (chr c) {| before := bef; after := aft |}
                        (fun s' => run fl_m (lits w) s' k)).
    { unfold lits. cbn [List.map seqs]. destruct w; reflexivity. }
    rewrite Hstep. cbn [run chr after before cls_match fl_m ignoreCase].
    destruct aft as [|x aft]; [reflexivity|].
    cbn [startsWith]. destruct (N.eqb c x) eqn:E; [|reflexivity]. cbn [andb].
    apply N.eqb_eq in E. subst x.
    rewrite IH. cbn [List.length skipn rev].
    rewrite <- app_assoc. reflexivity.
Qed.

Lemma run_cls_step (fl : flags) (p : N -> bool) (bef rest : list N) (d : N)
    (k : pos -> option pos) :
  ignoreCase fl = false ->
  run fl (Cls p) {| before := bef; after := d :: rest |} k
  = if p d then k {| before := d :: bef; after := rest |} else None.
Proof.
  intros H. cbn [run after before]. unfold cls_match. rewrite H. reflexivity.
Qed.

(** The greedy run of a class, when the continuation accepts its end. *)
Lemma star_cls_k (fl : flags) (p : N -> bool) (k : pos -> option pos)
    (e : pos) (n : nat) (bef aft : list N) :
  ignoreCase fl = false ->
  (List.length aft <= n)%nat ->
  k (skip_while p bef aft) = Some e ->
  star (run fl (Cls p)) n {| before := bef; after := aft |} k = Some e.
Proof.
  intros Hfl. revert bef aft. induction n as [|n IH]; intros bef aft Hn Hk.
  - destruct aft; [exact Hk|cbn [List.length] in Hn; lia].
  - cbn [star]. destruct aft as [|d rest].
    + cbn [run after]. exact Hk.
    + rewrite run_cls_step by exact Hfl. cbn [skip_while] in Hk.
      destruct (p d) eqn:Ed; [|exact Hk].
      unfold remaining. cbn [after].
      replace (List.length rest <? List.length (d :: rest))%nat with true
        by (symmetry; apply Nat.ltb_lt; cbn [List.length]; lia).
      rewrite IH; [reflexivity|cbn [List.length] in Hn; lia|exact Hk].
Qed.

Lemma skip_while_line_ends (bef aft : list N) :
  line_ends (after (skip_while not_terminator bef aft)).
Proof.
  destruct (skip_while_spec not_terminator aft bef) as (mid & _ & _ & H).
  unfold line_ends. destruct (after _) as [|c ?]; [exact I|].
  unfold not_terminator in H. apply negb_false_iff in H. exact H.
Qed.

Lemma skip_while_run (p : N -> bool) (x post bef : list N) :
  Forall (fun c => p c = true) x ->
  match post with [] => True | c :: _ => p c = false end ->
  skip_while p bef (x ++ post) = {| before := rev x ++ bef; after := post |}.
Proof.
  intros Hx Hp. revert bef. induction Hx as [|c x Hc Hx IH]; intros bef.
  - cbn [app rev]. destruct post as [|c post]; [reflexivity|].
    cbn [skip_while]. rewrite Hp. reflexivity.
  - cbn [app skip_while rev]. rewrite Hc, IH, <- app_assoc. reflexivity.
Qed.

(** Where [/^\*\*Last 7d:\*\*.+$/m] matches. *)
Lemma match_at_stats (bef aft : list N) :
  match_at fl_m re_stats {| before := bef; after := aft |} =
    if at_bol fl_m {| before := bef; after := aft |}
    then if startsWith aft stats_prefix
         then match skipn 12 aft with
              | c :: rest =>
                  if not_terminator c
                  then Some (skip_while not_terminator
                               (c :: rev stats_prefix ++ bef) rest)
                  else None
              | [] => None
              end
         else None
    else None.
Proof.
  unfold match_at, re_stats. cbn [seqs run].
  destruct (at_bol fl_m _); [|reflexivity].
  unfold lit. rewrite run_lits_m.
  change (startsWith aft (u "**Last 7d:**")) with (startsWith aft stats_prefix).
  destruct (startsWith aft stats_prefix); [|reflexivity].
  change (List.length (u "**Last 7d:**")) with 12%nat.
  change (rev (u "**Last 7d:**")) with (rev stats_prefix).
  unfold plus, any. cbn [run after before cls_match ignoreCase fl_m].
  destruct (skipn 12 aft) as [|c rest]; [reflexivity|].
  fold (not_terminator c). destruct (not_terminator c); [|reflexivity].
  unfold remaining. cbn [after].
  apply (star_cls_k fl_m not_terminator _ _ _ _ _ eq_refl); [lia|].
  pose proof (skip_while_line_ends (c :: rev stats_prefix ++ bef) rest) as H.
  unfold at_eol. unfold line_ends in H.
  destruct (after _); [reflexivity|]. rewrite H. reflexivity.
Qed.

(** A match is a whole line that starts with the prefix. *)
Lemma match_at_stats_some (bef aft : list N) (e : pos) :
  match_at fl_m re_stats {| before := bef; after := aft |} = Some e ->
  at_bol fl_m {| before := bef; after := aft |} = true /\
  exists x post,
    x <> [] /\ Forall (fun c => not_terminator c = true) x /\
    aft = stats_prefix ++ x ++ post /\ line_ends post /\
    e = {| before := rev (stats_prefix ++ x) ++ bef; after := post |}.
Proof.
  rewrite match_at_stats. destruct (at_bol fl_m _); [|discriminate].
  destruct (startsWith aft stats_prefix) eqn:Es; [|discriminate].
  destruct (skipn 12 aft) as [|c rest] eqn:Ek; [discriminate|].
  destruct (not_terminator c) eqn:Ec; [|discriminate].
  intros H. injection H as <-. split; [reflexivity|].
  destruct (skip_while_spec not_terminator rest (c :: rev stats_prefix ++ bef))
    as (mid & E1 & E2 & E3).
  pose proof (skip_while_line_ends (c :: rev stats_prefix ++ bef) rest) as Hl.
  exists (c :: mid), (after (skip_while not_terminator
                              (c :: rev stats_prefix ++ bef) rest)).
  split; [discriminate|]. split; [constructor; assumption|].
  split.
  - rewrite (startsWith_split _ _ Es).
    change (List.length stats_prefix) with 12%nat. rewrite Ek.
    cbn [app]. do 2 f_equal. exact E1.
  - split; [exact Hl|].
    rewrite E1 at 1.
    rewrite skip_while_run; [|exact E2|exact E3].
    cbn [after]. rewrite rev_app_distr. cbn [rev].
    rewrite <- !app_assoc. reflexivity.
Qed.

Lemma match_at_stats_line (bef x post : list N) :
  at_bol fl_m {| before := bef; after := [] |} = true ->
  x <> [] -> Forall (fun c => not_terminator c = true) x ->
  line_ends post ->
  match_at fl_m re_stats {| before := bef; after := stats_prefix ++ x ++ post |}
  = Some {| before := rev (stats_prefix ++ x) ++ bef; after := post |}.
Proof.
  intros Hb Hx Hf Hp. rewrite match_at_stats.
  replace (at_bol fl_m {| before := bef; after := stats_prefix ++ x ++ post |})
    with true by (rewrite <- Hb; reflexivity).
  rewrite startsWith_app.
  replace (skipn 12 (stats_prefix ++ x ++ post)) with (x ++ post)
    by reflexivity.
  destruct x as [|c x]; [contradiction|]. cbn [app].
  inversion Hf as [|? ? Hc Hf']. subst. rewrite Hc.
  rewrite skip_while_run; [|exact Hf'|].
  - rewrite rev_app_distr. cbn [rev]. rewrite <- !app_assoc. reflexivity.
  - unfold line_ends in Hp. destruct post; [exact I|].
    unfold not_terminator. rewrite Hp. reflexivity.
Qed.

Lemma run_split (y post l rest : list N) (t : N) :
  Forall (fun c => not_terminator c = true) y ->
  is_line_terminator t = true ->
  l ++ t :: rest = y ++ post ->
  exists l', l = y ++ l' /\ post = l' ++ t :: rest.
Proof.
  intros Hy Ht. revert l. induction Hy as [|c y Hc Hy IH]; intros l E.
  - exists l. split; [reflexivity|]. symmetry. exact E.
  - destruct l as [|d l]; cbn [app] in E.
    + injection E as -> _. unfold not_terminator in Hc. rewrite Ht in Hc.
      discriminate.
    + injection E as -> E. destruct (IH l E) as (l' & -> & ->).
      exists l'. split; reflexivity.
Qed.

Lemma stats_prefix_plain :
  Forall (fun c => not_terminator c = true) stats_prefix.
Proof. repeat constructor. Qed.

(** Whether a line is a statistics line does not depend on what follows
    the line. *)
Lemma match_at_stats_local (bef l rest rest' : list N) (t : N) :
  is_line_terminator t = true ->
  match_at fl_m re_stats {| before := bef; after := l ++ t :: rest |} = None ->
  match_at fl_m re_stats {| before := bef; after := l ++ t :: rest' |} = None.
Proof.
  intros Ht Hn.
  destruct (match_at fl_m re_stats {| before := bef; after := l ++ t :: rest' |})
    as [e|] eqn:E; [|reflexivity].
  exfalso. apply match_at_stats_some in E
    as (Hb & x & post & Hx & Hf & Ea & Hp & _).
  rewrite app_assoc in Ea.
  destruct (run_split (stats_prefix ++ x) post l rest' t) as (l' & -> & ->);
    [apply Forall_app; split; [exact stats_prefix_plain|exact Hf]
    |exact Ht|exact Ea|].
  rewrite <- !app_assoc in Hn.
  rewrite (match_at_stats_line bef x (l' ++ t :: rest)) in Hn;
    [discriminate|exact Hb|exact Hx|exact Hf|].
  unfold line_ends in *. destruct l'; [exact Ht|exact Hp].
Qed.

(** Where [/^## Occurrences/m] matches. *)
Lemma match_at_heading (bef aft : list N) :
  match_at fl_m re_heading {| before := bef; after := aft |} =
    if at_bol fl_m {| before := bef; after := aft |}
    then if startsWith aft heading
         then Some {| before := rev heading ++ bef; after := skipn 14 aft |}
         else None
    else None.
Proof.
  unfold match_at, re_heading. cbn [seqs run].
  destruct (at_bol fl_m _); [|reflexivity].
  unfold lit. rewrite run_lits_m. reflexivity.
Qed.

(** A position at the start of a line, not the first: the text before it
    ends with a line terminator. *)
Lemma at_bol_last (p p1 p2 X : list N) (c : N) :
  at_bol fl_m {| before := rev p ++ []; after := X |} = true ->
  p = p1 ++ c :: p2 ->
  exists l t, c :: p2 = l ++ [t] /\ is_line_terminator t = true.
Proof.
  intros Hb ->. destruct (exists_last (l := c :: p2)) as (l & t & E);
    [discriminate|].
  exists l, t. split; [exact E|].
  rewrite E, app_assoc, rev_app_distr in Hb. cbn [rev app] in Hb.
  unfold at_bol in Hb. cbn [before app] in Hb. exact Hb.
Qed.

Lemma digits_of_digits (fuel : nat) :
  forall n acc, Forall (fun c => is_digit c = true) acc ->
    Forall (fun c => is_digit c = true) (digits_of fuel n acc).
Proof.
  induction fuel as [|fuel IH]; intros n acc Ha; [exact Ha|].
  cbn [digits_of].
  assert (Hd : is_digit (Z.to_N (48 + n mod 10)) = true).
  { pose proof (Z.mod_pos_bound n 10 ltac:(lia)) as Hm.
    unfold is_digit, in_range. apply andb_true_iff.
    split; apply N.leb_le; lia. }
  destruct (n <? 10); [constructor; assumption|].
  apply IH. constructor; assumption.
Qed.

(** The decimal form of an integer is made of digits and a sign. *)
Lemma dec_chars (n : Z) :
  Forall (fun c => c = 45%N \/ is_digit c = true) (dec n).
Proof.
  assert (H : forall l, Forall (fun c => is_digit c = true) l ->
                        Forall (fun c => c = 45%N \/ is_digit c = true) l)
    by (intros l Hl; eapply Forall_impl; [|exact Hl]; intros; right; assumption).
  unfold dec. destruct (n <? 0).
  - constructor; [left; reflexivity|]. apply H, digits_of_digits. constructor.
  - apply H, digits_of_digits. constructor.
Qed.

Lemma stats_line_shape (stats : windowStats) :
  exists x,
    stats_line stats = stats_prefix ++ x /\ x <> [] /\
    Forall (fun c => not_terminator c = true) x /\
    ~ In 36%N (stats_line stats).
Proof.
  assert (Hd : forall n, Forall (fun c => not_terminator c = true /\ c <> 36%N)
                           (dec n)).
  { intros n. eapply Forall_impl; [|apply dec_chars].
    intros c [->|Hc]; [split; [reflexivity|discriminate]|].
    unfold is_digit, in_range in Hc. apply andb_true_iff in Hc as [H1 H2].
    apply N.leb_le in H1, H2. split.
    - unfold not_terminator, is_line_terminator.
      repeat (rewrite (proj2 (N.eqb_neq _ _)) by lia). reflexivity.
    - lia. }
  assert (Hall : Forall (fun c => not_terminator c = true /\ c <> 36%N)
                   (stats_line stats)).
  { unfold stats_line. repeat (apply Forall_app; split); try apply Hd;
      repeat constructor; discriminate. }
  exists (u " " ++ dec (last7 stats) ++ u " | **Last 14d:** "
          ++ dec (last14 stats)).
  split; [reflexivity|]. split; [discriminate|]. split.
  - assert (E : stats_line stats
                = stats_prefix ++ u " " ++ dec (last7 stats)
                  ++ u " | **Last 14d:** " ++ dec (last14 stats))
      by reflexivity.
    rewrite E in Hall. apply Forall_app in Hall as [_ Hall].
    eapply Forall_impl; [|exact Hall]. intros c [Hc _]. exact Hc.
  - intros Hin. rewrite Forall_forall in Hall.
    destruct (Hall _ Hin) as [_ Hc]. apply Hc. reflexivity.
Qed.

(** What [appendStatsLine] returns, by what the body holds. *)
Lemma appendStatsLine_replaces (b : jsstring) (stats : windowStats)
    (st e : pos) :
  search fl_m re_stats [] b = Some (st, e) ->
  appendStatsLine b stats = rev (before st) ++ stats_line stats ++ after e.
Proof.
  intros H. unfold appendStatsLine, test, replace. rewrite H.
  fold (stats_line stats).
  destruct (stats_line_shape stats) as (_ & _ & _ & _ & Hd).
  rewrite expand_plain by exact Hd. reflexivity.
Qed.

Lemma appendStatsLine_inserts (b : jsstring) (stats : windowStats)
    (st e : pos) :
  search fl_m re_stats [] b = None ->
  search fl_m re_heading [] b = Some (st, e) ->
  appendStatsLine b stats
  = rev (before st) ++ stats_line stats ++ nl ++ nl ++ heading ++ after e.
Proof.
  intros Hn H. unfold appendStatsLine, test, replace. rewrite Hn, H.
  fold (stats_line stats).
  destruct (stats_line_shape stats) as (_ & _ & _ & _ & Hd).
  rewrite expand_plain; [rewrite <- !app_assoc; reflexivity|].
  intros Hin. apply in_app_or in Hin as [Hin|Hin]; [exact (Hd Hin)|].
  cbn in Hin. repeat (destruct Hin as [Hin|Hin]; [discriminate|]). exact Hin.
Qed.

Lemma appendStatsLine_keeps (b : jsstring) (stats : windowStats) :
  search fl_m re_stats [] b = None ->
  search fl_m re_heading [] b = None ->
  appendStatsLine b stats = b.
Proof.
  intros Hn H. unfold appendStatsLine, test, replace. rewrite Hn, H.
  reflexivity.
Qed.

(** A statistics line put where a line starts is the first one of the
    body when none stands before it. *)
Lemma search_stats_line (pre post more : list N) (stats : windowStats) :
  (forall p1 c p2, pre = p1 ++ c :: p2 ->
     match_at fl_m re_stats {| before := rev p1 ++ [];
                               after := c :: p2 ++ more |} = None) ->
  at_bol fl_m {| before := rev pre ++ []; after := more |} = true ->
  line_ends post ->
  search fl_m re_stats [] (pre ++ stats_line stats ++ post)
  = Some ({| before := rev pre ++ []; after := stats_line stats ++ post |},
          {| before := rev (stats_line stats) ++ rev pre ++ [];
             after := post |}).
Proof.
  intros Hn Hb Hp.
  destruct (stats_line_shape stats) as (x & E & Hx & Hf & _).
  apply search_found.
  - intros p1 c p2 Ep.
    destruct (at_bol_last pre p1 p2 more c Hb Ep) as (l & t & El & Ht).
    specialize (Hn p1 c p2 Ep).
    change (c :: p2 ++ more) with ((c :: p2) ++ more) in Hn.
    change (c :: p2 ++ stats_line stats ++ post)
      with ((c :: p2) ++ stats_line stats ++ post).
    rewrite El, <- app_assoc in Hn |- *. cbn [app] in Hn |- *.
    exact (match_at_stats_local _ l _ _ t Ht Hn).
  - rewrite E, <- app_assoc. apply match_at_stats_line; assumption.
Qed.

(** The statistics line is replaced, never added a second time: writing
    the statistics into a body that already went through
    [appendStatsLine] gives the body that writing them into the original
    would give. *)
Theorem appendStatsLine_overwrites (b : jsstring)
    (s1 s2 : windowStats) :
  appendStatsLine (appendStatsLine b s1) s2
  = appendStatsLine b s2.
Proof.
  destruct (search fl_m re_stats [] b)
    as [[st e]|] eqn:Es.
  - rewrite !(appendStatsLine_replaces b _ st e Es).
    destruct (search_split _ _ _ _ _ _ Es) as (pre & Eb & Ebef & Em & Hn).
    destruct st as [sb sa]. cbn [before after] in *. subst sb.
    apply match_at_stats_some in Em as (Hb & x & post & _ & _ & Ea & Hp & ->).
    cbn [after]. rewrite rev_app_distr, rev_involutive. cbn [rev app].
    rewrite (appendStatsLine_replaces _ s2 _ _
               (search_stats_line pre post sa s1 Hn Hb Hp)).
    cbn [before after].
    rewrite app_nil_r, rev_involutive. reflexivity.
  - destruct (search fl_m re_heading [] b)
      as [[st e]|] eqn:Eh.
    + destruct (search_split _ _ _ _ _ _ Eh) as (pre & Eb & Ebef & Em & _).
      destruct st as [sb sa]. cbn [before after] in Eb, Ebef, Em. subst sb.
      rewrite match_at_heading in Em.
      destruct (at_bol _ _) eqn:Hb; [|discriminate].
      destruct (startsWith sa heading); [|discriminate]. clear Em.
      rewrite (appendStatsLine_inserts b s1 _ e Es Eh),
        (appendStatsLine_inserts b s2 _ e Es Eh).
      cbn [before]. rewrite app_nil_r, rev_involutive.
      assert (Hn : forall p1 c p2, pre = p1 ++ c :: p2 ->
                match_at fl_m re_stats
                  {| before := rev p1 ++ [];
                     after := c :: p2 ++ sa |} = None).
      { intros p1 c p2 ->. apply (search_none_inv _ _ _ _ Es).
        rewrite Eb, <- app_assoc. reflexivity. }
      rewrite (appendStatsLine_replaces _ s2 _ _
                 (search_stats_line pre (nl ++ nl ++ heading ++ after e) sa s1
                    Hn Hb eq_refl)).
      cbn [before after].
      rewrite app_nil_r, rev_involutive. reflexivity.
    + rewrite !(appendStatsLine_keeps b _ Es Eh). reflexivity.
Qed.

End StatsFacts.

(** ** Reading back what an upsert wrote *)

Section ExportFacts.
Import Regex Groups Text Utils Store Service PatternTracker PatternExport.
Import Dates Api Severity ReplaceSpec StoreSpec UpsertSpec CreateSpec ExportSpec.

Lemma skipn_exact {A} (w X : list A) : skipn (List.length w) (w ++ X) = X.
Proof. induction w as [|c w IH]; [reflexivity|exact IH]. Qed.

Lemma firstn_exact {A} (w X : list A) : firstn (List.length w) (w ++ X) = w.
Proof.
  induction w as [|c w IH]; [reflexivity|].
  cbn [List.length app firstn]. rewrite IH. reflexivity.
Qed.

(** A literal at the start of the text. *)
Lemma run_lits_here (w X bef : list N) (k : pos -> option pos) :
  run fl_none (lits w) {| before := bef; after := w ++ X |} k
  = k {| before := rev w ++ bef; after := X |}.
Proof.
  rewrite run_lits_exact, startsWith_app, firstn_exact, skipn_exact.
  reflexivity.
Qed.

Lemma run_lits_not (w aft bef : list N) (k : pos -> option pos) :
  startsWith aft w = false ->
  run fl_none (lits w) {| before := bef; after := aft |} k = None.
Proof. intros H. rewrite run_lits_exact, H. reflexivity. Qed.

(** *** The hash in the title *)

Lemma match_hash (h rest : jsstring) :
  h <> [] -> Forall (fun c => is_lower_hex c = true) h ->
  read_hash (u "[CI Pattern " ++ h ++ u "] " ++ rest) = h.
Proof.
  intros Hne Hh. destruct h as [|c h]; [contradiction|].
  inversion Hh as [|? ? Hc Hh']. subst.
  assert (Hstop : match u "] " ++ rest with
                  | [] => True
                  | x :: _ => is_lower_hex x = false
                  end) by reflexivity.
  set (s1 := {| before := rev (u "[CI Pattern ") ++ [];
                after := (c :: h) ++ u "] " ++ rest |}).
  set (s2 := {| before := rev h ++ c :: before s1; after := u "] " ++ rest |}).
  assert (Hgrp : forall k e, k s2 = Some e ->
            run fl_none (plus (Cls is_lower_hex)) s1 k = Some e).
  { intros k e Hk. unfold plus, s1.
    cbn [run after before app cls_match ignoreCase fl_none]. rewrite Hc.
    unfold remaining. cbn [after].
    apply (star_cls_k fl_none is_lower_hex _ _ _ _ _ eq_refl); [lia|].
    rewrite skip_while_run; [exact Hk|exact Hh'|exact Hstop]. }
  assert (Hpost : run fl_none (lit "]") s2 (fun e => Some e)
                  = Some {| before := rev (u "]") ++ before s2;
                            after := u " " ++ rest |}).
  { unfold lit, s2. apply (run_lits_here (u "]") (u " " ++ rest)). }
  assert (Hstart : group_start fl_none hashPattern
                     {| before := []; after := u "[CI Pattern " ++ (c :: h)
                                                ++ u "] " ++ rest |}
                   = Some s1).
  { unfold group_start, hashPattern. cbn [g_pre g_grp g_post]. unfold lit.
    rewrite run_lits_here. fold s1. cbn [run].
    erewrite Hgrp; [reflexivity|]. exact Hpost. }
  assert (Hend : group_end fl_none hashPattern s1 = Some s2).
  { unfold group_end, hashPattern. cbn [g_pre g_grp g_post].
    apply Hgrp. rewrite Hpost. reflexivity. }
  unfold read_hash, match_group.
  assert (E : match_group_from fl_none hashPattern []
                (u "[CI Pattern " ++ (c :: h) ++ u "] " ++ rest)
              = Some (between s1 s2)).
  { change (u "[CI Pattern " ++ (c :: h) ++ u "] " ++ rest)
      with (91%N :: skipn 1 (u "[CI Pattern ") ++ (c :: h) ++ u "] " ++ rest).
    cbn [match_group_from].
    change (91%N :: skipn 1 (u "[CI Pattern ") ++ (c :: h) ++ u "] " ++ rest)
      with (u "[CI Pattern " ++ (c :: h) ++ u "] " ++ rest).
    rewrite Hstart, Hend. reflexivity. }
  rewrite E. apply between_prefix_of. reflexivity.
Qed.

(** *** The signature in the body *)

(** The lazy iteration over any code unit stops at the first position the
    continuation accepts. *)
Lemma lazy_star_first (k : pos -> option pos) (Y : list N) (e : pos)
    (x : list N) :
  forall (bef : list N) (fuel : nat),
    (List.length x <= fuel)%nat ->
    (forall x1 c x2, x = x1 ++ c :: x2 ->
       k {| before := rev x1 ++ bef; after := c :: x2 ++ Y |} = None) ->
    k {| before := rev x ++ bef; after := Y |} = Some e ->
    lazy_star (run fl_none (Cls (fun _ => true))) fuel
      {| before := bef; after := x ++ Y |} k = Some e.
Proof.
  induction x as [|c x IH]; intros bef fuel Hf Hn Hk.
  - cbn [app rev] in *. destruct fuel; cbn [lazy_star]; rewrite Hk; reflexivity.
  - destruct fuel as [|fuel]; [cbn [List.length] in Hf; lia|].
    cbn [lazy_star app]. pose proof (Hn [] c x eq_refl) as H0.
    cbn [rev app] in H0. rewrite H0.
    rewrite run_cls_step by reflexivity.
    unfold remaining. cbn [after].
    replace (List.length (x ++ Y) <? List.length (c :: x ++ Y))%nat with true
      by (symmetry; apply Nat.ltb_lt; cbn [List.length]; lia).
    apply IH.
    + cbn [List.length] in Hf. lia.
    + intros x1 c' x2 ->. specialize (Hn (c :: x1) c' x2 eq_refl).
      cbn [rev] in Hn. rewrite <- app_assoc in Hn. exact Hn.
    + cbn [rev] in Hk. rewrite <- app_assoc in Hk. exact Hk.
Qed.

(** The closing line cannot start inside a text that does not hold it,
    whatever follows. *)
Lemma closing_not_inside (sig tail x1 x2 : jsstring) (c : N) :
  includes sig closing = false ->
  sig = x1 ++ c :: x2 ->
  startsWith (c :: x2 ++ closing ++ tail) closing = false.
Proof.
  intros Hi ->.
  pose proof (includes_false_at x1 (c :: x2) closing Hi) as Hs.
  unfold closing, nl in *.
  change (u "```") with [96%N; 96%N; 96%N] in *.
  destruct x2 as [|d [|e [|f x3]]]; cbn [app startsWith] in *.
  - destruct (N.eqb 10 c); reflexivity.
  - destruct (N.eqb 10 c); [|reflexivity].
    destruct (N.eqb 96 d); reflexivity.
  - destruct (N.eqb 10 c); [|reflexivity].
    destruct (N.eqb 96 d); [|reflexivity].
    destruct (N.eqb 96 e); reflexivity.
  - destruct x3; cbn [app startsWith] in *; exact Hs.
Qed.

(** No match of the pattern starts where the text does not start with
    its first code unit. *)
Lemma match_lazy_skip (g : lazy_grouped) (f : N) (w p X : list N) :
  l_pre g = lits (f :: w) ->
  Forall (fun c => c <> f) p ->
  forall bef,
    match_lazy_from fl_none g bef (p ++ X)
    = match_lazy_from fl_none g (rev p ++ bef) X.
Proof.
  intros Hg Hp. induction Hp as [|c p Hc Hp IH]; intros bef; [reflexivity|].
  cbn [app match_lazy_from]. unfold lazy_start at 1. rewrite Hg.
  rewrite run_lits_not.
  - rewrite IH. cbn [rev]. rewrite <- app_assoc. reflexivity.
  - cbn [startsWith]. rewrite (proj2 (N.eqb_neq f c)) by congruence.
    reflexivity.
Qed.

Lemma match_signature (sig tail title : jsstring) :
  includes sig closing = false ->
  read_signature
    (ISSUE_MARKER ++ nl ++ nl ++ u "**Signature:**" ++ nl ++ u "```" ++ nl
     ++ sig ++ nl ++ u "```" ++ tail) title
  = sig.
Proof.
  intros Hi. unfold read_signature, match_lazy.
  set (pre := u "**Signature:**" ++ nl ++ u "```" ++ nl).
  assert (Eb : ISSUE_MARKER ++ nl ++ nl ++ u "**Signature:**" ++ nl ++ u "```"
               ++ nl ++ sig ++ nl ++ u "```" ++ tail
               = (ISSUE_MARKER ++ nl ++ nl) ++ pre ++ sig ++ closing ++ tail)
    by reflexivity.
  rewrite Eb.
  rewrite (match_lazy_skip sigPattern 42 (skipn 1 pre));
    [|reflexivity|repeat constructor; discriminate].
  set (bef := rev (ISSUE_MARKER ++ nl ++ nl) ++ []).
  set (s1 := {| before := rev pre ++ bef; after := sig ++ closing ++ tail |}).
  set (s2 := {| before := rev sig ++ before s1; after := closing ++ tail |}).
  assert (Hin : forall x1 c x2, sig = x1 ++ c :: x2 ->
            run fl_none (l_post sigPattern)
              {| before := rev x1 ++ before s1;
                 after := c :: x2 ++ closing ++ tail |} (fun e => Some e)
            = None).
  { intros x1 c x2 E. cbn [l_post sigPattern]. apply run_lits_not.
    exact (closing_not_inside sig tail x1 x2 c Hi E). }
  assert (Hpost : run fl_none (l_post sigPattern) s2 (fun e => Some e)
                  = Some {| before := rev closing ++ before s2;
                            after := tail |}).
  { cbn [l_post sigPattern]. unfold s2.
    apply (run_lits_here closing tail). }
  assert (Hstart : lazy_start fl_none sigPattern
                     {| before := bef; after := pre ++ sig ++ closing ++ tail |}
                   = Some s1).
  { unfold lazy_start. cbn [l_pre sigPattern]. fold pre.
    rewrite run_lits_here. fold s1.
    cbn [l_head sigPattern run]. unfold s1 at 2. cbn [l_body sigPattern].
    erewrite lazy_star_first; [reflexivity| | |exact Hpost].
    - unfold remaining, s1. cbn [after]. rewrite length_app. lia.
    - exact Hin. }
  assert (Hend : lazy_end fl_none sigPattern s1 = Some s2).
  { unfold lazy_end. cbn [l_head sigPattern run]. unfold s1 at 2.
    cbn [l_body sigPattern].
    apply lazy_star_first.
    - unfold remaining, s1. cbn [after]. rewrite length_app. lia.
    - intros x1 c x2 E. unfold accepts. pose proof (Hin x1 c x2 E) as H0.
      unfold s1 in H0. cbn [before] in H0. rewrite H0. reflexivity.
    - unfold accepts. pose proof Hpost as H0. unfold s2, s1 in H0.
      cbn [before] in H0. rewrite H0. reflexivity. }
  assert (E : match_lazy_from fl_none sigPattern bef
                (pre ++ sig ++ closing ++ tail)
              = Some (between s1 s2)).
  { change (pre ++ sig ++ closing ++ tail)
      with (42%N :: skipn 1 pre ++ sig ++ closing ++ tail).
    cbn [match_lazy_from].
    change (42%N :: skipn 1 pre ++ sig ++ closing ++ tail)
      with (pre ++ sig ++ closing ++ tail).
    rewrite Hstart, Hend. reflexivity. }
  rewrite E. apply between_prefix_of. reflexivity.
Qed.

(** *** The severity among the labels *)

Lemma to_string_truthy (v : value) : truthy v = true -> to_string v <> [].
Proof.
  destruct v as [|s| |]; cbn [truthy to_string]; try discriminate.
  destruct s; discriminate.
Qed.

Lemma classifySeverity_text (r : jsstring) (n : Z) :
  to_string (classifySeverity r n) <> [].
Proof.
  unfold classifySeverity, or_else. destruct (n >=? 5); [discriminate|].
  destruct (truthy (get BASE_SEVERITY r)) eqn:E;
    [apply to_string_truthy; exact E|discriminate].
Qed.

Lemma remove_first_prefix (pat s : jsstring) :
  remove_first pat (pat ++ s) = s.
Proof.
  destruct (pat ++ s) eqn:E; cbn [remove_first]; rewrite <- E;
    rewrite startsWith_app; apply skipn_exact.
Qed.

Lemma read_severity_created (label sev : jsstring) :
  startsWith label (u "severity:") = false -> sev <> [] ->
  read_severity [label; u "severity:" ++ sev] = sev.
Proof.
  intros Hl Hs. unfold read_severity. cbn [find]. rewrite Hl.
  rewrite startsWith_app, remove_first_prefix.
  destruct sev; [contradiction|reflexivity].
Qed.

(** *** The last occurrence *)

Lemma latest_valid (rest : list date) :
  forall first, first <> None -> Forall (fun t => t <> None) rest ->
    latest first rest <> None.
Proof.
  unfold latest. induction rest as [|b rest IH]; intros first Hf Hr;
    [exact Hf|].
  inversion Hr as [|? ? Hb Hr']. subst. cbn [fold_left].
  apply IH; [|exact Hr']. destruct (gt first b); assumption.
Qed.

Lemma pattern_of_resolves (item fetched : issue) :
  Forall (fun t => t <> None)
    (parseOccurrenceTimestamps
       (match body fetched with Some b => b | None => [] end)) ->
  exists p, pattern_of item fetched = Resolved p.
Proof.
  intros H. unfold pattern_of.
  destruct (parseOccurrenceTimestamps _) as [|t rest]; [eexists; reflexivity|].
  inversion H as [|? ? Ht Hr]. subst.
  pose proof (latest_valid rest t Ht Hr) as Hl.
  destruct (latest t rest) as [v|]; [|contradiction].
  cbn [toISOString]. destruct (civil_from_days _) as [[y m] d].
  eexists. reflexivity.
Qed.

Lemma pattern_of_fields (item fetched : issue) (p : pattern) :
  pattern_of item fetched = Resolved p ->
  p_issueNumber p = number item /\
  p_hash p = read_hash (title item) /\
  p_signature p
  = read_signature (match body fetched with Some b => b | None => [] end)
      (title item) /\
  p_severity p = read_severity (labels item) /\
  p_state p = state item /\ p_url p = html_url item.
Proof.
  unfold pattern_of.
  destruct (parseOccurrenceTimestamps _) as [|t rest].
  - intros H. injection H as <-. repeat split.
  - destruct (toISOString (latest t rest)); [|discriminate].
    intros H. injection H as <-. repeat split.
Qed.

End ExportFacts.

Section ExportRoundTrip.
Import Regex Groups Text Utils Store Service PatternTracker PatternExport.
Import Dates Api Severity ReplaceSpec StoreSpec UpsertSpec CreateSpec ExportSpec.

Variable ok : octokit.
Hypothesis Hok : healthy ok.

(** What an upsert writes when it creates a record is what the export
    reads from it: the hash in the title (its first eight characters,
    hexadecimal digits in lower case), the signature in the body (which
    must not hold the line that closes its block), the severity among the
    labels (the tracking label must not look like a severity label), the
    number, the state and the address.  The export of the record fails
    only on an occurrence line with an invalid date. *)
Theorem export_reads_created (a : upsertArgs) (w : world) :
  well_formed w ->
  filter (issue_matches ok (QTitle None (a_hash a) (a_label a))) (issues w)
  = [] ->
  slice (a_hash a) 0 8 <> [] ->
  Forall (fun c => is_lower_hex c = true) (slice (a_hash a) 0 8) ->
  includes (a_signature a) closing = false ->
  startsWith (a_label a) (u "severity:") = false ->
  exists res w1 i,
    run_upsert ok a w = Ok res w1 /\
    find_issue (issueNumber res) (issues w1) = Some i /\
    (forall p, pattern_of i i = Resolved p ->
       p_issueNumber p = issueNumber res /\
       p_hash p = slice (a_hash a) 0 8 /\
       p_signature p = a_signature a /\
       p_severity p = to_string (severity res) /\
       p_state p = Open /\ p_url p = url res) /\
    (Forall (fun t => t <> None)
       (parseOccurrenceTimestamps
          (match body i with Some b => b | None => [] end)) ->
     exists p, pattern_of i i = Resolved p).
Proof.
  intros Hwf Hnone Hne Hhex Hsig Hlabel.
  destruct (upsert_outcome ok Hok a w Hwf) as [(item & Hin & Hm & _)|[_ E]].
  { exfalso.
    assert (Hx : In item (filter (issue_matches ok
                                    (QTitle None (a_hash a) (a_label a)))
                            (issues w)))
      by (apply filter_In; split; assumption).
    rewrite Hnone in Hx. destruct Hx. }
  set (new := created_issue ok a w) in *.
  exists (created_result ok a w), (with_issues w (issues w ++ [new])), new.
  split; [exact E|]. split.
  - cbn [issueNumber created_result with_issues issues].
    rewrite find_issue_app.
    destruct (find_issue (fresh_number (issues w)) (issues w)) as [x|] eqn:Ex.
    + exfalso. apply find_some in Ex as [Hx En]. apply Z.eqb_eq in En.
      pose proof (fresh_number_above (issues w) x Hx). lia.
    + unfold find_issue, new. cbn [find number created_issue].
      rewrite Z.eqb_refl. reflexivity.
  - split; [|apply pattern_of_resolves].
    intros p Hp. apply pattern_of_fields in Hp
      as (E1 & E2 & E3 & E4 & E5 & E6).
    rewrite E1, E2, E3, E4, E5, E6. unfold new.
    cbn [number title body labels state html_url created_issue
         issueNumber severity url created_result].
    split; [reflexivity|]. split.
    { unfold created_title. apply match_hash; assumption. }
    split.
    { unfold created_header. rewrite <- !app_assoc.
      apply (match_signature (a_signature a)). exact Hsig. }
    split; [|split; reflexivity].
    apply read_severity_created; [exact Hlabel|apply classifySeverity_text].
Qed.

End ExportRoundTrip.

Section ExportExamples.
Import Regex Groups Text Utils Store Service PatternTracker PatternExport.
Import Dates Api Severity StoreSpec UpsertSpec CreateSpec ExportSpec.

Lemma export_reads_created_witness :
  exists res w1 i,
    run_upsert Scenarios.service
      (Scenarios.args_a "2026-11-02T10:00:00.000Z" 0) Scenarios.empty_world
    = Ok res w1 /\
    find_issue (issueNumber res) (issues w1) = Some i /\
    (forall p, pattern_of i i = Resolved p ->
       p_issueNumber p = issueNumber res /\
       p_hash p = u "3f2a9c0d" /\
       p_signature p = Scenarios.sig_a /\
       p_severity p = to_string (severity res) /\
       p_state p = Open /\ p_url p = url res) /\
    (Forall (fun t => t <> None)
       (parseOccurrenceTimestamps
          (match body i with Some b => b | None => [] end)) ->
     exists p, pattern_of i i = Resolved p).
Proof.
  apply (export_reads_created Scenarios.service service_healthy
           (Scenarios.args_a "2026-11-02T10:00:00.000Z" 0)
           Scenarios.empty_world).
  - unfold well_formed. cbn. constructor.
  - reflexivity.
  - vm_compute. discriminate.
  - vm_compute. repeat constructor.
  - vm_compute. reflexivity.
  - vm_compute. reflexivity.
Defined.

End ExportExamples.

(** ** Median fix times *)

Section FixTimeFacts.
Import Text Service FixTime FixTimeSpec.

Lemma own_times_set (k k' : jsstring) (v : list Z) (ft : fixTimes) :
  own_times k' (set_times k v ft)
  = if streq k' k then Some v else own_times k' ft.
Proof.
  induction ft as [|[k0 v0] ft IH]; cbn [set_times own_times].
  - destruct (streq k' k); reflexivity.
  - destruct (streq k k0) eqn:E0.
    + apply streq_true in E0. subst k0. cbn [own_times].
      destruct (streq k' k); reflexivity.
    + cbn [own_times]. destruct (streq k' k0) eqn:E1; [|exact IH].
      apply streq_true in E1. subst k0.
      destruct (streq k' k) eqn:E2; [|reflexivity].
      apply streq_true in E2. subst k'. rewrite streq_refl in E0.
      discriminate.
Qed.

Lemma keys_set_times (k : jsstring) (v : list Z) (ft : fixTimes) :
  List.map fst (set_times k v ft)
  = match own_times k ft with
    | Some _ => List.map fst ft
    | None => List.map fst ft ++ [k]
    end.
Proof.
  induction ft as [|[k0 v0] ft IH]; cbn [set_times own_times List.map app];
    [reflexivity|].
  destruct (streq k k0) eqn:E0; cbn [List.map fst]; [reflexivity|].
  rewrite IH. destruct (own_times k ft); reflexivity.
Qed.

Lemma own_times_none (k : jsstring) (ft : fixTimes) :
  own_times k ft = None -> ~ In k (List.map fst ft).
Proof.
  induction ft as [|[k0 v0] ft IH]; cbn [own_times List.map fst];
    [intros _ []|].
  destruct (streq k k0) eqn:E; [discriminate|].
  intros H [->|Hin]; [rewrite streq_refl in E; discriminate|].
  exact (IH H Hin).
Qed.

Lemma hours_of_type_snoc (t : jsstring) (seen : list closedItem)
    (i : closedItem) :
  hours_of_type t (seen ++ [i])
  = hours_of_type t seen
    ++ (if streq (errorType (ci_title i)) t then [hours i] else []).
Proof.
  unfold hours_of_type. rewrite filter_app, map_app. cbn [filter].
  destruct (streq _ t); reflexivity.
Qed.

Lemma push_time_holds (ft : fixTimes) (seen : list closedItem)
    (i : closedItem) :
  holds ft seen ->
  ~ inherited (errorType (ci_title i)) ->
  exists ft',
    push_time (errorType (ci_title i)) (hours i) ft = Resolved ft' /\
    holds ft' (seen ++ [i]).
Proof.
  intros [Hnd Hft] Hi. unfold push_time.
  set (ty := errorType (ci_title i)) in *.
  assert (Hp : assoc ty object_prototype = None).
  { unfold inherited in Hi. destruct (assoc ty object_prototype);
      [exfalso; apply Hi; discriminate|reflexivity]. }
  assert (Hall : forall times v,
            own_times ty ft = times ->
            v = match times with Some l => l ++ [hours i] | None => [hours i] end ->
            holds (set_times ty v ft) (seen ++ [i])).
  { intros times v Et ->. split.
    - rewrite keys_set_times, Et. destruct times; [exact Hnd|].
      apply NoDup_app; [exact Hnd|repeat constructor; intros []|].
      intros k Hk [<-|[]]. exact (own_times_none _ _ Et Hk).
    - intros t. rewrite own_times_set, hours_of_type_snoc. fold ty.
      rewrite Hft in Et |- *.
      destruct (streq t ty) eqn:E.
      + apply streq_true in E. subst t. rewrite streq_refl.
        destruct (hours_of_type ty seen); subst times; reflexivity.
      + assert (E' : streq ty t = false).
        { destruct (streq ty t) eqn:E2; [|reflexivity].
          apply streq_true in E2. subst t. rewrite streq_refl in E.
          discriminate. }
        rewrite E', app_nil_r. reflexivity. }
  destruct (own_times ty ft) as [times|] eqn:Et.
  - eexists. split; [reflexivity|]. apply (Hall (Some times)); reflexivity.
  - rewrite Hp. eexists. split; [reflexivity|].
    apply (Hall None); reflexivity.
Qed.

Lemma collect_holds (items : list closedItem) :
  forall ft seen,
    holds ft seen ->
    (forall i, In i items -> ~ inherited (errorType (ci_title i))) ->
    exists ft', collect items ft = Resolved ft' /\ holds ft' (seen ++ items).
Proof.
  induction items as [|i items IH]; intros ft seen Hh Hi.
  - exists ft. rewrite app_nil_r. split; [reflexivity|exact Hh].
  - destruct (push_time_holds ft seen i Hh (Hi i (or_introl eq_refl)))
      as (ft1 & E1 & H1).
    destruct (IH ft1 (seen ++ [i]) H1 (fun j Hj => Hi j (or_intror Hj)))
      as (ft' & E' & H').
    exists ft'. cbn [collect]. rewrite E1. split; [exact E'|].
    rewrite <- app_assoc in H'. exact H'.
Qed.

(** *** The median of a sorted array *)

Lemma insert_asc_length (x : Z) (l : list Z) :
  List.length (insert_asc x l) = S (List.length l).
Proof.
  induction l as [|y l IH]; [reflexivity|]. cbn [insert_asc].
  destruct (x - y <=? 0); cbn [List.length]; [reflexivity|].
  rewrite IH. reflexivity.
Qed.

Lemma insert_asc_filter (p : Z -> bool) (x : Z) (l : list Z) :
  List.length (filter p (insert_asc x l))
  = List.length (filter p (x :: l)).
Proof.
  induction l as [|y l IH]; [reflexivity|]. cbn [insert_asc].
  destruct (x - y <=? 0); [reflexivity|].
  cbn [filter] in *. destruct (p y), (p x); cbn [List.length] in *; lia.
Qed.

Lemma sort_asc_length (l : list Z) :
  List.length (sort_asc l) = List.length l.
Proof.
  induction l as [|x l IH]; [reflexivity|]. cbn [sort_asc fold_right].
  fold (sort_asc l). rewrite insert_asc_length, IH. reflexivity.
Qed.

Lemma sort_asc_filter (p : Z -> bool) (l : list Z) :
  List.length (filter p (sort_asc l)) = List.length (filter p l).
Proof.
  induction l as [|x l IH]; [reflexivity|]. cbn [sort_asc fold_right].
  fold (sort_asc l). rewrite insert_asc_filter. cbn [filter].
  destruct (p x); cbn [List.length]; rewrite IH; reflexivity.
Qed.

Lemma insert_asc_in (x y : Z) (l : list Z) :
  In y (insert_asc x l) -> y = x \/ In y l.
Proof.
  induction l as [|z l IH]; cbn [insert_asc].
  - intros [<-|[]]. left. reflexivity.
  - destruct (x - z <=? 0).
    + intros [<-|H]; [left; reflexivity|right; exact H].
    + intros [<-|H]; [right; left; reflexivity|].
      destruct (IH H) as [->|H']; [left; reflexivity|right; right; exact H'].
Qed.

Lemma insert_asc_ascending (x : Z) (l : list Z) :
  ascending l -> ascending (insert_asc x l).
Proof.
  induction l as [|y l IH]; intros Hs; cbn [insert_asc].
  - cbn [ascending]. split; [constructor|exact I].
  - cbn [ascending] in Hs. destruct Hs as [Hy Hs].
    destruct (x - y <=? 0) eqn:E.
    + cbn [ascending]. split; [|split; assumption].
      constructor; [zlia|].
      eapply Forall_impl; [|exact Hy]. cbn beta. intros z Hz. zlia.
    + cbn [ascending]. split; [|apply IH; exact Hs].
      apply Forall_forall. intros z Hz.
      destruct (insert_asc_in _ _ _ Hz) as [->|Hz']; [zlia|].
      rewrite Forall_forall in Hy. apply Hy. exact Hz'.
Qed.

Lemma sort_asc_ascending (l : list Z) : ascending (sort_asc l).
Proof.
  induction l as [|x l IH]; [exact I|]. cbn [sort_asc fold_right].
  apply insert_asc_ascending. exact IH.
Qed.

(** In an ascending array, the elements up to an index are at most the
    element at the index, and those from the index on are at least it. *)
Lemma ascending_counts (s : list Z) :
  ascending s ->
  forall j m,
    (j < List.length s)%nat ->
    (nth j s 0 <= m -> (j + 1 <= count_le m s)%nat) /\
    (m <= nth j s 0 -> (List.length s - j <= count_ge m s)%nat).
Proof.
  induction s as [|x s IH]; intros Hs j m Hj; [cbn in Hj; lia|].
  cbn [ascending] in Hs. destruct Hs as [Hx Hs].
  unfold count_le, count_ge. cbn [filter].
  destruct j as [|j]; cbn [nth List.length].
  - split; intros Hm.
    + replace (x <=? m) with true by (symmetry; apply Z.leb_le; exact Hm).
      cbn [List.length]. lia.
    + replace (m <=? x) with true by (symmetry; apply Z.leb_le; exact Hm).
      cbn [List.length].
      assert (E : filter (fun y => m <=? y) s = s).
      { apply forallb_filter_id. apply forallb_forall. intros y Hy.
        rewrite Forall_forall in Hx. specialize (Hx y Hy).
        apply Z.leb_le. lia. }
      rewrite E. lia.
  - cbn [List.length] in Hj.
    destruct (IH Hs j m ltac:(lia)) as [H1 H2].
    unfold count_le, count_ge in H1, H2. split; intros Hm.
    + assert (Hxm : x <= m).
      { rewrite Forall_forall in Hx.
        assert (Hj' : (j < List.length s)%nat) by lia.
        specialize (Hx (nth j s 0) (nth_In s 0 Hj')). lia. }
      replace (x <=? m) with true by (symmetry; apply Z.leb_le; exact Hxm).
      cbn [List.length]. specialize (H1 Hm). lia.
    + specialize (H2 Hm). destruct (m <=? x); cbn [List.length]; lia.
Qed.

Lemma round_div_between (a b : Z) :
  a <= b -> a <= round_div (a + b) 2 <= b.
Proof.
  intros H. unfold round_div. change (2 * 2) with 4.
  Z.div_mod_to_equations. lia.
Qed.

Lemma ascending_nth (s : list Z) :
  ascending s ->
  forall i j, (i <= j)%nat -> (j < List.length s)%nat ->
    nth i s 0 <= nth j s 0.
Proof.
  induction s as [|x s IH]; intros Hs i j Hij Hj; [cbn in Hj; lia|].
  cbn [ascending] in Hs. destruct Hs as [Hx Hs]. cbn [List.length] in Hj.
  destruct i as [|i], j as [|j]; cbn [nth]; try lia.
  - rewrite Forall_forall in Hx. apply Hx. apply nth_In. lia.
  - apply IH; [exact Hs|lia|lia].
Qed.

(** The median of a non-empty array splits it in two halves. *)
Lemma median_halves (times : list Z) :
  times <> [] -> halves (median times) times.
Proof.
  intros Hne. split; [exact Hne|].
  pose proof (sort_asc_ascending times) as Hs.
  pose proof (sort_asc_length times) as Hl.
  assert (Hn : (0 < List.length times)%nat)
    by (destruct times; [contradiction|cbn; lia]).
  unfold count_le, count_ge.
  rewrite <- (sort_asc_filter (fun x => x <=? median times)),
          <- (sort_asc_filter (fun x => median times <=? x)).
  fold (count_le (median times) (sort_asc times)).
  fold (count_ge (median times) (sort_asc times)).
  unfold median. set (s := sort_asc times) in *. unfold len.
  set (n := List.length times) in *. rewrite Hl.
  set (k := (n / 2)%nat).
  assert (Hk : Z.of_nat n / 2 = Z.of_nat k)
    by (unfold k; rewrite Nat2Z.inj_div; reflexivity).
  pose proof (Z.div_mod (Z.of_nat n) 2 ltac:(lia)) as Hdm.
  pose proof (Z.mod_pos_bound (Z.of_nat n) 2 ltac:(lia)) as Hmb.
  rewrite Hk in *.
  destruct (Z.of_nat n mod 2 =? 0) eqn:Ev.
  - apply Z.eqb_eq in Ev.
    assert (E1 : Z.to_nat (Z.of_nat k - 1) = (k - 1)%nat) by lia.
    assert (Hd : (2 * k = n)%nat) by lia.
    rewrite E1, Nat2Z.id.
    set (a := nth (k - 1) s 0). set (b := nth k s 0).
    assert (Hab : a <= b) by (apply ascending_nth; [exact Hs|lia|lia]).
    pose proof (round_div_between a b Hab) as Hm.
    destruct (ascending_counts s Hs (k - 1)%nat
                (round_div (a + b) 2) ltac:(lia)) as [H1 _].
    destruct (ascending_counts s Hs k
                (round_div (a + b) 2) ltac:(lia)) as [_ H2].
    fold a in H1. fold b in H2.
    specialize (H1 ltac:(lia)). specialize (H2 ltac:(lia)). lia.
  - apply Z.eqb_neq in Ev.
    assert (Hd : (2 * k + 1 = n)%nat) by lia.
    rewrite Nat2Z.id.
    destruct (ascending_counts s Hs k (nth k s 0) ltac:(lia)) as [H1 H2].
    specialize (H1 ltac:(lia)). specialize (H2 ltac:(lia)). lia.
Qed.

Lemma median_of_map (t : jsstring) (ft : fixTimes) :
  median_of t (List.map (fun e => (fst e, median (snd e))) ft)
  = option_map median (own_times t ft).
Proof.
  induction ft as [|[k v] ft IH]; [reflexivity|].
  cbn [List.map median_of own_times fst snd].
  destruct (streq t k); [reflexivity|exact IH].
Qed.

(** [computeTimeToFix] when no title gives an inherited name as type: it
    resolves to one median per type seen, and the median of a type splits
    the fix times of the closed issues of that type in two halves: at
    least half of them are at most the median, and at least half are at
    least the median.  A type no closed issue has gets no median. *)
Theorem computeTimeToFix_medians (items : list closedItem) :
  (forall i, In i items -> ~ inherited (errorType (ci_title i))) ->
  exists medians,
    computeTimeToFix (Resolved items) = Resolved medians /\
    NoDup (List.map fst medians) /\
    forall t,
      match median_of t medians with
      | Some m => halves m (hours_of_type t items)
      | None => hours_of_type t items = []
      end.
Proof.
  intros Hi.
  assert (H0 : holds [] []) by (split; [constructor|reflexivity]).
  destruct (collect_holds items [] [] H0 Hi) as (ft & E & Hnd & Hft).
  cbn [app] in Hft.
  exists (List.map (fun e => (fst e, median (snd e))) ft).
  unfold computeTimeToFix. rewrite E. split; [reflexivity|]. split.
  - rewrite map_map. cbn [fst]. exact Hnd.
  - intros t. rewrite median_of_map, Hft.
    destruct (hours_of_type t items) as [|h l] eqn:Eh; [reflexivity|].
    cbn [option_map]. apply median_halves. discriminate.
Qed.

(** One closed issue whose title gives an inherited name as type, such as
    "constructor", makes [computeTimeToFix] reject: no median is
    returned for any type. *)
Theorem computeTimeToFix_inherited_name (items : list closedItem)
    (i : closedItem) :
  In i items -> inherited (errorType (ci_title i)) ->
  computeTimeToFix (Resolved items) = Rejected type_error.
Proof.
  intros Hin Hinh. unfold computeTimeToFix.
  assert (H : forall seen ft, holds ft seen ->
            (forall j, In j seen -> ~ inherited (errorType (ci_title j))) ->
            collect items ft = Rejected type_error).
  { clear - Hin Hinh. induction items as [|j items IH]; [destruct Hin|].
    intros seen ft Hh Hseen. cbn [collect].
    destruct (assoc (errorType (ci_title j)) object_prototype) as [v|] eqn:Ej.
    - unfold push_time. destruct Hh as [_ Hft]. rewrite Hft.
      assert (Hnone : hours_of_type (errorType (ci_title j)) seen = []).
      { unfold hours_of_type.
        destruct (filter _ seen) as [|x l] eqn:Ef; [reflexivity|].
        exfalso.
        assert (Hx : In x (filter (fun i0 => streq (errorType (ci_title i0))
                                               (errorType (ci_title j)))
                             seen)) by (rewrite Ef; left; reflexivity).
        apply filter_In in Hx as [Hx Et]. apply streq_true in Et.
        apply (Hseen x Hx). unfold inherited. rewrite Et, Ej. discriminate. }
      rewrite Hnone, Ej. reflexivity.
    - assert (Hj : ~ inherited (errorType (ci_title j)))
        by (unfold inherited; rewrite Ej; intros H; apply H; reflexivity).
      destruct (push_time_holds ft seen j Hh Hj) as (ft1 & E1 & H1).
      rewrite E1. destruct Hin as [->|Hin]; [contradiction|].
      apply (IH Hin (seen ++ [j]) ft1 H1).
      intros k Hk. apply in_app_or in Hk as [Hk|[<-|[]]];
        [apply Hseen; exact Hk|exact Hj]. }
  rewrite (H [] []); [reflexivity|split; [constructor|reflexivity]|].
  intros j [].
Qed.

End FixTimeFacts.

Section FixTimeExamples.
Import Text Service FixTime FixTimeSpec FixTimeSamples.

Lemma computeTimeToFix_medians_witness :
  exists medians,
    computeTimeToFix (Resolved closed_issues) = Resolved medians /\
    NoDup (List.map fst medians) /\
    forall t,
      match median_of t medians with
      | Some m => halves m (hours_of_type t closed_issues)
      | None => hours_of_type t closed_issues = []
      end.
Proof.
  apply (computeTimeToFix_medians closed_issues).
  intros i [<-|[<-|[<-|[<-|[]]]]]; vm_compute; intros H; apply H; reflexivity.
Defined.

Lemma computeTimeToFix_inherited_name_witness :
  computeTimeToFix (Resolved (closed_issues ++ [odd_issue]))
  = Rejected type_error.
Proof.
  apply (computeTimeToFix_inherited_name (closed_issues ++ [odd_issue])
           odd_issue).
  - apply in_or_app. right. left. reflexivity.
  - vm_compute. discriminate.
Defined.

End FixTimeExamples.

(** ** File paths in an error *)

Section PathFacts.
Import Regex Groups Text Spec Paths RegexSpec PathsSpec.

(** A match of a pattern whose classes lie within [p] spans code units
    of [p] only. *)
Lemma matches_chars (p : N -> bool) (r : re) (s e : pos) :
  matches fl_none r s e -> only_classes p r ->
  exists mid, span s mid e /\ Forall (fun c => p c = true) mid.
Proof.
  induction 1; intros Hp; cbn [only_classes] in Hp;
    try (exists []; split; [apply span_refl|constructor]).
  - exists [c]. split; [split; reflexivity|].
    constructor; [apply Hp; assumption|constructor].
  - destruct Hp as [Ha Hb].
    destruct (IHmatches1 Ha) as (m1 & S1 & F1).
    destruct (IHmatches2 Hb) as (m2 & S2 & F2).
    exists (m1 ++ m2). split; [eapply span_trans; eassumption|].
    apply Forall_app. split; assumption.
  - apply IHmatches. apply Hp.
  - apply IHmatches. apply Hp.
  - destruct (IHmatches1 Hp) as (m1 & S1 & F1).
    destruct (IHmatches2 Hp) as (m2 & S2 & F2).
    exists (m1 ++ m2). split; [eapply span_trans; eassumption|].
    apply Forall_app. split; assumption.
Qed.

Lemma path_group_classes : only_classes path_char (g_grp pathRe).
Proof.
  assert (Hatom : forall c, is_path_atom c = true -> path_char c = true).
  { intros c H. unfold path_char, is_path_atom in *.
    rewrite H. reflexivity. }
  assert (Hchr : forall a c, path_char a = true -> N.eqb a c = true ->
                             path_char c = true).
  { intros a c Ha H. apply N.eqb_eq in H. subst. exact Ha. }
  assert (Halpha : forall c, is_alpha c = true -> path_char c = true).
  { intros c H. unfold path_char, is_word, is_alpha in *.
    apply orb_true_iff in H as [H|H]; rewrite H; cbn [orb];
      rewrite ?orb_true_r; reflexivity. }
  cbn. repeat split;
    try exact Hatom; try exact Halpha;
    try (intros c H; apply (Hchr 46%N c eq_refl); exact H);
    try (intros c H; apply (Hchr 47%N c eq_refl); exact H).
Qed.

(** What the loop over the matches yields: texts of [path_char] code
    units that stand in the line. *)
Lemma group_at_sound (s s1 s2 e : pos) :
  group_at fl_none pathRe s = Some (s1, s2, e) ->
  subject s1 = subject s /\ subject e = subject s /\
  exists mid, span s1 mid s2 /\ Forall (fun c => path_char c = true) mid.
Proof.
  unfold group_at, group_start, group_end, match_at.
  destruct (run fl_none (g_pre pathRe) s _) as [x1|] eqn:E1; [|discriminate].
  apply run_sound in E1 as (s' & M1 & K1).
  destruct (run fl_none (Seq _ _) s' _); [|discriminate].
  injection K1 as <-.
  destruct (run fl_none (g_grp pathRe) s' _) as [x2|] eqn:E2; [|discriminate].
  apply run_sound in E2 as (s'' & M2 & K2).
  destruct (run fl_none (g_post pathRe) s'' _) eqn:E3; [|discriminate].
  injection K2 as <-.
  destruct (run fl_none (g_post pathRe) s'' (fun e0 => Some e0)) as [x3|] eqn:E4;
    [|discriminate].
  intros H. injection H as <- <- <-.
  apply run_sound in E4 as (s3 & M3 & K3). injection K3 as <-.
  pose proof (matches_subject _ _ _ _ M1) as H1.
  pose proof (matches_subject _ _ _ _ M2) as H2.
  pose proof (matches_subject _ _ _ _ M3) as H3.
  split; [exact H1|]. split; [congruence|].
  apply (matches_chars path_char _ _ _ M2 path_group_classes).
Qed.

Lemma search_group_sound (aft bef : list N) (s1 s2 e : pos) :
  search_group fl_none pathRe bef aft = Some (s1, s2, e) ->
  subject s1 = rev bef ++ aft /\ subject e = rev bef ++ aft /\
  exists mid, span s1 mid s2 /\ Forall (fun c => path_char c = true) mid.
Proof.
  revert bef. induction aft as [|c aft IH]; intros bef H;
    cbn [search_group] in H.
  - destruct (group_at fl_none pathRe _) as [[[x1 x2] x3]|] eqn:E;
      [|discriminate].
    injection H as <- <- <-. apply group_at_sound in E. exact E.
  - destruct (group_at fl_none pathRe _) as [[[x1 x2] x3]|] eqn:E.
    + injection H as <- <- <-. apply group_at_sound in E. exact E.
    + apply IH in H. cbn [rev] in H. rewrite <- app_assoc in H. exact H.
Qed.

Lemma exec_groups_sound (fuel : nat) :
  forall (p : pos) (m : jsstring),
    In m (exec_groups_from fuel fl_none pathRe p) ->
    Forall (fun c => path_char c = true) m /\ occurs_in m (subject p).
Proof.
  induction fuel as [|fuel IH]; intros p m H; [destruct H|].
  cbn [exec_groups_from] in H.
  destruct (search_group fl_none pathRe (before p) (after p))
    as [[[s1 s2] e]|] eqn:E; [|destruct H].
  apply search_group_sound in E as (H1 & He & mid & Hs & Hf).
  fold (subject p) in H1, He.
  destruct H as [<-|H].
  - rewrite (between_prefix_of s1 s2 mid (proj1 Hs)).
    split; [exact Hf|].
    exists (rev (before s1)), (after s2).
    rewrite <- H1. apply (span_subject s1 s2 mid Hs).
  - destruct (Nat.ltb (remaining e) (remaining p)).
    + rewrite <- He. apply IH. exact H.
    + destruct (after e) as [|c rest] eqn:Ea; [destruct H|].
      apply IH in H. unfold subject in H. cbn [before after rev] in H.
      rewrite <- app_assoc in H. cbn [app] in H.
      rewrite <- He. unfold subject. rewrite Ea. exact H.
Qed.

(** Removing a leading [./] leaves the rest of the text. *)
Lemma replace_dot_slash (m : jsstring) :
  exists pre, m = pre ++ replace fl_none re_dot_slash [] m.
Proof.
  unfold replace.
  destruct (search fl_none re_dot_slash [] m) as [[st e]|] eqn:E;
    [|exists []; reflexivity].
  destruct (search_split _ _ _ _ _ _ E) as (p & Em & Eb & Hm & _).
  unfold match_at, re_dot_slash in Hm. cbn [seqs run] in Hm.
  destruct (at_bol fl_none st) eqn:Hb; [|discriminate].
  destruct st as [sb sa]. cbn [before after] in *.
  destruct sb as [|c sb]; [|discriminate].
  assert (Hp : p = []).
  { rewrite app_nil_r in Eb. apply (f_equal (@rev N)) in Eb.
    rewrite rev_involutive in Eb. symmetry. exact Eb. }
  subst p. cbn [app] in Em. subst sa.
  unfold lit in Hm. rewrite run_lits_exact in Hm.
  destruct (startsWith m (u "./")) eqn:Es; [|discriminate].
  injection Hm as <-. cbn [after before expand app rev].
  exists (u "./"). apply (startsWith_split (u "./")). exact Es.
Qed.

(** *** The extension *)

Lemma matches_alts (fl : flags) (rs : list re) (s e : pos) :
  rs <> [] -> matches fl (alts rs) s e ->
  exists r, In r rs /\ matches fl r s e.
Proof.
  induction rs as [|r rs IH]; intros Hne H; [contradiction|].
  destruct rs as [|r' rs].
  - exists r. split; [left; reflexivity|exact H].
  - cbn [alts] in H. inversion H; subst.
    + exists r. split; [left; reflexivity|assumption].
    + destruct (IH ltac:(discriminate) ltac:(assumption)) as (x & Hx & Mx).
      exists x. split; [right; exact Hx|exact Mx].
Qed.

(** With the flag [i] a literal matches a text of its length that equals
    it up to letter case. *)
Lemma matches_lits_ci (w : jsstring) (s e : pos) :
  matches fl_i (lits w) s e -> exists x, span s x e /\ ci_equal w x.
Proof.
  revert s e. induction w as [|c w IH]; intros s e H.
  - inversion H; subst. exists []. split; [apply span_refl|].
    split; reflexivity.
  - unfold lits in H. cbn [List.map] in H.
    apply matches_seqs_cons in H as (s1 & H1 & H2).
    unfold chr in H1. inversion H1; subst.
    match goal with Hc : cls_match _ _ _ = true |- _ =>
      rewrite cls_match_literal in Hc; rename Hc into Hci end.
    destruct (IH _ _ H2) as (x & Hs & Hl & Hp).
    match type of H2 with
    | matches _ _ {| before := ?a :: ?b; after := ?r |} _ =>
        exists (a :: x); split;
          [apply (span_trans _ {| before := a :: b; after := r |} _ [a] x);
             [split; reflexivity|exact Hs]|]
    end.
    split; [cbn [List.length]; rewrite Hl; reflexivity|].
    cbn [ci_prefix]. rewrite Hci, Hp. reflexivity.
Qed.

Lemma ci_char_dot (c : N) : ci_char 46 c = true -> c = 46%N.
Proof.
  unfold ci_char. intros H. apply N.eqb_eq in H.
  change (upper 46) with 46%N in H.
  destruct (upper_cases c) as [[Hc E]|[Hc E]]; rewrite E in H.
  - apply in_range_true in Hc. lia.
  - symmetry. exact H.
Qed.

Lemma test_source_extension (p : jsstring) :
  test fl_i re_source p = true -> has_source_extension p.
Proof.
  intros H. apply test_true_iff in H as (pre & post & -> & Hm).
  unfold match_at in Hm.
  destruct (run fl_i re_source _ _) as [e|] eqn:E; [|discriminate].
  apply run_sound in E as (s' & M & _).
  unfold re_source in M.
  apply matches_seqs_cons in M as (s1 & M1 & M).
  apply matches_seqs_cons in M as (s2 & M2 & M3).
  cbn [seqs] in M3. inversion M3; subst.
  unfold chr in M1. inversion M1; subst.
  match goal with Hc : cls_match _ _ _ = true |- _ =>
    rewrite cls_match_literal in Hc; apply ci_char_dot in Hc; subst end.
  apply matches_alts in M2 as (r & Hr & Mr); [|discriminate].
  apply in_map_iff in Hr as (ext & <- & Hext).
  apply matches_lits_ci in Mr as (x & [Ha _] & Hx).
  cbn [after] in Ha.
  match goal with Hq : at_eol fl_i _ = true |- _ =>
    unfold at_eol in Hq; cbn [multiline fl_i andb] in Hq;
    destruct (after s') eqn:Ee; [|discriminate] end.
  rewrite app_nil_r in Ha. subst.
  exists pre, x, ext. repeat split; try assumption; apply Hx.
Qed.

(** *** The set of paths *)

Lemma add_keeps (P : jsstring -> Prop) (p : jsstring) (paths : list jsstring) :
  NoDup paths /\ Forall P paths -> P p ->
  NoDup (add p paths) /\ Forall P (add p paths).
Proof.
  intros [Hnd Hf] Hp. unfold add. destruct (mem p paths) eqn:E;
    [split; assumption|].
  split.
  - apply NoDup_app; [exact Hnd|repeat constructor; intros []|].
    intros x Hx [<-|[]].
    assert (Hm : mem p paths = true).
    { unfold mem. apply existsb_exists. exists p. split; [exact Hx|].
      apply streq_true. reflexivity. }
    congruence.
  - apply Forall_app. split; [exact Hf|repeat constructor; exact Hp].
Qed.

Lemma found_path_more (l1 l2 : list jsstring) (p : jsstring) :
  found_path l1 p -> found_path (l1 ++ l2) p.
Proof.
  intros (H1 & H2 & line & Hl & Ho). repeat split; try assumption.
  exists line. split; [apply in_or_app; left; exact Hl|exact Ho].
Qed.

Lemma scan_matches_keeps (src : list jsstring) (line : jsstring)
    (ms : list jsstring) :
  In line src ->
  (forall m, In m ms ->
     Forall (fun c => path_char c = true) m /\ occurs_in m line) ->
  forall paths,
    NoDup paths /\ Forall (found_path src) paths ->
    let paths' :=
      fold_left
        (fun paths m =>
           let p := replace fl_none re_dot_slash [] m in
           if test fl_i re_source p then add p paths else paths)
        ms paths in
    NoDup paths' /\ Forall (found_path src) paths'.
Proof.
  intros Hl. induction ms as [|m ms IH]; intros Hall paths Hp; [exact Hp|].
  cbn [fold_left]. cbn zeta.
  assert (Hrest : forall x, In x ms ->
            Forall (fun c => path_char c = true) x /\ occurs_in x line)
    by (intros x Hx; apply Hall; right; exact Hx).
  destruct (test fl_i re_source (replace fl_none re_dot_slash [] m)) eqn:Et;
    [|apply (IH Hrest); exact Hp].
  apply (IH Hrest). apply add_keeps; [exact Hp|].
  destruct (Hall m (or_introl eq_refl)) as [Hc (a & b & Ho)].
  destruct (replace_dot_slash m) as [pre Ep].
  split; [|split].
  - rewrite Ep in Hc. apply Forall_app in Hc. apply Hc.
  - apply test_source_extension. exact Et.
  - exists line. split; [exact Hl|].
    exists (a ++ pre), b. rewrite Ho. rewrite Ep at 1.
    rewrite <- !app_assoc. reflexivity.
Qed.

Lemma scan_line_keeps (src : list jsstring) (line : jsstring)
    (paths : list jsstring) :
  In line src ->
  NoDup paths /\ Forall (found_path src) paths ->
  NoDup (scan_line paths line) /\
  Forall (found_path src) (scan_line paths line).
Proof.
  intros Hl Hp. unfold scan_line, exec_groups.
  apply (scan_matches_keeps src line); [exact Hl| |exact Hp].
  intros m Hm. apply exec_groups_sound in Hm. exact Hm.
Qed.

Lemma scan_lines_keep (src : list jsstring) (lines : list jsstring) :
  (forall l, In l lines -> In l src) ->
  forall paths,
    NoDup paths /\ Forall (found_path src) paths ->
    NoDup (fold_left scan_line lines paths) /\
    Forall (found_path src) (fold_left scan_line lines paths).
Proof.
  induction lines as [|l lines IH]; intros Hsub paths Hp; [exact Hp|].
  cbn [fold_left]. apply IH; [intros x Hx; apply Hsub; right; exact Hx|].
  apply scan_line_keeps; [apply Hsub; left; reflexivity|exact Hp].
Qed.

Lemma NoDup_firstn_list {A} (n : nat) (l : list A) :
  NoDup l -> NoDup (firstn n l).
Proof.
  revert n. induction l as [|x l IH]; intros n H; [rewrite firstn_nil; exact H|].
  destruct n as [|n]; [constructor|]. cbn [firstn].
  apply NoDup_cons_iff in H as [Hx Hl]. constructor; [|apply IH; exact Hl].
  intros Hin. apply Hx. apply (in_firstn _ _ _ Hin).
Qed.

(** [extractFilePaths] returns at most five paths, all different.  Each
    is made of letters, digits, underscores, dots, hyphens and slashes
    only, ends with a dot and one of the thirteen source extensions
    (letter case ignored), and stands in the error line or in a line of
    the excerpt. *)
Theorem extractFilePaths_paths (errorLine : jsstring)
    (excerpt : option (list jsstring)) :
  let sources :=
    errorLine :: match excerpt with Some l => l | None => [] end in
  let paths := extractFilePaths errorLine excerpt in
  (List.length paths <= 5)%nat /\
  NoDup paths /\
  forall p, In p paths -> found_path sources p.
Proof.
  cbn zeta. unfold extractFilePaths.
  set (sources := errorLine :: match excerpt with Some l => l | None => [] end).
  destruct (scan_lines_keep sources sources (fun l H => H) [])
    as [Hnd Hf]; [split; constructor|].
  change 5 with (Z.of_nat 5). rewrite slice_firstn.
  split; [apply firstn_le_length|].
  split; [apply NoDup_firstn_list; exact Hnd|].
  intros p Hp. apply in_firstn in Hp. rewrite Forall_forall in Hf.
  apply Hf. exact Hp.
Qed.

End PathFacts.

(** ** Occurrence lines and the statistics line *)

Section OccurrenceFacts.
Import Regex Text Dates PatternTracker RegexSpec ReplaceSpec StatsSpec.
Import OccurrenceSpec.

Lemma run_classes (ps : list (N -> bool)) :
  forall (bef aft : list N) (k : pos -> option pos),
    run fl_m (seqs (List.map Cls ps)) {| before := bef; after := aft |} k =
      if starts_with_classes ps aft
      then k {| before := rev (firstn (List.length ps) aft) ++ bef;
                after := skipn (List.length ps) aft |}
      else None.
Proof.
  induction ps as [|p ps IH]; intros bef aft k.
  - destruct aft; reflexivity.
  - assert (Hstep : run fl_m (seqs (List.map Cls (p :: ps)))
                      {| before := bef; after := aft |} k
                    = run fl_m (Cls p) {| before := bef; after := aft |}
                        (fun s' => run fl_m (seqs (List.map Cls ps)) s' k)).
    { cbn [List.map seqs]. destruct ps; reflexivity. }
    rewrite Hstep. destruct aft as [|c aft]; [reflexivity|].
    rewrite run_cls_step by reflexivity. cbn [starts_with_classes].
    destruct (p c); [|reflexivity]. cbn [andb].
    rewrite IH. cbn [List.length firstn skipn rev].
    rewrite <- app_assoc. reflexivity.
Qed.

(** Where the occurrence pattern matches. *)
Lemma match_at_occurrence (bef aft : list N) :
  match_at fl_m re_occurrence {| before := bef; after := aft |} =
    if (at_bol fl_m {| before := bef; after := aft |}
        && starts_with_classes occ_classes aft)%bool
    then Some {| before := rev (firstn 26 aft) ++ bef; after := skipn 26 aft |}
    else None.
Proof.
  unfold match_at.
  assert (E : forall s k,
            run fl_m re_occurrence s k
            = if at_bol fl_m s
              then run fl_m (seqs (List.map Cls occ_classes)) s k else None)
    by reflexivity.
  rewrite E. destruct (at_bol fl_m _); [|reflexivity]. cbn [andb].
  rewrite run_classes. reflexivity.
Qed.

Lemma swc_split (ps : list (N -> bool)) :
  forall aft, starts_with_classes ps aft = true ->
    exists m rest,
      aft = m ++ rest /\ List.length m = List.length ps /\
      forall q, (forall p, In p ps -> p q = false) -> ~ In q m.
Proof.
  induction ps as [|p ps IH]; intros aft H.
  - exists [], aft. repeat split. intros q _ [].
  - destruct aft as [|c aft]; [discriminate|]. cbn [starts_with_classes] in H.
    apply andb_true_iff in H as [Hc H].
    destruct (IH aft H) as (m & rest & -> & Hl & Hq).
    exists (c :: m), rest. split; [reflexivity|].
    split; [cbn [List.length]; rewrite Hl; reflexivity|].
    intros q Hps [->|Hin].
    + rewrite (Hps p (or_introl eq_refl)) in Hc. discriminate.
    + apply (Hq q); [|exact Hin]. intros p' Hp'. apply Hps. right. exact Hp'.
Qed.

Lemma occ_classes_plain (q : N) :
  is_line_terminator q = true -> forall p, In p occ_classes -> p q = false.
Proof.
  intros Hq p Hp. unfold is_line_terminator in Hq.
  assert (Hd : is_digit q = false).
  { unfold is_digit, in_range.
    repeat (apply orb_true_iff in Hq as [Hq|Hq]); apply N.eqb_eq in Hq;
      subst; reflexivity. }
  assert (He : forall a, is_line_terminator a = false -> N.eqb a q = false).
  { intros a Ha. destruct (N.eqb_spec a q) as [->|]; [|reflexivity].
    unfold is_line_terminator in Ha. rewrite Hq in Ha. discriminate. }
  cbn in Hp.
  repeat (destruct Hp as [<-|Hp];
          [first [exact Hd | apply He; reflexivity]|]).
  destruct Hp.
Qed.

(** An occurrence line is 26 code units without a line terminator. *)
Lemma occ_match_shape (aft : jsstring) :
  starts_with_classes occ_classes aft = true ->
  exists c m rest,
    aft = (c :: m) ++ rest /\ List.length (c :: m) = 26%nat /\
    Forall (fun x => not_terminator x = true) (c :: m).
Proof.
  intros H. destruct (swc_split _ _ H) as (m & rest & -> & Hl & Hq).
  change (List.length occ_classes) with 26%nat in Hl.
  destruct m as [|c m]; [discriminate|].
  exists c, m, rest. split; [reflexivity|]. split; [exact Hl|].
  apply Forall_forall. intros x Hx. unfold not_terminator.
  destruct (is_line_terminator x) eqn:Ex; [|reflexivity].
  exfalso. apply (Hq x (occ_classes_plain x Ex) Hx).
Qed.

Lemma occ_lines_plain (m X : jsstring) :
  Forall (fun x => not_terminator x = true) m ->
  occ_lines false (m ++ X) = occ_lines false X.
Proof.
  induction 1 as [|c m Hc Hm IH]; [reflexivity|].
  cbn [app]. destruct X as [|x X].
  - cbn [occ_lines andb app]. unfold not_terminator in Hc.
    apply negb_true_iff in Hc. rewrite Hc. exact IH.
  - cbn [occ_lines andb app]. unfold not_terminator in Hc.
    apply negb_true_iff in Hc. rewrite Hc. rewrite IH. reflexivity.
Qed.

Lemma occ_lines_cons (bol : bool) (c : N) (rest : jsstring) :
  occ_lines bol (c :: rest)
  = (if (bol && starts_with_classes occ_classes (c :: rest))%bool
     then [firstn 26 (c :: rest)] else [])
    ++ occ_lines (is_line_terminator c) rest.
Proof. reflexivity. Qed.

(** After an occurrence line the reading goes on behind it. *)
Lemma occ_lines_match (aft : jsstring) :
  starts_with_classes occ_classes aft = true ->
  occ_lines true aft = firstn 26 aft :: occ_lines false (skipn 26 aft).
Proof.
  intros H. destruct (occ_match_shape aft H) as (c & m & rest & -> & Hl & Hf).
  rewrite <- Hl at 2. rewrite skipn_exact.
  cbn [app]. rewrite occ_lines_cons.
  change (c :: m ++ rest) with ((c :: m) ++ rest). rewrite H. cbn [andb app].
  f_equal. inversion Hf as [|? ? Hc Hm]. subst.
  unfold not_terminator in Hc. apply negb_true_iff in Hc. rewrite Hc.
  apply occ_lines_plain. exact Hm.
Qed.

(** The loop over the matches of the occurrence pattern reads the
    occurrence lines. *)
Lemma exec_occurrences (n : nat) :
  forall (aft bef : list N) (fuel : nat),
    (List.length aft <= n)%nat -> (List.length aft < fuel)%nat ->
    exec_from fuel fl_m re_occurrence {| before := bef; after := aft |}
    = occ_lines (at_bol fl_m {| before := bef; after := aft |}) aft.
Proof.
  induction n as [|n IH]; intros aft bef fuel Hn Hf.
  - destruct aft; [|cbn [List.length] in Hn; lia].
    destruct fuel as [|fuel]; [lia|].
    cbn [exec_from before after search]. rewrite match_at_occurrence.
    cbn [starts_with_classes occ_classes app]. rewrite andb_false_r.
    cbn [occ_lines starts_with_classes occ_classes app].
    rewrite andb_false_r. reflexivity.
  - destruct fuel as [|fuel]; [lia|].
    destruct (at_bol fl_m {| before := bef; after := aft |}
              && starts_with_classes occ_classes aft)%bool eqn:Em.
    + apply andb_true_iff in Em as [Hb Hs]. rewrite Hb.
      rewrite (occ_lines_match aft Hs).
      destruct (occ_match_shape aft Hs) as (c & m & rest & E & Hl & Hpl).
      assert (Hm : match_at fl_m re_occurrence {| before := bef; after := aft |}
                   = Some {| before := rev (c :: m) ++ bef; after := rest |}).
      { rewrite match_at_occurrence, Hb, Hs. cbn [andb]. subst aft.
        rewrite <- Hl, firstn_exact, skipn_exact. reflexivity. }
      assert (Es : search fl_m re_occurrence bef aft
                   = Some ({| before := bef; after := aft |},
                           {| before := rev (c :: m) ++ bef; after := rest |}))
        by (destruct aft; cbn [search]; rewrite Hm; reflexivity).
      cbn [exec_from before after]. rewrite Es.
      assert (Hlen : List.length aft = (26 + List.length rest)%nat)
        by (rewrite E, length_app, Hl; reflexivity).
      unfold remaining. cbn [after].
      replace (List.length rest <? List.length aft)%nat with true
        by (symmetry; apply Nat.ltb_lt; lia).
      f_equal.
      * apply between_prefix_of. cbn [after]. rewrite E.
        rewrite <- Hl at 1. rewrite firstn_exact. reflexivity.
      * rewrite IH by lia.
        assert (Eb : at_bol fl_m {| before := rev (c :: m) ++ bef;
                                    after := rest |} = false).
        { unfold at_bol. cbn [before].
          destruct (exists_last (l := c :: m)) as (l & z & El);
            [discriminate|].
          rewrite El, rev_app_distr. cbn [rev app].
          rewrite El in Hpl. apply Forall_app in Hpl as [_ Hz].
          inversion Hz as [|? ? Hz' _]. subst.
          unfold not_terminator in Hz'. apply negb_true_iff in Hz'.
          rewrite Hz'. apply andb_false_r. }
        rewrite Eb. rewrite E, <- Hl, skipn_exact. reflexivity.
    + assert (Hm : match_at fl_m re_occurrence {| before := bef; after := aft |}
                   = None) by (rewrite match_at_occurrence, Em; reflexivity).
      destruct aft as [|c rest].
      * cbn [exec_from before after search]. rewrite Hm.
        cbn [occ_lines]. rewrite Em. reflexivity.
      * assert (Estep : exec_from (S fuel) fl_m re_occurrence
                          {| before := bef; after := c :: rest |}
                        = exec_from (S fuel) fl_m re_occurrence
                            {| before := c :: bef; after := rest |}).
        { cbn [exec_from before after search]. rewrite Hm.
          destruct rest; reflexivity. }
        rewrite Estep, IH by (cbn [List.length] in *; lia).
        rewrite occ_lines_cons, Em. cbn [app].
        unfold at_bol. cbn [before multiline fl_m andb]. reflexivity.
Qed.

Lemma parse_occ_lines (b : jsstring) :
  parseOccurrenceTimestamps b
  = List.map (fun m => parse_iso (skipn 2 m)) (occ_lines true b).
Proof.
  unfold parseOccurrenceTimestamps, exec_all.
  rewrite (exec_occurrences (List.length b)) by lia. reflexivity.
Qed.

(** Whether a line is an occurrence line does not depend on what follows
    the line. *)
Lemma swc_local (ps : list (N -> bool)) (t : N) (X Y : jsstring) :
  (forall p, In p ps -> p t = false) ->
  forall l,
    starts_with_classes ps (l ++ t :: X) = starts_with_classes ps (l ++ t :: Y)
    /\ (starts_with_classes ps (l ++ t :: X) = true ->
        firstn (List.length ps) (l ++ t :: X)
        = firstn (List.length ps) (l ++ t :: Y)).
Proof.
  induction ps as [|p ps IH]; intros Hp l.
  - split; [destruct l; reflexivity|reflexivity].
  - assert (Hp' : forall p', In p' ps -> p' t = false)
      by (intros p' H; apply Hp; right; exact H).
    destruct l as [|c l]; cbn [app starts_with_classes List.length firstn].
    + rewrite (Hp p (or_introl eq_refl)). split; [reflexivity|discriminate].
    + destruct (IH Hp' l) as [E1 E2]. rewrite E1. split; [reflexivity|].
      intros H. apply andb_true_iff in H as [_ H]. rewrite <- E1 in H.
      rewrite (E2 H). reflexivity.
Qed.

(** The occurrence lines of a text that ends where a line ends, followed
    by more text. *)
Lemma occ_lines_app (pre Y : jsstring) :
  forall bol,
    bol_after true pre = true ->
    occ_lines bol (pre ++ Y)
    = occ_lines bol pre ++ occ_lines (bol_after bol pre) Y.
Proof.
  induction pre as [|c pre IH]; intros bol Hb.
  - cbn [app bol_after rev occ_lines starts_with_classes occ_classes].
    rewrite andb_false_r. reflexivity.
  - destruct (exists_last (l := c :: pre)) as (l & t & El); [discriminate|].
    assert (Ht : is_line_terminator t = true).
    { unfold bol_after in Hb. rewrite El, rev_app_distr in Hb. exact Hb. }
    assert (Hnext : bol_after bol (c :: pre)
                    = bol_after (is_line_terminator c) pre).
    { unfold bol_after. cbn [rev]. destruct (rev pre); reflexivity. }
    assert (Hpre : bol_after true pre = true).
    { destruct pre as [|d pre]; [reflexivity|].
      unfold bol_after in *. cbn [rev] in *.
      destruct (rev pre ++ [d]) eqn:E; [destruct (rev pre); discriminate|].
      exact Hb. }
    cbn [app]. rewrite !occ_lines_cons, IH, Hnext, <- app_assoc by exact Hpre.
    f_equal.
    change (c :: pre ++ Y) with ((c :: pre) ++ Y).
    rewrite El, <- app_assoc. cbn [app].
    destruct (swc_local occ_classes t Y [] (occ_classes_plain t Ht) l)
      as [E1 E2].
    rewrite E1. destruct bol; [|reflexivity]. cbn [andb].
    destruct (starts_with_classes occ_classes (l ++ [t])) eqn:Es;
      [|reflexivity].
    change (List.length occ_classes) with 26%nat in E2.
    rewrite (E2 E1). reflexivity.
Qed.

(** A line that does not start with a hyphen is no occurrence line. *)
Lemma occ_lines_other_line (c : N) (L post : jsstring) :
  c <> 45%N -> Forall (fun x => not_terminator x = true) (c :: L) ->
  forall bol, occ_lines bol ((c :: L) ++ post) = occ_lines false post.
Proof.
  intros Hc Hf bol. inversion Hf as [|? ? Hc' HL]. subst.
  cbn [app]. rewrite occ_lines_cons.
  assert (E : starts_with_classes occ_classes (c :: L ++ post) = false).
  { cbn [starts_with_classes occ_classes app].
    rewrite (proj2 (N.eqb_neq 45 c)) by congruence. reflexivity. }
  rewrite E, andb_false_r. cbn [app].
  unfold not_terminator in Hc'. apply negb_true_iff in Hc'. rewrite Hc'.
  apply occ_lines_plain. exact HL.
Qed.

Lemma at_bol_after (pre X : list N) :
  at_bol fl_m {| before := rev pre ++ []; after := X |} = true ->
  bol_after true pre = true.
Proof.
  unfold at_bol, bol_after. cbn [before multiline fl_m].
  rewrite app_nil_r. destruct (rev pre); [reflexivity|].
  cbn [andb]. intros H. exact H.
Qed.

Lemma stats_starts_other (x : jsstring) :
  Forall (fun c => not_terminator c = true) x ->
  exists c L, stats_prefix ++ x = c :: L /\ c <> 45%N /\
              Forall (fun c => not_terminator c = true) (c :: L).
Proof.
  intros Hx. exists 42%N, (skipn 1 stats_prefix ++ x).
  split; [reflexivity|]. split; [discriminate|].
  change (42%N :: skipn 1 stats_prefix ++ x) with (stats_prefix ++ x).
  apply Forall_app. split; [exact stats_prefix_plain|exact Hx].
Qed.

(** The statistics line is no occurrence and hides none: the occurrences
    read from a body are the same before and after [appendStatsLine], so
    the number of occurrences an upsert reports is the number read from
    the body it stores. *)
Theorem appendStatsLine_keeps_occurrences (b : jsstring)
    (stats : windowStats) :
  parseOccurrenceTimestamps (appendStatsLine b stats)
  = parseOccurrenceTimestamps b.
Proof.
  rewrite !parse_occ_lines. f_equal.
  destruct (stats_line_shape stats) as (x' & ES & _ & Hx' & _).
  destruct (stats_starts_other x' Hx') as (c' & L' & EL' & Hc' & HL').
  destruct (search fl_m re_stats [] b) as [[st e]|] eqn:Es.
  - rewrite (appendStatsLine_replaces b stats st e Es).
    destruct (search_split _ _ _ _ _ _ Es) as (pre & Eb & Ebef & Em & _).
    destruct st as [sb sa]. cbn [before after] in *. subst sb.
    apply match_at_stats_some in Em as (Hb & x & post & _ & Hx & Ea & _ & ->).
    destruct (stats_starts_other x Hx) as (c & L & EL & Hc & HL).
    pose proof (at_bol_after pre sa Hb) as Hpre.
    cbn [after]. rewrite app_nil_r, rev_involutive.
    rewrite Eb, Ea, (app_assoc stats_prefix x post), EL, ES, EL'.
    rewrite (occ_lines_app pre ((c' :: L') ++ post) true Hpre),
      (occ_lines_app pre ((c :: L) ++ post) true Hpre).
    rewrite (occ_lines_other_line c' L' post Hc' HL'),
      (occ_lines_other_line c L post Hc HL). reflexivity.
  - destruct (search fl_m re_heading [] b) as [[st e]|] eqn:Eh.
    + rewrite (appendStatsLine_inserts b stats st e Es Eh).
      destruct (search_split _ _ _ _ _ _ Eh) as (pre & Eb & Ebef & Em & _).
      destruct st as [sb sa]. cbn [before after] in *. subst sb.
      rewrite match_at_heading in Em.
      destruct (at_bol _ _) eqn:Hb; [|discriminate].
      destruct (startsWith sa heading) eqn:Esw; [|discriminate].
      assert (Ee : after e = skipn 14 sa) by (injection Em as <-; reflexivity).
      pose proof (at_bol_after pre sa Hb) as Hpre.
      pose proof (startsWith_split heading sa Esw) as Esa.
      change (List.length heading) with 14%nat in Esa.
      rewrite Ee. remember (skipn 14 sa) as tail eqn:Etail. clear Etail.
      rewrite app_nil_r, rev_involutive, Eb, Esa, ES, EL'.
      rewrite (occ_lines_app pre _ true Hpre).
      rewrite (occ_lines_app pre (heading ++ tail) true Hpre).
      f_equal. rewrite Hpre.
      change ((c' :: L') ++ nl ++ nl ++ heading ++ tail)
        with ((c' :: L') ++ (nl ++ nl ++ heading ++ tail)).
      rewrite (occ_lines_other_line c' L' _ Hc' HL'). reflexivity.
    + rewrite (appendStatsLine_keeps b stats Es Eh). reflexivity.
Qed.

End OccurrenceFacts.

(** ** Days past the end of a month *)

Section DateExamples.
Import Text Dates Store Api PatternTracker PatternExport Service DateSamples.

(** A day up to 31 is read in every month and counts on into the next
    one; a day 00 or 32 and a month 13 give an invalid date. *)
Lemma parse_iso_day_past_month :
  parse_iso (u "2026-02-30T00:00:00.000Z")
  = parse_iso (u "2026-03-02T00:00:00.000Z") /\
  parse_iso (u "2026-11-31T00:00:00.000Z")
  = parse_iso (u "2026-12-01T00:00:00.000Z") /\
  parse_iso (u "2024-02-30T00:00:00.000Z")
  = parse_iso (u "2024-03-01T00:00:00.000Z") /\
  parse_iso (u "2026-11-31T00:00:00.000Z") <> None /\
  parse_iso (u "2026-11-32T00:00:00.000Z") = None /\
  parse_iso (u "2026-11-00T00:00:00.000Z") = None /\
  parse_iso (u "2026-13-01T00:00:00.000Z") = None.
Proof. repeat split; try (vm_compute; reflexivity). vm_compute. discriminate. Qed.

(** The sweep reads that line as the first of December, which is not
    before the cutoff: the record is left open and nothing changes. *)
Lemma sweep_reads_day_31 :
  autoCloseQuietIssues Scenarios.service Scenarios.tracking_label 7
    november_31_world
  = Ok [] november_31_world.
Proof. vm_compute. reflexivity. Qed.

(** An upsert counts that line within both windows. *)
Lemma upsert_counts_day_31 :
  exists res w',
    Scenarios.upsert_a "2026-11-02T11:00:00.000Z" 0 november_31_world
    = Ok res w' /\
    totalOccurrences res = 2 /\
    includes (Scenarios.issue_body 1 w')
      (u "**Last 7d:** 2 | **Last 14d:** 2") = true.
Proof.
  do 2 eexists. split; [vm_compute; reflexivity|].
  split; vm_compute; reflexivity.
Qed.

(** The export of the record resolves, with that day as the last one
    seen. *)
Lemma export_reads_day_31 :
  exists p,
    exportPatternsAsJson (Resolved (issues november_31_world))
      (fun n => match find_issue n (issues november_31_world) with
                | Some i => Resolved i
                | None => Rejected not_found
                end)
    = Resolved [p] /\
    p_occurrences p = 1 /\
    p_lastSeen p = Some (u "2026-12-01T00:00:00.000Z").
Proof.
  eexists. split; [vm_compute; reflexivity|]. split; reflexivity.
Qed.

End DateExamples.
